(** * Dapr workflow visualizer: the workflow-structure extractors and the
      graph assembler

    A shallow embedding of [src/parsers/pythonParser.ts],
    [src/parsers/csharpParser.ts], [src/parsers/javascriptParser.ts] and
    [src/parsers/baseParser.ts] / [src/parsers/index.ts].

    JavaScript strings are modelled as [string]; a character is one code
    unit below 256.  Index-based scanning works on the list of characters
    of the text.  Regular-expression searches whose pattern is fixed and
    small are written out by hand; the others are fields of an engine
    record handed to the extractor (the engine is the JavaScript runtime,
    not code of this repository). *)

From Stdlib Require Import String Ascii List Arith Lia ZArith Bool.
From Stdlib Require Import Numbers.DecimalString Numbers.DecimalNat.
From Stdlib Require Import Sorting.Sorted.
Import ListNotations.

Open Scope string_scope.
Open Scope list_scope.
Open Scope nat_scope.

(** ** JavaScript string primitives *)

Module Js.

Definition chars (s : string) : list ascii := list_ascii_of_string s.
Definition str (l : list ascii) : string := string_of_list_ascii l.

Definition dquote : ascii := ascii_of_nat 34.
Definition squote : ascii := "'"%char.
Definition backslash : ascii := "\"%char.

(** [s[i]]: [None] stands for [undefined]. *)
Definition at_ (t : list ascii) (i : nat) : option ascii := nth_error t i.

(** [s[i - 1]] for a number [i]; [s[-1]] is [undefined]. *)
Definition before (t : list ascii) (i : nat) : option ascii :=
  match i with
  | 0 => None
  | S j => nth_error t j
  end.

Definition isChar (o : option ascii) (c : ascii) : bool :=
  match o with
  | Some d => Ascii.eqb d c
  | None => false
  end.

(** [s.substring(a, b)] on non-negative integers: both ends are clamped
    to the length and swapped when out of order. *)
Definition substring (t : list ascii) (a b : nat) : list ascii :=
  let a' := Nat.min a (List.length t) in
  let b' := Nat.min b (List.length t) in
  let lo := Nat.min a' b' in
  let hi := Nat.max a' b' in
  firstn (hi - lo) (skipn lo t).

(** [s.substring(a)] *)
Definition substringFrom (t : list ascii) (a : nat) : list ascii :=
  skipn a t.

Fixpoint list_eqb (x y : list ascii) : bool :=
  match x, y with
  | [], [] => true
  | a :: x', b :: y' => Ascii.eqb a b && list_eqb x' y'
  | _, _ => false
  end.

Fixpoint starts (p t : list ascii) : bool :=
  match p, t with
  | [], _ => true
  | a :: p', b :: t' => Ascii.eqb a b && starts p' t'
  | _ :: _, [] => false
  end.

(** [s.startsWith(p)] and [s.endsWith(p)] *)
Definition startsWith (s p : string) : bool := starts (chars p) (chars s).
Definition endsWith (s p : string) : bool :=
  starts (rev (chars p)) (rev (chars s)).

(** Search for the first position [>= from] at which [p] occurs:
    [s.indexOf(p, from)], with [None] for [-1]. *)
Fixpoint indexOfAux (p t : list ascii) (i : nat) : option nat :=
  match t with
  | [] => if starts p [] then Some i else None
  | _ :: t' => if starts p t then Some i else indexOfAux p t' (S i)
  end.

Definition indexOf (t p : list ascii) (from : nat) : option nat :=
  if List.length t <? from then
    (if starts p [] then Some (List.length t) else None)
  else indexOfAux p (skipn from t) from.

(** The characters matched by [\s], which are also the ones [trim]
    removes: tab, line feed, vertical tab, form feed, carriage return,
    space and the no-break space. *)
Definition isSpace (c : ascii) : bool :=
  let n := nat_of_ascii c in
  ((9 <=? n) && (n <=? 13)) || (n =? 32) || (n =? 160).

(** The characters matched by [\w]. *)
Definition isWord (c : ascii) : bool :=
  let n := nat_of_ascii c in
  ((48 <=? n) && (n <=? 57)) || ((65 <=? n) && (n <=? 90)) ||
  ((97 <=? n) && (n <=? 122)) || (n =? 95).

Fixpoint dropSpaces (t : list ascii) : list ascii :=
  match t with
  | c :: t' => if isSpace c then dropSpaces t' else t
  | [] => []
  end.

Definition trimChars (t : list ascii) : list ascii :=
  rev (dropSpaces (rev (dropSpaces t))).

Definition trim (s : string) : string := str (trimChars (chars s)).

(** Decimal rendering of a number in a template literal. *)
Definition ofNat (n : nat) : string := NilEmpty.string_of_uint (Nat.to_uint n).

End Js.

(** ** The balanced-delimiter scanner of the Python extractor *)

Module Scanner.

Import Js.

(** The loop variables of [findMatchingBracket]. *)
Record scan : Type := mkScan {
  pos : nat;
  depth : nat;
  inString : option (list ascii)
}.

Definition closeOf (openChar : option ascii) : ascii :=
  if isChar openChar "{" then "}"%char
  else if isChar openChar "[" then "]"%char
  else ")"%char.

Definition isQuote (c : ascii) : bool :=
  Ascii.eqb c dquote || Ascii.eqb c squote.

Definition tripleD : list ascii := [dquote; dquote; dquote].
Definition tripleS : list ascii := [squote; squote; squote].

(** [sourceCode.substring(i, i + 3)] *)
Definition window (t : list ascii) (i : nat) : list ascii :=
  substring t i (i + 3).

(** The tail of an iteration: the bracket test, then [i++]. *)
Definition advance (openChar : option ascii) (closeChar char : ascii)
    (i d : nat) (ins : option (list ascii)) : scan :=
  match ins with
  | None =>
      if isChar openChar char then mkScan (S i) (S d) None
      else if Ascii.eqb char closeChar then mkScan (S i) (Nat.pred d) None
      else mkScan (S i) d None
  | Some q => mkScan (S i) d (Some q)
  end.

(** One iteration of the [while] loop of [findMatchingBracket]. *)
Definition step (t : list ascii) (openChar : option ascii) (closeChar : ascii)
    (st : scan) : scan :=
  let i := pos st in
  match at_ t i with
  | None => st
  | Some char =>
      if isQuote char && negb (isChar (before t i) backslash) then
        match inString st with
        | None =>
            if list_eqb (window t i) tripleD || list_eqb (window t i) tripleS
            then mkScan (i + 3) (depth st) (Some (window t i))
            else advance openChar closeChar char i (depth st) (Some [char])
        | Some q =>
            if list_eqb q [char] ||
               ((List.length q =? 3) && list_eqb (window t i) q)
            then mkScan (if List.length q =? 3 then i + 3 else S i) (depth st) None
            else advance openChar closeChar char i (depth st) (Some q)
        end
      else advance openChar closeChar char i (depth st) (inString st)
  end.

(** [i < sourceCode.length && depth > 0] *)
Definition running (t : list ascii) (st : scan) : bool :=
  (pos st <? List.length t) && (0 <? depth st).

Fixpoint loop (fuel : nat) (t : list ascii) (openChar : option ascii)
    (closeChar : ascii) (st : scan) : scan :=
  match fuel with
  | 0 => st
  | S f =>
      if running t st then loop f t openChar closeChar (step t openChar closeChar st)
      else st
  end.

(** The state in which the loop of [findMatchingBracket] stops.  Every
    iteration moves [i] forward, so [length] iterations are enough
    ([scanEnd_stopped] below). *)
Definition scanEnd (sourceCode : string) (openIndex : nat) : scan :=
  let t := chars sourceCode in
  let openChar := at_ t openIndex in
  loop (List.length t) t openChar (closeOf openChar) (mkScan (openIndex + 1) 1 None).

(** [findMatchingBracket(sourceCode, openIndex)]: [return i - 1]. *)
Definition findMatchingBracket (sourceCode : string) (openIndex : nat) : Z :=
  (Z.of_nat (pos (scanEnd sourceCode openIndex)) - 1)%Z.

(** [const inputMatch = text.match(/,\s*input\s*=\s*/)] tried at the head
    of [t]: the length of the match.  Every [\s*] is followed by a
    character that is not a space, so the greedy reading is the only one. *)
Definition inputMarkerAt (t : list ascii) : option nat :=
  match t with
  | c :: r =>
      if Ascii.eqb c ","%char then
        let r1 := dropSpaces r in
        if starts (chars "input") r1 then
          match dropSpaces (skipn 5 r1) with
          | e :: r2 =>
              if Ascii.eqb e "="%char
              then Some (List.length t - List.length (dropSpaces r2))
              else None
          | [] => None
          end
        else None
      else None
  | [] => None
  end.

(** The leftmost match: its [index] and the length of [inputMatch[0]]. *)
Fixpoint inputMarker (t : list ascii) (i : nat) : option (nat * nat) :=
  match t with
  | [] => None
  | _ :: t' =>
      match inputMarkerAt t with
      | Some n => Some (i, n)
      | None => inputMarker t' (S i)
      end
  end.

Definition isOpenBracket (o : option ascii) : bool :=
  isChar o "{" || isChar o "[" || isChar o "(".

(** [inputStart] of [extractInputExpression]: the position right after
    the [input=] marker of the call found from [matchIndex] on. *)
Definition inputStartOf (sourceCode : string) (matchIndex : nat) : option nat :=
  let t := chars sourceCode in
  match indexOf t (chars "call_activity") matchIndex with
  | None => None
  | Some callStart =>
      match indexOf t (chars "(") callStart with
      | None => None
      | Some parenStart =>
          match inputMarker (substringFrom t parenStart) 0 with
          | None => None
          | Some (index, len) => Some (parenStart + index + len)
          end
      end
  end.

(** [extractInputExpression(sourceCode, matchIndex)] of the Python
    extractor; [None] is [undefined]. *)
Definition extractInputExpression (sourceCode : string) (matchIndex : nat)
    : option string :=
  let t := chars sourceCode in
  match inputStartOf sourceCode matchIndex with
  | None => None
  | Some inputStart =>
      if isOpenBracket (at_ t inputStart) then
        let endIndex := findMatchingBracket sourceCode inputStart in
        Some (trim (str (substring t inputStart (Z.to_nat (endIndex + 1)))))
      else
        match indexOf t (chars ")") inputStart with
        | None => None
        | Some endIndex => Some (trim (str (substring t inputStart endIndex)))
        end
  end.

(** *** What a correctly nested text is

    The text between an opening bracket and its closer is a sequence of
    ordinary characters, string literals and nested bracket pairs of the
    same kind.  A quote inside a literal does not end it when it is
    escaped; [esc body j] says whether position [j] of the body is. *)

(** A quote is escaped when the character right before it is a
    backslash: the test the scanner makes. *)
Definition escapedByPrevious (body : list ascii) (j : nat) : bool :=
  isChar (before body j) backslash.

Fixpoint backslashRun (r : list ascii) : nat :=
  match r with
  | c :: r' => if Ascii.eqb c backslash then S (backslashRun r') else 0
  | [] => 0
  end.

(** A quote is escaped when an odd number of backslashes precedes it: the
    reading of the host languages, in which a backslash escapes the
    character after it, another backslash included. *)
Definition escapedByRun (body : list ascii) (j : nat) : bool :=
  Nat.odd (backslashRun (rev (firstn j body))).

Section Grammar.

Variable esc : list ascii -> nat -> bool.

Inductive Literal : list ascii -> Prop :=
| Lit_single (q : ascii) (body : list ascii) :
    isQuote q = true ->
    (forall j, nth_error body j = Some q -> esc body j = true) ->
    esc (body ++ [q]) (List.length body) = false ->
    Literal (q :: body ++ [q])
| Lit_triple (q : ascii) (body : list ascii) :
    isQuote q = true ->
    (forall j, j < List.length body ->
       firstn 3 (skipn j (body ++ [q; q])) = [q; q; q] -> esc body j = true) ->
    esc (body ++ [q]) (List.length body) = false ->
    Literal (q :: q :: q :: body ++ [q; q; q]).

Variables o c : ascii.

(** [Balanced seg]: [seg] is correctly nested for the bracket pair
    [o]/[c].  A backslash outside a literal does not stand right before a
    quote, and an empty one-character-quoted literal is not followed by
    the same quote (three quotes in a row open a triple-quoted one). *)
Inductive Balanced : list ascii -> Prop :=
| Bal_nil : Balanced []
| Bal_char (x : ascii) (r : list ascii) :
    isQuote x = false -> x <> o -> x <> c ->
    (x = backslash -> forall y, hd_error r = Some y -> isQuote y = false) ->
    Balanced r -> Balanced (x :: r)
| Bal_lit (l r : list ascii) :
    Literal l ->
    (forall q, l = [q; q] -> hd_error r <> Some q) ->
    Balanced r -> Balanced (l ++ r)
| Bal_nest (b r : list ascii) :
    Balanced b -> Balanced r -> Balanced (o :: b ++ c :: r).

End Grammar.

(** The closer at [closeIndex] matches the opening bracket at [openIndex]
    of [text], with literals read under [esc]. *)
Definition MatchingCloser (esc : list ascii -> nat -> bool) (text : string)
    (openIndex closeIndex : nat) : Prop :=
  exists pre o body post,
    chars text = pre ++ o :: body ++ closeOf (Some o) :: post /\
    isOpenBracket (Some o) = true /\
    Balanced esc o (closeOf (Some o)) body /\
    openIndex = List.length pre /\
    closeIndex = List.length pre + 1 + List.length body.

(** Runs of the loop: [Steps t o c st st'] when the loop, started in
    [st], reaches [st'] with its test true at every state before [st']. *)
Inductive Steps (t : list ascii) (o : option ascii) (c : ascii)
    : scan -> scan -> Prop :=
| Steps_refl (st : scan) : Steps t o c st st
| Steps_next (st st' : scan) :
    running t st = true ->
    Steps t o c (step t o c st) st' ->
    Steps t o c st st'.

(** The same, with the nesting depth equal to [d] in every state of the
    run. *)
Inductive StepsAt (t : list ascii) (o : option ascii) (c : ascii) (d : nat)
    : scan -> scan -> Prop :=
| StepsAt_refl (st : scan) : depth st = d -> StepsAt t o c d st st
| StepsAt_next (st st' : scan) :
    depth st = d ->
    running t st = true ->
    StepsAt t o c d (step t o c st) st' ->
    StepsAt t o c d st st'.

End Scanner.

(** ** The workflow data model ([types/workflow]) *)

Module Model.

Import Js.

Inductive NodeType : Type :=
| TStart | TEnd | TActivity | TSubOrchestration | TTimer | TEvent
| TDecision | TRetry | TParallel.

Inductive DataSourceType : Type :=
| workflow_input | activity_output | event_data | literal | constructed.

Record DataSource : Type := mkSource {
  sourceType : DataSourceType;
  sourcePath : string;
  sourceActivityId : option string;
  targetProperty : option string
}.

(** The [metadata] object of a node, with the keys the extractors write. *)
Record NodeMetadata : Type := mkNodeMetadata {
  lineNumber : option nat;
  mdDataSources : option (list DataSource);
  isParallelTask : option bool;
  taskVariable : option string;
  fullCondition : option string;
  tasks : option (list string);
  outputs : option (list string);
  taskNodeIds : option (list string);
  returnType : option string
}.

Record WorkflowNode : Type := mkNode {
  nodeId : string;
  nodeType : NodeType;
  nodeName : string;
  nodeLabel : string;
  nodeMetadata : option NodeMetadata;
  nodeOutput : option string;
  nodeInput : option string;
  nodeDataSources : option (list DataSource)
}.

Inductive EdgeType : Type :=
| EDefault | EParallel
| EDataWorkflowInput | EDataActivityOutput | EDataEvent.

Record WorkflowEdge : Type := mkEdge {
  edgeId : string;
  edgeSource : string;
  edgeTarget : string;
  edgeType : EdgeType;
  edgeDataFlow : option string;
  edgeDataSourceType : option DataSourceType;
  edgeLabel : option string
}.

(** A JavaScript [Map<string, string>]: entries in insertion order;
    [set] on a key that is present keeps its place. *)
Definition JsMap : Type := list (string * string).

Fixpoint mapGet (m : JsMap) (k : string) : option string :=
  match m with
  | [] => None
  | (k', v) :: m' => if String.eqb k' k then Some v else mapGet m' k
  end.

Fixpoint mapSet (m : JsMap) (k v : string) : JsMap :=
  match m with
  | [] => [(k, v)]
  | (k', v') :: m' =>
      if String.eqb k' k then (k, v) :: m' else (k', v') :: mapSet m' k v
  end.

(** Truthiness of a possibly undefined string. *)
Definition truthy (o : option string) : bool :=
  match o with
  | Some s => negb (String.eqb s "")
  | None => false
  end.

(** [x || undefined] *)
Definition orUndefined (o : option string) : option string :=
  if truthy o then o else None.

Definition memb (x : string) (l : list string) : bool :=
  existsb (String.eqb x) l.

Record WorkflowMetadata : Type := mkMetadata {
  mInputProperties : option (list string);
  mDescription : option string;
  mInputType : option string;
  mOutputType : option string;
  mOutputFields : option (list string);
  mReturnExpression : option string;
  mDebug : option (JsMap * JsMap * nat * nat)
}.

Definition emptyMetadata : WorkflowMetadata :=
  mkMetadata None None None None None None None.

Record ActivityDataFlow : Type := mkActivityDataFlow {
  adNodeId : string;
  adName : string;
  adType : NodeType;
  adInputs : list DataSource;
  adOutput : option string;
  adOutputType : option string;
  adLineNumber : option nat
}.

Record DataFlowMetadata : Type := mkDataFlow {
  dfWorkflow : string;
  dfInputType : option string;
  dfProperties : list string;
  dfParameterName : string;
  dfActivities : list ActivityDataFlow;
  dfOutputVariableMap : JsMap
}.

Inductive SupportedLanguage : Type := csharp | python | javascript | typescript.

Record WorkflowDefinition : Type := mkWorkflow {
  wId : string;
  wName : string;
  wLanguage : SupportedLanguage;
  wFilePath : string;
  wNodes : list WorkflowNode;
  wEdges : list WorkflowEdge;
  wMetadata : option WorkflowMetadata;
  wDataFlow : option DataFlowMetadata;
  wLineOffset : nat
}.

Record ParseError : Type := mkParseError { message : string }.

Record ParseResult : Type := mkResult {
  success : bool;
  workflow : option WorkflowDefinition;
  errors : option (list ParseError)
}.

(** *** [BaseWorkflowParser] *)

(** [createNode(id, type, name, label, metadata)]: [label: label || name] *)
Definition createNode (id : string) (ty : NodeType) (name : string)
    (label : option string) (metadata : option NodeMetadata) : WorkflowNode :=
  mkNode id ty name (if truthy label then
                       match label with Some l => l | None => name end
                     else name)
         metadata None None None.

Definition startNode : WorkflowNode :=
  createNode "start" TStart "Start" (Some "Start") None.
Definition endNode : WorkflowNode :=
  createNode "end" TEnd "End" (Some "End") None.

(** [addStartEndNodes]: [unshift(startNode)], [push(endNode)] *)
Definition addStartEndNodes (nodes : list WorkflowNode) : list WorkflowNode :=
  startNode :: nodes ++ [endNode].

(** [getLineNumber]: [sourceCode.substring(0, index).split('\n').length] *)
Definition newline : ascii := ascii_of_nat 10.

Definition countNewlines (t : list ascii) : nat :=
  List.length (filter (Ascii.eqb newline) t).

Definition getLineNumber (sourceCode : string) (index : nat) : nat :=
  S (countNewlines (substring (chars sourceCode) 0 index)).

(** *** [getShortPath] *)

(** The part after the last [sep] of [t], and whether [sep] occurs. *)
Fixpoint lastPart (sep : ascii) (t acc : list ascii) (seen : bool)
    : list ascii * bool :=
  match t with
  | [] => (rev acc, seen)
  | c :: t' =>
      if Ascii.eqb c sep then lastPart sep t' [] true
      else lastPart sep t' (c :: acc) seen
  end.

Definition isQuoteChar (c : ascii) : bool :=
  Ascii.eqb c dquote || Ascii.eqb c squote.

Fixpoint takeWord (t : list ascii) : list ascii :=
  match t with
  | c :: t' => if isWord c then c :: takeWord t' else []
  | [] => []
  end.

Fixpoint dropWord (t : list ascii) : list ascii :=
  match t with
  | c :: t' => if isWord c then dropWord t' else t
  | [] => []
  end.

Definition dropOptQuote (t : list ascii) : list ascii :=
  match t with
  | c :: t' => if isQuoteChar c then t' else t
  | [] => []
  end.

(** The pattern of a trailing bracket access (an opening bracket, an
    optional quote, a word, an optional quote, the closing bracket, the
    end of the text), tried at the head of [t]: group 1. *)
Definition bracketTailAt (t : list ascii) : option (list ascii) :=
  match t with
  | c :: t1 =>
      if Ascii.eqb c "["%char then
        let t2 := dropOptQuote t1 in
        match takeWord t2 with
        | [] => None
        | w =>
            match dropOptQuote (dropWord t2) with
            | [e] => if Ascii.eqb e "]"%char then Some w else None
            | _ => None
            end
        end
      else None
  | [] => None
  end.

Fixpoint bracketTail (t : list ascii) : option (list ascii) :=
  match t with
  | [] => None
  | _ :: t' =>
      match bracketTailAt t with
      | Some w => Some w
      | None => bracketTail t'
      end
  end.

Definition getShortPath (path : string) : string :=
  let t := chars path in
  match lastPart "."%char t [] false with
  | (part, true) => str part
  | (_, false) =>
      match bracketTail t with
      | Some w => str w
      | None =>
          if 15 <? List.length t
          then str (substring t 0 12) ++ "..."
          else path
      end
  end.

End Model.

(** ** The graph assembler

    [buildControlFlowEdges] and [buildEdgesWithDataFlow] are the same
    text in the three extractors (the Python one also logs a warning). *)

Module Assembler.

Import Js Model.

Definition nodeTypeEqb (a b : NodeType) : bool :=
  match a, b with
  | TStart, TStart | TEnd, TEnd | TActivity, TActivity
  | TSubOrchestration, TSubOrchestration | TTimer, TTimer
  | TEvent, TEvent | TDecision, TDecision | TRetry, TRetry
  | TParallel, TParallel => true
  | _, _ => false
  end.

(** [(a.metadata?.lineNumber as number) || 0] *)
Definition lineOf (n : WorkflowNode) : nat :=
  match nodeMetadata n with
  | Some md => match lineNumber md with Some l => l | None => 0 end
  | None => 0
  end.

(** [[...workflow.nodes].sort((a, b) => lineA - lineB)].  The sort of
    the runtime is stable; a stable sort has one possible result, which
    insertion from the right computes. *)
Fixpoint insertByLine (x : WorkflowNode) (l : list WorkflowNode)
    : list WorkflowNode :=
  match l with
  | [] => [x]
  | y :: l' =>
      if lineOf x <=? lineOf y then x :: l else y :: insertByLine x l'
  end.

Definition sortByLine (l : list WorkflowNode) : list WorkflowNode :=
  fold_right insertByLine [] l.

(** [node.metadata?.isParallelTask] *)
Definition flagged (n : WorkflowNode) : bool :=
  match nodeMetadata n with
  | Some md => match isParallelTask md with Some b => b | None => false end
  | None => false
  end.

(** [node.type === 'parallel' && node.id.startsWith('parallel-join')] *)
Definition isJoin (n : WorkflowNode) : bool :=
  nodeTypeEqb (nodeType n) TParallel && startsWith (nodeId n) "parallel-join".

Definition parallelTaskNodeIds (sortedNodes : list WorkflowNode) : list string :=
  map nodeId (filter flagged sortedNodes).

Definition joinNodeIds (sortedNodes : list WorkflowNode) : list string :=
  map nodeId (filter isJoin sortedNodes).

Definition controlEdge (s t : WorkflowNode) (ty : EdgeType) : WorkflowEdge :=
  mkEdge (nodeId s ++ "-" ++ nodeId t) (nodeId s) (nodeId t) ty None None None.

(** The variables of the main loop of [buildControlFlowEdges]. *)
Record Walk : Type := mkWalk {
  walkEdges : list WorkflowEdge;
  lastSequentialNode : option WorkflowNode;
  processedParallelGroups : list string
}.

(** The edge of a sequential node: pushed when
    [lastSequentialNode && lastSequentialNode.id !== node.id]. *)
Definition sequentialEdge (last : option WorkflowNode) (node : WorkflowNode)
    : list WorkflowEdge :=
  match last with
  | Some l =>
      if String.eqb (nodeId l) (nodeId node) then []
      else [controlEdge l node EDefault]
  | None => []
  end.

(** The nodes [pNode] with [parallelGroupMap.get(pNode.id) === joinNodeId]. *)
Definition inGroup (parallelGroupMap : JsMap) (joinNodeId : string)
    (pNode : WorkflowNode) : bool :=
  match mapGet parallelGroupMap (nodeId pNode) with
  | Some j => String.eqb j joinNodeId
  | None => false
  end.

Definition groupOf (parallelGroupMap : JsMap) (sortedNodes : list WorkflowNode)
    (joinNodeId : string) : list WorkflowNode :=
  filter (inGroup parallelGroupMap joinNodeId) sortedNodes.

Definition fanOut (last : option WorkflowNode) (group : list WorkflowNode)
    : list WorkflowEdge :=
  match last with
  | Some l => map (fun pNode => controlEdge l pNode EParallel) group
  | None => []
  end.

Definition fanIn (group : list WorkflowNode) (joinNode : WorkflowNode)
    : list WorkflowEdge :=
  map (fun pNode => controlEdge pNode joinNode EParallel) group.

Definition findById (sortedNodes : list WorkflowNode) (id : string)
    : option WorkflowNode :=
  find (fun n => String.eqb (nodeId n) id) sortedNodes.

(** One iteration of the main loop. *)
Definition visit (parallelGroupMap : JsMap) (sortedNodes : list WorkflowNode)
    (w : Walk) (node : WorkflowNode) : Walk :=
  if nodeTypeEqb (nodeType node) TStart then
    mkWalk (walkEdges w) (Some node) (processedParallelGroups w)
  else if nodeTypeEqb (nodeType node) TEnd then w
  else if memb (nodeId node) (parallelTaskNodeIds sortedNodes) then
    let joinNodeId := mapGet parallelGroupMap (nodeId node) in
    if negb (truthy joinNodeId) then
      mkWalk (walkEdges w ++ sequentialEdge (lastSequentialNode w) node)
             (Some node) (processedParallelGroups w)
    else
      match joinNodeId with
      | None => w
      | Some j =>
          if memb j (processedParallelGroups w) then w
          else
            let group := groupOf parallelGroupMap sortedNodes j in
            let out := fanOut (lastSequentialNode w) group in
            match findById sortedNodes j with
            | Some joinNode =>
                mkWalk (walkEdges w ++ out ++ fanIn group joinNode)
                       (Some joinNode) (j :: processedParallelGroups w)
            | None =>
                mkWalk (walkEdges w ++ out) (lastSequentialNode w)
                       (j :: processedParallelGroups w)
            end
      end
  else if memb (nodeId node) (joinNodeIds sortedNodes) then
    match lastSequentialNode w with
    | Some l =>
        if String.eqb (nodeId l) (nodeId node) then w
        else mkWalk (walkEdges w) (Some node) (processedParallelGroups w)
    | None => mkWalk (walkEdges w) (Some node) (processedParallelGroups w)
    end
  else
    mkWalk (walkEdges w ++ sequentialEdge (lastSequentialNode w) node)
           (Some node) (processedParallelGroups w).

Definition walk (parallelGroupMap : JsMap) (sortedNodes : list WorkflowNode)
    (w : Walk) (visited : list WorkflowNode) : Walk :=
  fold_left (visit parallelGroupMap sortedNodes) visited w.

(** The edge into the end node, after the loop. *)
Definition endEdge (sortedNodes : list WorkflowNode)
    (last : option WorkflowNode) : list WorkflowEdge :=
  match last, find (fun n => nodeTypeEqb (nodeType n) TEnd) sortedNodes with
  | Some l, Some e =>
      if String.eqb (nodeId l) (nodeId e) then [] else [controlEdge l e EDefault]
  | _, _ => []
  end.

(** [buildControlFlowEdges(workflow)]: the edges pushed to
    [workflow.edges]. *)
Definition buildControlFlowEdges (parallelGroupMap : JsMap)
    (nodes : list WorkflowNode) : list WorkflowEdge :=
  let sortedNodes := sortByLine nodes in
  let w := walk parallelGroupMap sortedNodes (mkWalk [] None []) sortedNodes in
  walkEdges w ++ endEdge sortedNodes (lastSequentialNode w).

(** [source.targetProperty || this.getShortPath(source.sourcePath)] *)
Definition dataLabel (source : DataSource) : string :=
  if truthy (targetProperty source) then
    match targetProperty source with Some p => p | None => "" end
  else getShortPath (sourcePath source).

(** The data-flow edge of one source of a node, if it gets one. *)
Definition dataFlowEdge (node : WorkflowNode) (source : DataSource)
    : list WorkflowEdge :=
  match sourceType source with
  | workflow_input =>
      [mkEdge ("df-start-" ++ nodeId node ++ "-" ++ sourcePath source)
              "start" (nodeId node) EDataWorkflowInput
              (Some (sourcePath source)) (Some workflow_input)
              (Some (dataLabel source))]
  | activity_output =>
      if truthy (sourceActivityId source) then
        match sourceActivityId source with
        | Some producer =>
            [mkEdge ("df-" ++ producer ++ "-" ++ nodeId node ++ "-" ++
                     sourcePath source)
                    producer (nodeId node) EDataActivityOutput
                    (Some (sourcePath source)) (Some activity_output)
                    (Some (dataLabel source))]
        | None => []
        end
      else []
  | event_data =>
      [mkEdge ("df-event-" ++ nodeId node) (nodeId node) (nodeId node)
              EDataEvent (Some (sourcePath source)) (Some event_data) None]
  | _ => []
  end.

Definition dataFlowEdges (nodes : list WorkflowNode) : list WorkflowEdge :=
  flat_map (fun node =>
              match nodeDataSources node with
              | Some sources => flat_map (dataFlowEdge node) sources
              | None => []
              end) nodes.

(** [buildEdgesWithDataFlow(workflow, sourceCode)] on a workflow whose
    edge list is still empty. *)
Definition buildEdgesWithDataFlow (parallelGroupMap : JsMap)
    (nodes : list WorkflowNode) : list WorkflowEdge :=
  buildControlFlowEdges parallelGroupMap nodes ++ dataFlowEdges nodes.

Definition isControl (e : WorkflowEdge) : bool :=
  match edgeType e with
  | EDefault | EParallel => true
  | _ => false
  end.

Definition isParallelEdge (e : WorkflowEdge) : bool :=
  match edgeType e with
  | EParallel => true
  | _ => false
  end.

End Assembler.

(** ** Effects: instance fields and exceptions

    The three extractor classes have the same five instance fields.  A
    [parse] call reads and writes them and may be cut short by an
    exception of the runtime. *)

Module Effects.

Import Js Model.

Record Inst : Type := mkInst {
  outputVariableMap : JsMap;
  workflowInputParam : string;
  inputProperties : list string;
  parallelTaskMap : JsMap;
  parallelGroupMap : JsMap
}.

(** The fields of a freshly constructed extractor. *)
Definition newInst : Inst := mkInst [] "input" [] [] [].

(** A thrown value: an [Error] with its message, or anything else. *)
Inductive Thrown : Type :=
| ThrownError (msg : string)
| ThrownOther.

Inductive Completion (A : Type) : Type :=
| Normal (a : A) (st : Inst)
| Abrupt (e : Thrown) (st : Inst).

Arguments Normal {A} a st.
Arguments Abrupt {A} e st.

Definition M (A : Type) : Type := Inst -> Completion A.

Definition ret {A : Type} (a : A) : M A := fun st => Normal a st.

Definition bind {A B : Type} (c : M A) (k : A -> M B) : M B :=
  fun st =>
    match c st with
    | Normal a st' => k a st'
    | Abrupt e st' => Abrupt e st'
    end.

(** A call into the runtime, which returns or throws. *)
Definition call {A : Type} (r : Thrown + A) : M A :=
  fun st =>
    match r with
    | inr a => Normal a st
    | inl e => Abrupt e st
    end.

Definition this : M Inst := fun st => Normal st st.
Definition assign (f : Inst -> Inst) : M unit := fun st => Normal tt (f st).

Declare Scope js_scope.
Delimit Scope js_scope with js.
Notation "x <- c ;; k" := (bind c (fun x => k))
  (at level 61, c at next level, right associativity) : js_scope.
Notation "c ;;; k" := (bind c (fun _ => k))
  (at level 61, right associativity) : js_scope.

Open Scope js_scope.

(** A [for]/[while] loop over the items an iterator yields, threading
    the loop-carried variables [acc]. *)
Fixpoint forEach {A B : Type} (items : list A) (acc : B)
    (body : B -> A -> M B) : M B :=
  match items with
  | [] => ret acc
  | x :: rest => acc' <- body acc x ;; forEach rest acc' body
  end.

Definition setOutputVariable (k v : string) : M unit :=
  assign (fun st => mkInst (mapSet (outputVariableMap st) k v)
                           (workflowInputParam st) (inputProperties st)
                           (parallelTaskMap st) (parallelGroupMap st)).

Definition setParallelTask (k v : string) : M unit :=
  assign (fun st => mkInst (outputVariableMap st)
                           (workflowInputParam st) (inputProperties st)
                           (mapSet (parallelTaskMap st) k v)
                           (parallelGroupMap st)).

Definition setParallelGroup (k v : string) : M unit :=
  assign (fun st => mkInst (outputVariableMap st)
                           (workflowInputParam st) (inputProperties st)
                           (parallelTaskMap st)
                           (mapSet (parallelGroupMap st) k v)).

Definition setWorkflowInputParam (p : string) : M unit :=
  assign (fun st => mkInst (outputVariableMap st) p (inputProperties st)
                           (parallelTaskMap st) (parallelGroupMap st)).

Definition pushInputProperty (p : string) : M unit :=
  assign (fun st => mkInst (outputVariableMap st) (workflowInputParam st)
                           (inputProperties st ++ [p])
                           (parallelTaskMap st) (parallelGroupMap st)).

(** [// Reset state]: the three maps are replaced by new ones. *)
Definition resetState : M unit :=
  assign (fun st => mkInst [] (workflowInputParam st) (inputProperties st)
                           [] []).

(** [try { ... return { success: true, workflow } } catch (error) { ... }]
    of the three [parse] methods. *)
Definition tryCatch (body : M WorkflowDefinition) : Inst -> ParseResult * Inst :=
  fun st =>
    match body st with
    | Normal w st' => (mkResult true (Some w) None, st')
    | Abrupt error st' =>
        (mkResult false None
           (Some [mkParseError
                    match error with
                    | ThrownError msg => msg
                    | ThrownOther => "Unknown parsing error"
                    end]),
         st')
    end.

End Effects.

(** ** The data-source classifier of the Python extractor *)

Module Classifier.

Import Js Model.

(** [expr === name || expr.startsWith(name + '.') ||
     expr.startsWith(name + '[')] *)
Definition rooted (expr name : string) : bool :=
  String.eqb expr name || startsWith expr (name ++ ".") ||
  startsWith expr (name ++ "[").

(** The test of the pattern for a variable reference: a word, then any
    number of accesses, each a dot and a word or a bracketed word with
    an optional quote on either side.  No alternative overlaps another,
    so there is one way to read a text. *)
Fixpoint accessChain (fuel : nat) (t : list ascii) : bool :=
  match fuel with
  | 0 => false
  | S f =>
      match t with
      | [] => true
      | c :: t1 =>
          if Ascii.eqb c "."%char then
            match takeWord t1 with
            | [] => false
            | _ => accessChain f (dropWord t1)
            end
          else if Ascii.eqb c "["%char then
            let t2 := dropOptQuote t1 in
            match takeWord t2 with
            | [] => false
            | _ =>
                match dropOptQuote (dropWord t2) with
                | e :: t3 =>
                    if Ascii.eqb e "]"%char then accessChain f t3 else false
                | [] => false
                end
            end
          else false
      end
  end.

Definition looksLikeReference (expr : string) : bool :=
  let t := chars expr in
  match takeWord t with
  | [] => false
  | _ => accessChain (S (List.length t)) (dropWord t)
  end.

Definition quoted (expr : string) : bool :=
  (startsWith expr (String dquote "") && endsWith expr (String dquote "")) ||
  (startsWith expr "'" && endsWith expr "'").

(** The loop over [this.outputVariableMap.entries()]: the first entry
    whose variable roots the expression. *)
Fixpoint producerOf (entries : JsMap) (expr : string)
    : option (string * string) :=
  match entries with
  | [] => None
  | (varName, activityId) :: rest =>
      if rooted expr varName then Some (varName, activityId)
      else producerOf rest expr
  end.

(** [classifyExpression(expr, targetProperty)] *)
Definition classifyExpression (inputParam : string) (outputVariableMap : JsMap)
    (expr : string) (targetProperty : option string) : DataSource :=
  if rooted expr inputParam then
    mkSource workflow_input expr None targetProperty
  else
    match producerOf outputVariableMap expr with
    | Some (_, activityId) =>
        mkSource activity_output expr (Some activityId) targetProperty
    | None =>
        if quoted expr then mkSource literal expr None targetProperty
        else if looksLikeReference expr then
          mkSource workflow_input expr None targetProperty
        else mkSource literal expr None targetProperty
    end.

(** [s.replace(q, '')] with [q] the global pattern of one quote
    character, single or double. *)
Definition removeQuotes (s : string) : string :=
  str (filter (fun c => negb (isQuoteChar c)) (chars s)).

(** [str.slice(a, b)] for non-negative [a] and [b]. *)
Definition slice (t : list ascii) (a b : nat) : list ascii :=
  firstn (Nat.min b (List.length t) - a) (skipn a t).

(** [parseKeyValue(str)] *)
Definition parseKeyValue (s : string) : option (string * string) :=
  let t := chars s in
  match indexOf t (chars ":") 0 with
  | None => None
  | Some colonIdx =>
      Some (removeQuotes (trim (str (slice t 0 colonIdx))),
            trim (str (skipn (colonIdx + 1) t)))
  end.

Definition opensBracket (c : ascii) : bool :=
  Ascii.eqb c "{" || Ascii.eqb c "[" || Ascii.eqb c "(".
Definition closesBracket (c : ascii) : bool :=
  Ascii.eqb c "}" || Ascii.eqb c "]" || Ascii.eqb c ")".

Definition pushEntry (entries : list (string * string)) (current : list ascii)
    : list (string * string) :=
  match parseKeyValue (trim (str current)) with
  | Some entry => entries ++ [entry]
  | None => entries
  end.

(** The loop of [parseDictEntries]: [depth], [current] (kept reversed)
    and the entries so far. *)
Fixpoint dictLoop (t : list ascii) (depth : Z) (current : list ascii)
    (entries : list (string * string)) : list (string * string) :=
  match t with
  | [] =>
      if String.eqb (trim (str (rev current))) "" then entries
      else pushEntry entries (rev current)
  | c :: t' =>
      let depth1 := if opensBracket c then (depth + 1)%Z else depth in
      let depth2 := if closesBracket c then (depth1 - 1)%Z else depth1 in
      if Ascii.eqb c ","%char && (depth2 =? 0)%Z
      then dictLoop t' depth2 [] (pushEntry entries (rev current))
      else dictLoop t' depth2 (c :: current) entries
  end.

Definition parseDictEntries (dictContent : string) : list (string * string) :=
  dictLoop (chars dictContent) 0%Z [] [].

Definition isType (a b : DataSourceType) : bool :=
  match a, b with
  | workflow_input, workflow_input | activity_output, activity_output
  | event_data, event_data | literal, literal
  | constructed, constructed => true
  | _, _ => false
  end.

(** [analyzeDataSource(inputExpr)] *)
Definition analyzeDataSource (inputParam : string) (outputVariableMap : JsMap)
    (inputExpr : option string) : list DataSource :=
  if negb (truthy inputExpr) then []
  else
    match inputExpr with
    | None => []
    | Some expr =>
        if startsWith expr "{" && endsWith expr "}" then
          let t := chars expr in
          let dictContent := str (slice t 1 (List.length t - 1)) in
          let sources :=
            map (fun entry =>
                   classifyExpression inputParam outputVariableMap
                                      (snd entry) (Some (fst entry)))
                (parseDictEntries dictContent) in
          let hasWorkflowInput :=
            existsb (fun s => isType (sourceType s) workflow_input) sources in
          let hasActivityOutput :=
            existsb (fun s => isType (sourceType s) activity_output) sources in
          if hasWorkflowInput && hasActivityOutput then
            map (fun s => mkSource (if 1 <? List.length sources
                                    then sourceType s else constructed)
                                   (sourcePath s) (sourceActivityId s)
                                   (targetProperty s))
                sources
          else sources
        else [classifyExpression inputParam outputVariableMap expr None]
    end.

End Classifier.

(** ** The Python extractor ([pythonParser.ts]) *)

Module Python.

Import Js Model Effects Classifier.

(** What one match of a step pattern yields: [match.index] and the
    capture groups the extractor reads ([None]: the group took no part). *)
Record TaskMatch : Type := mkTaskMatch {
  tmIndex : nat; tmTaskVar : string; tmActivity : string }.
Record AwaitedMatch : Type := mkAwaitedMatch {
  amIndex : nat; amOutput : option string; amActivity : string }.
Record ChildMatch : Type := mkChildMatch {
  cmIndex : nat; cmOutput : option string; cmWorkflow : string;
  cmInput : option string }.
Record TimerMatch : Type := mkTimerMatch {
  rmIndex : nat; rmOutput : option string; rmDuration : string }.
Record EventMatch : Type := mkEventMatch {
  emIndex : nat; emOutput : option string; emEvent : string }.
Record IfMatch : Type := mkIfMatch { imIndex : nat; imCondition : string }.
Record WhenAllMatch : Type := mkWhenAllMatch {
  wmIndex : nat; wmOutputs : option string; wmTasks : string }.

(** The runtime as the extractor uses it: the clock and the random
    source of [generateId], and for every regular expression that is not
    written out by hand the matches it yields on a text, in the order
    [exec] yields them.  A call may throw. *)
Record Engine : Type := mkEngine {
  now : nat;
  random : string;
  workflowPattern : string -> Thrown + list (string * nat);
  activityDecorator : string -> Thrown + option nat;
  decoratedName : string -> Thrown + option string;
  workflowFunction : string -> Thrown + option string;
  docstring : string -> Thrown + option string;
  typeHint : string -> Thrown + option (string * string);
  dataclass : string -> string -> Thrown + option string;
  dataclassFields : string -> Thrown + list string;
  signatureParam : string -> Thrown + option string;
  dataclassFirst : string -> string -> Thrown + option string;
  indentedFields : string -> Thrown + list string;
  returnPattern : string -> Thrown + list string;
  keyPattern : string -> Thrown + list string;
  argPattern : string -> Thrown + list string;
  taskPattern : string -> Thrown + list TaskMatch;
  awaitedPattern : string -> Thrown + list AwaitedMatch;
  stringActivityPattern : string -> Thrown + list AwaitedMatch;
  childPattern : string -> Thrown + list ChildMatch;
  timerPattern : string -> Thrown + list TimerMatch;
  eventPattern : string -> Thrown + list EventMatch;
  ifPattern : string -> Thrown + list IfMatch;
  inputPattern : string -> string -> Thrown + list string;
  varPattern : string -> string -> Thrown + list string;
  retryPattern : string -> Thrown + list nat;
  whenAllPattern : string -> Thrown + list WhenAllMatch;
  taskTokens : string -> Thrown + list string
}.

Section Extractor.

Variable E : Engine.

Open Scope js_scope.

Record WorkflowRange : Type := mkRange {
  rName : string;
  rStartLine : nat;
  rEndLine : nat;
  rStartIndex : nat;
  rEndIndex : nat
}.

(** The second loop of [findAllWorkflows].  A later match starts after an
    earlier one, so [next.startIndex - 1] is not negative. *)
Fixpoint workflowRanges (sourceCode : string) (allMatches : list (string * nat))
    : M (list WorkflowRange) :=
  match allMatches with
  | [] => ret []
  | (name, startIndex) :: rest =>
      let line := getLineNumber sourceCode startIndex in
      match rest with
      | (_, nextStart) :: _ =>
          ranges <- workflowRanges sourceCode rest ;;
          ret (mkRange name line
                       (getLineNumber sourceCode nextStart - 1)
                       startIndex (nextStart - 1) :: ranges)
      | [] =>
          activityMatch <-
            call (activityDecorator E
                    (str (skipn startIndex (chars sourceCode)))) ;;
          match activityMatch with
          | Some index =>
              let endIndex := startIndex + index in
              ret [mkRange name line (getLineNumber sourceCode endIndex - 1)
                           startIndex endIndex]
          | None =>
              ret [mkRange name line
                           (S (countNewlines (chars sourceCode)))
                           startIndex (List.length (chars sourceCode))]
          end
      end
  end.

(** [findAllWorkflows(sourceCode)] *)
Definition findAllWorkflows (sourceCode : string) : M (list WorkflowRange) :=
  allMatches <- call (workflowPattern E sourceCode) ;;
  workflowRanges sourceCode allMatches.

(** [s.split(sep).pop()] *)
Definition lastSegment (sep : ascii) (s : string) : string :=
  str (fst (lastPart sep (chars s) [] false)).

(** [s.replace('.py', '')]: the first occurrence is removed. *)
Definition dropExtension (s : string) : string :=
  let t := chars s in
  match indexOf t (chars ".py") 0 with
  | Some i => str (firstn i t ++ skipn (i + 3) t)
  | None => s
  end.

(** [extractWorkflowName(sourceCode, filePath)] *)
Definition extractWorkflowName (sourceCode filePath : string) : M string :=
  decoratorMatch <- call (decoratedName E sourceCode) ;;
  match decoratorMatch with
  | Some name => ret name
  | None =>
      funcMatch <- call (workflowFunction E sourceCode) ;;
      match funcMatch with
      | Some name => ret name
      | None =>
          let a := lastSegment "/"%char filePath in
          let b := lastSegment backslash filePath in
          let fileName :=
            if negb (String.eqb a "") then a
            else if negb (String.eqb b "") then b
            else "Unknown" in
          ret (dropExtension fileName)
      end
  end.

(** [s.replace(t, '')] with [t] the global pattern of three double quotes
    or three single quotes. *)
Fixpoint removeTriples (fuel : nat) (t : list ascii) : list ascii :=
  match fuel with
  | 0 => t
  | S f =>
      match t with
      | [] => []
      | c :: t' =>
          if starts Scanner.tripleD t || starts Scanner.tripleS t
          then removeTriples f (skipn 3 t)
          else c :: removeTriples f t'
      end
  end.

Definition notPrivate (p : string) : bool := negb (startsWith p "_").

(** [extractMetadata(sourceCode)] *)
Definition extractMetadata (sourceCode : string) : M WorkflowMetadata :=
  docstringMatch <- call (docstring E sourceCode) ;;
  let description :=
    match docstringMatch with
    | Some d =>
        Some (trim (str (removeTriples (List.length (chars d)) (chars d))))
    | None => None
    end in
  typeHintMatch <- call (typeHint E sourceCode) ;;
  let inputType := option_map fst typeHintMatch in
  let outputType := option_map snd typeHintMatch in
  props <-
    (if truthy inputType then
       match inputType with
       | Some ty =>
           dataclassMatch <- call (dataclass E ty sourceCode) ;;
           match dataclassMatch with
           | Some text =>
               fields <- call (dataclassFields E text) ;;
               ret (filter notPrivate fields)
           | None => ret []
           end
       | None => ret []
       end
     else ret []) ;;
  ret (mkMetadata (Some props) description inputType outputType
                  None None None).

(** [extractWorkflowInputInfo(sourceCode)] *)
Definition extractWorkflowInputInfo (sourceCode : string) : M unit :=
  funcMatch <- call (signatureParam E sourceCode) ;;
  match funcMatch with
  | Some p => setWorkflowInputParam p
  | None => ret tt
  end ;;;
  metadata <- extractMetadata sourceCode ;;
  if truthy (mInputType metadata) then
    match mInputType metadata with
    | Some ty =>
        dataclassMatch <- call (dataclassFirst E ty sourceCode) ;;
        match dataclassMatch with
        | Some text =>
            fields <- call (indentedFields E text) ;;
            forEach (filter notPrivate fields) tt
                    (fun _ p => pushInputProperty p)
        | None => ret tt
        end
    | None => ret tt
    end
  else ret tt.

(** The test of [expression.match(...)] for a constructor call: a word,
    optional spaces and an opening parenthesis at the start. *)
Definition constructorCall (expression : string) : bool :=
  let t := chars expression in
  match takeWord t with
  | [] => false
  | _ =>
      match dropSpaces (dropWord t) with
      | c :: _ => Ascii.eqb c "("%char
      | [] => false
      end
  end.

(** [parseReturnExpression(expression)] *)
Definition parseReturnExpression (expression : string) : M (list string) :=
  if startsWith expression "{" then call (keyPattern E expression)
  else if constructorCall expression then call (argPattern E expression)
  else ret [].

(** [if (!allFields.includes(f)) allFields.push(f)] *)
Definition addFields (allFields fields : list string) : list string :=
  fold_left (fun acc f => if memb f acc then acc else acc ++ [f])
            fields allFields.

(** [extractReturnInfo(sourceCode, workflow)] on the metadata of the
    workflow. *)
Definition extractReturnInfo (sourceCode : string)
    (metadata : option WorkflowMetadata) : M (option WorkflowMetadata) :=
  found <- call (returnPattern E sourceCode) ;;
  let returns := map trim found in
  match returns with
  | [] => ret metadata
  | _ =>
      allFields <-
        forEach returns []
                (fun acc expr =>
                   fields <- parseReturnExpression expr ;;
                   ret (addFields acc fields)) ;;
      let md := match metadata with Some md => md | None => emptyMetadata end in
      ret (Some (mkMetadata (mInputProperties md) (mDescription md)
                            (mInputType md) (mOutputType md)
                            (Some allFields)
                            (Some (last returns ""))
                            (mDebug md)))
  end.

(** [this.analyzeDataSource(inputExpr)] in the current state of the
    instance. *)
Definition analyze (inputExpr : option string) : M (list DataSource) :=
  st <- this ;;
  ret (analyzeDataSource (workflowInputParam st) (outputVariableMap st)
                         inputExpr).

(** [if (outputVar) this.outputVariableMap.set(outputVar, nodeId)] *)
Definition registerOutput (outputVar : option string) (nodeId : string)
    : M unit :=
  if truthy outputVar then
    match outputVar with
    | Some v => setOutputVariable v nodeId
    | None => ret tt
    end
  else ret tt.

(** An activity node with [output], [input] and [dataSources] assigned. *)
Definition activityNode (nodeId activityName : string) (line : nat)
    (dataSources : list DataSource) (parallel : bool)
    (taskVar output input : option string) : WorkflowNode :=
  let node :=
    createNode nodeId TActivity activityName (Some activityName)
      (Some (mkNodeMetadata (Some line) (Some dataSources) (Some parallel)
                            taskVar None None None None None)) in
  mkNode (nodeId) (nodeType node) (nodeName node) (nodeLabel node)
         (nodeMetadata node) output input (Some dataSources).

Definition lineIs (n : WorkflowNode) (lineNum : nat) : bool :=
  match nodeMetadata n with
  | Some md =>
      match lineNumber md with
      | Some l => l =? lineNum
      | None => false
      end
  | None => false
  end.

(** The body of the loop over the non-awaited task assignments. *)
Definition taskStep (sourceCode : string) (lineOffset : nat)
    (acc : list WorkflowNode * nat) (m : TaskMatch)
    : M (list WorkflowNode * nat) :=
  let '(nodes, index) := acc in
  let inputExpr := Scanner.extractInputExpression sourceCode (tmIndex m) in
  let nodeId := ("activity-" ++ ofNat index)%string in
  setParallelTask (tmTaskVar m) nodeId ;;;
  dataSources <- analyze inputExpr ;;
  ret (nodes ++
       [activityNode nodeId (tmActivity m)
          (getLineNumber sourceCode (tmIndex m) + lineOffset)
          dataSources true (Some (tmTaskVar m)) (Some (tmTaskVar m))
          inputExpr],
       S index).

(** The body of the loop over the awaited activities. *)
Definition awaitedStep (sourceCode : string) (lineOffset : nat)
    (acc : list WorkflowNode * nat) (m : AwaitedMatch)
    : M (list WorkflowNode * nat) :=
  let '(nodes, index) := acc in
  let outputVar := orUndefined (amOutput m) in
  let inputExpr := Scanner.extractInputExpression sourceCode (amIndex m) in
  let lineNum := getLineNumber sourceCode (amIndex m) + lineOffset in
  if existsb (fun n => String.eqb (nodeName n) (amActivity m) &&
                       lineIs n lineNum) nodes
  then ret (nodes, index)
  else
    let nodeId := ("activity-" ++ ofNat index)%string in
    registerOutput outputVar nodeId ;;;
    dataSources <- analyze inputExpr ;;
    ret (nodes ++
         [activityNode nodeId (amActivity m) lineNum dataSources false
                       None outputVar inputExpr],
         S index).

(** The body of the loop over the activities named by a string. *)
Definition stringActivityStep (sourceCode : string) (lineOffset : nat)
    (acc : list WorkflowNode * nat) (m : AwaitedMatch)
    : M (list WorkflowNode * nat) :=
  let '(nodes, index) := acc in
  let outputVar := orUndefined (amOutput m) in
  let inputExpr := Scanner.extractInputExpression sourceCode (amIndex m) in
  let nodeId := ("activity-" ++ ofNat index)%string in
  registerOutput outputVar nodeId ;;;
  dataSources <- analyze inputExpr ;;
  ret (nodes ++
       [activityNode nodeId (amActivity m)
          (getLineNumber sourceCode (amIndex m) + lineOffset)
          dataSources false None outputVar inputExpr],
       S index).

(** [parseActivities(sourceCode, lineOffset)] *)
Definition parseActivities (sourceCode : string) (lineOffset : nat)
    : M (list WorkflowNode) :=
  taskMatches <- call (taskPattern E sourceCode) ;;
  acc1 <- forEach taskMatches ([], 0) (taskStep sourceCode lineOffset) ;;
  awaitedMatches <- call (awaitedPattern E sourceCode) ;;
  acc2 <- forEach awaitedMatches acc1 (awaitedStep sourceCode lineOffset) ;;
  stringMatches <- call (stringActivityPattern E sourceCode) ;;
  acc3 <- forEach stringMatches acc2
                  (stringActivityStep sourceCode lineOffset) ;;
  ret (fst acc3).

Definition withData (node : WorkflowNode) (output input : option string)
    (dataSources : option (list DataSource)) : WorkflowNode :=
  mkNode (nodeId node) (nodeType node) (nodeName node) (nodeLabel node)
         (nodeMetadata node) output input dataSources.

Definition lineOnly (line : nat) : NodeMetadata :=
  mkNodeMetadata (Some line) None None None None None None None None.

(** The body of the loop of [parseChildWorkflows]. *)
Definition childStep (sourceCode : string) (lineOffset : nat)
    (acc : list WorkflowNode * nat) (m : ChildMatch)
    : M (list WorkflowNode * nat) :=
  let '(nodes, index) := acc in
  let outputVar := orUndefined (cmOutput m) in
  let workflowName := removeQuotes (cmWorkflow m) in
  let inputExpr := option_map trim (cmInput m) in
  let nodeId := ("child-" ++ ofNat index)%string in
  registerOutput outputVar nodeId ;;;
  dataSources <- analyze inputExpr ;;
  ret (nodes ++
       [withData
          (createNode nodeId TSubOrchestration workflowName
             (Some ("Child: " ++ workflowName)%string)
             (Some (mkNodeMetadata
                      (Some (getLineNumber sourceCode (cmIndex m) + lineOffset))
                      (Some dataSources) None None None None None None None)))
          outputVar inputExpr (Some dataSources)],
       S index).

Definition parseChildWorkflows (sourceCode : string) (lineOffset : nat)
    : M (list WorkflowNode) :=
  found <- call (childPattern E sourceCode) ;;
  acc <- forEach found ([], 0) (childStep sourceCode lineOffset) ;;
  ret (fst acc).

(** The body of the loop of [parseTimers]. *)
Definition timerStep (sourceCode : string) (lineOffset : nat)
    (acc : list WorkflowNode * nat) (m : TimerMatch)
    : M (list WorkflowNode * nat) :=
  let '(nodes, index) := acc in
  let outputVar := orUndefined (rmOutput m) in
  let duration := trim (rmDuration m) in
  let nodeId := ("timer-" ++ ofNat index)%string in
  registerOutput outputVar nodeId ;;;
  ret (nodes ++
       [withData
          (createNode nodeId TTimer "Timer"
             (Some (if String.eqb duration "" then "Wait Timer"
                    else ("Wait: " ++
                          str (substring (chars duration) 0 20))%string))
             (Some (lineOnly (getLineNumber sourceCode (rmIndex m) + lineOffset))))
          outputVar None None],
       S index).

Definition parseTimers (sourceCode : string) (lineOffset : nat)
    : M (list WorkflowNode) :=
  found <- call (timerPattern E sourceCode) ;;
  acc <- forEach found ([], 0) (timerStep sourceCode lineOffset) ;;
  ret (fst acc).

(** The body of the loop of [parseExternalEvents]. *)
Definition eventStep (sourceCode : string) (lineOffset : nat)
    (acc : list WorkflowNode * nat) (m : EventMatch)
    : M (list WorkflowNode * nat) :=
  let '(nodes, index) := acc in
  let outputVar := orUndefined (emOutput m) in
  let nodeId := ("event-" ++ ofNat index)%string in
  registerOutput outputVar nodeId ;;;
  ret (nodes ++
       [withData
          (createNode nodeId TEvent (emEvent m)
             (Some ("Event: " ++ emEvent m)%string)
             (Some (lineOnly (getLineNumber sourceCode (emIndex m) + lineOffset))))
          outputVar None
          (Some [mkSource event_data (emEvent m) None None])],
       S index).

Definition parseExternalEvents (sourceCode : string) (lineOffset : nat)
    : M (list WorkflowNode) :=
  found <- call (eventPattern E sourceCode) ;;
  acc <- forEach found ([], 0) (eventStep sourceCode lineOffset) ;;
  ret (fst acc).

(** [analyzeConditionSources(condition)] *)
Definition analyzeConditionSources (condition : string) : M (list DataSource) :=
  st <- this ;;
  inputRefs <- call (inputPattern E (workflowInputParam st) condition) ;;
  let sources :=
    map (fun path => mkSource workflow_input path None None) inputRefs in
  forEach (outputVariableMap st) sources
          (fun acc entry =>
             refs <- call (varPattern E (fst entry) condition) ;;
             ret (acc ++
                  map (fun path =>
                         mkSource activity_output path
                                  (mapGet (outputVariableMap st) (fst entry))
                                  None)
                      refs)).

(** The body of the loop of [parseDecisions]. *)
Definition decisionStep (sourceCode : string) (lineOffset : nat)
    (acc : list WorkflowNode * nat) (m : IfMatch)
    : M (list WorkflowNode * nat) :=
  let '(nodes, index) := acc in
  let condition := trim (imCondition m) in
  dataSources <- analyzeConditionSources condition ;;
  ret (nodes ++
       [withData
          (createNode ("decision-" ++ ofNat index)%string TDecision
             ("Decision " ++ ofNat (S index))%string
             (Some (if 30 <? List.length (chars condition)
                    then (str (substring (chars condition) 0 30) ++ "...")%string
                    else condition))
             (Some (mkNodeMetadata
                      (Some (getLineNumber sourceCode (imIndex m) + lineOffset))
                      (Some dataSources) None None (Some condition)
                      None None None None)))
          None None (Some dataSources)],
       S index).

Definition parseDecisions (sourceCode : string) (lineOffset : nat)
    : M (list WorkflowNode) :=
  found <- call (ifPattern E sourceCode) ;;
  acc <- forEach found ([], 0) (decisionStep sourceCode lineOffset) ;;
  ret (fst acc).

(** [parseRetryPolicies(sourceCode, lineOffset)] *)
Definition retryNode (sourceCode : string) (lineOffset : nat)
    (index matchIndex : nat) : WorkflowNode :=
  createNode ("retry-" ++ ofNat index)%string TRetry "Retry Policy" (Some "Retry")
             (Some (lineOnly (getLineNumber sourceCode matchIndex + lineOffset))).

Definition parseRetryPolicies (sourceCode : string) (lineOffset : nat)
    : M (list WorkflowNode) :=
  found <- call (retryPattern E sourceCode) ;;
  acc <- forEach found ([], 0)
                 (fun acc matchIndex =>
                    ret (fst acc ++
                         [retryNode sourceCode lineOffset (snd acc) matchIndex],
                         S (snd acc))) ;;
  ret (fst acc).

(** The sign that opens the label of a join node (U+2AF4), as the three
    bytes of its UTF-8 form. *)
Definition joinSign : string :=
  String (ascii_of_nat 226) (String (ascii_of_nat 171)
         (String (ascii_of_nat 180) "")).

(** [s.split(',')] *)
Fixpoint splitOn (sep : ascii) (t acc : list ascii) : list string :=
  match t with
  | [] => [str (rev acc)]
  | c :: t' =>
      if Ascii.eqb c sep then str (rev acc) :: splitOn sep t' []
      else splitOn sep t' (c :: acc)
  end.

(** The [taskVars.forEach] of [parseParallelBlocks]. *)
Definition mapTask (nodeId : string) (_ : unit) (taskVar : string) : M unit :=
  st <- this ;;
  let activityNodeId := mapGet (parallelTaskMap st) taskVar in
  if truthy activityNodeId then
    match activityNodeId with
    | Some a => setParallelGroup a nodeId
    | None => ret tt
    end
  else ret tt.

(** The body of the loop of [parseParallelBlocks]. *)
Definition joinStep (sourceCode : string) (lineOffset : nat)
    (acc : list WorkflowNode * nat) (m : WhenAllMatch)
    : M (list WorkflowNode * nat) :=
  let '(nodes, index) := acc in
  let outputs :=
    match wmOutputs m with
    | Some text => map trim (splitOn ","%char (chars text) [])
    | None => []
    end in
  taskVars <- call (taskTokens E (wmTasks m)) ;;
  let nodeId := ("parallel-join-" ++ ofNat index)%string in
  forEach outputs tt (fun _ outputVar => registerOutput (Some outputVar) nodeId) ;;;
  forEach taskVars tt (mapTask nodeId) ;;;
  st <- this ;;
  ret (nodes ++
       [createNode nodeId TParallel "Join"
          (Some (joinSign ++ " Join (" ++ ofNat (List.length taskVars) ++
                 " tasks)")%string)
          (Some (mkNodeMetadata
                   (Some (getLineNumber sourceCode (wmIndex m) + lineOffset))
                   None None None None (Some taskVars) (Some outputs)
                   (Some (flat_map
                            (fun t =>
                               if truthy (mapGet (parallelTaskMap st) t) then
                                 match mapGet (parallelTaskMap st) t with
                                 | Some a => [a]
                                 | None => []
                                 end
                               else [])
                            taskVars))
                   None))],
       S index).

Definition parseParallelBlocks (sourceCode : string) (lineOffset : nat)
    : M (list WorkflowNode) :=
  found <- call (whenAllPattern E sourceCode) ;;
  acc <- forEach found ([], 0) (joinStep sourceCode lineOffset) ;;
  ret (fst acc).

(** [buildDataFlowMetadata(workflow, sourceCode)] *)
Definition activityDataFlow (node : WorkflowNode) : list ActivityDataFlow :=
  match nodeType node with
  | TActivity | TSubOrchestration | TEvent =>
      [mkActivityDataFlow (nodeId node) (nodeName node) (nodeType node)
         (match nodeDataSources node with Some l => l | None => [] end)
         (orUndefined (nodeOutput node)) None
         (match nodeMetadata node with
          | Some md => lineNumber md
          | None => None
          end)]
  | _ => []
  end.

Definition buildDataFlowMetadata (workflowName : string)
    (metadata : option WorkflowMetadata) (nodes : list WorkflowNode)
    : M DataFlowMetadata :=
  st <- this ;;
  ret (mkDataFlow workflowName
         (match metadata with Some md => mInputType md | None => None end)
         (match metadata with
          | Some md =>
              match mInputProperties md with
              | Some l => l
              | None => inputProperties st
              end
          | None => inputProperties st
          end)
         (workflowInputParam st)
         (flat_map activityDataFlow nodes)
         (outputVariableMap st)).

(** [generateId(prefix)] *)
Definition generateId (prefix : string) : string :=
  (prefix ++ "-" ++ ofNat (now E) ++ "-" ++ random E)%string.

(** The scoped source, the line offset and the name of the workflow. *)
Definition scopeOf (sourceCode : string) (r : WorkflowRange)
    : string * nat * string :=
  (str (slice (chars sourceCode) (rStartIndex r) (rEndIndex r)),
   rStartLine r - 1, rName r).

Definition selectScope (sourceCode filePath : string)
    (targetWorkflowName : option string) (allWorkflows : list WorkflowRange)
    : M (string * nat * string) :=
  if truthy targetWorkflowName && (0 <? List.length allWorkflows) then
    match find (fun w => match targetWorkflowName with
                         | Some t => String.eqb (rName w) t
                         | None => false
                         end) allWorkflows with
    | Some targetWorkflow => ret (scopeOf sourceCode targetWorkflow)
    | None =>
        name <- extractWorkflowName sourceCode filePath ;;
        ret (sourceCode, 0, name)
    end
  else
    match allWorkflows with
    | firstWorkflow :: _ => ret (scopeOf sourceCode firstWorkflow)
    | [] =>
        name <- extractWorkflowName sourceCode filePath ;;
        ret (sourceCode, 0, name)
    end.

(** The recognisers in the order [parse] calls them; the nodes are
    pushed in this order. *)
Definition recognizeSteps (scopedSourceCode : string) (lineOffset : nat)
    : M (list WorkflowNode) :=
  activities <- parseActivities scopedSourceCode lineOffset ;;
  childWorkflows <- parseChildWorkflows scopedSourceCode lineOffset ;;
  timers <- parseTimers scopedSourceCode lineOffset ;;
  events <- parseExternalEvents scopedSourceCode lineOffset ;;
  decisions <- parseDecisions scopedSourceCode lineOffset ;;
  retries <- parseRetryPolicies scopedSourceCode lineOffset ;;
  parallelBlocks <- parseParallelBlocks scopedSourceCode lineOffset ;;
  ret (activities ++ childWorkflows ++ timers ++ events ++ decisions ++
       retries ++ parallelBlocks).

(** The body of the [try] block of [parse]. *)
Definition parseBody (sourceCode filePath : string)
    (targetWorkflowName : option string) : M WorkflowDefinition :=
  resetState ;;;
  allWorkflows <- findAllWorkflows sourceCode ;;
  scope <- selectScope sourceCode filePath targetWorkflowName allWorkflows ;;
  let '(scopedSourceCode, lineOffset, workflowName) := scope in
  metadata0 <- extractMetadata sourceCode ;;
  extractWorkflowInputInfo scopedSourceCode ;;;
  metadata1 <- extractReturnInfo scopedSourceCode (Some metadata0) ;;
  steps <- recognizeSteps scopedSourceCode lineOffset ;;
  let nodes := Model.addStartEndNodes steps in
  dataFlow <- buildDataFlowMetadata workflowName metadata1 nodes ;;
  st <- this ;;
  let edges := Assembler.buildEdgesWithDataFlow (parallelGroupMap st) nodes in
  let md := match metadata1 with Some md => md | None => emptyMetadata end in
  ret (mkWorkflow (generateId workflowName) workflowName python filePath
         nodes edges
         (Some (mkMetadata (mInputProperties md) (mDescription md)
                           (mInputType md) (mOutputType md)
                           (mOutputFields md) (mReturnExpression md)
                           (Some (parallelTaskMap st, parallelGroupMap st,
                                  List.length nodes, List.length edges))))
         (Some dataFlow) lineOffset).

(** [parse(sourceCode, filePath, targetWorkflowName)] *)
Definition parse (sourceCode filePath : string)
    (targetWorkflowName : option string) : Inst -> ParseResult * Inst :=
  tryCatch (parseBody sourceCode filePath targetWorkflowName).

(** [canParse(filePath)] *)
Definition canParse (filePath : string) : bool := endsWith filePath ".py".

End Extractor.

End Python.

(** ** The C# extractor ([csharpParser.ts]): the parts the properties
    below are about *)

Module CSharp.

Import Js Model Effects.

Record Engine : Type := mkEngine {
  returnPattern : string -> Thrown + list string;
  propPattern : string -> Thrown + list string
}.

Section Extractor.

Variable E : Engine.

Open Scope js_scope.

(** [canParse(filePath)] *)
Definition canParse (filePath : string) : bool := endsWith filePath ".cs".

(** [parseReturnExpression(expression)] *)
Definition parseReturnExpression (expression : string) : M (list string) :=
  call (propPattern E expression).

(** [extractReturnInfo(sourceCode, workflow)] on the metadata of the
    workflow. *)
Definition extractReturnInfo (sourceCode : string)
    (metadata : option WorkflowMetadata) : M (option WorkflowMetadata) :=
  found <- call (returnPattern E sourceCode) ;;
  let returns := map trim found in
  match returns with
  | [] => ret metadata
  | _ =>
      allFields <-
        forEach returns []
                (fun acc expr =>
                   fields <- parseReturnExpression expr ;;
                   ret (Python.addFields acc fields)) ;;
      let md := match metadata with Some md => md | None => emptyMetadata end in
      ret (Some (mkMetadata (mInputProperties md) (mDescription md)
                            (mInputType md) (mOutputType md)
                            (Some allFields)
                            (mReturnExpression md)
                            (mDebug md)))
  end.

End Extractor.

End CSharp.

(** ** The JavaScript/TypeScript extractor ([javascriptParser.ts]): the
    parts the properties below are about *)

Module JavaScript.

Import Js Model Effects.

Record Engine : Type := mkEngine {
  returnPattern : string -> Thrown + list string;
  keyPattern : string -> Thrown + list string
}.

Section Extractor.

Variable E : Engine.

Open Scope js_scope.

(** [canParse(filePath)] *)
Definition canParse (filePath : string) : bool :=
  endsWith filePath ".js" || endsWith filePath ".ts" ||
  endsWith filePath ".mjs" || endsWith filePath ".mts".

(** [parseReturnExpression(expression)] *)
Definition parseReturnExpression (expression : string) : M (list string) :=
  if startsWith expression "{" then call (keyPattern E expression)
  else ret [].

(** [extractReturnInfo(sourceCode, workflow)] on the metadata of the
    workflow. *)
Definition extractReturnInfo (sourceCode : string)
    (metadata : option WorkflowMetadata) : M (option WorkflowMetadata) :=
  found <- call (returnPattern E sourceCode) ;;
  let returns := map trim found in
  match returns with
  | [] => ret metadata
  | _ =>
      allFields <-
        forEach returns []
                (fun acc expr =>
                   fields <- parseReturnExpression expr ;;
                   ret (Python.addFields acc fields)) ;;
      let md := match metadata with Some md => md | None => emptyMetadata end in
      ret (Some (mkMetadata (mInputProperties md) (mDescription md)
                            (mInputType md) (mOutputType md)
                            (Some allFields)
                            (Some (last returns ""))
                            (mDebug md)))
  end.

End Extractor.

End JavaScript.

(** ** The extractor registry ([WorkflowParserFactory]) *)

Module Registry.

Import Js Model.

(** The registered extractors: the class and, for the JavaScript one,
    the language its constructor was given. *)
Inductive Parser : Type :=
| CSharpWorkflowParser
| PythonWorkflowParser
| JavaScriptWorkflowParser (language : SupportedLanguage).

Definition languageOf (p : Parser) : SupportedLanguage :=
  match p with
  | CSharpWorkflowParser => csharp
  | PythonWorkflowParser => python
  | JavaScriptWorkflowParser language => language
  end.

Definition canParseOf (p : Parser) (filePath : string) : bool :=
  match p with
  | CSharpWorkflowParser => CSharp.canParse filePath
  | PythonWorkflowParser => Python.canParse filePath
  | JavaScriptWorkflowParser _ => JavaScript.canParse filePath
  end.

(** [private static parsers] *)
Definition parsers : list Parser :=
  [CSharpWorkflowParser; PythonWorkflowParser;
   JavaScriptWorkflowParser javascript; JavaScriptWorkflowParser typescript].

(** [getParser(filePath)]: [this.parsers.find(...)] *)
Definition getParser (filePath : string) : option Parser :=
  find (fun parser => canParseOf parser filePath) parsers.

(** [canParse(filePath)]: [this.parsers.some(...)] *)
Definition canParse (filePath : string) : bool :=
  existsb (fun parser => canParseOf parser filePath) parsers.

(** [getSupportedExtensions()] *)
Definition getSupportedExtensions : list string :=
  [".cs"; ".py"; ".js"; ".ts"; ".mjs"; ".mts"].

(** [getLanguage(filePath)] *)
Definition getLanguage (filePath : string) : option SupportedLanguage :=
  if endsWith filePath ".cs" then Some csharp
  else if endsWith filePath ".py" then Some python
  else if endsWith filePath ".ts" || endsWith filePath ".mts"
  then Some typescript
  else if endsWith filePath ".js" || endsWith filePath ".mjs"
  then Some javascript
  else None.

(** The registered extractors that answer [canParse] with true. *)
Definition claimants (filePath : string) : list Parser :=
  filter (fun parser => canParseOf parser filePath) parsers.

End Registry.

(** ** Specification vocabulary *)

Module Spec.

Import Js Model Effects Assembler.

(** [triple P c Q]: when [c] is run in a state satisfying [P] and
    returns, the value and the final state satisfy [Q]. *)
Definition triple {A : Type} (P : Inst -> Prop) (c : M A)
    (Q : A -> Inst -> Prop) : Prop :=
  forall st a st', P st -> c st = Normal a st' -> Q a st'.

(** The synthetic nodes. *)
Definition isSynthetic (n : WorkflowNode) : bool :=
  nodeTypeEqb (nodeType n) TStart || nodeTypeEqb (nodeType n) TEnd.

(** The prefix of the identifiers a recogniser gives to its nodes; the
    C# extractor has [suborch-] where the Python extractor has
    [child-]. *)
Definition stepPrefix (ty : NodeType) : option string :=
  match ty with
  | TActivity => Some "activity-"
  | TSubOrchestration => Some "child-"
  | TTimer => Some "timer-"
  | TEvent => Some "event-"
  | TDecision => Some "decision-"
  | TRetry => Some "retry-"
  | TParallel => Some "parallel-join-"
  | TStart | TEnd => None
  end.

(** A node as the step recognisers make them: its identifier is the
    prefix of its kind followed by a counter, and only activity nodes
    are marked as parallel tasks. *)
Definition StepShape (n : WorkflowNode) : Prop :=
  (exists p k, (stepPrefix (nodeType n) = Some p \/
                (nodeType n = TSubOrchestration /\ p = "suborch-")) /\
               nodeId n = (p ++ ofNat k)%string) /\
  (flagged n = true -> nodeType n = TActivity).

(** What the assembler relies on: the nodes are step nodes; every key of
    the group map is the identifier of a node marked as a parallel task;
    every value is the identifier of a join node of the list. *)
Record WellFormed (steps : list WorkflowNode) (groupMap : JsMap) : Prop := {
  wf_shape : Forall StepShape steps;
  wf_keys : forall k j, mapGet groupMap k = Some j ->
      exists n, In n steps /\ nodeId n = k /\ flagged n = true;
  wf_values : forall k j, mapGet groupMap k = Some j ->
      exists n, In n steps /\ nodeId n = j /\ nodeType n = TParallel
}.

(** The fan-out edges of the join [j]: the parallel edges into the nodes
    the group map resolves to [j]; and its fan-in edges: the parallel
    edges into [j]. *)
Definition fanOutEdges (g : JsMap) (sortedNodes : list WorkflowNode)
    (j : string) (edges : list WorkflowEdge) : list WorkflowEdge :=
  filter (fun e => isParallelEdge e &&
                   memb (edgeTarget e) (map nodeId (groupOf g sortedNodes j)))
         edges.

Definition fanInEdges (j : string) (edges : list WorkflowEdge)
    : list WorkflowEdge :=
  filter (fun e => isParallelEdge e && String.eqb (edgeTarget e) j) edges.

(** The node right before the first node of the group of [j] in the
    sorted list, the end node (which has no line number and sorts to the
    front) left aside. *)
Fixpoint precedingFrom (g : JsMap) (j : string) (prev : option WorkflowNode)
    (l : list WorkflowNode) : option WorkflowNode :=
  match l with
  | [] => None
  | n :: l' =>
      if inGroup g j n then prev
      else precedingFrom g j
             (if nodeTypeEqb (nodeType n) TEnd then prev else Some n) l'
  end.

Definition precedingNode (g : JsMap) (sortedNodes : list WorkflowNode)
    (j : string) : option WorkflowNode :=
  precedingFrom g j None sortedNodes.

(** The cursor of the walk when it has visited [visited]. *)
Definition cursorAfter (g : JsMap) (sortedNodes visited : list WorkflowNode)
    : option WorkflowNode :=
  lastSequentialNode (walk g sortedNodes (mkWalk [] None []) visited).

(** The tasks of the join [j] among [nodes]: the nodes the group map
    resolves to [j]. *)
Definition tasksOf (g : JsMap) (nodes : list WorkflowNode) (j : string)
    : list WorkflowNode :=
  filter (fun n => match mapGet g (nodeId n) with
                   | Some j' => String.eqb j' j
                   | None => false
                   end) nodes.

(** The edges of kind parallel whose target is one of [targets]. *)
Definition parallelEdgesInto (targets : list string)
    (edges : list WorkflowEdge) : list WorkflowEdge :=
  filter (fun e => match edgeType e with
                   | EParallel => memb (edgeTarget e) targets
                   | _ => false
                   end) edges.

(** The source of the fan-out of a group, found by going back from the
    first task of the group; [before] holds the nodes that stand before
    that task in sorted order, the nearest first.  End nodes are passed
    over, and so is a task of a group that has a task further back.  The
    first other node is the source when it has no entry in the group
    map; when it is the first task of its group, the source is the join
    of that group. *)
Fixpoint sourceBefore (g : JsMap) (before : list WorkflowNode)
    : option string :=
  match before with
  | [] => None
  | p :: earlier =>
      if nodeTypeEqb (nodeType p) TEnd then sourceBefore g earlier
      else
        match mapGet g (nodeId p) with
        | None => Some (nodeId p)
        | Some j' =>
            if existsb (fun n => match mapGet g (nodeId n) with
                                 | Some j2 => String.eqb j2 j'
                                 | None => false
                                 end) earlier
            then sourceBefore g earlier
            else Some j'
        end
  end.

(** The nodes of [nodes] whose line number is [k], in the order of
    [nodes]. *)
Definition onLine (k : nat) (nodes : list WorkflowNode)
    : list WorkflowNode :=
  filter (fun n => lineOf n =? k) nodes.

(** [sorted] is [nodes] in line order: the line number of a node is at
    most that of every node after it, and the nodes of one line number
    are those of [nodes], in the order they have in [nodes]. *)
Definition StableSorted (nodes sorted : list WorkflowNode) : Prop :=
  StronglySorted (fun a b => lineOf a <= lineOf b) sorted /\
  forall k, onLine k sorted = onLine k nodes.

(** What holds of the edges of the join [j] in a graph with sorted nodes
    [sortedNodes], group map [g] and edges [edges]: [m] is the first
    task of [j] in sorted order and [c] the identifier of the source of
    the fan-out; the parallel edges into the tasks of [j] are one edge
    from [c] to each task, in sorted order, and the parallel edges into
    [j] are one edge from each task. *)
Definition FanOutFanIn (g : JsMap) (sortedNodes : list WorkflowNode)
    (edges : list WorkflowEdge) (j : string) : Prop :=
  exists pre m post c,
    sortedNodes = pre ++ m :: post /\
    tasksOf g pre j = [] /\ mapGet g (nodeId m) = Some j /\
    sourceBefore g (rev pre) = Some c /\
    parallelEdgesInto (map nodeId (tasksOf g sortedNodes j)) edges =
      map (fun p => mkEdge (c ++ "-" ++ nodeId p) c (nodeId p) EParallel
                           None None None)
          (tasksOf g sortedNodes j) /\
    parallelEdgesInto [j] edges =
      map (fun p => mkEdge (nodeId p ++ "-" ++ j) (nodeId p) j EParallel
                           None None None)
          (tasksOf g sortedNodes j).

(** A non-empty string of word characters: what the group for the
    output variable of a step pattern captures. *)
Definition isIdentifier (s : string) : bool :=
  negb (String.eqb s "") && forallb isWord (chars s).

(** The output variable of a match is made of word characters. *)
Definition wordOutput (m : Python.AwaitedMatch) : Prop :=
  match Python.amOutput m with
  | Some v => forallb isWord (chars v) = true
  | None => True
  end.

(** The same for any group that may have taken no part. *)
Definition wordGroup (o : option string) : Prop :=
  match o with
  | Some v => forallb isWord (chars v) = true
  | None => True
  end.

(** The groups for the output variable of the awaited-activity patterns
    and of the child-workflow pattern capture word characters only, on
    every text. *)
Record WordOutputs (E : Python.Engine) : Prop := {
  wo_awaited : forall s ms,
      Python.awaitedPattern E s = inr ms -> Forall wordOutput ms;
  wo_string : forall s ms,
      Python.stringActivityPattern E s = inr ms -> Forall wordOutput ms;
  wo_child : forall s ms,
      Python.childPattern E s = inr ms ->
      Forall (fun m => wordGroup (Python.cmOutput m)) ms
}.

(** The expression [e] is the name [v], or a dotted or indexed access
    rooted at it. *)
Definition RefersTo (e v : string) : Prop :=
  e = v \/ (exists rest, e = (v ++ "." ++ rest)%string) \/
  (exists rest, e = (v ++ "[" ++ rest)%string).

(** [n] is a node whose output variable is [v] and that is not a
    parallel task. *)
Definition binds (v : string) (n : WorkflowNode) : bool :=
  negb (flagged n) &&
  match nodeOutput n with
  | Some o => String.eqb o v
  | None => false
  end.

(** The identifier of the last node of [nodes] that binds [v]. *)
Definition lastBinder (nodes : list WorkflowNode) (v : string)
    : option string :=
  option_map nodeId (find (binds v) (rev nodes)).

(** The keys of a map are made of word characters. *)
Definition wordKeys (m : JsMap) : Prop :=
  Forall (fun entry => forallb isWord (chars (fst entry)) = true) m.

(** What holds of the data sources of a node [c] pushed after the nodes
    [pre] when [param] is the name of the input parameter: an input
    rooted at an identifier that [c] does not bind itself and that is
    not rooted at [param] has one source, the output of the last node of
    [pre] that binds the identifier. *)
Definition Consumes (param : string) (pre : list WorkflowNode)
    (c : WorkflowNode) : Prop :=
  forall v e id,
    nodeInput c = Some e ->
    isIdentifier v = true ->
    Classifier.rooted e v = true ->
    Classifier.rooted e param = false ->
    nodeOutput c <> Some v ->
    lastBinder pre v = Some id ->
    nodeDataSources c = Some [mkSource activity_output e (Some id) None].

(** The invariant of the loops of [parseActivities] for the producer
    map: the map resolves every identifier to the last node that binds
    it, and every node pushed so far has the sources [Consumes] tells. *)
Record Produced (param : string) (nodes : list WorkflowNode) (st : Inst)
    : Prop := {
  pr_param : workflowInputParam st = param;
  pr_keys : wordKeys (outputVariableMap st);
  pr_last : forall v id,
      isIdentifier v = true -> lastBinder nodes v = Some id ->
      mapGet (outputVariableMap st) v = Some id;
  pr_nodes : forall pre c post,
      nodes = pre ++ c :: post -> Consumes param pre c
}.

(** Every node of [nodes] has the sources [Consumes] tells. *)
Definition Settled (param : string) (nodes : list WorkflowNode) : Prop :=
  forall pre c post, nodes = pre ++ c :: post -> Consumes param pre c.

(** No node of [nodes] has an input expression. *)
Definition NoInput (nodes : list WorkflowNode) : Prop :=
  Forall (fun n => nodeInput n = None) nodes.

(** The invariant of the recognisers: [ns] are the nodes made so far. *)
Record Inv (ns : list WorkflowNode) (st : Inst) : Prop := {
  inv_shape : Forall StepShape ns;
  inv_tasks : forall k v, mapGet (parallelTaskMap st) k = Some v ->
      exists n, In n ns /\ nodeId n = v /\ flagged n = true;
  inv_groups : forall k j, mapGet (parallelGroupMap st) k = Some j ->
      (exists n, In n ns /\ nodeId n = k /\ flagged n = true) /\
      (exists n, In n ns /\ nodeId n = j /\ nodeType n = TParallel)
}.

(** Inside [joinStep], while the task variables are mapped to the join
    whose node is still to be pushed. *)
Definition Pending (ns : list WorkflowNode) (joinId : string) (st : Inst)
    : Prop :=
  Forall StepShape ns /\
  (forall k v, mapGet (parallelTaskMap st) k = Some v ->
     exists n, In n ns /\ nodeId n = v /\ flagged n = true) /\
  (forall k j, mapGet (parallelGroupMap st) k = Some j ->
     (exists n, In n ns /\ nodeId n = k /\ flagged n = true) /\
     ((exists n, In n ns /\ nodeId n = j /\ nodeType n = TParallel) \/
      j = joinId)).

(** The three maps [parse] resets. *)
Definition maps (st : Inst) : JsMap * JsMap * JsMap :=
  (outputVariableMap st, parallelTaskMap st, parallelGroupMap st).

(** [keeps c]: [c] does not write the three maps. *)
Definition keeps {A : Type} (c : M A) : Prop :=
  forall st a st', c st = Normal a st' -> maps st' = maps st.

(** The recognisers do not write the name of the input parameter. *)
Definition paramKept {A : Type} (c : M A) : Prop :=
  forall st a st', c st = Normal a st' ->
                   workflowInputParam st' = workflowInputParam st.

(** No control edge of [es] goes from a node to itself. *)
Definition NoLoop (es : list WorkflowEdge) : Prop :=
  forall e, In e es -> isControl e = true -> edgeSource e <> edgeTarget e.

(** Where the loop of [findMatchingBracket] stands when the depth is
    zero: right after a closing bracket met outside a literal, at or
    after [lo]. *)
Definition Closed (t : list ascii) (c : ascii) (lo : nat) (st : Scanner.scan)
    : Prop :=
  lo <= Scanner.pos st /\
  (Scanner.depth st = 0 ->
   Scanner.inString st = None /\
   exists i, Scanner.pos st = S i /\ lo <= i /\ at_ t i = Some c).

End Spec.

(** ** [BaseWorkflowParser]: edges between consecutive nodes *)

Module BaseEdges.

Import Js Model.

(** [createEdge(source, target, label, type = 'default')] *)
Definition createEdge (source target : string) (label : option string)
    (ty : option EdgeType) : WorkflowEdge :=
  mkEdge (source ++ "-" ++ target) source target
         (match ty with Some t => t | None => EDefault end)
         None None label.

(** The edges the loop of [connectNodesSequentially] pushes: one from
    [nodes[i]] to [nodes[i + 1]] for every [i < nodes.length - 1]. *)
Fixpoint sequentialEdges (nodes : list WorkflowNode) : list WorkflowEdge :=
  match nodes with
  | a :: rest =>
      match rest with
      | b :: _ =>
          createEdge (nodeId a) (nodeId b) None None :: sequentialEdges rest
      | [] => []
      end
  | [] => []
  end.

(** [connectNodesSequentially(workflow)] *)
Definition connectNodesSequentially (w : WorkflowDefinition)
    : WorkflowDefinition :=
  mkWorkflow (wId w) (wName w) (wLanguage w) (wFilePath w) (wNodes w)
             (wEdges w ++ sequentialEdges (wNodes w))
             (wMetadata w) (wDataFlow w) (wLineOffset w).

End BaseEdges.

(** ** The entry loop of the three extractors

    [parseDictEntries] (Python), [parseObjectInitializer] (C#) and
    [parseObjectEntries] (JavaScript) run the same loop over the
    characters of the content; they differ in the function that reads
    one entry. *)

Module Entries.

Import Js Model Classifier.

Section Loop.

Variable parseEntry : string -> option (string * string).

(** [const entry = parseEntry(current.trim()); if (entry) entries.push(entry)] *)
Definition pushParsed (entries : list (string * string))
    (current : list ascii) : list (string * string) :=
  match parseEntry (trim (str current)) with
  | Some entry => entries ++ [entry]
  | None => entries
  end.

(** The loop and the test after it; [current] is kept reversed. *)
Fixpoint entryLoop (t : list ascii) (depth : Z) (current : list ascii)
    (entries : list (string * string)) : list (string * string) :=
  match t with
  | [] =>
      if String.eqb (trim (str (rev current))) "" then entries
      else pushParsed entries (rev current)
  | c :: t' =>
      let depth1 := if opensBracket c then (depth + 1)%Z else depth in
      let depth2 := if closesBracket c then (depth1 - 1)%Z else depth1 in
      if Ascii.eqb c ","%char && (depth2 =? 0)%Z
      then entryLoop t' depth2 [] (pushParsed entries (rev current))
      else entryLoop t' depth2 (c :: current) entries
  end.

End Loop.

End Entries.

(** ** The C# extractor: input expressions and their sources *)

Module CSharpInput.

Import Js Model Classifier Entries.

(** [s.lastIndexOf(c)] for one character, [None] for [-1]. *)
Fixpoint lastIndexFrom (t : list ascii) (c : ascii) (i : nat)
    (found : option nat) : option nat :=
  match t with
  | [] => found
  | d :: t' =>
      lastIndexFrom t' c (S i) (if Ascii.eqb d c then Some i else found)
  end.

Definition lastIndexOf (t : list ascii) (c : ascii) : option nat :=
  lastIndexFrom t c 0 None.

(** [parseCSharpAssignment(str)] *)
Definition parseCSharpAssignment (s : string) : option (string * string) :=
  let t := chars s in
  match indexOf t (chars "=") 0 with
  | None => None
  | Some eqIdx =>
      Some (trim (str (slice t 0 eqIdx)), trim (str (skipn (eqIdx + 1) t)))
  end.

(** [parseObjectInitializer(content)] *)
Definition parseObjectInitializer (content : string)
    : list (string * string) :=
  let t := chars content in
  match indexOf t (chars "{") 0, lastIndexOf t "}"%char with
  | Some braceStart, Some braceEnd =>
      entryLoop parseCSharpAssignment (slice t (braceStart + 1) braceEnd)
                0%Z [] []
  | _, _ => []
  end.

(** The three tests for a string literal: plain, verbatim and
    interpolated. *)
Definition quoted (expr : string) : bool :=
  let q := String dquote "" in
  (startsWith expr q && endsWith expr q) ||
  (startsWith expr (String "@" q) && endsWith expr q) ||
  (startsWith expr (String "$" q) && endsWith expr q).

(** The test of the pattern for a variable reference: a word, then any
    number of times a dot and a word, then the end. *)
Fixpoint dotChain (fuel : nat) (t : list ascii) : bool :=
  match fuel with
  | 0 => false
  | S f =>
      match t with
      | [] => true
      | c :: t1 =>
          if Ascii.eqb c "."%char then
            match takeWord t1 with
            | [] => false
            | _ => dotChain f (dropWord t1)
            end
          else false
      end
  end.

Definition looksLikeReference (expr : string) : bool :=
  let t := chars expr in
  match takeWord t with
  | [] => false
  | _ => dotChain (S (List.length t)) (dropWord t)
  end.

(** [classifyExpression(expr, targetProperty)] *)
Definition classifyExpression (inputParam : string) (outputVariableMap : JsMap)
    (expr : string) (targetProperty : option string) : DataSource :=
  if rooted expr inputParam then
    mkSource workflow_input expr None targetProperty
  else
    match producerOf outputVariableMap expr with
    | Some (_, activityId) =>
        mkSource activity_output expr (Some activityId) targetProperty
    | None =>
        if quoted expr then mkSource literal expr None targetProperty
        else if looksLikeReference expr then
          mkSource workflow_input expr None targetProperty
        else mkSource literal expr None targetProperty
    end.

(** [s.includes(c)] for one character *)
Definition includes (s : string) (c : ascii) : bool :=
  existsb (Ascii.eqb c) (chars s).

(** [analyzeDataSource(inputExpr)] *)
Definition analyzeDataSource (inputParam : string) (outputVariableMap : JsMap)
    (inputExpr : option string) : list DataSource :=
  if negb (truthy inputExpr) then []
  else
    match inputExpr with
    | None => []
    | Some expr =>
        if includes expr "{" && includes expr "}" then
          map (fun entry =>
                 classifyExpression inputParam outputVariableMap
                                    (snd entry) (Some (fst entry)))
              (parseObjectInitializer expr)
        else [classifyExpression inputParam outputVariableMap expr None]
    end.

(** The loop variables of [extractInputExpression]; [argStart] is [None]
    for [-1] and [stringChar] is [None] for the empty string. *)
Record argScan : Type := mkArgScan {
  pos : nat;
  depth : nat;
  argStart : option nat;
  argCount : nat;
  inString : bool;
  stringChar : option ascii
}.

(** One iteration of the [while] loop.  The loop runs while [depth > 0],
    so [depth--] does not go below zero. *)
Definition argStep (t : list ascii) (st : argScan) : argScan :=
  let i := pos st in
  match at_ t i with
  | None => st
  | Some char =>
      let escaped := isChar (before t i) backslash in
      let opened :=
        Ascii.eqb char dquote && negb escaped && negb (inString st) in
      let closed :=
        isChar (stringChar st) char && negb escaped && inString st in
      let ins := if opened then true
                 else if closed then false else inString st in
      let sc := if opened then Some char else stringChar st in
      if ins then
        mkArgScan (S i) (depth st) (argStart st) (argCount st) ins sc
      else
        let depth1 := if opensBracket char then S (depth st) else depth st in
        let depth2 := if closesBracket char then Nat.pred depth1 else depth1 in
        if Ascii.eqb char ","%char && (depth2 =? 1) then
          mkArgScan (S i) depth2
                    (if S (argCount st) =? 1 then Some (S i) else argStart st)
                    (S (argCount st)) ins sc
        else mkArgScan (S i) depth2 (argStart st) (argCount st) ins sc
  end.

(** [i < sourceCode.length && depth > 0] *)
Definition argRunning (t : list ascii) (st : argScan) : bool :=
  (pos st <? List.length t) && (0 <? depth st).

Fixpoint argLoop (fuel : nat) (t : list ascii) (st : argScan) : argScan :=
  match fuel with
  | 0 => st
  | S f => if argRunning t st then argLoop f t (argStep t st) else st
  end.

(** The state in which the loop stops when started after the
    parenthesis at [parenStart]; every iteration moves [i] forward, so
    [length] iterations are enough. *)
Definition argEnd (t : list ascii) (parenStart : nat) : argScan :=
  argLoop (List.length t) t (mkArgScan (parenStart + 1) 1 None 0 false None).

(** [extractInputExpression(sourceCode, matchIndex)] *)
Definition extractInputExpression (sourceCode : string) (matchIndex : nat)
    : option string :=
  let t := chars sourceCode in
  match indexOf t (chars "CallActivityAsync") matchIndex with
  | None => None
  | Some callStart =>
      match indexOf t (chars "(") callStart with
      | None => None
      | Some parenStart =>
          let st := argEnd t parenStart in
          match argStart st with
          | Some a => Some (trim (str (substring t a (pos st - 1))))
          | None => None
          end
      end
  end.

End CSharpInput.

(** ** The C# extractor ([csharpParser.ts]): [parse] and the step
    recognisers *)

Module CSharpParser.

Import Js Model Effects Classifier.

(** What one match of a step pattern yields: [match.index] and the
    capture groups the extractor reads ([None]: the group took no part). *)
Record TaskMatch : Type := mkTaskMatch {
  tmIndex : nat; tmTaskVar : string; tmReturnType : option string;
  tmActivity : string }.
Record AwaitedMatch : Type := mkAwaitedMatch {
  amIndex : nat; amOutput : option string; amReturnType : option string;
  amActivity : string }.
Record SubOrchMatch : Type := mkSubOrchMatch {
  smIndex : nat; smOutput : option string; smReturnType : option string;
  smOrchestration : string; smInput : option string }.
Record TimerMatch : Type := mkTimerMatch {
  rmIndex : nat; rmOutput : option string; rmDuration : string }.
Record EventMatch : Type := mkEventMatch {
  emIndex : nat; emOutput : option string; emReturnType : option string;
  emEvent : string }.
Record IfMatch : Type := mkIfMatch { imIndex : nat; imCondition : string }.
Record ParallelMatch : Type := mkParallelMatch {
  pmIndex : nat; pmOutput : option string; pmTasks : string }.

(** The runtime as the extractor uses it: the clock and the random
    source of [generateId], and for every regular expression that is not
    written out by hand the matches it yields on a text, in the order
    [exec] yields them.  A call may throw.  [returns] holds the two
    patterns of [extractReturnInfo]. *)
Record Engine : Type := mkEngine {
  now : nat;
  random : string;
  classPattern : string -> Thrown + list (string * nat);
  className : string -> Thrown + option string;
  genericPattern : string -> Thrown + option (string * string);
  summaryPattern : string -> Thrown + option string;
  recordPattern : string -> string -> Thrown + option string;
  recordProps : string -> Thrown + list string;
  methodPattern : string -> Thrown + option string;
  returns : CSharp.Engine;
  taskPattern : string -> Thrown + list TaskMatch;
  awaitedPattern : string -> Thrown + list AwaitedMatch;
  subOrchPattern : string -> Thrown + list SubOrchMatch;
  timerPattern : string -> Thrown + list TimerMatch;
  eventPattern : string -> Thrown + list EventMatch;
  ifPattern : string -> Thrown + list IfMatch;
  inputPattern : string -> string -> Thrown + list string;
  varPattern : string -> string -> Thrown + list string;
  parallelPattern : string -> Thrown + list ParallelMatch;
  taskTokens : string -> Thrown + list string
}.

(** The three characters that open the label of a join node in this
    file: U+00E2, U+00AB and U+00B4. *)
Definition joinSign : string :=
  String (ascii_of_nat 226) (String (ascii_of_nat 171)
         (String (ascii_of_nat 180) "")).

Section Extractor.

Variable E : Engine.

Open Scope js_scope.

(** The second loop of [findAllWorkflows].  A later match starts after an
    earlier one, so [next.startIndex - 1] is not negative. *)
Fixpoint workflowRanges (sourceCode : string) (allMatches : list (string * nat))
    : list Python.WorkflowRange :=
  match allMatches with
  | [] => []
  | (name, startIndex) :: rest =>
      let line := getLineNumber sourceCode startIndex in
      match rest with
      | (_, nextStart) :: _ =>
          Python.mkRange name line (getLineNumber sourceCode nextStart - 1)
                         startIndex (nextStart - 1)
          :: workflowRanges sourceCode rest
      | [] =>
          [Python.mkRange name line (S (countNewlines (chars sourceCode)))
                          startIndex (List.length (chars sourceCode))]
      end
  end.

(** [findAllWorkflows(sourceCode)] *)
Definition findAllWorkflows (sourceCode : string)
    : M (list Python.WorkflowRange) :=
  allMatches <- call (classPattern E sourceCode) ;;
  ret (workflowRanges sourceCode allMatches).

(** [s.replace('.cs', '')]: the first occurrence is removed. *)
Definition dropExtension (s : string) : string :=
  let t := chars s in
  match indexOf t (chars ".cs") 0 with
  | Some i => str (firstn i t ++ skipn (i + 3) t)
  | None => s
  end.

(** [extractWorkflowName(sourceCode, filePath)] *)
Definition extractWorkflowName (sourceCode filePath : string) : M string :=
  classMatch <- call (className E sourceCode) ;;
  match classMatch with
  | Some name => ret name
  | None =>
      let a := Python.lastSegment "/"%char filePath in
      let b := Python.lastSegment backslash filePath in
      let fileName :=
        if negb (String.eqb a "") then a
        else if negb (String.eqb b "") then b
        else "Unknown" in
      ret (dropExtension fileName)
  end.

(** [extractMetadata(fullSource, scopedSource)] *)
Definition extractMetadata (fullSource scopedSource : string)
    : M WorkflowMetadata :=
  genericMatch <- call (genericPattern E scopedSource) ;;
  let inputType := option_map fst genericMatch in
  let outputType := option_map snd genericMatch in
  descMatch <- call (summaryPattern E scopedSource) ;;
  let description := option_map trim descMatch in
  props <-
    (if truthy inputType then
       match inputType with
       | Some ty =>
           recordMatch <- call (recordPattern E ty fullSource) ;;
           match recordMatch with
           | Some text => call (recordProps E text)
           | None => ret []
           end
       | None => ret []
       end
     else ret []) ;;
  ret (mkMetadata (Some props) description inputType outputType
                  None None None).

(** [extractWorkflowInputInfo(sourceCode)] *)
Definition extractWorkflowInputInfo (sourceCode : string) : M unit :=
  methodMatch <- call (methodPattern E sourceCode) ;;
  match methodMatch with
  | Some p => setWorkflowInputParam p
  | None => ret tt
  end.

(** [this.analyzeDataSource(inputExpr)] in the current state of the
    instance. *)
Definition analyze (inputExpr : option string) : M (list DataSource) :=
  st <- this ;;
  ret (CSharpInput.analyzeDataSource (workflowInputParam st)
                                     (outputVariableMap st) inputExpr).

(** An activity node with [output], [input] and [dataSources] assigned. *)
Definition activityNode (nodeId activityName : string) (line : nat)
    (dataSources : list DataSource) (parallel : bool)
    (taskVar returnType output input : option string) : WorkflowNode :=
  let node :=
    createNode nodeId TActivity activityName (Some activityName)
      (Some (mkNodeMetadata (Some line) (Some dataSources) (Some parallel)
                            taskVar None None None None returnType)) in
  mkNode (nodeId) (nodeType node) (nodeName node) (nodeLabel node)
         (nodeMetadata node) output input (Some dataSources).

(** [sourceCode.substring(Math.max(0, index - 20), index).match(/await/)] *)
Definition awaitedBefore (sourceCode : string) (index : nat) : bool :=
  match indexOf (substring (chars sourceCode) (index - 20) index)
                (chars "await") 0 with
  | Some _ => true
  | None => false
  end.

(** The loop-carried variables of [parseActivities]: the nodes, [index]
    and [seenLines]. *)
Definition Activities : Type := list WorkflowNode * nat * list nat.

(** The body of the loop over the task assignments. *)
Definition taskStep (sourceCode : string) (lineOffset : nat)
    (acc : Activities) (m : TaskMatch) : M Activities :=
  let '(nodes, index, seenLines) := acc in
  let taskVar := tmTaskVar m in
  let lineNum := getLineNumber sourceCode (tmIndex m) + lineOffset in
  if existsb (Nat.eqb lineNum) seenLines then ret acc
  else
    let inputExpr :=
      CSharpInput.extractInputExpression sourceCode (tmIndex m) in
    let nodeId := ("activity-" ++ ofNat index)%string in
    let isParallel := negb (awaitedBefore sourceCode (tmIndex m)) in
    (if isParallel then setParallelTask taskVar nodeId else ret tt) ;;;
    dataSources <- analyze inputExpr ;;
    (if isParallel then ret tt else setOutputVariable taskVar nodeId) ;;;
    ret (nodes ++
         [activityNode nodeId (tmActivity m) lineNum dataSources isParallel
            (if isParallel then Some taskVar else None) (tmReturnType m)
            (Some taskVar) inputExpr],
         S index, seenLines ++ [lineNum]).

(** The body of the loop over the awaited activities. *)
Definition awaitedStep (sourceCode : string) (lineOffset : nat)
    (acc : Activities) (m : AwaitedMatch) : M Activities :=
  let '(nodes, index, seenLines) := acc in
  let outputVar := orUndefined (amOutput m) in
  let lineNum := getLineNumber sourceCode (amIndex m) + lineOffset in
  if existsb (Nat.eqb lineNum) seenLines then ret acc
  else
    let inputExpr :=
      CSharpInput.extractInputExpression sourceCode (amIndex m) in
    let nodeId := ("activity-" ++ ofNat index)%string in
    Python.registerOutput outputVar nodeId ;;;
    dataSources <- analyze inputExpr ;;
    ret (nodes ++
         [activityNode nodeId (amActivity m) lineNum dataSources false
                       None (amReturnType m) outputVar inputExpr],
         S index, seenLines ++ [lineNum]).

(** [parseActivities(sourceCode, lineOffset)] *)
Definition parseActivities (sourceCode : string) (lineOffset : nat)
    : M (list WorkflowNode) :=
  taskMatches <- call (taskPattern E sourceCode) ;;
  acc1 <- forEach taskMatches ([], 0, []) (taskStep sourceCode lineOffset) ;;
  awaitedMatches <- call (awaitedPattern E sourceCode) ;;
  acc2 <- forEach awaitedMatches acc1 (awaitedStep sourceCode lineOffset) ;;
  ret (fst (fst acc2)).

(** The metadata of a node with a line number and a return type. *)
Definition lineAndType (line : nat) (returnType : option string)
    : NodeMetadata :=
  mkNodeMetadata (Some line) None None None None None None None returnType.

(** The body of the loop of [parseSubOrchestrations]. *)
Definition subOrchStep (sourceCode : string) (lineOffset : nat)
    (acc : list WorkflowNode * nat) (m : SubOrchMatch)
    : M (list WorkflowNode * nat) :=
  let '(nodes, index) := acc in
  let outputVar := orUndefined (smOutput m) in
  let orchName := smOrchestration m in
  let inputExpr := option_map trim (smInput m) in
  let nodeId := ("suborch-" ++ ofNat index)%string in
  Python.registerOutput outputVar nodeId ;;;
  dataSources <- analyze inputExpr ;;
  ret (nodes ++
       [Python.withData
          (createNode nodeId TSubOrchestration orchName
             (Some ("Child: " ++ orchName)%string)
             (Some (mkNodeMetadata
                      (Some (getLineNumber sourceCode (smIndex m) + lineOffset))
                      (Some dataSources) None None None None None None
                      (smReturnType m))))
          outputVar inputExpr (Some dataSources)],
       S index).

Definition parseSubOrchestrations (sourceCode : string) (lineOffset : nat)
    : M (list WorkflowNode) :=
  found <- call (subOrchPattern E sourceCode) ;;
  acc <- forEach found ([], 0) (subOrchStep sourceCode lineOffset) ;;
  ret (fst acc).

(** The body of the loop of [parseTimers]. *)
Definition timerStep (sourceCode : string) (lineOffset : nat)
    (acc : list WorkflowNode * nat) (m : TimerMatch)
    : M (list WorkflowNode * nat) :=
  let '(nodes, index) := acc in
  let outputVar := orUndefined (rmOutput m) in
  let duration := trim (rmDuration m) in
  let nodeId := ("timer-" ++ ofNat index)%string in
  Python.registerOutput outputVar nodeId ;;;
  ret (nodes ++
       [Python.withData
          (createNode nodeId TTimer "Timer"
             (Some (if String.eqb duration "" then "Wait Timer"
                    else ("Wait: " ++
                          str (substring (chars duration) 0 25))%string))
             (Some (lineAndType
                      (getLineNumber sourceCode (rmIndex m) + lineOffset)
                      None)))
          outputVar None None],
       S index).

Definition parseTimers (sourceCode : string) (lineOffset : nat)
    : M (list WorkflowNode) :=
  found <- call (timerPattern E sourceCode) ;;
  acc <- forEach found ([], 0) (timerStep sourceCode lineOffset) ;;
  ret (fst acc).

(** The body of the loop of [parseExternalEvents]. *)
Definition eventStep (sourceCode : string) (lineOffset : nat)
    (acc : list WorkflowNode * nat) (m : EventMatch)
    : M (list WorkflowNode * nat) :=
  let '(nodes, index) := acc in
  let outputVar := orUndefined (emOutput m) in
  let nodeId := ("event-" ++ ofNat index)%string in
  Python.registerOutput outputVar nodeId ;;;
  ret (nodes ++
       [Python.withData
          (createNode nodeId TEvent (emEvent m)
             (Some ("Event: " ++ emEvent m)%string)
             (Some (lineAndType
                      (getLineNumber sourceCode (emIndex m) + lineOffset)
                      (emReturnType m))))
          outputVar None
          (Some [mkSource event_data (emEvent m) None None])],
       S index).

Definition parseExternalEvents (sourceCode : string) (lineOffset : nat)
    : M (list WorkflowNode) :=
  found <- call (eventPattern E sourceCode) ;;
  acc <- forEach found ([], 0) (eventStep sourceCode lineOffset) ;;
  ret (fst acc).

(** [analyzeConditionSources(condition)] *)
Definition analyzeConditionSources (condition : string) : M (list DataSource) :=
  st <- this ;;
  inputRefs <- call (inputPattern E (workflowInputParam st) condition) ;;
  let sources :=
    map (fun path => mkSource workflow_input path None None) inputRefs in
  forEach (outputVariableMap st) sources
          (fun acc entry =>
             refs <- call (varPattern E (fst entry) condition) ;;
             ret (acc ++
                  map (fun path =>
                         mkSource activity_output path
                                  (mapGet (outputVariableMap st) (fst entry))
                                  None)
                      refs)).

(** The body of the loop of [parseDecisions]. *)
Definition decisionStep (sourceCode : string) (lineOffset : nat)
    (acc : list WorkflowNode * nat) (m : IfMatch)
    : M (list WorkflowNode * nat) :=
  let '(nodes, index) := acc in
  let condition := trim (imCondition m) in
  dataSources <- analyzeConditionSources condition ;;
  ret (nodes ++
       [Python.withData
          (createNode ("decision-" ++ ofNat index)%string TDecision
             ("Decision " ++ ofNat (S index))%string
             (Some (if 30 <? List.length (chars condition)
                    then (str (substring (chars condition) 0 30) ++ "...")%string
                    else condition))
             (Some (mkNodeMetadata
                      (Some (getLineNumber sourceCode (imIndex m) + lineOffset))
                      (Some dataSources) None None (Some condition)
                      None None None None)))
          None None (Some dataSources)],
       S index).

Definition parseDecisions (sourceCode : string) (lineOffset : nat)
    : M (list WorkflowNode) :=
  found <- call (ifPattern E sourceCode) ;;
  acc <- forEach found ([], 0) (decisionStep sourceCode lineOffset) ;;
  ret (fst acc).

(** The body of the loop of [parseParallelBlocks]. *)
Definition joinStep (sourceCode : string) (lineOffset : nat)
    (acc : list WorkflowNode * nat) (m : ParallelMatch)
    : M (list WorkflowNode * nat) :=
  let '(nodes, index) := acc in
  taskVars <- call (taskTokens E (pmTasks m)) ;;
  let nodeId := ("parallel-join-" ++ ofNat index)%string in
  Python.registerOutput (pmOutput m) nodeId ;;;
  forEach taskVars tt (Python.mapTask nodeId) ;;;
  st <- this ;;
  ret (nodes ++
       [createNode nodeId TParallel "Join"
          (Some (joinSign ++ " Join (" ++
                 ofNat (List.length taskVars) ++ " tasks)")%string)
          (Some (mkNodeMetadata
                   (Some (getLineNumber sourceCode (pmIndex m) + lineOffset))
                   None None None None (Some taskVars) None
                   (Some (flat_map
                            (fun t =>
                               if truthy (mapGet (parallelTaskMap st) t) then
                                 match mapGet (parallelTaskMap st) t with
                                 | Some a => [a]
                                 | None => []
                                 end
                               else [])
                            taskVars))
                   None))],
       S index).

Definition parseParallelBlocks (sourceCode : string) (lineOffset : nat)
    : M (list WorkflowNode) :=
  found <- call (parallelPattern E sourceCode) ;;
  acc <- forEach found ([], 0) (joinStep sourceCode lineOffset) ;;
  ret (fst acc).

(** [buildDataFlowMetadata(workflow, sourceCode)] *)
Definition activityDataFlow (node : WorkflowNode) : list ActivityDataFlow :=
  match nodeType node with
  | TActivity | TSubOrchestration | TEvent =>
      [mkActivityDataFlow (nodeId node) (nodeName node) (nodeType node)
         (match nodeDataSources node with Some l => l | None => [] end)
         (orUndefined (nodeOutput node))
         (if truthy (nodeOutput node) then
            match nodeMetadata node with
            | Some md => returnType md
            | None => None
            end
          else None)
         (match nodeMetadata node with
          | Some md => lineNumber md
          | None => None
          end)]
  | _ => []
  end.

Definition buildDataFlowMetadata (workflowName : string)
    (metadata : option WorkflowMetadata) (nodes : list WorkflowNode)
    : M DataFlowMetadata :=
  st <- this ;;
  ret (mkDataFlow workflowName
         (match metadata with Some md => mInputType md | None => None end)
         (match metadata with
          | Some md =>
              match mInputProperties md with
              | Some l => l
              | None => inputProperties st
              end
          | None => inputProperties st
          end)
         (workflowInputParam st)
         (flat_map activityDataFlow nodes)
         (outputVariableMap st)).

(** [generateId(prefix)] *)
Definition generateId (prefix : string) : string :=
  (prefix ++ "-" ++ ofNat (now E) ++ "-" ++ random E)%string.

Definition selectScope (sourceCode filePath : string)
    (targetWorkflowName : option string)
    (allWorkflows : list Python.WorkflowRange)
    : M (string * nat * string) :=
  if truthy targetWorkflowName && (0 <? List.length allWorkflows) then
    match find (fun w => match targetWorkflowName with
                         | Some t => String.eqb (Python.rName w) t
                         | None => false
                         end) allWorkflows with
    | Some targetWorkflow => ret (Python.scopeOf sourceCode targetWorkflow)
    | None =>
        name <- extractWorkflowName sourceCode filePath ;;
        ret (sourceCode, 0, name)
    end
  else
    match allWorkflows with
    | firstWorkflow :: _ => ret (Python.scopeOf sourceCode firstWorkflow)
    | [] =>
        name <- extractWorkflowName sourceCode filePath ;;
        ret (sourceCode, 0, name)
    end.

(** The recognisers in the order [parse] calls them; the nodes are
    pushed in this order. *)
Definition recognizeSteps (scopedSourceCode : string) (lineOffset : nat)
    : M (list WorkflowNode) :=
  activities <- parseActivities scopedSourceCode lineOffset ;;
  subOrchestrations <- parseSubOrchestrations scopedSourceCode lineOffset ;;
  timers <- parseTimers scopedSourceCode lineOffset ;;
  events <- parseExternalEvents scopedSourceCode lineOffset ;;
  decisions <- parseDecisions scopedSourceCode lineOffset ;;
  parallelBlocks <- parseParallelBlocks scopedSourceCode lineOffset ;;
  ret (activities ++ subOrchestrations ++ timers ++ events ++ decisions ++
       parallelBlocks).

(** The body of the [try] block of [parse]. *)
Definition parseBody (sourceCode filePath : string)
    (targetWorkflowName : option string) : M WorkflowDefinition :=
  resetState ;;;
  allWorkflows <- findAllWorkflows sourceCode ;;
  scope <- selectScope sourceCode filePath targetWorkflowName allWorkflows ;;
  let '(scopedSourceCode, lineOffset, workflowName) := scope in
  metadata0 <- extractMetadata sourceCode scopedSourceCode ;;
  extractWorkflowInputInfo scopedSourceCode ;;;
  metadata1 <- CSharp.extractReturnInfo (returns E) scopedSourceCode
                                        (Some metadata0) ;;
  steps <- recognizeSteps scopedSourceCode lineOffset ;;
  let nodes := Model.addStartEndNodes steps in
  dataFlow <- buildDataFlowMetadata workflowName metadata1 nodes ;;
  st <- this ;;
  let edges := Assembler.buildEdgesWithDataFlow (parallelGroupMap st) nodes in
  ret (mkWorkflow (generateId workflowName) workflowName csharp filePath
         nodes edges metadata1 (Some dataFlow) lineOffset).

(** [parse(sourceCode, filePath, targetWorkflowName)] *)
Definition parse (sourceCode filePath : string)
    (targetWorkflowName : option string) : Inst -> ParseResult * Inst :=
  tryCatch (parseBody sourceCode filePath targetWorkflowName).

End Extractor.

End CSharpParser.

(** ** The JavaScript extractor: input expressions and their sources *)

Module JavaScriptInput.

Import Js Model Classifier Entries.

Definition backtick : ascii := ascii_of_nat 96.

(** [parseKeyValue(str)]: a text without a colon is a shorthand
    property. *)
Definition parseKeyValue (s : string) : option (string * string) :=
  let t := chars s in
  match indexOf t (chars ":") 0 with
  | None => Some (trim s, trim s)
  | Some colonIdx =>
      Some (removeQuotes (trim (str (slice t 0 colonIdx))),
            trim (str (skipn (colonIdx + 1) t)))
  end.

(** [parseObjectEntries(content)] *)
Definition parseObjectEntries (content : string) : list (string * string) :=
  entryLoop parseKeyValue (chars content) 0%Z [] [].

Definition quoted (expr : string) : bool :=
  let d := String dquote "" in
  let b := String backtick "" in
  (startsWith expr d && endsWith expr d) ||
  (startsWith expr "'" && endsWith expr "'") ||
  (startsWith expr b && endsWith expr b).

(** The test of the pattern for a variable reference: a word, then any
    number of times a dot and a word or a bracketed word, then the
    end. *)
Fixpoint accessChain (fuel : nat) (t : list ascii) : bool :=
  match fuel with
  | 0 => false
  | S f =>
      match t with
      | [] => true
      | c :: t1 =>
          if Ascii.eqb c "."%char then
            match takeWord t1 with
            | [] => false
            | _ => accessChain f (dropWord t1)
            end
          else if Ascii.eqb c "["%char then
            match takeWord t1 with
            | [] => false
            | _ =>
                match dropWord t1 with
                | e :: t2 =>
                    if Ascii.eqb e "]"%char then accessChain f t2 else false
                | [] => false
                end
            end
          else false
      end
  end.

Definition looksLikeReference (expr : string) : bool :=
  let t := chars expr in
  match takeWord t with
  | [] => false
  | _ => accessChain (S (List.length t)) (dropWord t)
  end.

(** [classifyExpression(expr, targetProperty)] *)
Definition classifyExpression (inputParam : string) (outputVariableMap : JsMap)
    (expr : string) (targetProperty : option string) : DataSource :=
  if rooted expr inputParam then
    mkSource workflow_input expr None targetProperty
  else
    match producerOf outputVariableMap expr with
    | Some (_, activityId) =>
        mkSource activity_output expr (Some activityId) targetProperty
    | None =>
        if quoted expr then mkSource literal expr None targetProperty
        else if looksLikeReference expr then
          mkSource workflow_input expr None targetProperty
        else mkSource literal expr None targetProperty
    end.

(** [analyzeDataSource(inputExpr)] *)
Definition analyzeDataSource (inputParam : string) (outputVariableMap : JsMap)
    (inputExpr : option string) : list DataSource :=
  if negb (truthy inputExpr) then []
  else
    match inputExpr with
    | None => []
    | Some expr =>
        if startsWith expr "{" && endsWith expr "}" then
          let t := chars expr in
          map (fun entry =>
                 classifyExpression inputParam outputVariableMap
                                    (snd entry) (Some (fst entry)))
              (parseObjectEntries (str (slice t 1 (List.length t - 1))))
        else [classifyExpression inputParam outputVariableMap expr None]
    end.

(** The loop variables of [extractInputExpression]. *)
Record argScan : Type := mkArgScan {
  pos : nat;
  depth : nat;
  argStart : option nat;
  argCount : nat;
  inString : option ascii
}.

Definition isQuote (c : ascii) : bool :=
  Ascii.eqb c dquote || Ascii.eqb c squote || Ascii.eqb c backtick.

(** One iteration of the [while] loop. *)
Definition argStep (t : list ascii) (st : argScan) : argScan :=
  let i := pos st in
  match at_ t i with
  | None => st
  | Some char =>
      let ins :=
        if isQuote char && negb (isChar (before t i) backslash) then
          match inString st with
          | None => Some char
          | Some q => if Ascii.eqb q char then None else Some q
          end
        else inString st in
      match ins with
      | Some _ =>
          mkArgScan (S i) (depth st) (argStart st) (argCount st) ins
      | None =>
          let depth1 := if opensBracket char then S (depth st) else depth st in
          let depth2 :=
            if closesBracket char then Nat.pred depth1 else depth1 in
          if Ascii.eqb char ","%char && (depth2 =? 1) then
            mkArgScan (S i) depth2
                      (if S (argCount st) =? 1 then Some (S i)
                       else argStart st)
                      (S (argCount st)) ins
          else mkArgScan (S i) depth2 (argStart st) (argCount st) ins
      end
  end.

Definition argRunning (t : list ascii) (st : argScan) : bool :=
  (pos st <? List.length t) && (0 <? depth st).

Fixpoint argLoop (fuel : nat) (t : list ascii) (st : argScan) : argScan :=
  match fuel with
  | 0 => st
  | S f => if argRunning t st then argLoop f t (argStep t st) else st
  end.

Definition argEnd (t : list ascii) (parenStart : nat) : argScan :=
  argLoop (List.length t) t (mkArgScan (parenStart + 1) 1 None 0 None).

(** [extractInputExpression(sourceCode, matchIndex)] *)
Definition extractInputExpression (sourceCode : string) (matchIndex : nat)
    : option string :=
  let t := chars sourceCode in
  match indexOf t (chars "callActivity") matchIndex with
  | None => None
  | Some callStart =>
      match indexOf t (chars "(") callStart with
      | None => None
      | Some parenStart =>
          let st := argEnd t parenStart in
          match argStart st with
          | Some a => Some (trim (str (substring t a (pos st - 1))))
          | None => None
          end
      end
  end.

End JavaScriptInput.

(** ** The JavaScript/TypeScript extractor ([javascriptParser.ts]):
    [parse] and the step recognisers *)

Module JavaScriptParser.

Import Js Model Effects Classifier.

(** What one match of a step pattern yields: [match.index] and the
    capture groups the extractor reads ([None]: the group took no part). *)
Record TaskMatch : Type := mkTaskMatch {
  tmIndex : nat; tmTaskVar : string; tmActivity : string }.
Record AwaitedMatch : Type := mkAwaitedMatch {
  amIndex : nat; amOutput : option string; amActivity : string }.
Record VarMatch : Type := mkVarMatch { vmIndex : nat; vmActivity : string }.
Record SubOrchMatch : Type := mkSubOrchMatch {
  smIndex : nat; smOutput : option string; smOrchestration : string;
  smInput : option string }.
Record TimerMatch : Type := mkTimerMatch {
  rmIndex : nat; rmOutput : option string; rmDuration : string }.
Record EventMatch : Type := mkEventMatch {
  emIndex : nat; emOutput : option string; emEvent : string }.
Record IfMatch : Type := mkIfMatch { imIndex : nat; imCondition : string }.
Record ParallelMatch : Type := mkParallelMatch {
  pmIndex : nat; pmDestructured : option string; pmSingle : option string;
  pmTasks : string }.

(** The runtime as the extractor uses it: the clock and the random
    source of [generateId], and for every regular expression that is not
    written out by hand the matches it yields on a text, in the order
    [exec] yields them.  A call may throw.  [returns] holds the two
    patterns of [extractReturnInfo]. *)
Record Engine : Type := mkEngine {
  now : nat;
  random : string;
  generatorPattern : string -> Thrown + list (string * nat);
  arrowPattern : string -> Thrown + list (string * nat);
  exportedName : string -> Thrown + option string;
  registeredName : string -> Thrown + option string;
  generatorName : string -> Thrown + option string;
  arrowName : string -> Thrown + option string;
  jsdocPattern : string -> Thrown + option string;
  typePattern : string -> Thrown + option (string * option string);
  interfacePattern : string -> string -> Thrown + option string;
  propPattern : string -> Thrown + list string;
  generatorParam : string -> Thrown + option string;
  arrowParam : string -> Thrown + option string;
  functionParam : string -> Thrown + option string;
  returns : JavaScript.Engine;
  taskPattern : string -> Thrown + list TaskMatch;
  awaitedPattern : string -> Thrown + list AwaitedMatch;
  varActivityPattern : string -> Thrown + list VarMatch;
  subOrchPattern : string -> Thrown + list SubOrchMatch;
  timerPattern : string -> Thrown + list TimerMatch;
  eventPattern : string -> Thrown + list EventMatch;
  ifPattern : string -> Thrown + list IfMatch;
  inputPattern : string -> string -> Thrown + list string;
  varPattern : string -> string -> Thrown + list string;
  parallelPattern : string -> Thrown + list ParallelMatch;
  taskTokens : string -> Thrown + list string
}.

(** [if (!allMatches.some(m => m.name === name)) allMatches.push(...)] *)
Definition addArrow (allMatches : list (string * nat)) (m : string * nat)
    : list (string * nat) :=
  if existsb (fun x => String.eqb (fst x) (fst m)) allMatches
  then allMatches
  else allMatches ++ [m].

(** [allMatches.sort((a, b) => a.startIndex - b.startIndex)].  The sort
    of the runtime is stable. *)
Fixpoint insertByStart (x : string * nat) (l : list (string * nat))
    : list (string * nat) :=
  match l with
  | [] => [x]
  | y :: l' => if snd x <=? snd y then x :: l else y :: insertByStart x l'
  end.

Definition sortByStart (l : list (string * nat)) : list (string * nat) :=
  fold_right insertByStart [] l.

(** [fileName.replace(/\.(js|ts|mjs|mts)$/, '')]: the pattern matches at
    the dot of one of the four extensions when it ends the name. *)
Definition dropExtension (s : string) : string :=
  let t := chars s in
  if endsWith s ".js" || endsWith s ".ts" then
    str (firstn (List.length t - 3) t)
  else if endsWith s ".mjs" || endsWith s ".mts" then
    str (firstn (List.length t - 4) t)
  else s.

(** [line.replace(/^\s*\*\s?/, '')]: when the first character after the
    leading spaces is an asterisk, the spaces, the asterisk and one
    space after it are removed. *)
Definition dropStar (t : list ascii) : list ascii :=
  match dropSpaces t with
  | c :: t1 =>
      if Ascii.eqb c "*"%char then
        match t1 with
        | d :: t2 => if isSpace d then t2 else t1
        | [] => []
        end
      else t
  | [] => t
  end.

(** [lines.join(sep)] *)
Fixpoint joinWith (sep : string) (l : list string) : string :=
  match l with
  | [] => ""
  | x :: rest =>
      match rest with
      | [] => x
      | _ :: _ => x ++ sep ++ joinWith sep rest
      end
  end.

(** The description made of group 1 of the documentation comment: the
    lines without their leading asterisk, trimmed, the ones that start
    with [@] left out, joined by a space, trimmed. *)
Definition describe (text : string) : string :=
  trim (joinWith " "
          (filter (fun line => negb (startsWith line "@"))
                  (map (fun line => trim (str (dropStar (chars line))))
                       (Python.splitOn newline (chars text) [])))).

(** [sourceCode.substring(Math.max(0, index - 20), index)
      .match(/yield|await/)] *)
Definition awaitedBefore (sourceCode : string) (index : nat) : bool :=
  let t := substring (chars sourceCode) (index - 20) index in
  match indexOf t (chars "yield") 0, indexOf t (chars "await") 0 with
  | None, None => false
  | _, _ => true
  end.

(** The three characters that open the label of a join node in this
    file: U+00E2, U+00AB and U+00B4. *)
Definition joinSign : string :=
  String (ascii_of_nat 226) (String (ascii_of_nat 171)
         (String (ascii_of_nat 180) "")).

(** The loop-carried variables of [parseActivities]: the nodes, [index]
    and [seenLines]. *)
Definition Activities : Type := list WorkflowNode * nat * list nat.

Section Extractor.

Variable E : Engine.

(** [this.language], which the constructor was given. *)
Variable language : SupportedLanguage.

Open Scope js_scope.

(** [findAllWorkflows(sourceCode)].  The ranges are made of the sorted
    matches as in the C# extractor.  A match of one pattern does not
    start where a match of the other starts, so after the sort
    [next.startIndex - 1] is not negative. *)
Definition findAllWorkflows (sourceCode : string)
    : M (list Python.WorkflowRange) :=
  generators <- call (generatorPattern E sourceCode) ;;
  arrows <- call (arrowPattern E sourceCode) ;;
  ret (CSharpParser.workflowRanges sourceCode
         (sortByStart (fold_left addArrow arrows generators))).

(** [extractWorkflowName(sourceCode, filePath)] *)
Definition extractWorkflowName (sourceCode filePath : string) : M string :=
  exportMatch <- call (exportedName E sourceCode) ;;
  match exportMatch with
  | Some name => ret name
  | None =>
      registerMatch <- call (registeredName E sourceCode) ;;
      match registerMatch with
      | Some name => ret name
      | None =>
          generatorMatch <- call (generatorName E sourceCode) ;;
          match generatorMatch with
          | Some name => ret name
          | None =>
              arrowMatch <- call (arrowName E sourceCode) ;;
              match arrowMatch with
              | Some name => ret name
              | None =>
                  let a := Python.lastSegment "/"%char filePath in
                  let b := Python.lastSegment backslash filePath in
                  let fileName :=
                    if negb (String.eqb a "") then a
                    else if negb (String.eqb b "") then b
                    else "Unknown" in
                  ret (dropExtension fileName)
              end
          end
      end
  end.

(** [extractMetadata(fullSource, scopedSource)] *)
Definition extractMetadata (fullSource scopedSource : string)
    : M WorkflowMetadata :=
  jsdocMatch <- call (jsdocPattern E scopedSource) ;;
  let description :=
    match jsdocMatch with
    | Some text => orUndefined (Some (describe text))
    | None => None
    end in
  typeMatch <- call (typePattern E scopedSource) ;;
  let inputType := option_map fst typeMatch in
  let outputType :=
    match typeMatch with
    | Some (_, second) => orUndefined second
    | None => None
    end in
  props <-
    (if truthy inputType then
       match inputType with
       | Some ty =>
           interfaceMatch <- call (interfacePattern E ty fullSource) ;;
           match interfaceMatch with
           | Some text => call (propPattern E text)
           | None => ret []
           end
       | None => ret []
       end
     else ret []) ;;
  ret (mkMetadata (Some props) description inputType outputType
                  None None None).

(** [extractWorkflowInputInfo(sourceCode)] *)
Definition extractWorkflowInputInfo (sourceCode : string) : M unit :=
  generatorMatch <- call (generatorParam E sourceCode) ;;
  match generatorMatch with
  | Some p => setWorkflowInputParam p
  | None =>
      arrowMatch <- call (arrowParam E sourceCode) ;;
      match arrowMatch with
      | Some p => setWorkflowInputParam p
      | None =>
          funcMatch <- call (functionParam E sourceCode) ;;
          match funcMatch with
          | Some p => setWorkflowInputParam p
          | None => ret tt
          end
      end
  end.

(** [this.analyzeDataSource(inputExpr)] in the current state of the
    instance. *)
Definition analyze (inputExpr : option string) : M (list DataSource) :=
  st <- this ;;
  ret (JavaScriptInput.analyzeDataSource (workflowInputParam st)
                                         (outputVariableMap st) inputExpr).

(** The body of the loop over the task assignments. *)
Definition taskStep (sourceCode : string) (lineOffset : nat)
    (acc : Activities) (m : TaskMatch) : M Activities :=
  let '(nodes, index, seenLines) := acc in
  let taskVar := tmTaskVar m in
  let lineNum := getLineNumber sourceCode (tmIndex m) + lineOffset in
  if existsb (Nat.eqb lineNum) seenLines then ret acc
  else
    let inputExpr :=
      JavaScriptInput.extractInputExpression sourceCode (tmIndex m) in
    let nodeId := ("activity-" ++ ofNat index)%string in
    let isParallel := negb (awaitedBefore sourceCode (tmIndex m)) in
    (if isParallel then setParallelTask taskVar nodeId else ret tt) ;;;
    dataSources <- analyze inputExpr ;;
    (if isParallel then ret tt else setOutputVariable taskVar nodeId) ;;;
    ret (nodes ++
         [Python.activityNode nodeId (tmActivity m) lineNum dataSources
            isParallel (if isParallel then Some taskVar else None)
            (Some taskVar) inputExpr],
         S index, seenLines ++ [lineNum]).

(** The body of the loop over the awaited activities. *)
Definition awaitedStep (sourceCode : string) (lineOffset : nat)
    (acc : Activities) (m : AwaitedMatch) : M Activities :=
  let '(nodes, index, seenLines) := acc in
  let outputVar := orUndefined (amOutput m) in
  let lineNum := getLineNumber sourceCode (amIndex m) + lineOffset in
  if existsb (Nat.eqb lineNum) seenLines then ret acc
  else
    let inputExpr :=
      JavaScriptInput.extractInputExpression sourceCode (amIndex m) in
    let nodeId := ("activity-" ++ ofNat index)%string in
    Python.registerOutput outputVar nodeId ;;;
    dataSources <- analyze inputExpr ;;
    ret (nodes ++
         [Python.activityNode nodeId (amActivity m) lineNum dataSources
            false None outputVar inputExpr],
         S index, seenLines ++ [lineNum]).

(** The body of the loop over the activities named by a variable. *)
Definition varStep (sourceCode : string) (lineOffset : nat)
    (acc : Activities) (m : VarMatch) : M Activities :=
  let '(nodes, index, seenLines) := acc in
  let activityName := vmActivity m in
  let lineNum := getLineNumber sourceCode (vmIndex m) + lineOffset in
  if existsb (Nat.eqb lineNum) seenLines then ret acc
  else if negb (startsWith activityName (String dquote "")) &&
          negb (startsWith activityName "'") then
    ret (nodes ++
         [createNode ("activity-" ++ ofNat index)%string TActivity
            activityName (Some (activityName ++ " (var)")%string)
            (Some (Python.lineOnly lineNum))],
         S index, seenLines ++ [lineNum])
  else ret (nodes, index, seenLines ++ [lineNum]).

(** [parseActivities(sourceCode, lineOffset)] *)
Definition parseActivities (sourceCode : string) (lineOffset : nat)
    : M (list WorkflowNode) :=
  taskMatches <- call (taskPattern E sourceCode) ;;
  acc1 <- forEach taskMatches ([], 0, []) (taskStep sourceCode lineOffset) ;;
  awaitedMatches <- call (awaitedPattern E sourceCode) ;;
  acc2 <- forEach awaitedMatches acc1 (awaitedStep sourceCode lineOffset) ;;
  varMatches <- call (varActivityPattern E sourceCode) ;;
  acc3 <- forEach varMatches acc2 (varStep sourceCode lineOffset) ;;
  ret (fst (fst acc3)).

(** The body of the loop of [parseParallelBlocks]. *)
Definition joinStep (sourceCode : string) (lineOffset : nat)
    (acc : list WorkflowNode * nat) (m : ParallelMatch)
    : M (list WorkflowNode * nat) :=
  let '(nodes, index) := acc in
  let destructuredVars :=
    match pmDestructured m with
    | Some text => map trim (Python.splitOn ","%char (chars text) [])
    | None => []
    end in
  let outputs :=
    if truthy (pmSingle m) then
      match pmSingle m with
      | Some singleVar => [singleVar]
      | None => []
      end
    else destructuredVars in
  taskVars <- call (taskTokens E (pmTasks m)) ;;
  let nodeId := ("parallel-join-" ++ ofNat index)%string in
  forEach outputs tt
          (fun _ outputVar => Python.registerOutput (Some outputVar) nodeId) ;;;
  forEach taskVars tt (Python.mapTask nodeId) ;;;
  st <- this ;;
  ret (nodes ++
       [createNode nodeId TParallel "Join"
          (Some (joinSign ++ " Join (" ++ ofNat (List.length taskVars) ++
                 " tasks)")%string)
          (Some (mkNodeMetadata
                   (Some (getLineNumber sourceCode (pmIndex m) + lineOffset))
                   None None None None (Some taskVars) (Some outputs)
                   (Some (flat_map
                            (fun t =>
                               if truthy (mapGet (parallelTaskMap st) t) then
                                 match mapGet (parallelTaskMap st) t with
                                 | Some a => [a]
                                 | None => []
                                 end
                               else [])
                            taskVars))
                   None))],
       S index).

Definition parseParallelBlocks (sourceCode : string) (lineOffset : nat)
    : M (list WorkflowNode) :=
  found <- call (parallelPattern E sourceCode) ;;
  acc <- forEach found ([], 0) (joinStep sourceCode lineOffset) ;;
  ret (fst acc).

(** The body of the loop of [parseSubOrchestrations]. *)
Definition subOrchStep (sourceCode : string) (lineOffset : nat)
    (acc : list WorkflowNode * nat) (m : SubOrchMatch)
    : M (list WorkflowNode * nat) :=
  let '(nodes, index) := acc in
  let outputVar := orUndefined (smOutput m) in
  let orchName := smOrchestration m in
  let inputExpr := option_map trim (smInput m) in
  let nodeId := ("suborch-" ++ ofNat index)%string in
  Python.registerOutput outputVar nodeId ;;;
  dataSources <- analyze inputExpr ;;
  ret (nodes ++
       [Python.withData
          (createNode nodeId TSubOrchestration orchName
             (Some ("Child: " ++ orchName)%string)
             (Some (mkNodeMetadata
                      (Some (getLineNumber sourceCode (smIndex m) + lineOffset))
                      (Some dataSources) None None None None None None None)))
          outputVar inputExpr (Some dataSources)],
       S index).

Definition parseSubOrchestrations (sourceCode : string) (lineOffset : nat)
    : M (list WorkflowNode) :=
  found <- call (subOrchPattern E sourceCode) ;;
  acc <- forEach found ([], 0) (subOrchStep sourceCode lineOffset) ;;
  ret (fst acc).

(** The body of the loop of [parseTimers]. *)
Definition timerStep (sourceCode : string) (lineOffset : nat)
    (acc : list WorkflowNode * nat) (m : TimerMatch)
    : M (list WorkflowNode * nat) :=
  let '(nodes, index) := acc in
  let outputVar := orUndefined (rmOutput m) in
  let duration := trim (rmDuration m) in
  let nodeId := ("timer-" ++ ofNat index)%string in
  Python.registerOutput outputVar nodeId ;;;
  ret (nodes ++
       [Python.withData
          (createNode nodeId TTimer "Timer"
             (Some (if String.eqb duration "" then "Wait Timer"
                    else ("Wait: " ++
                          str (substring (chars duration) 0 20))%string))
             (Some (Python.lineOnly
                      (getLineNumber sourceCode (rmIndex m) + lineOffset))))
          outputVar None None],
       S index).

Definition parseTimers (sourceCode : string) (lineOffset : nat)
    : M (list WorkflowNode) :=
  found <- call (timerPattern E sourceCode) ;;
  acc <- forEach found ([], 0) (timerStep sourceCode lineOffset) ;;
  ret (fst acc).

(** The body of the loop of [parseExternalEvents]. *)
Definition eventStep (sourceCode : string) (lineOffset : nat)
    (acc : list WorkflowNode * nat) (m : EventMatch)
    : M (list WorkflowNode * nat) :=
  let '(nodes, index) := acc in
  let outputVar := orUndefined (emOutput m) in
  let nodeId := ("event-" ++ ofNat index)%string in
  Python.registerOutput outputVar nodeId ;;;
  ret (nodes ++
       [Python.withData
          (createNode nodeId TEvent (emEvent m)
             (Some ("Event: " ++ emEvent m)%string)
             (Some (Python.lineOnly
                      (getLineNumber sourceCode (emIndex m) + lineOffset))))
          outputVar None
          (Some [mkSource event_data (emEvent m) None None])],
       S index).

Definition parseExternalEvents (sourceCode : string) (lineOffset : nat)
    : M (list WorkflowNode) :=
  found <- call (eventPattern E sourceCode) ;;
  acc <- forEach found ([], 0) (eventStep sourceCode lineOffset) ;;
  ret (fst acc).

(** [analyzeConditionSources(condition)] *)
Definition analyzeConditionSources (condition : string) : M (list DataSource) :=
  st <- this ;;
  inputRefs <- call (inputPattern E (workflowInputParam st) condition) ;;
  let sources :=
    map (fun path => mkSource workflow_input path None None) inputRefs in
  forEach (outputVariableMap st) sources
          (fun acc entry =>
             refs <- call (varPattern E (fst entry) condition) ;;
             ret (acc ++
                  map (fun path =>
                         mkSource activity_output path
                                  (mapGet (outputVariableMap st) (fst entry))
                                  None)
                      refs)).

(** The body of the loop of [parseDecisions]. *)
Definition decisionStep (sourceCode : string) (lineOffset : nat)
    (acc : list WorkflowNode * nat) (m : IfMatch)
    : M (list WorkflowNode * nat) :=
  let '(nodes, index) := acc in
  let condition := trim (imCondition m) in
  dataSources <- analyzeConditionSources condition ;;
  ret (nodes ++
       [Python.withData
          (createNode ("decision-" ++ ofNat index)%string TDecision
             ("Decision " ++ ofNat (S index))%string
             (Some (if 30 <? List.length (chars condition)
                    then (str (substring (chars condition) 0 30) ++ "...")%string
                    else condition))
             (Some (mkNodeMetadata
                      (Some (getLineNumber sourceCode (imIndex m) + lineOffset))
                      (Some dataSources) None None (Some condition)
                      None None None None)))
          None None (Some dataSources)],
       S index).

Definition parseDecisions (sourceCode : string) (lineOffset : nat)
    : M (list WorkflowNode) :=
  found <- call (ifPattern E sourceCode) ;;
  acc <- forEach found ([], 0) (decisionStep sourceCode lineOffset) ;;
  ret (fst acc).

(** [generateId(prefix)] *)
Definition generateId (prefix : string) : string :=
  (prefix ++ "-" ++ ofNat (now E) ++ "-" ++ random E)%string.

Definition selectScope (sourceCode filePath : string)
    (targetWorkflowName : option string)
    (allWorkflows : list Python.WorkflowRange)
    : M (string * nat * string) :=
  if truthy targetWorkflowName && (0 <? List.length allWorkflows) then
    match find (fun w => match targetWorkflowName with
                         | Some t => String.eqb (Python.rName w) t
                         | None => false
                         end) allWorkflows with
    | Some targetWorkflow => ret (Python.scopeOf sourceCode targetWorkflow)
    | None =>
        name <- extractWorkflowName sourceCode filePath ;;
        ret (sourceCode, 0, name)
    end
  else
    match allWorkflows with
    | firstWorkflow :: _ => ret (Python.scopeOf sourceCode firstWorkflow)
    | [] =>
        name <- extractWorkflowName sourceCode filePath ;;
        ret (sourceCode, 0, name)
    end.

(** The recognisers in the order [parse] calls them; the nodes are
    pushed in this order. *)
Definition recognizeSteps (scopedSourceCode : string) (lineOffset : nat)
    : M (list WorkflowNode) :=
  activities <- parseActivities scopedSourceCode lineOffset ;;
  subOrchestrations <- parseSubOrchestrations scopedSourceCode lineOffset ;;
  timers <- parseTimers scopedSourceCode lineOffset ;;
  events <- parseExternalEvents scopedSourceCode lineOffset ;;
  decisions <- parseDecisions scopedSourceCode lineOffset ;;
  parallelBlocks <- parseParallelBlocks scopedSourceCode lineOffset ;;
  ret (activities ++ subOrchestrations ++ timers ++ events ++ decisions ++
       parallelBlocks).

(** The body of the [try] block of [parse].  [buildDataFlowMetadata] and
    the assembly of the edges read as in the Python extractor. *)
Definition parseBody (sourceCode filePath : string)
    (targetWorkflowName : option string) : M WorkflowDefinition :=
  resetState ;;;
  allWorkflows <- findAllWorkflows sourceCode ;;
  scope <- selectScope sourceCode filePath targetWorkflowName allWorkflows ;;
  let '(scopedSourceCode, lineOffset, workflowName) := scope in
  metadata0 <- extractMetadata sourceCode scopedSourceCode ;;
  extractWorkflowInputInfo scopedSourceCode ;;;
  metadata1 <- JavaScript.extractReturnInfo (returns E) scopedSourceCode
                                            (Some metadata0) ;;
  steps <- recognizeSteps scopedSourceCode lineOffset ;;
  let nodes := Model.addStartEndNodes steps in
  dataFlow <- Python.buildDataFlowMetadata workflowName metadata1 nodes ;;
  st <- this ;;
  let edges := Assembler.buildEdgesWithDataFlow (parallelGroupMap st) nodes in
  ret (mkWorkflow (generateId workflowName) workflowName language filePath
         nodes edges metadata1 (Some dataFlow) lineOffset).

(** [parse(sourceCode, filePath, targetWorkflowName)] *)
Definition parse (sourceCode filePath : string)
    (targetWorkflowName : option string) : Inst -> ParseResult * Inst :=
  tryCatch (parseBody sourceCode filePath targetWorkflowName).

End Extractor.

End JavaScriptParser.

(** ** Shapes of texts the properties below are about *)

Module Shapes.

Import Js Model Classifier Entries.

(** The depth after the character [c] is read at depth [d]. *)
Definition depthStep (d : Z) (c : ascii) : Z :=
  let d1 := if opensBracket c then (d + 1)%Z else d in
  if closesBracket c then (d1 - 1)%Z else d1.

(** [sealed d seg]: read from depth [d], the segment holds no comma that
    the entry loop takes for a separator (a comma after which the depth
    is zero) and ends at depth zero. *)
Fixpoint sealed (d : Z) (seg : list ascii) : bool :=
  match seg with
  | [] => (d =? 0)%Z
  | c :: r =>
      negb (Ascii.eqb c ","%char && (depthStep d c =? 0)%Z) &&
      sealed (depthStep d c) r
  end.

(** The segments with a comma between neighbours. *)
Fixpoint joinSegments (segs : list (list ascii)) : list ascii :=
  match segs with
  | [] => []
  | s :: rest =>
      match rest with
      | [] => s
      | _ :: _ => s ++ ","%char :: joinSegments rest
      end
  end.

(** The entries of the segments: one reading per segment, the last
    segment being read only when it is not blank. *)
Fixpoint readSegments (parseEntry : string -> option (string * string))
    (entries : list (string * string)) (segs : list (list ascii))
    : list (string * string) :=
  match segs with
  | [] => entries
  | s :: rest =>
      match rest with
      | [] =>
          if String.eqb (trim (str s)) "" then entries
          else pushParsed parseEntry entries s
      | _ :: _ => readSegments parseEntry (pushParsed parseEntry entries s) rest
      end
  end.

(** A text without brackets, quotes and backslashes, as an argument
    free of nesting is. *)
Definition plainChar (c : ascii) : bool :=
  negb (opensBracket c) && negb (closesBracket c) &&
  negb (Ascii.eqb c dquote) && negb (Ascii.eqb c squote) &&
  negb (Ascii.eqb c JavaScriptInput.backtick) &&
  negb (Ascii.eqb c backslash).

Definition plain (t : list ascii) : bool := forallb plainChar t.

Definition noComma (t : list ascii) : bool :=
  forallb (fun c => negb (Ascii.eqb c ","%char)) t.

(** Nothing, or a string literal in double quotes whose body holds no
    double quote and does not end in a backslash. *)
Definition plainLiteral (lit : list ascii) : Prop :=
  lit = [] \/
  exists body,
    lit = dquote :: body ++ [dquote] /\
    ~ In dquote body /\ last body dquote <> backslash.

(** A character that is no quote and no backslash. *)
Definition quoteless (c : ascii) : bool :=
  negb (Ascii.eqb c dquote) && negb (Ascii.eqb c squote) &&
  negb (Ascii.eqb c JavaScriptInput.backtick) &&
  negb (Ascii.eqb c backslash).

(** The depth after an argument scanner reads [c] at depth [d] outside
    a literal. *)
Definition argDepth (d : nat) (c : ascii) : nat :=
  let d1 := if opensBracket c then S d else d in
  if closesBracket c then Nat.pred d1 else d1.

(** [nested d b]: read from depth [d], the text [b] holds no quote,
    never closes the parenthesis of the call (the depth stays at 1 or
    above) and ends at depth 1. *)
Fixpoint nested (d : nat) (b : list ascii) : bool :=
  match b with
  | [] => d =? 1
  | c :: r =>
      quoteless c && (1 <=? argDepth d c) && nested (argDepth d c) r
  end.

End Shapes.

(** ** Identifiers and producers of the nodes of a graph *)

Module Links.

Import Js Model Effects.

(** The identifiers of the nodes. *)
Definition ids (ns : list WorkflowNode) : list string := map nodeId ns.

(** The values of a map. *)
Definition values (m : JsMap) : list string := map snd m.

(** The producers the data sources of a node name. *)
Definition producersOf (n : WorkflowNode) : list string :=
  match nodeDataSources n with
  | Some sources =>
      flat_map (fun s => match sourceActivityId s with
                         | Some id => [id]
                         | None => []
                         end) sources
  | None => []
  end.

(** [Linked ns st]: every value of the producer map and every producer
    named by a data source of a node of [ns] is the identifier of a node
    of [ns]. *)
Record Linked (ns : list WorkflowNode) (st : Inst) : Prop := {
  ln_map : incl (values (outputVariableMap st)) (ids ns);
  ln_sources : forall n, In n ns -> incl (producersOf n) (ids ns)
}.

(** The identifiers a counter gives: the prefix followed by 0, 1, ...,
    [n - 1]. *)
Definition numbered (p : string) (n : nat) : list string :=
  map (fun k => (p ++ ofNat k)%string) (seq 0 n).

(** The nodes and the counter of a recogniser loop agree. *)
Definition counted (p : string) (acc : list WorkflowNode * nat) : Prop :=
  ids (fst acc) = numbered p (snd acc).

(** What one iteration of a recogniser loop with prefix [p] does: it
    leaves the nodes, the counter and the producer map alone, or it
    pushes one node, named by the counter, whose producers are values
    of the producer map or the node itself, and adds to the producer
    map no value but the identifier of that node. *)
Definition Pushed (p : string) (acc : list WorkflowNode * nat) (st : Inst)
    (acc' : list WorkflowNode * nat) (st' : Inst) : Prop :=
  (acc' = acc /\ outputVariableMap st' = outputVariableMap st) \/
  exists n,
    acc' = (fst acc ++ [n], S (snd acc)) /\
    nodeId n = (p ++ ofNat (snd acc))%string /\
    incl (values (outputVariableMap st'))
         (nodeId n :: values (outputVariableMap st)) /\
    incl (producersOf n) (nodeId n :: values (outputVariableMap st)).

(** The identifiers of the step nodes: those of each recogniser, in the
    order [parse] calls them. *)
Definition stepIds (a c t e d r j : nat) : list string :=
  numbered "activity-" a ++ numbered "child-" c ++ numbered "timer-" t ++
  numbered "event-" e ++ numbered "decision-" d ++ numbered "retry-" r ++
  numbered "parallel-join-" j.

(** [es] holds a control edge into [n]. *)
Definition Entered (es : list WorkflowEdge) (n : WorkflowNode) : Prop :=
  exists e, In e es /\ Assembler.isControl e = true /\
            edgeTarget e = nodeId n.

(** A node that is neither the start node, nor a join, nor the end
    node. *)
Definition Plain (n : WorkflowNode) : Prop :=
  nodeType n <> TStart /\ nodeType n <> TParallel /\ nodeType n <> TEnd.

(** The state of the walk of [buildControlFlowEdges] over the sorted
    nodes [S] when it has visited [pre]: the cursor is set, on a node
    already visited or on a join; every plain node visited is entered by
    an edge; so is every node of a group already processed; and the
    group of every visited node that has one is processed. *)
Record Visited (g : JsMap) (S pre : list WorkflowNode) (w : Assembler.Walk)
    : Prop := {
  vs_cursor : pre <> [] ->
      exists l, Assembler.lastSequentialNode w = Some l /\ In l S /\
                nodeType l <> TEnd /\ (In l pre \/ nodeType l = TParallel);
  vs_entered : forall n, In n pre -> Plain n ->
      Entered (Assembler.walkEdges w) n;
  vs_groups : forall j p, In j (Assembler.processedParallelGroups w) ->
      In p (Assembler.groupOf g S j) -> Entered (Assembler.walkEdges w) p;
  vs_done : forall n j, In n pre -> mapGet g (nodeId n) = Some j ->
      In j (Assembler.processedParallelGroups w)
}.

End Links.

(** ** What the extractors return *)

Module Outcomes.

Import Js Model Effects.

(** [Returned w g]: a [parse] call of one of the three extractors (the
    Python one, the C# one, the JavaScript one with either language) has
    returned the workflow [w], and [g] is the group map the extractor
    holds after the call. *)
Inductive Returned (w : WorkflowDefinition) (g : JsMap) : Prop :=
| returned_python (E : Python.Engine) (sourceCode filePath : string)
    (target : option string) (st : Inst) :
    workflow (fst (Python.parse E sourceCode filePath target st)) = Some w ->
    g = parallelGroupMap (snd (Python.parse E sourceCode filePath target st)) ->
    Returned w g
| returned_csharp (E : CSharpParser.Engine) (sourceCode filePath : string)
    (target : option string) (st : Inst) :
    workflow (fst (CSharpParser.parse E sourceCode filePath target st))
      = Some w ->
    g = parallelGroupMap
          (snd (CSharpParser.parse E sourceCode filePath target st)) ->
    Returned w g
| returned_javascript (E : JavaScriptParser.Engine)
    (language : SupportedLanguage) (sourceCode filePath : string)
    (target : option string) (st : Inst) :
    workflow (fst (JavaScriptParser.parse E language sourceCode filePath
                                          target st))
      = Some w ->
    g = parallelGroupMap
          (snd (JavaScriptParser.parse E language sourceCode filePath
                                       target st)) ->
    Returned w g.

(** *** Exceptions inside [parse] *)

(** [error instanceof Error ? error.message : 'Unknown parsing error'] *)
Definition messageOf (error : Thrown) : string :=
  match error with
  | ThrownError msg => msg
  | ThrownOther => "Unknown parsing error"
  end.

(** [c], started in [st], throws [e]. *)
Definition throws {A : Type} (c : M A) (st : Inst) (e : Thrown) : Prop :=
  exists st', c st = Abrupt e st'.

(** [r'] is [r], or the exception [e] thrown in its place. *)
Definition either {A : Type} (e : Thrown) (r r' : Thrown + A) : Prop :=
  r' = r \/ r' = inl e.

(** [c'] does what [c] does, or throws [e]. *)
Definition sim {A : Type} (e : Thrown) (c c' : M A) : Prop :=
  forall st, c' st = c st \/ throws c' st e.

Module OfPython.

Section Steps.

Variable E : Python.Engine.

(** [e] is thrown by one of the recognisers, run in the order of
    [parse], the ones before it having returned. *)
Inductive ThrownInSteps (scoped : string) (off : nat) (st : Inst)
    (e : Thrown) : Prop :=
| in_parseActivities :
    throws (Python.parseActivities E scoped off) st e ->
    ThrownInSteps scoped off st e
| in_parseChildWorkflows (a : list WorkflowNode) (s1 : Inst) :
    Python.parseActivities E scoped off st = Normal a s1 ->
    throws (Python.parseChildWorkflows E scoped off) s1 e ->
    ThrownInSteps scoped off st e
| in_parseTimers (a b : list WorkflowNode) (s1 s2 : Inst) :
    Python.parseActivities E scoped off st = Normal a s1 ->
    Python.parseChildWorkflows E scoped off s1 = Normal b s2 ->
    throws (Python.parseTimers E scoped off) s2 e ->
    ThrownInSteps scoped off st e
| in_parseExternalEvents (a b c : list WorkflowNode) (s1 s2 s3 : Inst) :
    Python.parseActivities E scoped off st = Normal a s1 ->
    Python.parseChildWorkflows E scoped off s1 = Normal b s2 ->
    Python.parseTimers E scoped off s2 = Normal c s3 ->
    throws (Python.parseExternalEvents E scoped off) s3 e ->
    ThrownInSteps scoped off st e
| in_parseDecisions (a b c d : list WorkflowNode) (s1 s2 s3 s4 : Inst) :
    Python.parseActivities E scoped off st = Normal a s1 ->
    Python.parseChildWorkflows E scoped off s1 = Normal b s2 ->
    Python.parseTimers E scoped off s2 = Normal c s3 ->
    Python.parseExternalEvents E scoped off s3 = Normal d s4 ->
    throws (Python.parseDecisions E scoped off) s4 e ->
    ThrownInSteps scoped off st e
| in_parseRetryPolicies (a b c d f : list WorkflowNode)
    (s1 s2 s3 s4 s5 : Inst) :
    Python.parseActivities E scoped off st = Normal a s1 ->
    Python.parseChildWorkflows E scoped off s1 = Normal b s2 ->
    Python.parseTimers E scoped off s2 = Normal c s3 ->
    Python.parseExternalEvents E scoped off s3 = Normal d s4 ->
    Python.parseDecisions E scoped off s4 = Normal f s5 ->
    throws (Python.parseRetryPolicies E scoped off) s5 e ->
    ThrownInSteps scoped off st e
| in_parseParallelBlocks (a b c d f g : list WorkflowNode)
    (s1 s2 s3 s4 s5 s6 : Inst) :
    Python.parseActivities E scoped off st = Normal a s1 ->
    Python.parseChildWorkflows E scoped off s1 = Normal b s2 ->
    Python.parseTimers E scoped off s2 = Normal c s3 ->
    Python.parseExternalEvents E scoped off s3 = Normal d s4 ->
    Python.parseDecisions E scoped off s4 = Normal f s5 ->
    Python.parseRetryPolicies E scoped off s5 = Normal g s6 ->
    throws (Python.parseParallelBlocks E scoped off) s6 e ->
    ThrownInSteps scoped off st e.

(** [e] is thrown by one of the steps of the [try] block of [parse], in
    the state the steps before it left. *)
Inductive ThrownInside (sourceCode filePath : string)
    (target : option string) (st : Inst) (e : Thrown) : Prop :=
| in_findAllWorkflows (s0 : Inst) :
    resetState st = Normal tt s0 ->
    throws (Python.findAllWorkflows E sourceCode) s0 e ->
    ThrownInside sourceCode filePath target st e
| in_selectScope (s0 s1 : Inst) (all : list Python.WorkflowRange) :
    resetState st = Normal tt s0 ->
    Python.findAllWorkflows E sourceCode s0 = Normal all s1 ->
    throws (Python.selectScope E sourceCode filePath target all) s1 e ->
    ThrownInside sourceCode filePath target st e
| in_extractMetadata (s0 s1 s2 : Inst) (all : list Python.WorkflowRange)
    (scoped : string) (off : nat) (name : string) :
    resetState st = Normal tt s0 ->
    Python.findAllWorkflows E sourceCode s0 = Normal all s1 ->
    Python.selectScope E sourceCode filePath target all s1
      = Normal (scoped, off, name) s2 ->
    throws (Python.extractMetadata E sourceCode) s2 e ->
    ThrownInside sourceCode filePath target st e
| in_extractWorkflowInputInfo (s0 s1 s2 s3 : Inst)
    (all : list Python.WorkflowRange)
    (scoped : string) (off : nat) (name : string) (md0 : WorkflowMetadata) :
    resetState st = Normal tt s0 ->
    Python.findAllWorkflows E sourceCode s0 = Normal all s1 ->
    Python.selectScope E sourceCode filePath target all s1
      = Normal (scoped, off, name) s2 ->
    Python.extractMetadata E sourceCode s2 = Normal md0 s3 ->
    throws (Python.extractWorkflowInputInfo E scoped) s3 e ->
    ThrownInside sourceCode filePath target st e
| in_extractReturnInfo (s0 s1 s2 s3 s4 : Inst)
    (all : list Python.WorkflowRange)
    (scoped : string) (off : nat) (name : string) (md0 : WorkflowMetadata) :
    resetState st = Normal tt s0 ->
    Python.findAllWorkflows E sourceCode s0 = Normal all s1 ->
    Python.selectScope E sourceCode filePath target all s1
      = Normal (scoped, off, name) s2 ->
    Python.extractMetadata E sourceCode s2 = Normal md0 s3 ->
    Python.extractWorkflowInputInfo E scoped s3 = Normal tt s4 ->
    throws (Python.extractReturnInfo E scoped (Some md0)) s4 e ->
    ThrownInside sourceCode filePath target st e
| in_recognizers (s0 s1 s2 s3 s4 s5 : Inst)
    (all : list Python.WorkflowRange)
    (scoped : string) (off : nat) (name : string) (md0 : WorkflowMetadata)
    (md1 : option WorkflowMetadata) :
    resetState st = Normal tt s0 ->
    Python.findAllWorkflows E sourceCode s0 = Normal all s1 ->
    Python.selectScope E sourceCode filePath target all s1
      = Normal (scoped, off, name) s2 ->
    Python.extractMetadata E sourceCode s2 = Normal md0 s3 ->
    Python.extractWorkflowInputInfo E scoped s3 = Normal tt s4 ->
    Python.extractReturnInfo E scoped (Some md0) s4 = Normal md1 s5 ->
    ThrownInSteps scoped off s5 e ->
    ThrownInside sourceCode filePath target st e
| in_buildDataFlowMetadata (s0 s1 s2 s3 s4 s5 s6 : Inst)
    (all : list Python.WorkflowRange)
    (scoped : string) (off : nat) (name : string) (md0 : WorkflowMetadata)
    (md1 : option WorkflowMetadata) (steps : list WorkflowNode) :
    resetState st = Normal tt s0 ->
    Python.findAllWorkflows E sourceCode s0 = Normal all s1 ->
    Python.selectScope E sourceCode filePath target all s1
      = Normal (scoped, off, name) s2 ->
    Python.extractMetadata E sourceCode s2 = Normal md0 s3 ->
    Python.extractWorkflowInputInfo E scoped s3 = Normal tt s4 ->
    Python.extractReturnInfo E scoped (Some md0) s4 = Normal md1 s5 ->
    Python.recognizeSteps E scoped off s5 = Normal steps s6 ->
    throws (Python.buildDataFlowMetadata name md1 (addStartEndNodes steps))
           s6 e ->
    ThrownInside sourceCode filePath target st e.

End Steps.

(** The engine [E'] is the engine [E] with [e] thrown in place of the
    result of any of its calls. *)
Record Injected (e : Thrown) (E E' : Python.Engine) : Prop := {
  inj_now : Python.now E' = Python.now E;
  inj_random : Python.random E' = Python.random E;
  inj_workflowPattern : forall s,
      either e (Python.workflowPattern E s) (Python.workflowPattern E' s);
  inj_activityDecorator : forall s,
      either e (Python.activityDecorator E s) (Python.activityDecorator E' s);
  inj_decoratedName : forall s,
      either e (Python.decoratedName E s) (Python.decoratedName E' s);
  inj_workflowFunction : forall s,
      either e (Python.workflowFunction E s) (Python.workflowFunction E' s);
  inj_docstring : forall s,
      either e (Python.docstring E s) (Python.docstring E' s);
  inj_typeHint : forall s,
      either e (Python.typeHint E s) (Python.typeHint E' s);
  inj_dataclass : forall t s,
      either e (Python.dataclass E t s) (Python.dataclass E' t s);
  inj_dataclassFields : forall s,
      either e (Python.dataclassFields E s) (Python.dataclassFields E' s);
  inj_signatureParam : forall s,
      either e (Python.signatureParam E s) (Python.signatureParam E' s);
  inj_dataclassFirst : forall t s,
      either e (Python.dataclassFirst E t s) (Python.dataclassFirst E' t s);
  inj_indentedFields : forall s,
      either e (Python.indentedFields E s) (Python.indentedFields E' s);
  inj_returnPattern : forall s,
      either e (Python.returnPattern E s) (Python.returnPattern E' s);
  inj_keyPattern : forall s,
      either e (Python.keyPattern E s) (Python.keyPattern E' s);
  inj_argPattern : forall s,
      either e (Python.argPattern E s) (Python.argPattern E' s);
  inj_taskPattern : forall s,
      either e (Python.taskPattern E s) (Python.taskPattern E' s);
  inj_awaitedPattern : forall s,
      either e (Python.awaitedPattern E s) (Python.awaitedPattern E' s);
  inj_stringActivityPattern : forall s,
      either e (Python.stringActivityPattern E s)
               (Python.stringActivityPattern E' s);
  inj_childPattern : forall s,
      either e (Python.childPattern E s) (Python.childPattern E' s);
  inj_timerPattern : forall s,
      either e (Python.timerPattern E s) (Python.timerPattern E' s);
  inj_eventPattern : forall s,
      either e (Python.eventPattern E s) (Python.eventPattern E' s);
  inj_ifPattern : forall s,
      either e (Python.ifPattern E s) (Python.ifPattern E' s);
  inj_inputPattern : forall p s,
      either e (Python.inputPattern E p s) (Python.inputPattern E' p s);
  inj_varPattern : forall v s,
      either e (Python.varPattern E v s) (Python.varPattern E' v s);
  inj_retryPattern : forall s,
      either e (Python.retryPattern E s) (Python.retryPattern E' s);
  inj_whenAllPattern : forall s,
      either e (Python.whenAllPattern E s) (Python.whenAllPattern E' s);
  inj_taskTokens : forall s,
      either e (Python.taskTokens E s) (Python.taskTokens E' s)
}.

End OfPython.

Module OfCSharp.

Section Steps.

Variable E : CSharpParser.Engine.

(** [e] is thrown by one of the recognisers, run in the order of
    [parse], the ones before it having returned. *)
Inductive ThrownInSteps (scoped : string) (off : nat) (st : Inst)
    (e : Thrown) : Prop :=
| in_parseActivities :
    throws (CSharpParser.parseActivities E scoped off) st e ->
    ThrownInSteps scoped off st e
| in_parseSubOrchestrations (a : list WorkflowNode) (s1 : Inst) :
    CSharpParser.parseActivities E scoped off st = Normal a s1 ->
    throws (CSharpParser.parseSubOrchestrations E scoped off) s1 e ->
    ThrownInSteps scoped off st e
| in_parseTimers (a b : list WorkflowNode) (s1 s2 : Inst) :
    CSharpParser.parseActivities E scoped off st = Normal a s1 ->
    CSharpParser.parseSubOrchestrations E scoped off s1 = Normal b s2 ->
    throws (CSharpParser.parseTimers E scoped off) s2 e ->
    ThrownInSteps scoped off st e
| in_parseExternalEvents (a b c : list WorkflowNode) (s1 s2 s3 : Inst) :
    CSharpParser.parseActivities E scoped off st = Normal a s1 ->
    CSharpParser.parseSubOrchestrations E scoped off s1 = Normal b s2 ->
    CSharpParser.parseTimers E scoped off s2 = Normal c s3 ->
    throws (CSharpParser.parseExternalEvents E scoped off) s3 e ->
    ThrownInSteps scoped off st e
| in_parseDecisions (a b c d : list WorkflowNode) (s1 s2 s3 s4 : Inst) :
    CSharpParser.parseActivities E scoped off st = Normal a s1 ->
    CSharpParser.parseSubOrchestrations E scoped off s1 = Normal b s2 ->
    CSharpParser.parseTimers E scoped off s2 = Normal c s3 ->
    CSharpParser.parseExternalEvents E scoped off s3 = Normal d s4 ->
    throws (CSharpParser.parseDecisions E scoped off) s4 e ->
    ThrownInSteps scoped off st e
| in_parseParallelBlocks (a b c d f : list WorkflowNode)
    (s1 s2 s3 s4 s5 : Inst) :
    CSharpParser.parseActivities E scoped off st = Normal a s1 ->
    CSharpParser.parseSubOrchestrations E scoped off s1 = Normal b s2 ->
    CSharpParser.parseTimers E scoped off s2 = Normal c s3 ->
    CSharpParser.parseExternalEvents E scoped off s3 = Normal d s4 ->
    CSharpParser.parseDecisions E scoped off s4 = Normal f s5 ->
    throws (CSharpParser.parseParallelBlocks E scoped off) s5 e ->
    ThrownInSteps scoped off st e.

(** [e] is thrown by one of the steps of the [try] block of [parse], in
    the state the steps before it left. *)
Inductive ThrownInside (sourceCode filePath : string)
    (target : option string) (st : Inst) (e : Thrown) : Prop :=
| in_findAllWorkflows (s0 : Inst) :
    resetState st = Normal tt s0 ->
    throws (CSharpParser.findAllWorkflows E sourceCode) s0 e ->
    ThrownInside sourceCode filePath target st e
| in_selectScope (s0 s1 : Inst) (all : list Python.WorkflowRange) :
    resetState st = Normal tt s0 ->
    CSharpParser.findAllWorkflows E sourceCode s0 = Normal all s1 ->
    throws (CSharpParser.selectScope E sourceCode filePath target all) s1 e ->
    ThrownInside sourceCode filePath target st e
| in_extractMetadata (s0 s1 s2 : Inst) (all : list Python.WorkflowRange)
    (scoped : string) (off : nat) (name : string) :
    resetState st = Normal tt s0 ->
    CSharpParser.findAllWorkflows E sourceCode s0 = Normal all s1 ->
    CSharpParser.selectScope E sourceCode filePath target all s1
      = Normal (scoped, off, name) s2 ->
    throws (CSharpParser.extractMetadata E sourceCode scoped) s2 e ->
    ThrownInside sourceCode filePath target st e
| in_extractWorkflowInputInfo (s0 s1 s2 s3 : Inst)
    (all : list Python.WorkflowRange)
    (scoped : string) (off : nat) (name : string) (md0 : WorkflowMetadata) :
    resetState st = Normal tt s0 ->
    CSharpParser.findAllWorkflows E sourceCode s0 = Normal all s1 ->
    CSharpParser.selectScope E sourceCode filePath target all s1
      = Normal (scoped, off, name) s2 ->
    CSharpParser.extractMetadata E sourceCode scoped s2 = Normal md0 s3 ->
    throws (CSharpParser.extractWorkflowInputInfo E scoped) s3 e ->
    ThrownInside sourceCode filePath target st e
| in_extractReturnInfo (s0 s1 s2 s3 s4 : Inst)
    (all : list Python.WorkflowRange)
    (scoped : string) (off : nat) (name : string) (md0 : WorkflowMetadata) :
    resetState st = Normal tt s0 ->
    CSharpParser.findAllWorkflows E sourceCode s0 = Normal all s1 ->
    CSharpParser.selectScope E sourceCode filePath target all s1
      = Normal (scoped, off, name) s2 ->
    CSharpParser.extractMetadata E sourceCode scoped s2 = Normal md0 s3 ->
    CSharpParser.extractWorkflowInputInfo E scoped s3 = Normal tt s4 ->
    throws (CSharp.extractReturnInfo (CSharpParser.returns E) scoped
                                     (Some md0)) s4 e ->
    ThrownInside sourceCode filePath target st e
| in_recognizers (s0 s1 s2 s3 s4 s5 : Inst)
    (all : list Python.WorkflowRange)
    (scoped : string) (off : nat) (name : string) (md0 : WorkflowMetadata)
    (md1 : option WorkflowMetadata) :
    resetState st = Normal tt s0 ->
    CSharpParser.findAllWorkflows E sourceCode s0 = Normal all s1 ->
    CSharpParser.selectScope E sourceCode filePath target all s1
      = Normal (scoped, off, name) s2 ->
    CSharpParser.extractMetadata E sourceCode scoped s2 = Normal md0 s3 ->
    CSharpParser.extractWorkflowInputInfo E scoped s3 = Normal tt s4 ->
    CSharp.extractReturnInfo (CSharpParser.returns E) scoped (Some md0) s4
      = Normal md1 s5 ->
    ThrownInSteps scoped off s5 e ->
    ThrownInside sourceCode filePath target st e
| in_buildDataFlowMetadata (s0 s1 s2 s3 s4 s5 s6 : Inst)
    (all : list Python.WorkflowRange)
    (scoped : string) (off : nat) (name : string) (md0 : WorkflowMetadata)
    (md1 : option WorkflowMetadata) (steps : list WorkflowNode) :
    resetState st = Normal tt s0 ->
    CSharpParser.findAllWorkflows E sourceCode s0 = Normal all s1 ->
    CSharpParser.selectScope E sourceCode filePath target all s1
      = Normal (scoped, off, name) s2 ->
    CSharpParser.extractMetadata E sourceCode scoped s2 = Normal md0 s3 ->
    CSharpParser.extractWorkflowInputInfo E scoped s3 = Normal tt s4 ->
    CSharp.extractReturnInfo (CSharpParser.returns E) scoped (Some md0) s4
      = Normal md1 s5 ->
    CSharpParser.recognizeSteps E scoped off s5 = Normal steps s6 ->
    throws (CSharpParser.buildDataFlowMetadata name md1
              (addStartEndNodes steps)) s6 e ->
    ThrownInside sourceCode filePath target st e.

End Steps.

(** The engine [E'] is the engine [E] with [e] thrown in place of the
    result of any of its calls. *)
Record Injected (e : Thrown) (E E' : CSharpParser.Engine) : Prop := {
  inj_now : CSharpParser.now E' = CSharpParser.now E;
  inj_random : CSharpParser.random E' = CSharpParser.random E;
  inj_classPattern : forall s,
      either e (CSharpParser.classPattern E s)
               (CSharpParser.classPattern E' s);
  inj_className : forall s,
      either e (CSharpParser.className E s) (CSharpParser.className E' s);
  inj_genericPattern : forall s,
      either e (CSharpParser.genericPattern E s)
               (CSharpParser.genericPattern E' s);
  inj_summaryPattern : forall s,
      either e (CSharpParser.summaryPattern E s)
               (CSharpParser.summaryPattern E' s);
  inj_recordPattern : forall t s,
      either e (CSharpParser.recordPattern E t s)
               (CSharpParser.recordPattern E' t s);
  inj_recordProps : forall s,
      either e (CSharpParser.recordProps E s) (CSharpParser.recordProps E' s);
  inj_methodPattern : forall s,
      either e (CSharpParser.methodPattern E s)
               (CSharpParser.methodPattern E' s);
  inj_returnPattern : forall s,
      either e (CSharp.returnPattern (CSharpParser.returns E) s)
               (CSharp.returnPattern (CSharpParser.returns E') s);
  inj_propPattern : forall s,
      either e (CSharp.propPattern (CSharpParser.returns E) s)
               (CSharp.propPattern (CSharpParser.returns E') s);
  inj_taskPattern : forall s,
      either e (CSharpParser.taskPattern E s) (CSharpParser.taskPattern E' s);
  inj_awaitedPattern : forall s,
      either e (CSharpParser.awaitedPattern E s)
               (CSharpParser.awaitedPattern E' s);
  inj_subOrchPattern : forall s,
      either e (CSharpParser.subOrchPattern E s)
               (CSharpParser.subOrchPattern E' s);
  inj_timerPattern : forall s,
      either e (CSharpParser.timerPattern E s)
               (CSharpParser.timerPattern E' s);
  inj_eventPattern : forall s,
      either e (CSharpParser.eventPattern E s)
               (CSharpParser.eventPattern E' s);
  inj_ifPattern : forall s,
      either e (CSharpParser.ifPattern E s) (CSharpParser.ifPattern E' s);
  inj_inputPattern : forall p s,
      either e (CSharpParser.inputPattern E p s)
               (CSharpParser.inputPattern E' p s);
  inj_varPattern : forall v s,
      either e (CSharpParser.varPattern E v s)
               (CSharpParser.varPattern E' v s);
  inj_parallelPattern : forall s,
      either e (CSharpParser.parallelPattern E s)
               (CSharpParser.parallelPattern E' s);
  inj_taskTokens : forall s,
      either e (CSharpParser.taskTokens E s) (CSharpParser.taskTokens E' s)
}.

End OfCSharp.

Module OfJavaScript.

Section Steps.

Variable E : JavaScriptParser.Engine.

(** [e] is thrown by one of the recognisers, run in the order of
    [parse], the ones before it having returned. *)
Inductive ThrownInSteps (scoped : string) (off : nat) (st : Inst)
    (e : Thrown) : Prop :=
| in_parseActivities :
    throws (JavaScriptParser.parseActivities E scoped off) st e ->
    ThrownInSteps scoped off st e
| in_parseSubOrchestrations (a : list WorkflowNode) (s1 : Inst) :
    JavaScriptParser.parseActivities E scoped off st = Normal a s1 ->
    throws (JavaScriptParser.parseSubOrchestrations E scoped off) s1 e ->
    ThrownInSteps scoped off st e
| in_parseTimers (a b : list WorkflowNode) (s1 s2 : Inst) :
    JavaScriptParser.parseActivities E scoped off st = Normal a s1 ->
    JavaScriptParser.parseSubOrchestrations E scoped off s1 = Normal b s2 ->
    throws (JavaScriptParser.parseTimers E scoped off) s2 e ->
    ThrownInSteps scoped off st e
| in_parseExternalEvents (a b c : list WorkflowNode) (s1 s2 s3 : Inst) :
    JavaScriptParser.parseActivities E scoped off st = Normal a s1 ->
    JavaScriptParser.parseSubOrchestrations E scoped off s1 = Normal b s2 ->
    JavaScriptParser.parseTimers E scoped off s2 = Normal c s3 ->
    throws (JavaScriptParser.parseExternalEvents E scoped off) s3 e ->
    ThrownInSteps scoped off st e
| in_parseDecisions (a b c d : list WorkflowNode) (s1 s2 s3 s4 : Inst) :
    JavaScriptParser.parseActivities E scoped off st = Normal a s1 ->
    JavaScriptParser.parseSubOrchestrations E scoped off s1 = Normal b s2 ->
    JavaScriptParser.parseTimers E scoped off s2 = Normal c s3 ->
    JavaScriptParser.parseExternalEvents E scoped off s3 = Normal d s4 ->
    throws (JavaScriptParser.parseDecisions E scoped off) s4 e ->
    ThrownInSteps scoped off st e
| in_parseParallelBlocks (a b c d f : list WorkflowNode)
    (s1 s2 s3 s4 s5 : Inst) :
    JavaScriptParser.parseActivities E scoped off st = Normal a s1 ->
    JavaScriptParser.parseSubOrchestrations E scoped off s1 = Normal b s2 ->
    JavaScriptParser.parseTimers E scoped off s2 = Normal c s3 ->
    JavaScriptParser.parseExternalEvents E scoped off s3 = Normal d s4 ->
    JavaScriptParser.parseDecisions E scoped off s4 = Normal f s5 ->
    throws (JavaScriptParser.parseParallelBlocks E scoped off) s5 e ->
    ThrownInSteps scoped off st e.

(** [e] is thrown by one of the steps of the [try] block of [parse], in
    the state the steps before it left. *)
Inductive ThrownInside (sourceCode filePath : string)
    (target : option string) (st : Inst) (e : Thrown) : Prop :=
| in_findAllWorkflows (s0 : Inst) :
    resetState st = Normal tt s0 ->
    throws (JavaScriptParser.findAllWorkflows E sourceCode) s0 e ->
    ThrownInside sourceCode filePath target st e
| in_selectScope (s0 s1 : Inst) (all : list Python.WorkflowRange) :
    resetState st = Normal tt s0 ->
    JavaScriptParser.findAllWorkflows E sourceCode s0 = Normal all s1 ->
    throws (JavaScriptParser.selectScope E sourceCode filePath target all) s1 e ->
    ThrownInside sourceCode filePath target st e
| in_extractMetadata (s0 s1 s2 : Inst) (all : list Python.WorkflowRange)
    (scoped : string) (off : nat) (name : string) :
    resetState st = Normal tt s0 ->
    JavaScriptParser.findAllWorkflows E sourceCode s0 = Normal all s1 ->
    JavaScriptParser.selectScope E sourceCode filePath target all s1
      = Normal (scoped, off, name) s2 ->
    throws (JavaScriptParser.extractMetadata E sourceCode scoped) s2 e ->
    ThrownInside sourceCode filePath target st e
| in_extractWorkflowInputInfo (s0 s1 s2 s3 : Inst)
    (all : list Python.WorkflowRange)
    (scoped : string) (off : nat) (name : string) (md0 : WorkflowMetadata) :
    resetState st = Normal tt s0 ->
    JavaScriptParser.findAllWorkflows E sourceCode s0 = Normal all s1 ->
    JavaScriptParser.selectScope E sourceCode filePath target all s1
      = Normal (scoped, off, name) s2 ->
    JavaScriptParser.extractMetadata E sourceCode scoped s2 = Normal md0 s3 ->
    throws (JavaScriptParser.extractWorkflowInputInfo E scoped) s3 e ->
    ThrownInside sourceCode filePath target st e
| in_extractReturnInfo (s0 s1 s2 s3 s4 : Inst)
    (all : list Python.WorkflowRange)
    (scoped : string) (off : nat) (name : string) (md0 : WorkflowMetadata) :
    resetState st = Normal tt s0 ->
    JavaScriptParser.findAllWorkflows E sourceCode s0 = Normal all s1 ->
    JavaScriptParser.selectScope E sourceCode filePath target all s1
      = Normal (scoped, off, name) s2 ->
    JavaScriptParser.extractMetadata E sourceCode scoped s2 = Normal md0 s3 ->
    JavaScriptParser.extractWorkflowInputInfo E scoped s3 = Normal tt s4 ->
    throws (JavaScript.extractReturnInfo (JavaScriptParser.returns E) scoped
                                     (Some md0)) s4 e ->
    ThrownInside sourceCode filePath target st e
| in_recognizers (s0 s1 s2 s3 s4 s5 : Inst)
    (all : list Python.WorkflowRange)
    (scoped : string) (off : nat) (name : string) (md0 : WorkflowMetadata)
    (md1 : option WorkflowMetadata) :
    resetState st = Normal tt s0 ->
    JavaScriptParser.findAllWorkflows E sourceCode s0 = Normal all s1 ->
    JavaScriptParser.selectScope E sourceCode filePath target all s1
      = Normal (scoped, off, name) s2 ->
    JavaScriptParser.extractMetadata E sourceCode scoped s2 = Normal md0 s3 ->
    JavaScriptParser.extractWorkflowInputInfo E scoped s3 = Normal tt s4 ->
    JavaScript.extractReturnInfo (JavaScriptParser.returns E) scoped (Some md0) s4
      = Normal md1 s5 ->
    ThrownInSteps scoped off s5 e ->
    ThrownInside sourceCode filePath target st e
| in_buildDataFlowMetadata (s0 s1 s2 s3 s4 s5 s6 : Inst)
    (all : list Python.WorkflowRange)
    (scoped : string) (off : nat) (name : string) (md0 : WorkflowMetadata)
    (md1 : option WorkflowMetadata) (steps : list WorkflowNode) :
    resetState st = Normal tt s0 ->
    JavaScriptParser.findAllWorkflows E sourceCode s0 = Normal all s1 ->
    JavaScriptParser.selectScope E sourceCode filePath target all s1
      = Normal (scoped, off, name) s2 ->
    JavaScriptParser.extractMetadata E sourceCode scoped s2 = Normal md0 s3 ->
    JavaScriptParser.extractWorkflowInputInfo E scoped s3 = Normal tt s4 ->
    JavaScript.extractReturnInfo (JavaScriptParser.returns E) scoped (Some md0) s4
      = Normal md1 s5 ->
    JavaScriptParser.recognizeSteps E scoped off s5 = Normal steps s6 ->
    throws (Python.buildDataFlowMetadata name md1
              (addStartEndNodes steps)) s6 e ->
    ThrownInside sourceCode filePath target st e.

End Steps.

(** The engine [E'] is the engine [E] with [e] thrown in place of the
    result of any of its calls. *)
Record Injected (e : Thrown) (E E' : JavaScriptParser.Engine) : Prop := {
  inj_now : JavaScriptParser.now E' = JavaScriptParser.now E;
  inj_random : JavaScriptParser.random E' = JavaScriptParser.random E;
  inj_generatorPattern : forall s,
      either e (JavaScriptParser.generatorPattern E s)
               (JavaScriptParser.generatorPattern E' s);
  inj_arrowPattern : forall s,
      either e (JavaScriptParser.arrowPattern E s)
               (JavaScriptParser.arrowPattern E' s);
  inj_exportedName : forall s,
      either e (JavaScriptParser.exportedName E s)
               (JavaScriptParser.exportedName E' s);
  inj_registeredName : forall s,
      either e (JavaScriptParser.registeredName E s)
               (JavaScriptParser.registeredName E' s);
  inj_generatorName : forall s,
      either e (JavaScriptParser.generatorName E s)
               (JavaScriptParser.generatorName E' s);
  inj_arrowName : forall s,
      either e (JavaScriptParser.arrowName E s)
               (JavaScriptParser.arrowName E' s);
  inj_jsdocPattern : forall s,
      either e (JavaScriptParser.jsdocPattern E s)
               (JavaScriptParser.jsdocPattern E' s);
  inj_typePattern : forall s,
      either e (JavaScriptParser.typePattern E s)
               (JavaScriptParser.typePattern E' s);
  inj_interfacePattern : forall t s,
      either e (JavaScriptParser.interfacePattern E t s)
               (JavaScriptParser.interfacePattern E' t s);
  inj_propPattern : forall s,
      either e (JavaScriptParser.propPattern E s)
               (JavaScriptParser.propPattern E' s);
  inj_generatorParam : forall s,
      either e (JavaScriptParser.generatorParam E s)
               (JavaScriptParser.generatorParam E' s);
  inj_arrowParam : forall s,
      either e (JavaScriptParser.arrowParam E s)
               (JavaScriptParser.arrowParam E' s);
  inj_functionParam : forall s,
      either e (JavaScriptParser.functionParam E s)
               (JavaScriptParser.functionParam E' s);
  inj_returnPattern : forall s,
      either e (JavaScript.returnPattern (JavaScriptParser.returns E) s)
               (JavaScript.returnPattern (JavaScriptParser.returns E') s);
  inj_keyPattern : forall s,
      either e (JavaScript.keyPattern (JavaScriptParser.returns E) s)
               (JavaScript.keyPattern (JavaScriptParser.returns E') s);
  inj_taskPattern : forall s,
      either e (JavaScriptParser.taskPattern E s)
               (JavaScriptParser.taskPattern E' s);
  inj_awaitedPattern : forall s,
      either e (JavaScriptParser.awaitedPattern E s)
               (JavaScriptParser.awaitedPattern E' s);
  inj_varActivityPattern : forall s,
      either e (JavaScriptParser.varActivityPattern E s)
               (JavaScriptParser.varActivityPattern E' s);
  inj_subOrchPattern : forall s,
      either e (JavaScriptParser.subOrchPattern E s)
               (JavaScriptParser.subOrchPattern E' s);
  inj_timerPattern : forall s,
      either e (JavaScriptParser.timerPattern E s)
               (JavaScriptParser.timerPattern E' s);
  inj_eventPattern : forall s,
      either e (JavaScriptParser.eventPattern E s)
               (JavaScriptParser.eventPattern E' s);
  inj_ifPattern : forall s,
      either e (JavaScriptParser.ifPattern E s)
               (JavaScriptParser.ifPattern E' s);
  inj_inputPattern : forall t s,
      either e (JavaScriptParser.inputPattern E t s)
               (JavaScriptParser.inputPattern E' t s);
  inj_varPattern : forall t s,
      either e (JavaScriptParser.varPattern E t s)
               (JavaScriptParser.varPattern E' t s);
  inj_parallelPattern : forall s,
      either e (JavaScriptParser.parallelPattern E s)
               (JavaScriptParser.parallelPattern E' s);
  inj_taskTokens : forall s,
      either e (JavaScriptParser.taskTokens E s)
               (JavaScriptParser.taskTokens E' s)
}.

End OfJavaScript.

(** [ThrownIn r e]: [r] is the result of a [parse] call of one of the
    three extractors inside of which [e] was thrown: by one of the steps
    of its [try] block, or by calls of the runtime whose throwing [e]
    changed the outcome of the call. *)
Inductive ThrownIn (r : ParseResult) (e : Thrown) : Prop :=
| thrown_python_step (E : Python.Engine) (sourceCode filePath : string)
    (target : option string) (st : Inst) :
    OfPython.ThrownInside E sourceCode filePath target st e ->
    r = fst (Python.parse E sourceCode filePath target st) ->
    ThrownIn r e
| thrown_python_call (E E' : Python.Engine) (sourceCode filePath : string)
    (target : option string) (st : Inst) :
    OfPython.Injected e E E' ->
    Python.parse E' sourceCode filePath target st <>
      Python.parse E sourceCode filePath target st ->
    r = fst (Python.parse E' sourceCode filePath target st) ->
    ThrownIn r e
| thrown_csharp_step (E : CSharpParser.Engine) (sourceCode filePath : string)
    (target : option string) (st : Inst) :
    OfCSharp.ThrownInside E sourceCode filePath target st e ->
    r = fst (CSharpParser.parse E sourceCode filePath target st) ->
    ThrownIn r e
| thrown_csharp_call (E E' : CSharpParser.Engine)
    (sourceCode filePath : string) (target : option string) (st : Inst) :
    OfCSharp.Injected e E E' ->
    CSharpParser.parse E' sourceCode filePath target st <>
      CSharpParser.parse E sourceCode filePath target st ->
    r = fst (CSharpParser.parse E' sourceCode filePath target st) ->
    ThrownIn r e
| thrown_javascript_step (E : JavaScriptParser.Engine)
    (language : SupportedLanguage) (sourceCode filePath : string)
    (target : option string) (st : Inst) :
    OfJavaScript.ThrownInside E sourceCode filePath target st e ->
    r = fst (JavaScriptParser.parse E language sourceCode filePath
                                    target st) ->
    ThrownIn r e
| thrown_javascript_call (E E' : JavaScriptParser.Engine)
    (language : SupportedLanguage) (sourceCode filePath : string)
    (target : option string) (st : Inst) :
    OfJavaScript.Injected e E E' ->
    JavaScriptParser.parse E' language sourceCode filePath target st <>
      JavaScriptParser.parse E language sourceCode filePath target st ->
    r = fst (JavaScriptParser.parse E' language sourceCode filePath
                                    target st) ->
    ThrownIn r e.

End Outcomes.

(** ** Sample texts *)

Module Samples.

Import Js.

Definition dq : string := String dquote "".
Definition bs : string := String backslash "".

(** [{"}" '''{''' [(] {x}} z]: the closer of the brace at 0 is at 20. *)
Definition nestedText : string :=
  "{" ++ dq ++ "}" ++ dq ++ " '''{''' [(] {x}} z".

(** [{"a": "\\"})]: a dict whose last value is the literal of one
    backslash; the closer of the brace at 0 is at 10. *)
Definition backslashText : string :=
  "{" ++ dq ++ "a" ++ dq ++ ": " ++ dq ++ bs ++ bs ++ dq ++ "})".

(** An engine for a text on which no pattern matches and no call
    throws. *)
Definition quiet : Python.Engine :=
  Python.mkEngine 0 "000000000"
    (fun _ => inr []) (fun _ => inr None) (fun _ => inr None)
    (fun _ => inr None) (fun _ => inr None) (fun _ => inr None)
    (fun _ _ => inr None) (fun _ => inr []) (fun _ => inr None)
    (fun _ _ => inr None) (fun _ => inr []) (fun _ => inr [])
    (fun _ => inr []) (fun _ => inr [])
    (fun _ => inr []) (fun _ => inr []) (fun _ => inr [])
    (fun _ => inr []) (fun _ => inr []) (fun _ => inr [])
    (fun _ => inr []) (fun _ _ => inr []) (fun _ _ => inr [])
    (fun _ => inr []) (fun _ => inr []) (fun _ => inr []).

(** The engine [quiet] with the matches of the task, awaited-activity
    and join patterns given, each as a function of the text. *)
Definition stepEngine
    (signature : string -> option string)
    (taskMatches : string -> list Python.TaskMatch)
    (awaitedMatches : string -> list Python.AwaitedMatch)
    (joinMatches : string -> list Python.WhenAllMatch)
    (tokens : string -> list string) : Python.Engine :=
  Python.mkEngine 0 "000000000"
    (fun _ => inr []) (fun _ => inr None) (fun _ => inr None)
    (fun _ => inr None) (fun _ => inr None) (fun _ => inr None)
    (fun _ _ => inr None) (fun _ => inr [])
    (fun s => inr (signature s))
    (fun _ _ => inr None) (fun _ => inr []) (fun _ => inr [])
    (fun _ => inr []) (fun _ => inr [])
    (fun s => inr (taskMatches s)) (fun s => inr (awaitedMatches s))
    (fun _ => inr [])
    (fun _ => inr []) (fun _ => inr []) (fun _ => inr [])
    (fun _ => inr []) (fun _ _ => inr []) (fun _ _ => inr [])
    (fun _ => inr []) (fun s => inr (joinMatches s))
    (fun s => inr (tokens s)).

Definition nl : string := String Model.newline "".

(** A step that reads the variable it binds:
    [x = yield ctx.call_activity(f, input=x)].  The awaited-activity
    pattern matches at 0 with groups [x] and [f]; no other pattern
    matches. *)
Definition selfSource : string := "x = yield ctx.call_activity(f, input=x)".

Definition selfEngine : Python.Engine :=
  stepEngine (fun _ => None) (fun _ => [])
             (fun _ => [Python.mkAwaitedMatch 0 (Some "x") "f"])
             (fun _ => []) (fun _ => []).

(** Two groups whose tasks are created before the first join:
    [a_task = ctx.call_activity(f1)], [b_task = ctx.call_activity(f2)],
    [ra = yield when_all([a_task])], [rb = yield when_all([b_task])],
    one per line.  The task pattern matches at 0 and 31, the join pattern
    at 62 and 92 with the task lists [a_task] and [b_task]. *)
Definition twoGroupsSource : string :=
  "a_task = ctx.call_activity(f1)" ++ nl ++
  "b_task = ctx.call_activity(f2)" ++ nl ++
  "ra = yield when_all([a_task])" ++ nl ++
  "rb = yield when_all([b_task])".

Definition twoGroupsEngine : Python.Engine :=
  stepEngine (fun _ => None)
    (fun _ => [Python.mkTaskMatch 0 "a_task" "f1";
               Python.mkTaskMatch 31 "b_task" "f2"])
    (fun _ => [])
    (fun _ => [Python.mkWhenAllMatch 62 (Some "ra") "a_task";
               Python.mkWhenAllMatch 92 (Some "rb") "b_task"])
    (fun tasksContent => [tasksContent]).

(** A call whose bracketed argument is never closed:
    [yield ctx.call_activity(f, input={"a": [1, 2]; the awaited-activity
    pattern matches at 0. *)
Definition unclosedSource : string :=
  "yield ctx.call_activity(f, input={" ++ dq ++ "a" ++ dq ++ ": [1, 2".

(** [e] with the join pattern failing with [error]. *)
Definition withJoinFailure (e : Python.Engine) (error : Effects.Thrown)
    : Python.Engine :=
  Python.mkEngine (Python.now e) (Python.random e)
    (Python.workflowPattern e) (Python.activityDecorator e)
    (Python.decoratedName e) (Python.workflowFunction e)
    (Python.docstring e) (Python.typeHint e) (Python.dataclass e)
    (Python.dataclassFields e) (Python.signatureParam e)
    (Python.dataclassFirst e) (Python.indentedFields e)
    (Python.returnPattern e) (Python.keyPattern e) (Python.argPattern e)
    (Python.taskPattern e) (Python.awaitedPattern e)
    (Python.stringActivityPattern e) (Python.childPattern e)
    (Python.timerPattern e) (Python.eventPattern e) (Python.ifPattern e)
    (Python.inputPattern e) (Python.varPattern e) (Python.retryPattern e)
    (fun _ => inl error) (Python.taskTokens e).

(** The text [selfSource], one step of which is recognised before the
    join pattern fails. *)
Definition failingEngine : Python.Engine :=
  withJoinFailure selfEngine (Effects.ThrownError "Maximum call stack size exceeded").

(** Two texts parsed one after the other by one instance.  In the first
    the workflow pattern matches at 0 with the name [process] and the
    signature pattern finds the input parameter [order]; in the second no
    pattern matches. *)
Definition firstSource : string :=
  "@workflow" ++ nl ++ "def process(ctx, order: Order):" ++ nl ++ "    pass".
Definition secondSource : string := "x = 1".

Definition signatureEngine : Python.Engine :=
  Python.mkEngine 0 "000000000"
    (fun s => inr (if String.eqb s firstSource then [("process", 0)] else []))
    (fun _ => inr None)
    (fun s => inr (if String.eqb s firstSource then Some "process" else None))
    (fun _ => inr None) (fun _ => inr None) (fun _ => inr None)
    (fun _ _ => inr None) (fun _ => inr [])
    (fun s => inr (if String.eqb s firstSource then Some "order" else None))
    (fun _ _ => inr None) (fun _ => inr []) (fun _ => inr [])
    (fun _ => inr []) (fun _ => inr [])
    (fun _ => inr []) (fun _ => inr []) (fun _ => inr [])
    (fun _ => inr []) (fun _ => inr []) (fun _ => inr [])
    (fun _ => inr []) (fun _ _ => inr []) (fun _ _ => inr [])
    (fun _ => inr []) (fun _ => inr []) (fun _ => inr []).

(** One return statement for each surface syntax, with the matches of
    the return pattern and of the pattern for the field names. *)
Definition csharpReturn : string := "return new Result { Total = total };".
Definition csharpEngine : CSharp.Engine :=
  CSharp.mkEngine (fun _ => inr [" Total = total "]) (fun _ => inr ["Total"]).

Definition javascriptReturn : string := "    return { total: total };".
Definition javascriptEngine : JavaScript.Engine :=
  JavaScript.mkEngine (fun _ => inr ["{ total: total }"])
                      (fun _ => inr ["total"]).

Definition pythonReturn : string :=
  "    return {" ++ dq ++ "total" ++ dq ++ ": total}".
Definition pythonEngine : Python.Engine :=
  Python.mkEngine 0 "000000000"
    (fun _ => inr []) (fun _ => inr None) (fun _ => inr None)
    (fun _ => inr None) (fun _ => inr None) (fun _ => inr None)
    (fun _ _ => inr None) (fun _ => inr []) (fun _ => inr None)
    (fun _ _ => inr None) (fun _ => inr [])
    (fun _ => inr [("{" ++ dq ++ "total" ++ dq ++ ": total}")%string])
    (fun _ => inr ["total"]) (fun _ => inr [])
    (fun _ => inr []) (fun _ => inr []) (fun _ => inr [])
    (fun _ => inr []) (fun _ => inr []) (fun _ => inr [])
    (fun _ => inr []) (fun _ _ => inr []) (fun _ _ => inr [])
    (fun _ => inr []) (fun _ => inr []) (fun _ => inr []).

(** A variable bound twice and then read:
    [x = yield ctx.call_activity(f, input=a)],
    [x = yield ctx.call_activity(g, input=b)],
    [yield ctx.call_activity(h, input=x)], one per line.  The
    awaited-activity pattern matches at 0, 40 and 80. *)
Definition rebindSource : string :=
  "x = yield ctx.call_activity(f, input=a)" ++ nl ++
  "x = yield ctx.call_activity(g, input=b)" ++ nl ++
  "yield ctx.call_activity(h, input=x)".

Definition rebindEngine : Python.Engine :=
  stepEngine (fun _ => None) (fun _ => [])
    (fun _ => [Python.mkAwaitedMatch 0 (Some "x") "f";
               Python.mkAwaitedMatch 40 (Some "x") "g";
               Python.mkAwaitedMatch 80 None "h"])
    (fun _ => []) (fun _ => []).

(** A step whose output variable has the name of the input parameter,
    here the initial [input]:
    [input = yield ctx.call_activity(f, input=a)],
    [yield ctx.call_activity(g, input=input)].  The awaited-activity
    pattern matches at 0 and 44. *)
Definition shadowSource : string :=
  "input = yield ctx.call_activity(f, input=a)" ++ nl ++
  "yield ctx.call_activity(g, input=input)".

Definition shadowEngine : Python.Engine :=
  stepEngine (fun _ => None) (fun _ => [])
    (fun _ => [Python.mkAwaitedMatch 0 (Some "input") "f";
               Python.mkAwaitedMatch 44 None "g"])
    (fun _ => []) (fun _ => []).

(** Two entries whose values hold commas inside brackets:
    ["a": [1, 2]] and [ "b": f(x, y)]; with [=] for the colon and
    without the quotes, [A = [1, 2]] and [ B = f(x, y)]. *)
Definition nestedSegments : list (list ascii) :=
  [chars (dq ++ "a" ++ dq ++ ": [1, 2]");
   chars (" " ++ dq ++ "b" ++ dq ++ ": f(x, y)")].

Definition assignedSegments : list (list ascii) :=
  [chars " A = [1, 2]"; chars " B = f(x, y) "].

(** Shorthand properties: [order], [ total] and a blank last segment. *)
Definition shorthandSegments : list (list ascii) :=
  [chars "order"; chars " total"; chars " "].

(** [var r = await context.CallActivityAsync<Result>("Reserve", new Order { Id = id, Qty = 2 });]:
    [CallActivityAsync] starts at 22 and its parenthesis is at 47. *)
Definition csharpCall : string :=
  "var r = await context.CallActivityAsync<Result>(" ++ dq ++ "Reserve" ++
  dq ++ ", new Order { Id = id, Qty = 2 });".

(** [await context.CallActivityAsync("Notify");]: a call with one
    argument. *)
Definition csharpNotify : string :=
  "await context.CallActivityAsync(" ++ dq ++ "Notify" ++ dq ++ ");".

(** [const r = yield ctx.callActivity(reserve, { id: order.id, items: [a, b] });]:
    [callActivity] starts at 20 and its parenthesis is at 32. *)
Definition jsCall : string :=
  "const r = yield ctx.callActivity(reserve, { id: order.id, items: [a, b] });".

(** [yield ctx.call_activity(f, input={"a": [1, 2]}, retry_policy=p)]:
    the value after the marker opens with the brace at 33; its closer is
    at 45. *)
Definition dictSource : string :=
  "yield ctx.call_activity(f, input={" ++ dq ++ "a" ++ dq ++
  ": [1, 2]}, retry_policy=p)".

(** Two return statements that share a field:
    [    return Result(total=t, ok=True)] and
    [    return Result(ok=False)]. *)
Definition twoReturnsSource : string :=
  "    return Result(total=t, ok=True)" ++ nl ++
  "    return Result(ok=False)".

Definition twoReturnsEngine : Python.Engine :=
  Python.mkEngine 0 "000000000"
    (fun _ => inr []) (fun _ => inr None) (fun _ => inr None)
    (fun _ => inr None) (fun _ => inr None) (fun _ => inr None)
    (fun _ _ => inr None) (fun _ => inr []) (fun _ => inr None)
    (fun _ _ => inr None) (fun _ => inr [])
    (fun _ => inr ["Result(total=t, ok=True)"; "Result(ok=False)"])
    (fun _ => inr [])
    (fun expression =>
       inr (if String.eqb expression "Result(total=t, ok=True)"
            then ["total"; "ok"]
            else if String.eqb expression "Result(ok=False)" then ["ok"]
            else []))
    (fun _ => inr []) (fun _ => inr []) (fun _ => inr [])
    (fun _ => inr []) (fun _ => inr []) (fun _ => inr [])
    (fun _ => inr []) (fun _ _ => inr []) (fun _ _ => inr [])
    (fun _ => inr []) (fun _ => inr []) (fun _ => inr []).

(** A file with two workflows, [first] and [second]; the workflow
    pattern matches at 0 and at 38, and no activity decorator follows. *)
Definition twoWorkflowsSource : string :=
  "@workflow" ++ nl ++ "def first(ctx, x):" ++ nl ++ "    pass" ++ nl ++
  "@workflow" ++ nl ++ "def second(ctx, y):" ++ nl ++ "    pass".

Definition twoWorkflowsEngine : Python.Engine :=
  Python.mkEngine 0 "000000000"
    (fun _ => inr [("first", 0); ("second", 38)])
    (fun _ => inr None) (fun _ => inr None)
    (fun _ => inr None) (fun _ => inr None) (fun _ => inr None)
    (fun _ _ => inr None) (fun _ => inr []) (fun _ => inr None)
    (fun _ _ => inr None) (fun _ => inr [])
    (fun _ => inr []) (fun _ => inr []) (fun _ => inr [])
    (fun _ => inr []) (fun _ => inr []) (fun _ => inr [])
    (fun _ => inr []) (fun _ => inr []) (fun _ => inr [])
    (fun _ => inr []) (fun _ _ => inr []) (fun _ _ => inr [])
    (fun _ => inr []) (fun _ => inr []) (fun _ => inr []).

(** [yield ctx.callActivity(notify);]: a call with one argument. *)
Definition jsNotify : string := "yield ctx.callActivity(notify);".

(** A plain step between the tasks of two groups:
    [a_task = ctx.call_activity(f1)], [x = yield ctx.call_activity(g)],
    [a2_task = ctx.call_activity(f2)], [b_task = ctx.call_activity(h)],
    [ra = yield when_all([a_task, a2_task])],
    [rb = yield when_all([b_task])], one per line.  The task pattern
    matches at 0, 62 and 94, the awaited-activity pattern at 31 with the
    groups [x] and [g], the join pattern at 124 and 163. *)
Definition plainBetweenSource : string :=
  "a_task = ctx.call_activity(f1)" ++ nl ++
  "x = yield ctx.call_activity(g)" ++ nl ++
  "a2_task = ctx.call_activity(f2)" ++ nl ++
  "b_task = ctx.call_activity(h)" ++ nl ++
  "ra = yield when_all([a_task, a2_task])" ++ nl ++
  "rb = yield when_all([b_task])".

Definition plainBetweenEngine : Python.Engine :=
  stepEngine (fun _ => None)
    (fun _ => [Python.mkTaskMatch 0 "a_task" "f1";
               Python.mkTaskMatch 62 "a2_task" "f2";
               Python.mkTaskMatch 94 "b_task" "h"])
    (fun _ => [Python.mkAwaitedMatch 31 (Some "x") "g"])
    (fun _ => [Python.mkWhenAllMatch 124 (Some "ra") "a_task, a2_task";
               Python.mkWhenAllMatch 163 (Some "rb") "b_task"])
    (fun tasksContent =>
       if String.eqb tasksContent "a_task, a2_task"
       then ["a_task"; "a2_task"] else [tasksContent]).

(** An engine of the C# extractor for a text on which no pattern
    matches and no call throws. *)
Definition csharpQuiet : CSharpParser.Engine :=
  CSharpParser.mkEngine 0 "000000000"
    (fun _ => inr []) (fun _ => inr None) (fun _ => inr None)
    (fun _ => inr None) (fun _ _ => inr None) (fun _ => inr [])
    (fun _ => inr None)
    (CSharp.mkEngine (fun _ => inr []) (fun _ => inr []))
    (fun _ => inr []) (fun _ => inr []) (fun _ => inr [])
    (fun _ => inr []) (fun _ => inr []) (fun _ => inr [])
    (fun _ _ => inr []) (fun _ _ => inr [])
    (fun _ => inr []) (fun _ => inr []).

(** The engine [csharpQuiet] with the matches of the task and join
    patterns given. *)
Definition csharpStepEngine
    (taskMatches : list CSharpParser.TaskMatch)
    (joinMatches : list CSharpParser.ParallelMatch)
    (tokens : string -> Effects.Thrown + list string) : CSharpParser.Engine :=
  CSharpParser.mkEngine 0 "000000000"
    (fun _ => inr []) (fun _ => inr None) (fun _ => inr None)
    (fun _ => inr None) (fun _ _ => inr None) (fun _ => inr [])
    (fun _ => inr None)
    (CSharp.mkEngine (fun _ => inr []) (fun _ => inr []))
    (fun _ => inr taskMatches) (fun _ => inr []) (fun _ => inr [])
    (fun _ => inr []) (fun _ => inr []) (fun _ => inr [])
    (fun _ _ => inr []) (fun _ _ => inr [])
    (fun _ => inr joinMatches) tokens.

(** Two tasks and their join:
    [var aTask = ctx.CallActivityAsync<int>("A", x);],
    [var bTask = ctx.CallActivityAsync<int>("B", y);],
    [var rs = await Task.WhenAll(aTask, bTask);], one per line.  The task
    pattern matches at 0 and 48, the join pattern at 96 with the task
    list [aTask, bTask]. *)
Definition csharpGroupSource : string :=
  "var aTask = ctx.CallActivityAsync<int>(" ++ dq ++ "A" ++ dq ++ ", x);" ++ nl ++
  "var bTask = ctx.CallActivityAsync<int>(" ++ dq ++ "B" ++ dq ++ ", y);" ++ nl ++
  "var rs = await Task.WhenAll(aTask, bTask);".

Definition csharpGroupMatches : list CSharpParser.TaskMatch :=
  [CSharpParser.mkTaskMatch 0 "aTask" (Some "int") "A";
   CSharpParser.mkTaskMatch 48 "bTask" (Some "int") "B"].

Definition csharpGroupEngine : CSharpParser.Engine :=
  csharpStepEngine csharpGroupMatches
    [CSharpParser.mkParallelMatch 96 (Some "rs") "aTask, bTask"]
    (fun _ => inr ["aTask"; "bTask"]).

(** Two statements, the input of the first ending in the literal of one
    backslash:
    [yield ctx.call_activity(f, input={"a": "\\"})] and
    [yield ctx.call_activity(g, input={"b": "}"})].  The brace of the
    first input is at 33 and its closer at 43; the brace inside the
    literal of the second statement is at 86. *)
Definition escapedDictSource : string :=
  "yield ctx.call_activity(f, input={" ++ dq ++ "a" ++ dq ++ ": " ++
  dq ++ bs ++ bs ++ dq ++ "})" ++ nl ++
  "yield ctx.call_activity(g, input={" ++ dq ++ "b" ++ dq ++ ": " ++
  dq ++ "}" ++ dq ++ "})".

(** The same in C#: [await ctx.CallActivityAsync("Log", "\\");] and
    [await ctx.CallActivityAsync("Send", "}");].  The parenthesis of the
    first call is at 27 and its closer at 39. *)
Definition escapedArgumentSource : string :=
  "await ctx.CallActivityAsync(" ++ dq ++ "Log" ++ dq ++ ", " ++
  dq ++ bs ++ bs ++ dq ++ ");" ++ nl ++
  "await ctx.CallActivityAsync(" ++ dq ++ "Send" ++ dq ++ ", " ++
  dq ++ "}" ++ dq ++ ");".

(** A child workflow that reads the output of an activity, and one that
    reads the output of the first:
    [x = yield ctx.call_activity(f, input=a)],
    [y = yield ctx.call_child_workflow(sub, input=x)],
    [yield ctx.call_child_workflow(sub2, input=y.total)], one per line.
    The awaited-activity pattern matches at 0 with the groups [x] and
    [f]; the child-workflow pattern matches at 40 with the groups [y],
    [sub] and [x], and at 88 with the groups [sub2] and [y.total]. *)
Definition childSource : string :=
  "x = yield ctx.call_activity(f, input=a)" ++ nl ++
  "y = yield ctx.call_child_workflow(sub, input=x)" ++ nl ++
  "yield ctx.call_child_workflow(sub2, input=y.total)".

Definition childEngine : Python.Engine :=
  Python.mkEngine 0 "000000000"
    (fun _ => inr []) (fun _ => inr None) (fun _ => inr None)
    (fun _ => inr None) (fun _ => inr None) (fun _ => inr None)
    (fun _ _ => inr None) (fun _ => inr []) (fun _ => inr None)
    (fun _ _ => inr None) (fun _ => inr []) (fun _ => inr [])
    (fun _ => inr []) (fun _ => inr [])
    (fun _ => inr [])
    (fun _ => inr [Python.mkAwaitedMatch 0 (Some "x") "f"])
    (fun _ => inr [])
    (fun _ => inr [Python.mkChildMatch 40 (Some "y") "sub" (Some "x");
                   Python.mkChildMatch 88 None "sub2" (Some "y.total")])
    (fun _ => inr []) (fun _ => inr [])
    (fun _ => inr []) (fun _ _ => inr []) (fun _ _ => inr [])
    (fun _ => inr []) (fun _ => inr []) (fun _ => inr []).

(** The engine [csharpGroupEngine] with the pattern for the task names
    of a join throwing a value that is not an [Error]: the two tasks of
    [csharpGroupSource] are recognised before the loop over the joins
    throws. *)
Definition csharpFailingEngine : CSharpParser.Engine :=
  csharpStepEngine csharpGroupMatches
    [CSharpParser.mkParallelMatch 96 (Some "rs") "aTask, bTask"]
    (fun _ => inl Effects.ThrownOther).

(** An engine of the JavaScript extractor for a text on which no
    pattern matches and no call throws. *)
Definition javascriptQuiet : JavaScriptParser.Engine :=
  JavaScriptParser.mkEngine 0 "000000000"
    (fun _ => inr []) (fun _ => inr [])
    (fun _ => inr None) (fun _ => inr None) (fun _ => inr None)
    (fun _ => inr None)
    (fun _ => inr None) (fun _ => inr None) (fun _ _ => inr None)
    (fun _ => inr [])
    (fun _ => inr None) (fun _ => inr None) (fun _ => inr None)
    (JavaScript.mkEngine (fun _ => inr []) (fun _ => inr []))
    (fun _ => inr []) (fun _ => inr []) (fun _ => inr [])
    (fun _ => inr []) (fun _ => inr []) (fun _ => inr [])
    (fun _ => inr [])
    (fun _ _ => inr []) (fun _ _ => inr [])
    (fun _ => inr []) (fun _ => inr []).

(** The engine [javascriptQuiet] with the matches of the task and join
    patterns given. *)
Definition javascriptStepEngine
    (taskMatches : list JavaScriptParser.TaskMatch)
    (joinMatches : list JavaScriptParser.ParallelMatch)
    (tokens : string -> Effects.Thrown + list string)
    : JavaScriptParser.Engine :=
  JavaScriptParser.mkEngine 0 "000000000"
    (fun _ => inr []) (fun _ => inr [])
    (fun _ => inr None) (fun _ => inr None) (fun _ => inr None)
    (fun _ => inr None)
    (fun _ => inr None) (fun _ => inr None) (fun _ _ => inr None)
    (fun _ => inr [])
    (fun _ => inr None) (fun _ => inr None) (fun _ => inr None)
    (JavaScript.mkEngine (fun _ => inr []) (fun _ => inr []))
    (fun _ => inr taskMatches) (fun _ => inr []) (fun _ => inr [])
    (fun _ => inr []) (fun _ => inr []) (fun _ => inr [])
    (fun _ => inr [])
    (fun _ _ => inr []) (fun _ _ => inr [])
    (fun _ => inr joinMatches) tokens.

(** Two tasks and their join:
    [const aTask = ctx.callActivity("A", x);],
    [const bTask = ctx.callActivity("B", y);],
    [const rs = yield ctx.whenAll([aTask, bTask]);], one per line.  The
    task pattern matches at 0 and 40, the join pattern at 80 with the
    single variable [rs] and the task list [aTask, bTask]. *)
Definition javascriptGroupSource : string :=
  "const aTask = ctx.callActivity(" ++ dq ++ "A" ++ dq ++ ", x);" ++ nl ++
  "const bTask = ctx.callActivity(" ++ dq ++ "B" ++ dq ++ ", y);" ++ nl ++
  "const rs = yield ctx.whenAll([aTask, bTask]);".

Definition javascriptGroupMatches : list JavaScriptParser.TaskMatch :=
  [JavaScriptParser.mkTaskMatch 0 "aTask" "A";
   JavaScriptParser.mkTaskMatch 40 "bTask" "B"].

Definition javascriptGroupEngine : JavaScriptParser.Engine :=
  javascriptStepEngine javascriptGroupMatches
    [JavaScriptParser.mkParallelMatch 80 None (Some "rs") "aTask, bTask"]
    (fun _ => inr ["aTask"; "bTask"]).

(** The engine [javascriptGroupEngine] with the pattern for the task
    names of a join throwing an [Error]: the two tasks of
    [javascriptGroupSource] are recognised before the loop over the
    joins throws. *)
Definition javascriptFailingEngine : JavaScriptParser.Engine :=
  javascriptStepEngine javascriptGroupMatches
    [JavaScriptParser.mkParallelMatch 80 None (Some "rs") "aTask, bTask"]
    (fun _ => inl (Effects.ThrownError "Invalid regular expression")).

End Samples.

(** * Verification *)

Module ScannerFacts.

Import Js Scanner.

Lemma list_eqb_eq (x y : list ascii) : list_eqb x y = true <-> x = y.
Proof.
  revert y; induction x as [|a x IH]; intros [|b y]; simpl; split;
    try congruence; try reflexivity.
  - intros H. apply andb_prop in H as [H1 H2].
    apply Ascii.eqb_eq in H1. apply IH in H2. congruence.
  - intros H. injection H as -> ->.
    rewrite Ascii.eqb_refl. simpl. now apply IH.
Qed.

Lemma list_eqb_refl (x : list ascii) : list_eqb x x = true.
Proof. now apply list_eqb_eq. Qed.

Lemma window_firstn (t : list ascii) (i : nat) :
  i <= List.length t -> window t i = firstn 3 (skipn i t).
Proof.
  intros Hi. unfold window, substring.
  rewrite (Nat.min_l i) by lia.
  destruct (Nat.le_gt_cases (i + 3) (List.length t)) as [H|H].
  - rewrite (Nat.min_l (i + 3)) by lia.
    rewrite Nat.min_l, Nat.max_r by lia.
    replace (i + 3 - i) with 3 by lia. reflexivity.
  - rewrite (Nat.min_r (i + 3)) by lia.
    rewrite Nat.min_l, Nat.max_r by lia.
    rewrite !firstn_all2; try reflexivity; rewrite length_skipn; lia.
Qed.

Lemma window_length3 (t : list ascii) (i : nat) :
  i <= List.length t -> List.length (window t i) = 3 -> i + 3 <= List.length t.
Proof.
  intros Hi. rewrite window_firstn by exact Hi.
  rewrite length_firstn, length_skipn. lia.
Qed.

(** Every iteration moves the index forward and keeps it within the text. *)
Lemma step_pos (t : list ascii) (o : option ascii) (c : ascii) (st : scan) :
  running t st = true ->
  pos st < pos (step t o c st) <= List.length t.
Proof.
  unfold running. intros H. apply andb_prop in H as [H _].
  apply Nat.ltb_lt in H.
  unfold step, at_.
  destruct (nth_error t (pos st)) as [char|] eqn:E.
  2:{ apply nth_error_None in E. lia. }
  assert (Hadv : forall d ins,
            pos st < pos (advance o c char (pos st) d ins) <= List.length t).
  { intros d ins. unfold advance.
    destruct ins; [simpl; lia|].
    destruct (isChar o char); [simpl; lia|].
    destruct (Ascii.eqb char c); simpl; lia. }
  destruct (isQuote char && negb (isChar (before t (pos st)) backslash)).
  2:{ apply Hadv. }
  destruct (inString st) as [q|].
  - destruct (list_eqb q [char]) eqn:Eq.
    + apply list_eqb_eq in Eq. subst q. simpl. lia.
    + destruct (List.length q =? 3) eqn:E3;
        [destruct (list_eqb (window t (pos st)) q) eqn:Ew|];
        cbn [orb andb]; try apply Hadv.
      apply list_eqb_eq in Ew. apply Nat.eqb_eq in E3.
      assert (i3 := window_length3 t (pos st)).
      rewrite Ew in i3. simpl. lia.
  - destruct (list_eqb (window t (pos st)) tripleD ||
              list_eqb (window t (pos st)) tripleS) eqn:Ew; [|apply Hadv].
    assert (i3 := window_length3 t (pos st)).
    apply orb_prop in Ew as [Ew|Ew]; apply list_eqb_eq in Ew;
      rewrite Ew in i3; simpl in i3; simpl; lia.
Qed.

Lemma loop_pos_le (fuel : nat) (t : list ascii) (o : option ascii) (c : ascii)
    (st : scan) :
  pos st <= List.length t ->
  pos (loop fuel t o c st) <= List.length t.
Proof.
  revert st; induction fuel as [|f IH]; intros st H; simpl; [exact H|].
  destruct (running t st) eqn:R; [|exact H].
  apply IH. apply (step_pos t o c) in R. lia.
Qed.

Lemma loop_stops (fuel : nat) (t : list ascii) (o : option ascii) (c : ascii)
    (st : scan) :
  List.length t <= fuel + pos st ->
  running t (loop fuel t o c st) = false.
Proof.
  revert st; induction fuel as [|f IH]; intros st H; simpl.
  - unfold running. replace (pos st <? List.length t) with false; [reflexivity|].
    symmetry. apply Nat.ltb_ge. lia.
  - destruct (running t st) eqn:R; [|exact R].
    apply IH. apply (step_pos t o c) in R. lia.
Qed.

(** The fuel of [scanEnd] is enough: the loop test is false in the state
    it returns. *)
Lemma scanEnd_stopped (sourceCode : string) (openIndex : nat) :
  running (chars sourceCode) (scanEnd sourceCode openIndex) = false.
Proof.
  unfold scanEnd. apply loop_stops. simpl. lia.
Qed.

(** When the text runs out with the depth still positive, the loop has
    stopped at the end of the text. *)
Lemma scanEnd_exhausted (sourceCode : string) (openIndex : nat) :
  openIndex < List.length (chars sourceCode) ->
  0 < depth (scanEnd sourceCode openIndex) ->
  pos (scanEnd sourceCode openIndex) = List.length (chars sourceCode).
Proof.
  intros Hi Hd.
  assert (Hs := scanEnd_stopped sourceCode openIndex).
  assert (Hle : pos (scanEnd sourceCode openIndex) <= List.length (chars sourceCode)).
  { unfold scanEnd. apply loop_pos_le. simpl. lia. }
  unfold running in Hs. apply andb_false_iff in Hs as [Hs|Hs].
  - apply Nat.ltb_ge in Hs. lia.
  - apply Nat.ltb_ge in Hs. lia.
Qed.

Lemma loop_Steps (t : list ascii) (o : option ascii) (c : ascii)
    (st st' : scan) :
  Steps t o c st st' ->
  running t st' = false ->
  forall fuel, List.length t <= fuel + pos st -> loop fuel t o c st = st'.
Proof.
  induction 1 as [st|st st' R _ IH]; intros Hstop fuel Hf.
  - destruct fuel; simpl; [reflexivity|]. now rewrite Hstop.
  - assert (P := step_pos t o c st R).
    destruct fuel as [|f]; simpl.
    + unfold running in R. apply andb_prop in R as [R _].
      apply Nat.ltb_lt in R. lia.
    + rewrite R. apply IH; [exact Hstop|lia].
Qed.

Lemma Steps_trans (t : list ascii) (o : option ascii) (c : ascii)
    (a b d : scan) :
  Steps t o c a b -> Steps t o c b d -> Steps t o c a d.
Proof.
  induction 1; intros; [assumption|].
  eapply Steps_next; eauto.
Qed.

Lemma StepsAt_Steps (t : list ascii) (o : option ascii) (c : ascii) (d : nat)
    (a b : scan) :
  StepsAt t o c d a b -> Steps t o c a b.
Proof.
  induction 1; [apply Steps_refl|eapply Steps_next; eauto].
Qed.

Lemma StepsAt_trans (t : list ascii) (o : option ascii) (c : ascii) (d : nat)
    (a b e : scan) :
  StepsAt t o c d a b -> StepsAt t o c d b e -> StepsAt t o c d a e.
Proof.
  induction 1; intros; [assumption|].
  eapply StepsAt_next; eauto.
Qed.

(** *** Reading the text at a split point *)

Lemma at_split (pre : list ascii) (x : ascii) (r : list ascii) :
  at_ (pre ++ x :: r) (List.length pre) = Some x.
Proof.
  unfold at_. rewrite nth_error_app2 by lia. now rewrite Nat.sub_diag.
Qed.

Lemma before_snoc (p : list ascii) (x : ascii) (r : list ascii) :
  before ((p ++ [x]) ++ r) (List.length (p ++ [x])) = Some x.
Proof.
  rewrite length_app. simpl. rewrite Nat.add_comm. simpl.
  rewrite <- app_assoc. simpl.
  rewrite nth_error_app2 by lia. now rewrite Nat.sub_diag.
Qed.

Lemma before_split (pre r : list ascii) :
  before (pre ++ r) (List.length pre) = before pre (List.length pre).
Proof.
  destruct (List.length pre) as [|n] eqn:E; [reflexivity|].
  simpl. apply nth_error_app1. lia.
Qed.

Lemma window_split (pre r : list ascii) :
  window (pre ++ r) (List.length pre) = firstn 3 r.
Proof.
  rewrite window_firstn by (rewrite length_app; lia).
  now rewrite skipn_app, skipn_all, Nat.sub_diag.
Qed.

Lemma running_split (pre : list ascii) (x : ascii) (r : list ascii)
    (d : nat) (ins : option (list ascii)) :
  0 < d -> running (pre ++ x :: r) (mkScan (List.length pre) d ins) = true.
Proof.
  intros Hd. unfold running. simpl.
  apply andb_true_intro. split.
  - apply Nat.ltb_lt. rewrite length_app. simpl. lia.
  - apply Nat.ltb_lt. exact Hd.
Qed.

Lemma isQuote_cases (x : ascii) :
  isQuote x = true -> x = dquote \/ x = squote.
Proof.
  unfold isQuote. intros H. apply orb_prop in H as [H|H];
    apply Ascii.eqb_eq in H; auto.
Qed.

(** The facts about a bracket pair the scanner relies on. *)
Lemma bracket_pair (o : ascii) :
  isOpenBracket (Some o) = true ->
  o <> closeOf (Some o) /\
  isQuote o = false /\ isQuote (closeOf (Some o)) = false /\
  o <> backslash /\ closeOf (Some o) <> backslash.
Proof.
  unfold isOpenBracket. simpl. intros H.
  apply orb_prop in H as [H|H]; [apply orb_prop in H as [H|H]|];
    apply Ascii.eqb_eq in H; subst o;
    repeat split; try reflexivity; discriminate.
Qed.

(** A step over a character that neither opens nor closes a literal. *)
Lemma step_through (pre : list ascii) (x : ascii) (r : list ascii)
    (o : option ascii) (c : ascii) (d : nat) (ins : option (list ascii)) :
  isQuote x && negb (isChar (before pre (List.length pre)) backslash) = false ->
  step (pre ++ x :: r) o c (mkScan (List.length pre) d ins) =
  advance o c x (List.length pre) d ins.
Proof.
  intros H. unfold step. cbn [pos depth inString].
  rewrite at_split, before_split, H. reflexivity.
Qed.

Lemma before_last (p : list ascii) (x : ascii) :
  before (p ++ [x]) (List.length (p ++ [x])) = Some x.
Proof.
  rewrite <- (app_nil_r (p ++ [x])) at 1. apply before_snoc.
Qed.

Lemma before_app_nonempty (a b : list ascii) :
  b <> [] ->
  before (a ++ b) (List.length (a ++ b)) = before b (List.length b).
Proof.
  intros Hb. destruct (exists_last Hb) as [b' [y ->]].
  rewrite app_assoc, !before_last. reflexivity.
Qed.

Lemma firstn_app_long {A : Type} (n : nat) (a b : list A) :
  n <= List.length a -> firstn n (a ++ b) = firstn n a.
Proof.
  intros H. rewrite firstn_app.
  replace (n - List.length a) with 0 by lia.
  simpl. apply app_nil_r.
Qed.

(** One iteration, read off the text at a split point. *)
Lemma step_at (pre : list ascii) (x : ascii) (r : list ascii)
    (o : option ascii) (c : ascii) (d : nat) (ins : option (list ascii)) :
  step (pre ++ x :: r) o c (mkScan (List.length pre) d ins) =
  if isQuote x && negb (isChar (before pre (List.length pre)) backslash) then
    match ins with
    | None =>
        if list_eqb (firstn 3 (x :: r)) tripleD ||
           list_eqb (firstn 3 (x :: r)) tripleS
        then mkScan (List.length pre + 3) d (Some (firstn 3 (x :: r)))
        else advance o c x (List.length pre) d (Some [x])
    | Some q =>
        if list_eqb q [x] ||
           ((List.length q =? 3) && list_eqb (firstn 3 (x :: r)) q)
        then mkScan (if List.length q =? 3 then List.length pre + 3
                     else S (List.length pre)) d None
        else advance o c x (List.length pre) d (Some q)
    end
  else advance o c x (List.length pre) d ins.
Proof.
  unfold step. cbn [pos depth inString].
  rewrite at_split, before_split, window_split. reflexivity.
Qed.

(** Inside a one-character-quoted literal: the scanner walks over the
    body without leaving the literal and without touching the depth. *)
Lemma single_body (q : ascii) (o : option ascii) (c : ascii) (d : nat) :
  0 < d ->
  forall (b2 pre : list ascii) (prev : ascii) (rest : list ascii),
    before pre (List.length pre) = Some prev ->
    (forall j, nth_error b2 j = Some q ->
               isChar (nth_error (prev :: b2) j) backslash = true) ->
    StepsAt (pre ++ b2 ++ rest) o c d
      (mkScan (List.length pre) d (Some [q]))
      (mkScan (List.length pre + List.length b2) d (Some [q])).
Proof.
  intros Hd. induction b2 as [|x b2 IH]; intros pre prev rest Hprev Hq.
  - simpl. rewrite Nat.add_0_r. now apply StepsAt_refl.
  - simpl app. apply StepsAt_next; [reflexivity|now apply running_split|].
    rewrite step_at, Hprev.
    assert (E : (if isQuote x && negb (isChar (Some prev) backslash)
                 then
                   if list_eqb [q] [x] ||
                      ((List.length [q] =? 3) &&
                       list_eqb (firstn 3 (x :: b2 ++ rest)) [q])
                   then mkScan (if List.length [q] =? 3
                                then List.length pre + 3
                                else S (List.length pre)) d None
                   else advance o c x (List.length pre) d (Some [q])
                 else advance o c x (List.length pre) d (Some [q])) =
                mkScan (S (List.length pre)) d (Some [q])).
    { destruct (isQuote x && negb (isChar (Some prev) backslash)) eqn:Q;
        [|reflexivity].
      destruct (list_eqb [q] [x]) eqn:Eq; [|reflexivity].
      apply list_eqb_eq in Eq. injection Eq as Eq. subst x.
      specialize (Hq 0 eq_refl). simpl in Hq.
      apply andb_prop in Q as [_ Q]. simpl in Q. rewrite Hq in Q.
      discriminate. }
    rewrite E. clear E.
    assert (G := IH (pre ++ [x]) x rest (before_last pre x)
                   (fun j Hj => Hq (S j) Hj)).
    rewrite <- app_assoc, length_app in G. cbn [app List.length] in G.
    cbn [List.length].
    replace (List.length pre + S (List.length b2))
      with (List.length pre + 1 + List.length b2) by lia.
    replace (S (List.length pre)) with (List.length pre + 1) by lia.
    exact G.
Qed.

(** Inside a triple-quoted literal. *)
Lemma triple_body (q : ascii) (o : option ascii) (c : ascii) (d : nat) :
  0 < d ->
  forall (b2 pre : list ascii) (prev : ascii) (rest : list ascii),
    before pre (List.length pre) = Some prev ->
    (forall j, j < List.length b2 ->
               firstn 3 (skipn j (b2 ++ [q; q])) = [q; q; q] ->
               isChar (nth_error (prev :: b2) j) backslash = true) ->
    StepsAt (pre ++ b2 ++ q :: q :: q :: rest) o c d
      (mkScan (List.length pre) d (Some [q; q; q]))
      (mkScan (List.length pre + List.length b2) d (Some [q; q; q])).
Proof.
  intros Hd. induction b2 as [|x b2 IH]; intros pre prev rest Hprev Hq.
  - simpl. rewrite Nat.add_0_r. now apply StepsAt_refl.
  - simpl app. apply StepsAt_next; [reflexivity|now apply running_split|].
    rewrite step_at, Hprev.
    assert (E : (if isQuote x && negb (isChar (Some prev) backslash)
                 then
                   if list_eqb [q; q; q] [x] ||
                      ((List.length [q; q; q] =? 3) &&
                       list_eqb (firstn 3 (x :: b2 ++ q :: q :: q :: rest))
                                [q; q; q])
                   then mkScan (if List.length [q; q; q] =? 3
                                then List.length pre + 3
                                else S (List.length pre)) d None
                   else advance o c x (List.length pre) d (Some [q; q; q])
                 else advance o c x (List.length pre) d (Some [q; q; q])) =
                mkScan (S (List.length pre)) d (Some [q; q; q])).
    { destruct (isQuote x && negb (isChar (Some prev) backslash)) eqn:Q;
        [|reflexivity].
      replace (list_eqb [q; q; q] [x]) with false
        by (simpl; now rewrite andb_false_r).
      cbn [orb List.length Nat.eqb andb].
      destruct (list_eqb (firstn 3 (x :: b2 ++ q :: q :: q :: rest)) [q; q; q])
        eqn:Ew; [|reflexivity].
      apply list_eqb_eq in Ew.
      assert (W : firstn 3 (skipn 0 ((x :: b2) ++ [q; q])) = [q; q; q]).
      { simpl skipn. rewrite <- Ew.
        replace (x :: b2 ++ q :: q :: q :: rest)
          with (((x :: b2) ++ [q; q]) ++ q :: rest)
          by (rewrite <- app_assoc; reflexivity).
        rewrite firstn_app_long; [reflexivity|].
        rewrite length_app. simpl. lia. }
      specialize (Hq 0 ltac:(simpl; lia) W). simpl in Hq.
      apply andb_prop in Q as [_ Q]. simpl in Q. rewrite Hq in Q.
      discriminate. }
    rewrite E. clear E.
    assert (G := IH (pre ++ [x]) x rest (before_last pre x)).
    rewrite <- app_assoc, length_app in G. cbn [app List.length] in G.
    cbn [List.length].
    replace (List.length pre + S (List.length b2))
      with (List.length pre + 1 + List.length b2) by lia.
    replace (S (List.length pre)) with (List.length pre + 1) by lia.
    apply G.
    intros j Hj W. apply (Hq (S j)); [simpl; lia|exact W].
Qed.

Lemma StepsAt_here (t : list ascii) (o : option ascii) (c : ascii) (d : nat)
    (p p' : nat) (ins : option (list ascii)) :
  p = p' -> StepsAt t o c d (mkScan p d ins) (mkScan p' d ins).
Proof. intros ->. now apply StepsAt_refl. Qed.

Ltac lengths := repeat (rewrite length_app || cbn [List.length]); lia.

Lemma quote_not_backslash (q : ascii) :
  isQuote q = true -> Ascii.eqb q backslash = false.
Proof.
  intros H. apply isQuote_cases in H as [->| ->]; reflexivity.
Qed.

Lemma quote_triple (q : ascii) :
  isQuote q = true ->
  list_eqb [q; q; q] tripleD || list_eqb [q; q; q] tripleS = true.
Proof.
  intros H. apply isQuote_cases in H as [->| ->]; reflexivity.
Qed.

Lemma not_triple (w : list ascii) :
  (forall z, w <> [z; z; z]) ->
  list_eqb w tripleD || list_eqb w tripleS = false.
Proof.
  intros H. apply orb_false_intro; apply not_true_is_false; intros E;
    apply list_eqb_eq in E; exact (H _ E).
Qed.

(** The state after the closing quote of a literal is the state before
    its opening quote, moved past the literal: no bracket inside the
    literal has changed the depth. *)
Lemma literal_run (l : list ascii) :
  Literal escapedByPrevious l ->
  forall (pre rest : list ascii) (o : option ascii) (c : ascii) (d : nat),
    0 < d ->
    isChar (before pre (List.length pre)) backslash = false ->
    (forall q, l = [q; q] -> hd_error rest <> Some q) ->
    StepsAt (pre ++ l ++ rest) o c d
      (mkScan (List.length pre) d None)
      (mkScan (List.length pre + List.length l) d None).
Proof.
  intros [q body Hq Hbody Hclose | q body Hq Hbody Hclose]
         pre rest o c d Hd Hprev Hmunch.
  - (* one-character quote *)
    replace (pre ++ (q :: body ++ [q]) ++ rest)
      with (pre ++ q :: body ++ q :: rest)
      by (cbn; now rewrite <- app_assoc).
    apply StepsAt_next; [reflexivity|now apply running_split|].
    rewrite step_at, Hq, Hprev. cbn [negb andb].
    rewrite not_triple.
    2:{ intros z E. destruct body as [|y body].
        - cbn in E. destruct rest as [|r0 rest]; [discriminate|].
          injection E as E1 E2 E3. subst.
          eapply Hmunch; reflexivity.
        - cbn in E. injection E as E1 E2 _. subst.
          specialize (Hbody 0 eq_refl). discriminate Hbody. }
    unfold advance.
    eapply StepsAt_trans.
    { assert (G := single_body q o c d Hd body (pre ++ [q]) q (q :: rest)
                     (before_last pre q)).
      rewrite <- !app_assoc, length_app in G. cbn [app List.length] in G.
      replace (S (List.length pre)) with (List.length pre + 1) by lia.
      apply G. intros [|j] Hj.
      - specialize (Hbody 0 Hj). discriminate Hbody.
      - exact (Hbody (S j) Hj). }
    assert (Hlast : isChar (before (pre ++ q :: body)
                              (List.length (pre ++ q :: body))) backslash = false).
    { destruct body as [|y body].
      - replace (pre ++ [q]) with (pre ++ [q]) by reflexivity.
        rewrite before_last. simpl. now apply quote_not_backslash.
      - unfold escapedByPrevious in Hclose. rewrite before_split in Hclose.
        replace (pre ++ q :: y :: body) with ((pre ++ [q]) ++ y :: body)
          by (rewrite <- app_assoc; reflexivity).
        rewrite before_app_nonempty by discriminate. exact Hclose. }
    replace (pre ++ q :: body ++ q :: rest)
      with ((pre ++ q :: body) ++ q :: rest)
      by (rewrite <- app_assoc; reflexivity).
    replace (List.length pre + 1 + List.length body)
      with (List.length (pre ++ q :: body))
      by (rewrite length_app; simpl; lia).
    apply StepsAt_next; [reflexivity|now apply running_split|].
    rewrite step_at, Hq, Hlast. cbn [negb andb].
    rewrite list_eqb_refl. cbn [orb List.length Nat.eqb].
    apply StepsAt_here. lengths.
  - (* triple quote *)
    replace (pre ++ (q :: q :: q :: body ++ [q; q; q]) ++ rest)
      with (pre ++ q :: q :: q :: body ++ q :: q :: q :: rest)
      by (cbn; now rewrite <- app_assoc).
    apply StepsAt_next; [reflexivity|now apply running_split|].
    rewrite step_at, Hq, Hprev. cbn [negb andb firstn].
    rewrite (quote_triple q Hq).
    eapply StepsAt_trans.
    { assert (B : before (pre ++ [q; q; q]) (List.length (pre ++ [q; q; q]))
                  = Some q).
      { replace (pre ++ [q; q; q]) with ((pre ++ [q; q]) ++ [q])
          by (rewrite <- app_assoc; reflexivity).
        apply before_last. }
      assert (G := triple_body q o c d Hd body (pre ++ [q; q; q]) q rest B).
      rewrite <- !app_assoc, length_app in G. cbn [app List.length] in G.
      apply G. intros [|j] Hj W.
      - specialize (Hbody 0 Hj W). discriminate Hbody.
      - exact (Hbody (S j) Hj W). }
    assert (Hlast : isChar (before (pre ++ q :: q :: q :: body)
                      (List.length (pre ++ q :: q :: q :: body))) backslash
                    = false).
    { destruct body as [|y body].
      - replace (pre ++ [q; q; q]) with ((pre ++ [q; q]) ++ [q])
          by (rewrite <- app_assoc; reflexivity).
        rewrite before_last. simpl. now apply quote_not_backslash.
      - unfold escapedByPrevious in Hclose. rewrite before_split in Hclose.
        replace (pre ++ q :: q :: q :: y :: body)
          with ((pre ++ [q; q; q]) ++ y :: body)
          by (rewrite <- app_assoc; reflexivity).
        rewrite before_app_nonempty by discriminate. exact Hclose. }
    replace (pre ++ q :: q :: q :: body ++ q :: q :: q :: rest)
      with ((pre ++ q :: q :: q :: body) ++ q :: q :: q :: rest)
      by (rewrite <- app_assoc; reflexivity).
    replace (List.length pre + 3 + List.length body)
      with (List.length (pre ++ q :: q :: q :: body))
      by (rewrite length_app; simpl; lia).
    apply StepsAt_next; [reflexivity|now apply running_split|].
    rewrite step_at, Hq, Hlast. cbn [negb andb firstn].
    replace (list_eqb [q; q; q] [q]) with false
      by (simpl; now rewrite andb_false_r).
    rewrite list_eqb_refl. cbn [orb andb List.length Nat.eqb].
    apply StepsAt_here. lengths.
Qed.

Lemma Steps_here (t : list ascii) (o : option ascii) (c : ascii)
    (p p' d : nat) (ins : option (list ascii)) :
  p = p' -> Steps t o c (mkScan p d ins) (mkScan p' d ins).
Proof. intros ->. apply Steps_refl. Qed.

Lemma literal_shape (esc : list ascii -> nat -> bool) (l : list ascii) :
  Literal esc l ->
  exists q l', isQuote q = true /\ l = q :: l' /\
               exists l'', l = l'' ++ [q].
Proof.
  intros [q body Hq _ _ | q body Hq _ _].
  - exists q, (body ++ [q]). repeat split; [exact Hq|].
    now exists (q :: body).
  - exists q, (q :: q :: body ++ [q; q; q]). repeat split; [exact Hq|].
    exists (q :: q :: q :: body ++ [q; q]).
    cbn. now rewrite <- app_assoc.
Qed.

(** The scanner walks over a correctly nested segment and comes out at
    the depth it went in with, outside any literal. *)
Lemma balanced_run (o : ascii) (seg : list ascii) :
  isOpenBracket (Some o) = true ->
  Balanced escapedByPrevious o (closeOf (Some o)) seg ->
  forall (pre post : list ascii) (d : nat),
    0 < d ->
    (forall y, hd_error seg = Some y -> isQuote y = true ->
               isChar (before pre (List.length pre)) backslash = false) ->
    (forall y, hd_error post = Some y -> isQuote y = false) ->
    Steps (pre ++ seg ++ post) (Some o) (closeOf (Some o))
      (mkScan (List.length pre) d None)
      (mkScan (List.length pre + List.length seg) d None).
Proof.
  intros Ho HB.
  destruct (bracket_pair o Ho) as (Hoc & Hqo & Hqc & Hbo & Hbc).
  induction HB as [| x r Hx Hxo Hxc Hbs _ IH
                   | l r HL Hmunch Hr IH
                   | b r _ IHb _ IHr]; intros pre post d Hd Hprev Hpost.
  - apply Steps_here. simpl. lia.
  - (* an ordinary character *)
    cbn [app]. eapply Steps_next; [now apply running_split|].
    rewrite step_at, Hx. cbn [andb]. unfold advance. simpl isChar.
    replace (Ascii.eqb o x) with false
      by (symmetry; apply Ascii.eqb_neq; congruence).
    replace (Ascii.eqb x (closeOf (Some o))) with false
      by (symmetry; apply Ascii.eqb_neq; congruence).
    assert (G := IH (pre ++ [x]) post d Hd).
    rewrite <- app_assoc, length_app in G. cbn [app List.length] in G.
    cbn [List.length].
    replace (List.length pre + S (List.length r))
      with (List.length pre + 1 + List.length r) by lia.
    replace (S (List.length pre)) with (List.length pre + 1) by lia.
    apply G; [|exact Hpost].
    intros y Hy Hqy.
    replace (List.length pre + 1) with (List.length (pre ++ [x])) by lengths.
    rewrite before_last. simpl.
    destruct (Ascii.eqb x backslash) eqn:E; [|reflexivity].
    apply Ascii.eqb_eq in E. rewrite (Hbs E y Hy) in Hqy. discriminate.
  - (* a literal *)
    destruct (literal_shape _ l HL) as (q & l' & Hq & El & l'' & El').
    replace (pre ++ (l ++ r) ++ post) with (pre ++ l ++ r ++ post)
      by now rewrite <- app_assoc.
    eapply Steps_trans.
    { apply (StepsAt_Steps _ _ _ d).
      apply literal_run; [exact HL|exact Hd| |].
      - apply (Hprev q); [subst l; reflexivity|exact Hq].
      - intros q0 E0. destruct r as [|r0 r].
        + simpl. intros Hh.
          assert (Q0 : isQuote q0 = true).
          { rewrite E0 in El. injection El as <- _. exact Hq. }
          rewrite (Hpost q0 Hh) in Q0. discriminate.
        + exact (Hmunch q0 E0). }
    assert (G := IH (pre ++ l) post d Hd).
    rewrite <- app_assoc in G.
    replace (List.length pre + List.length l) with (List.length (pre ++ l))
      by lengths.
    replace (List.length pre + List.length (l ++ r))
      with (List.length (pre ++ l) + List.length r) by lengths.
    apply G; [|exact Hpost].
    intros y _ _. rewrite El', app_assoc, before_last. simpl.
    now apply quote_not_backslash.
  - (* a nested pair *)
    cbn [app]. eapply Steps_next; [now apply running_split|].
    rewrite step_at, Hqo. cbn [andb]. unfold advance. simpl isChar.
    rewrite Ascii.eqb_refl.
    eapply Steps_trans.
    { assert (G := IHb (pre ++ [o]) (closeOf (Some o) :: r ++ post) (S d)
                     ltac:(lia)).
      rewrite <- !app_assoc, length_app in G. cbn [app List.length] in G.
      replace (S (List.length pre)) with (List.length pre + 1) by lia.
      rewrite <- app_assoc. cbn [app].
      apply G.
      - intros y _ _.
        replace (List.length pre + 1) with (List.length (pre ++ [o]))
          by lengths.
        rewrite before_last. simpl.
        apply Ascii.eqb_neq. exact Hbo.
      - intros y Hy. injection Hy as <-. exact Hqc. }
    replace (pre ++ o :: (b ++ closeOf (Some o) :: r) ++ post)
      with ((pre ++ o :: b) ++ closeOf (Some o) :: r ++ post)
      by (rewrite <- !app_assoc; reflexivity).
    replace (List.length pre + 1 + List.length b)
      with (List.length (pre ++ o :: b)) by lengths.
    eapply Steps_next; [apply running_split; lia|].
    rewrite step_at, Hqc. cbn [andb]. unfold advance. simpl isChar.
    replace (Ascii.eqb o (closeOf (Some o))) with false
      by (symmetry; apply Ascii.eqb_neq; exact Hoc).
    rewrite Ascii.eqb_refl. cbn [Nat.pred].
    assert (G := IHr (pre ++ o :: b ++ [closeOf (Some o)]) post d Hd).
    replace ((pre ++ o :: b) ++ closeOf (Some o) :: r ++ post)
      with ((pre ++ o :: b ++ [closeOf (Some o)]) ++ r ++ post)
      by (rewrite <- !app_assoc; cbn; now rewrite <- app_assoc).
    replace (S (List.length (pre ++ o :: b)))
      with (List.length (pre ++ o :: b ++ [closeOf (Some o)])) by lengths.
    replace (List.length pre + List.length (o :: b ++ closeOf (Some o) :: r))
      with (List.length (pre ++ o :: b ++ [closeOf (Some o)]) + List.length r)
      by lengths.
    apply G; [|exact Hpost].
    intros y _ _.
    replace (pre ++ o :: b ++ [closeOf (Some o)])
      with ((pre ++ o :: b) ++ [closeOf (Some o)])
      by (rewrite <- app_assoc; reflexivity).
    rewrite before_last. simpl. apply Ascii.eqb_neq. exact Hbc.
Qed.

(** Whatever the text, an iteration that starts or ends inside a literal
    leaves the depth alone. *)
Lemma step_literal_depth (t : list ascii) (o : option ascii) (c : ascii)
    (st : scan) :
  inString st <> None \/ inString (step t o c st) <> None ->
  depth (step t o c st) = depth st.
Proof.
  unfold step. destruct (at_ t (pos st)) as [char|]; [|reflexivity].
  assert (A : forall ins,
             ins <> None \/
             inString (advance o c char (pos st) (depth st) ins) <> None ->
             depth (advance o c char (pos st) (depth st) ins) = depth st).
  { intros [q|]; [reflexivity|]. unfold advance.
    destruct (isChar o char); [intros [H|H]; now elim H|].
    destruct (Ascii.eqb char c); intros [H|H]; now elim H. }
  destruct (isQuote char && negb (isChar (before t (pos st)) backslash)).
  2:{ apply A. }
  destruct (inString st) as [q|].
  - destruct (list_eqb q [char] ||
              (List.length q =? 3) && list_eqb (window t (pos st)) q);
      reflexivity.
  - destruct (list_eqb (window t (pos st)) tripleD ||
              list_eqb (window t (pos st)) tripleS); reflexivity.
Qed.

(** The run of the scanner from an opening bracket to the state right
    after its matching closer. *)
Lemma closer_run (o : ascii) (pre body post : list ascii) :
  isOpenBracket (Some o) = true ->
  Balanced escapedByPrevious o (closeOf (Some o)) body ->
  Steps (pre ++ o :: body ++ closeOf (Some o) :: post)
    (Some o) (closeOf (Some o))
    (mkScan (List.length pre + 1) 1 None)
    (mkScan (List.length pre + 1 + List.length body + 1) 0 None).
Proof.
  intros Ho HB.
  destruct (bracket_pair o Ho) as (Hoc & Hqo & Hqc & Hbo & Hbc).
  eapply Steps_trans.
  { assert (G := balanced_run o body Ho HB (pre ++ [o])
                   (closeOf (Some o) :: post) 1 ltac:(lia)).
    rewrite <- !app_assoc, length_app in G. cbn [app List.length] in G.
    apply G.
    - intros y _ _.
      replace (List.length pre + 1) with (List.length (pre ++ [o])) by lengths.
      rewrite before_last. simpl. apply Ascii.eqb_neq. exact Hbo.
    - intros y Hy. injection Hy as <-. exact Hqc. }
  replace (pre ++ o :: body ++ closeOf (Some o) :: post)
    with ((pre ++ o :: body) ++ closeOf (Some o) :: post)
    by (rewrite <- !app_assoc; reflexivity).
  replace (List.length pre + 1 + List.length body)
    with (List.length (pre ++ o :: body)) by lengths.
  eapply Steps_next; [apply running_split; lia|].
  rewrite step_at, Hqc. cbn [andb]. unfold advance. simpl isChar.
  replace (Ascii.eqb o (closeOf (Some o))) with false
    by (symmetry; apply Ascii.eqb_neq; exact Hoc).
  rewrite Ascii.eqb_refl. cbn [Nat.pred].
  apply Steps_here. lia.
Qed.

(** With a quote counted as escaped exactly when the character right
    before it is a backslash (the test the scanner makes; the host
    languages read a quote after an escaped backslash otherwise):
    whenever the opening bracket at [openIndex] has a correctly nested
    matching closer at [closeIndex] (one-character-quoted and
    triple-quoted literals in between may hold any brackets),
    [findMatchingBracket] returns [closeIndex]; and no iteration that
    starts or ends inside a literal changes the nesting depth. *)
Theorem findMatchingBracket_closer (text : string) (openIndex closeIndex : nat) :
  MatchingCloser escapedByPrevious text openIndex closeIndex ->
  findMatchingBracket text openIndex = Z.of_nat closeIndex /\
  (forall st : scan,
     let o := at_ (chars text) openIndex in
     inString st <> None \/
     inString (step (chars text) o (closeOf o) st) <> None ->
     depth (step (chars text) o (closeOf o) st) = depth st).
Proof.
  intros (pre & o & body & post & Et & Ho & HB & -> & ->).
  split; [|intros st o'; apply step_literal_depth].
  unfold findMatchingBracket, scanEnd. rewrite Et, at_split.
  rewrite (loop_Steps _ _ _ _ _ (closer_run o pre body post Ho HB)).
  - cbn [pos]. lia.
  - unfold running. cbn [depth]. apply andb_false_r.
  - cbn [pos]. lengths.
Qed.

Lemma findMatchingBracket_closer_witness :
  MatchingCloser escapedByPrevious Samples.nestedText 0 20 /\
  findMatchingBracket Samples.nestedText 0 = 20%Z.
Proof.
  assert (M : MatchingCloser escapedByPrevious Samples.nestedText 0 20).
  { exists [], "{"%char,
      (chars (Samples.dq ++ "}" ++ Samples.dq ++ " '''{''' [(] {x}")),
      (chars " z").
    split; [vm_compute; reflexivity|]. split; [reflexivity|].
    split; [|split; reflexivity].
    apply (Bal_lit _ _ _ [dquote; "}"%char; dquote]
             (chars " '''{''' [(] {x}")).
    { apply (Lit_single _ dquote ["}"%char]); [reflexivity| |reflexivity].
      intros [|[|j]] H; discriminate H. }
    { intros q H; discriminate H. }
    apply Bal_char; [reflexivity|discriminate|discriminate|discriminate|].
    apply (Bal_lit _ _ _ (chars "'''{'''") (chars " [(] {x}")).
    { apply (Lit_triple _ squote ["{"%char]); [reflexivity| |reflexivity].
      intros [|j] Hj W; [discriminate W|simpl in Hj; lia]. }
    { intros q H; discriminate H. }
    do 5 (apply Bal_char; [reflexivity|discriminate|discriminate|discriminate|]).
    apply (Bal_nest _ _ _ ["x"%char] []); [|apply Bal_nil].
    apply Bal_char; [reflexivity|discriminate|discriminate|discriminate|].
    apply Bal_nil. }
  split; [exact M|].
  exact (proj1 (findMatchingBracket_closer _ _ _ M)).
Defined.

(** C4: both scanners take a quote for escaped whenever the character
    right before it is a backslash, also when that backslash is itself
    escaped.  With literals read as the host languages read them (a
    backslash escapes the character after it, a backslash included), the
    brace at 33 of the first of two Python statements has its matching
    closer at 43; [findMatchingBracket] stays inside the literal, returns
    86, the brace inside a literal of the second statement, and
    [extractInputExpression] returns the text from 33 to 86 where the
    input is [{"a": "\\"}].  In C# the parenthesis at 27 has its closer at
    39 and the second argument of the call is ["\\"]; the loop of
    [extractInputExpression] runs on into the second statement and
    returns the text up to the quote before its brace. *)
Lemma escaped_backslash_hides_closer :
  (MatchingCloser escapedByRun Samples.escapedDictSource 33 43 /\
   findMatchingBracket Samples.escapedDictSource 33 = 86%Z /\
   at_ (chars Samples.escapedDictSource) 86 = Some "}"%char /\
   str (substring (chars Samples.escapedDictSource) 33 44) =
     ("{" ++ Samples.dq ++ "a" ++ Samples.dq ++ ": " ++
      Samples.dq ++ Samples.bs ++ Samples.bs ++ Samples.dq ++ "}")%string /\
   Scanner.extractInputExpression Samples.escapedDictSource 0 =
     Some ("{" ++ Samples.dq ++ "a" ++ Samples.dq ++ ": " ++
           Samples.dq ++ Samples.bs ++ Samples.bs ++ Samples.dq ++ "})" ++
           Samples.nl ++ "yield ctx.call_activity(g, input={" ++
           Samples.dq ++ "b" ++ Samples.dq ++ ": " ++ Samples.dq ++
           "}")%string) /\
  (MatchingCloser escapedByRun Samples.escapedArgumentSource 27 39 /\
   str (substring (chars Samples.escapedArgumentSource) 34 39) =
     (" " ++ Samples.dq ++ Samples.bs ++ Samples.bs ++ Samples.dq)%string /\
   CSharpInput.extractInputExpression Samples.escapedArgumentSource 0 =
     Some (Samples.dq ++ Samples.bs ++ Samples.bs ++ Samples.dq ++ ");" ++
           Samples.nl ++ "await ctx.CallActivityAsync(" ++
           Samples.dq ++ "Send" ++ Samples.dq ++ ", " ++
           Samples.dq)%string).
Proof.
  split.
  - split; [|repeat split; vm_compute; reflexivity].
    exists (chars "yield ctx.call_activity(f, input="), "{"%char,
      (chars (Samples.dq ++ "a" ++ Samples.dq ++ ": " ++
              Samples.dq ++ Samples.bs ++ Samples.bs ++ Samples.dq)),
      (chars (")" ++ Samples.nl ++ "yield ctx.call_activity(g, input={" ++
              Samples.dq ++ "b" ++ Samples.dq ++ ": " ++
              Samples.dq ++ "}" ++ Samples.dq ++ "})")).
    split; [vm_compute; reflexivity|]. split; [reflexivity|].
    split; [|split; reflexivity].
    apply (Bal_lit _ _ _ [dquote; "a"%char; dquote]
             (chars (": " ++ Samples.dq ++ Samples.bs ++ Samples.bs ++
                     Samples.dq))).
    { apply (Lit_single _ dquote ["a"%char]); [reflexivity| |reflexivity].
      intros [|[|j]] H; discriminate H. }
    { intros q H; discriminate H. }
    do 2 (apply Bal_char; [reflexivity|discriminate|discriminate|discriminate|]).
    apply (Bal_lit _ _ _ [dquote; backslash; backslash; dquote] []);
      [| |apply Bal_nil].
    + apply (Lit_single _ dquote [backslash; backslash]);
        [reflexivity| |reflexivity].
      intros [|[|[|j]]] H; discriminate H.
    + intros q H; discriminate H.
  - split; [|split; vm_compute; reflexivity].
    exists (chars "await ctx.CallActivityAsync"), "("%char,
      (chars (Samples.dq ++ "Log" ++ Samples.dq ++ ", " ++
              Samples.dq ++ Samples.bs ++ Samples.bs ++ Samples.dq)),
      (chars (";" ++ Samples.nl ++ "await ctx.CallActivityAsync(" ++
              Samples.dq ++ "Send" ++ Samples.dq ++ ", " ++
              Samples.dq ++ "}" ++ Samples.dq ++ ");")).
    split; [vm_compute; reflexivity|]. split; [reflexivity|].
    split; [|split; reflexivity].
    apply (Bal_lit _ _ _ (dquote :: chars "Log" ++ [dquote])
             (chars (", " ++ Samples.dq ++ Samples.bs ++ Samples.bs ++
                     Samples.dq))).
    { apply (Lit_single _ dquote (chars "Log")); [reflexivity| |reflexivity].
      intros [|[|[|[|j]]]] H; discriminate H. }
    { intros q H; discriminate H. }
    do 2 (apply Bal_char; [reflexivity|discriminate|discriminate|discriminate|]).
    apply (Bal_lit _ _ _ [dquote; backslash; backslash; dquote] []);
      [| |apply Bal_nil].
    + apply (Lit_single _ dquote [backslash; backslash]);
        [reflexivity| |reflexivity].
      intros [|[|[|j]]] H; discriminate H.
    + intros q H; discriminate H.
Qed.

(** The same on a one-line text: with literals read as the host
    languages read them (a
    backslash escapes the character after it, a backslash included), the
    brace at 0 of [{"a": "\\"})] has its matching closer at 10, and
    [findMatchingBracket] returns 11: the quote that ends the literal of
    one backslash is taken for an escaped one. *)
Lemma findMatchingBracket_escaped_backslash :
  MatchingCloser escapedByRun Samples.backslashText 0 10 /\
  findMatchingBracket Samples.backslashText 0 = 11%Z /\
  findMatchingBracket Samples.backslashText 0 <> 10%Z.
Proof.
  split; [|split; [vm_compute; reflexivity|vm_compute; discriminate]].
  exists [], "{"%char,
    (chars (Samples.dq ++ "a" ++ Samples.dq ++ ": " ++
            Samples.dq ++ Samples.bs ++ Samples.bs ++ Samples.dq)),
    (chars ")").
  split; [vm_compute; reflexivity|]. split; [reflexivity|].
  split; [|split; reflexivity].
  apply (Bal_lit _ _ _ [dquote; "a"%char; dquote]
           (chars (": " ++ Samples.dq ++ Samples.bs ++ Samples.bs ++ Samples.dq))).
  { apply (Lit_single _ dquote ["a"%char]); [reflexivity| |reflexivity].
    intros [|[|j]] H; discriminate H. }
  { intros q H; discriminate H. }
  do 2 (apply Bal_char; [reflexivity|discriminate|discriminate|discriminate|]).
  apply (Bal_lit _ _ _ [dquote; backslash; backslash; dquote] []);
    [| |apply Bal_nil].
  - apply (Lit_single _ dquote [backslash; backslash]);
      [reflexivity| |reflexivity].
    intros [|[|[|j]]] H; discriminate H.
  - intros q H; discriminate H.
Qed.

End ScannerFacts.

(** ** Reasoning about the effects *)

Module EffectFacts.

Import Js Model Effects Spec.

Open Scope js_scope.

Lemma bind_normal {A B : Type} (c : M A) (k : A -> M B) (st st' : Inst) (b : B) :
  bind c k st = Normal b st' ->
  exists a st1, c st = Normal a st1 /\ k a st1 = Normal b st'.
Proof.
  unfold bind. destruct (c st) as [a st1|e st1]; [|discriminate].
  intros H. now exists a, st1.
Qed.

Lemma triple_ret {A : Type} (P : Inst -> Prop) (a : A) (Q : A -> Inst -> Prop) :
  (forall st, P st -> Q a st) -> triple P (ret a) Q.
Proof.
  intros H st a' st' HP E. injection E as <- <-. now apply H.
Qed.

Lemma triple_bind {A B : Type} (P : Inst -> Prop) (c : M A)
    (R : A -> Inst -> Prop) (k : A -> M B) (Q : B -> Inst -> Prop) :
  triple P c R -> (forall a, triple (R a) (k a) Q) -> triple P (bind c k) Q.
Proof.
  intros Hc Hk st b st' HP E.
  apply bind_normal in E as (a & st1 & E1 & E2).
  exact (Hk a st1 b st' (Hc st a st1 HP E1) E2).
Qed.

Lemma triple_call {A : Type} (P : Inst -> Prop) (r : Thrown + A)
    (Q : A -> Inst -> Prop) :
  (forall a st, r = inr a -> P st -> Q a st) -> triple P (call r) Q.
Proof.
  intros H st a st' HP E. unfold call in E.
  destruct r as [e|a0]; [discriminate|].
  injection E as <- <-. now apply H.
Qed.

Lemma triple_this (P : Inst -> Prop) (Q : Inst -> Inst -> Prop) :
  (forall st, P st -> Q st st) -> triple P this Q.
Proof.
  intros H st a st' HP E. injection E as <- <-. now apply H.
Qed.

Lemma triple_assign (P : Inst -> Prop) (f : Inst -> Inst)
    (Q : unit -> Inst -> Prop) :
  (forall st, P st -> Q tt (f st)) -> triple P (assign f) Q.
Proof.
  intros H st a st' HP E. injection E as <- <-. now apply H.
Qed.

Lemma triple_weaken {A : Type} (P P' : Inst -> Prop) (c : M A)
    (Q Q' : A -> Inst -> Prop) :
  triple P' c Q' ->
  (forall st, P st -> P' st) ->
  (forall a st, Q' a st -> Q a st) ->
  triple P c Q.
Proof.
  intros H HP HQ st a st' Hst E. apply HQ. eapply H; eauto.
Qed.

(** The rule of the loop: an invariant of the loop-carried variables and
    the state. *)
Lemma triple_forEach {A B : Type} (I : B -> Inst -> Prop) (items : list A)
    (body : B -> A -> M B) :
  (forall acc x, In x items -> triple (I acc) (body acc x) I) ->
  forall acc, triple (I acc) (forEach items acc body) I.
Proof.
  induction items as [|x rest IH]; intros Hbody acc; simpl.
  - apply triple_ret. auto.
  - eapply triple_bind.
    + apply Hbody. now left.
    + intros acc'. apply IH. intros a y Hy. apply Hbody. now right.
Qed.

End EffectFacts.

(** ** The step recognisers of the Python extractor *)

Module RecognizerFacts.

Import Js Model Effects Assembler Spec EffectFacts.

Open Scope js_scope.

Lemma mapGet_mapSet (m : JsMap) (k v k' : string) :
  mapGet (mapSet m k v) k' =
  if String.eqb k k' then Some v else mapGet m k'.
Proof.
  induction m as [|[k0 v0] m IH]; simpl.
  - reflexivity.
  - destruct (String.eqb k0 k) eqn:E0; simpl.
    + apply String.eqb_eq in E0. subst k0.
      destruct (String.eqb k k'); reflexivity.
    + destruct (String.eqb k0 k') eqn:E1.
      * apply String.eqb_eq in E1. subst k0.
        now rewrite String.eqb_sym, E0.
      * exact IH.
Qed.

Lemma Inv_wellFormed (ns : list WorkflowNode) (st : Inst) :
  Inv ns st -> WellFormed ns (parallelGroupMap st).
Proof.
  intros [S T G]. split; [exact S| |].
  - intros k j H. exact (proj1 (G k j H)).
  - intros k j H. exact (proj2 (G k j H)).
Qed.

(** A step that adds a node and leaves the task and group maps alone. *)
Lemma Inv_push (ns : list WorkflowNode) (st st' : Inst) (n : WorkflowNode) :
  Inv ns st -> StepShape n ->
  parallelTaskMap st' = parallelTaskMap st ->
  parallelGroupMap st' = parallelGroupMap st ->
  Inv (ns ++ [n]) st'.
Proof.
  intros [S T G] Hn ET EG. split.
  - apply Forall_app. split; [exact S|]. now constructor.
  - rewrite ET. intros k v H. destruct (T k v H) as (m & Hm & Hid & Hf).
    exists m. split; [apply in_or_app; now left|]. now split.
  - rewrite EG. intros k j H. destruct (G k j H) as [(m & Hm & Hid & Hf) (m' & Hm' & Hid' & Hty)].
    split.
    + exists m. split; [apply in_or_app; now left|]. now split.
    + exists m'. split; [apply in_or_app; now left|]. now split.
Qed.

(** A step that leaves the nodes and the two maps alone. *)
Lemma Inv_frame (ns : list WorkflowNode) (st st' : Inst) :
  Inv ns st ->
  parallelTaskMap st' = parallelTaskMap st ->
  parallelGroupMap st' = parallelGroupMap st ->
  Inv ns st'.
Proof.
  intros [S T G] ET EG. split; [exact S| |].
  - now rewrite ET.
  - now rewrite EG.
Qed.

Lemma Inv_app (ns more : list WorkflowNode) (st : Inst) :
  Inv ns st -> Forall StepShape more -> Inv (ns ++ more) st.
Proof.
  intros [S T G] Hm. split.
  - apply Forall_app. now split.
  - intros k v H. destruct (T k v H) as (m & Hin & Hid & Hf).
    exists m. split; [apply in_or_app; now left|]. now split.
  - intros k j H.
    destruct (G k j H) as [(m & Hin & Hid & Hf) (m' & Hin' & Hid' & Hty)].
    split.
    + exists m. split; [apply in_or_app; now left|]. now split.
    + exists m'. split; [apply in_or_app; now left|]. now split.
Qed.

Lemma shape_intro (n : WorkflowNode) (p : string) (k : nat) :
  stepPrefix (nodeType n) = Some p ->
  nodeId n = (p ++ ofNat k)%string ->
  (flagged n = true -> nodeType n = TActivity) ->
  StepShape n.
Proof.
  intros H1 H2 H3. split; [exists p, k; split; [now left|exact H2]|exact H3].
Qed.

Lemma registerOutput_run (o : option string) (id : string) (st : Inst) :
  exists st', Python.registerOutput o id st = Normal tt st' /\
              workflowInputParam st' = workflowInputParam st /\
              parallelTaskMap st' = parallelTaskMap st /\
              parallelGroupMap st' = parallelGroupMap st /\
              outputVariableMap st' =
                (if truthy o then
                   match o with
                   | Some v => mapSet (outputVariableMap st) v id
                   | None => outputVariableMap st
                   end
                 else outputVariableMap st).
Proof.
  unfold Python.registerOutput.
  destruct (truthy o); [destruct o|]; eexists; repeat split; reflexivity.
Qed.

Section Recognizers.

Variable E : Python.Engine.
Variables (sourceCode : string) (lineOffset : nat).
Variable before : list WorkflowNode.

(** The invariant of a loop whose nodes come after [before]. *)
Let LoopInv (acc : list WorkflowNode * nat) (st : Inst) : Prop :=
  Inv (before ++ fst acc) st.

Lemma taskStep_spec (acc : list WorkflowNode * nat) (m : Python.TaskMatch) :
  triple (LoopInv acc) (Python.taskStep sourceCode lineOffset acc m) LoopInv.
Proof.
  destruct acc as [nodes index]. intros st r st' [S T G] H.
  cbv [Python.taskStep bind setParallelTask assign Python.analyze this ret] in H.
  injection H as <- <-. unfold LoopInv. cbn [fst].
  rewrite app_assoc. split.
  - apply Forall_app. split; [exact S|]. constructor; [|constructor].
    apply (shape_intro _ "activity-" index); reflexivity || (intros _; reflexivity).
  - cbn [parallelTaskMap]. intros k v H. rewrite mapGet_mapSet in H.
    destruct (String.eqb (Python.tmTaskVar m) k).
    + injection H as <-. eexists. split; [apply in_or_app; right; now left|].
      split; reflexivity.
    + destruct (T k v H) as (n & Hn & Hid & Hf).
      exists n. split; [apply in_or_app; now left|]. now split.
  - cbn [parallelGroupMap]. intros k j H.
    destruct (G k j H) as [(n & Hn & Hid & Hf) (n' & Hn' & Hid' & Hty)].
    split.
    + exists n. split; [apply in_or_app; now left|]. now split.
    + exists n'. split; [apply in_or_app; now left|]. now split.
Qed.

Ltac run_register H :=
  match type of H with
  | context [Python.registerOutput ?o ?id ?st] =>
      let st1 := fresh "st1" in
      let E1 := fresh "E1" in
      let Ew := fresh "Ew" in
      let Et := fresh "Et" in
      let Eg := fresh "Eg" in
      let Eo := fresh "Eo" in
      destruct (registerOutput_run o id st) as (st1 & E1 & Ew & Et & Eg & Eo);
      rewrite E1 in H
  end.

Lemma awaitedStep_spec (acc : list WorkflowNode * nat) (m : Python.AwaitedMatch) :
  triple (LoopInv acc) (Python.awaitedStep sourceCode lineOffset acc m) LoopInv.
Proof.
  destruct acc as [nodes index]. intros st r st' HI H.
  unfold Python.awaitedStep in H.
  destruct (existsb _ nodes) in H.
  - injection H as <- <-. exact HI.
  - unfold bind in H. run_register H.
    cbv [Python.analyze bind this ret] in H. injection H as <- <-.
    unfold LoopInv. cbn [fst]. rewrite app_assoc.
    apply (Inv_push _ st); [exact HI| |exact Et|exact Eg].
    apply (shape_intro _ "activity-" index);
      reflexivity || (intros F; discriminate F).
Qed.

Lemma stringActivityStep_spec (acc : list WorkflowNode * nat)
    (m : Python.AwaitedMatch) :
  triple (LoopInv acc) (Python.stringActivityStep sourceCode lineOffset acc m)
         LoopInv.
Proof.
  destruct acc as [nodes index]. intros st r st' HI H.
  unfold Python.stringActivityStep, bind in H. run_register H.
  cbv [Python.analyze bind this ret] in H. injection H as <- <-.
  unfold LoopInv. cbn [fst]. rewrite app_assoc.
  apply (Inv_push _ st); [exact HI| |exact Et|exact Eg].
  apply (shape_intro _ "activity-" index);
    reflexivity || (intros F; discriminate F).
Qed.

Lemma childStep_spec (acc : list WorkflowNode * nat) (m : Python.ChildMatch) :
  triple (LoopInv acc) (Python.childStep sourceCode lineOffset acc m) LoopInv.
Proof.
  destruct acc as [nodes index]. intros st r st' HI H.
  unfold Python.childStep, bind in H. run_register H.
  cbv [Python.analyze bind this ret] in H. injection H as <- <-.
  unfold LoopInv. cbn [fst]. rewrite app_assoc.
  apply (Inv_push _ st); [exact HI| |exact Et|exact Eg].
  apply (shape_intro _ "child-" index);
    reflexivity || (intros F; discriminate F).
Qed.

Lemma timerStep_spec (acc : list WorkflowNode * nat) (m : Python.TimerMatch) :
  triple (LoopInv acc) (Python.timerStep sourceCode lineOffset acc m) LoopInv.
Proof.
  destruct acc as [nodes index]. intros st r st' HI H.
  unfold Python.timerStep, bind in H. run_register H.
  cbv [ret] in H. injection H as <- <-.
  unfold LoopInv. cbn [fst]. rewrite app_assoc.
  apply (Inv_push _ st); [exact HI| |exact Et|exact Eg].
  apply (shape_intro _ "timer-" index);
    reflexivity || (intros F; discriminate F).
Qed.

Lemma eventStep_spec (acc : list WorkflowNode * nat) (m : Python.EventMatch) :
  triple (LoopInv acc) (Python.eventStep sourceCode lineOffset acc m) LoopInv.
Proof.
  destruct acc as [nodes index]. intros st r st' HI H.
  unfold Python.eventStep, bind in H. run_register H.
  cbv [ret] in H. injection H as <- <-.
  unfold LoopInv. cbn [fst]. rewrite app_assoc.
  apply (Inv_push _ st); [exact HI| |exact Et|exact Eg].
  apply (shape_intro _ "event-" index);
    reflexivity || (intros F; discriminate F).
Qed.

(** [analyzeConditionSources] reads the state and does not write it. *)
Lemma analyzeConditionSources_frame (condition : string) (st0 : Inst) :
  triple (fun st => st = st0) (Python.analyzeConditionSources E condition)
         (fun _ st => st = st0).
Proof.
  unfold Python.analyzeConditionSources.
  eapply triple_bind with (R := fun a st => st = st0).
  { apply triple_this. auto. }
  intros a. eapply triple_bind with (R := fun _ st => st = st0).
  { apply triple_call. auto. }
  intros refs.
  apply (triple_forEach (fun (_ : list DataSource) st => st = st0)).
  intros acc x _. eapply triple_bind with (R := fun _ st => st = st0).
  { apply triple_call. auto. }
  intros r. apply triple_ret. auto.
Qed.

Lemma decisionStep_spec (acc : list WorkflowNode * nat) (m : Python.IfMatch) :
  triple (LoopInv acc) (Python.decisionStep E sourceCode lineOffset acc m)
         LoopInv.
Proof.
  destruct acc as [nodes index]. intros st r st' HI H.
  unfold Python.decisionStep in H.
  apply bind_normal in H as (ds & st1 & H1 & H2).
  assert (st1 = st)
    by exact (analyzeConditionSources_frame _ st st ds st1 eq_refl H1).
  subst st1. cbv [ret] in H2. injection H2 as <- <-.
  unfold LoopInv. cbn [fst]. rewrite app_assoc.
  apply (Inv_push _ st); [exact HI| |reflexivity|reflexivity].
  apply (shape_intro _ "decision-" index);
    reflexivity || (intros F; discriminate F).
Qed.

Lemma mapTask_spec (ns : list WorkflowNode) (joinId taskVar : string) :
  triple (Pending ns joinId) (Python.mapTask joinId tt taskVar)
         (fun _ => Pending ns joinId).
Proof.
  intros st r st' (S & T & G) H.
  cbv [Python.mapTask bind this ret] in H.
  destruct (truthy (mapGet (parallelTaskMap st) taskVar)) eqn:Tr.
  2:{ injection H as <- <-. exact (conj S (conj T G)). }
  destruct (mapGet (parallelTaskMap st) taskVar) as [a|] eqn:Ea.
  2:{ injection H as <- <-. exact (conj S (conj T G)). }
  cbv [setParallelGroup assign] in H. injection H as <- <-.
  split; [exact S|]. split; [exact T|].
  cbn [parallelGroupMap]. intros k j H. rewrite mapGet_mapSet in H.
  destruct (String.eqb a k) eqn:Ek.
  - apply String.eqb_eq in Ek. subst k. injection H as <-.
    split; [exact (T _ _ Ea)|now right].
  - exact (G k j H).
Qed.

Lemma joinStep_spec (acc : list WorkflowNode * nat) (m : Python.WhenAllMatch) :
  triple (LoopInv acc) (Python.joinStep E sourceCode lineOffset acc m) LoopInv.
Proof.
  destruct acc as [nodes index]. intros st r st' HI H.
  unfold Python.joinStep in H.
  apply bind_normal in H as (taskVars & st1 & H1 & H).
  assert (st1 = st).
  { unfold call in H1. destruct (Python.taskTokens E _); [discriminate|].
    now injection H1. }
  subst st1. clear H1.
  apply bind_normal in H as (u1 & st2 & H1 & H).
  assert (I2 : Inv (before ++ nodes) st2).
  { revert H1.
    apply (triple_forEach (fun (_ : unit) s => Inv (before ++ nodes) s));
      [|exact HI].
    intros [] o _ s r1 s' Hs Hr.
    destruct (registerOutput_run (Some o)
                ("parallel-join-" ++ ofNat index)%string s)
      as (s1 & E1 & _ & Et & Eg & _).
    rewrite E1 in Hr. injection Hr as _ <-.
    apply (Inv_frame _ s); assumption. }
  clear H1.
  apply bind_normal in H as (u2 & st3 & H1 & H).
  assert (P3 : Pending (before ++ nodes)
                 ("parallel-join-" ++ ofNat index)%string st3).
  { revert H1.
    apply (triple_forEach
             (fun (_ : unit) s =>
                Pending (before ++ nodes)
                        ("parallel-join-" ++ ofNat index)%string s)).
    - intros [] t _. apply mapTask_spec.
    - destruct I2 as [S T G]. split; [exact S|]. split; [exact T|].
      intros k j Hk. destruct (G k j Hk) as [A B]. split; [exact A|now left]. }
  clear H1. cbv [bind this ret] in H. injection H as <- <-.
  destruct P3 as (S & T & G).
  unfold LoopInv. cbn [fst]. rewrite app_assoc. split.
  - apply Forall_app. split; [exact S|]. constructor; [|constructor].
    apply (shape_intro _ "parallel-join-" index);
      reflexivity || (intros F; discriminate F).
  - intros k v Hk. destruct (T k v Hk) as (n & Hn & Hid & Hf).
    exists n. split; [apply in_or_app; now left|]. now split.
  - intros k j Hk. destruct (G k j Hk) as [(n & Hn & Hid & Hf) B]. split.
    + exists n. split; [apply in_or_app; now left|]. now split.
    + destruct B as [(n' & Hn' & Hid' & Hty)| ->].
      * exists n'. split; [apply in_or_app; now left|]. now split.
      * eexists. split; [apply in_or_app; right; now left|].
        split; reflexivity.
Qed.

(** A recogniser is a call of the engine and a loop from [([], 0)]. *)
Lemma recognizer_spec {A : Type} (found : Thrown + list A)
    (body : list WorkflowNode * nat -> A -> M (list WorkflowNode * nat)) :
  (forall acc x, triple (LoopInv acc) (body acc x) LoopInv) ->
  triple (Inv before)
         (items <- call found ;;
          acc <- forEach items ([], 0) body ;;
          ret (fst acc))
         (fun nodes st => Inv (before ++ nodes) st).
Proof.
  intros Hbody.
  eapply triple_bind with (R := fun _ st => Inv before st).
  { apply triple_call. auto. }
  intros items.
  eapply triple_bind with (R := LoopInv).
  { eapply triple_weaken.
    - apply (triple_forEach LoopInv). intros acc x _. apply Hbody.
    - intros st H. unfold LoopInv. cbn [fst]. now rewrite app_nil_r.
    - auto. }
  intros acc. apply triple_ret. auto.
Qed.

Lemma parseActivities_spec :
  triple (Inv before) (Python.parseActivities E sourceCode lineOffset)
         (fun nodes st => Inv (before ++ nodes) st).
Proof.
  unfold Python.parseActivities.
  eapply triple_bind with (R := fun _ st => Inv before st).
  { apply triple_call. auto. }
  intros taskMatches.
  eapply triple_bind with (R := LoopInv).
  { eapply triple_weaken.
    - apply (triple_forEach LoopInv). intros acc x _. apply taskStep_spec.
    - intros st H. unfold LoopInv. cbn [fst]. now rewrite app_nil_r.
    - auto. }
  intros acc1.
  eapply triple_bind with (R := fun _ st => LoopInv acc1 st).
  { apply triple_call. auto. }
  intros awaitedMatches.
  eapply triple_bind with (R := LoopInv).
  { apply (triple_forEach LoopInv). intros acc x _. apply awaitedStep_spec. }
  intros acc2.
  eapply triple_bind with (R := fun _ st => LoopInv acc2 st).
  { apply triple_call. auto. }
  intros stringMatches.
  eapply triple_bind with (R := LoopInv).
  { apply (triple_forEach LoopInv). intros acc x _.
    apply stringActivityStep_spec. }
  intros acc3. apply triple_ret. auto.
Qed.

Lemma parseChildWorkflows_spec :
  triple (Inv before) (Python.parseChildWorkflows E sourceCode lineOffset)
         (fun nodes st => Inv (before ++ nodes) st).
Proof. apply recognizer_spec. intros. apply childStep_spec. Qed.

Lemma parseTimers_spec :
  triple (Inv before) (Python.parseTimers E sourceCode lineOffset)
         (fun nodes st => Inv (before ++ nodes) st).
Proof. apply recognizer_spec. intros. apply timerStep_spec. Qed.

Lemma parseExternalEvents_spec :
  triple (Inv before) (Python.parseExternalEvents E sourceCode lineOffset)
         (fun nodes st => Inv (before ++ nodes) st).
Proof. apply recognizer_spec. intros. apply eventStep_spec. Qed.

Lemma parseDecisions_spec :
  triple (Inv before) (Python.parseDecisions E sourceCode lineOffset)
         (fun nodes st => Inv (before ++ nodes) st).
Proof. apply recognizer_spec. intros. apply decisionStep_spec. Qed.

Lemma parseRetryPolicies_spec :
  triple (Inv before) (Python.parseRetryPolicies E sourceCode lineOffset)
         (fun nodes st => Inv (before ++ nodes) st).
Proof.
  apply recognizer_spec. intros [nodes index] x st r st' HI H.
  cbv [ret] in H. injection H as <- <-.
  unfold LoopInv. cbn [fst snd]. rewrite app_assoc.
  apply (Inv_push _ st); [exact HI| |reflexivity|reflexivity].
  apply (shape_intro _ "retry-" index);
    reflexivity || (intros F; discriminate F).
Qed.

Lemma parseParallelBlocks_spec :
  triple (Inv before) (Python.parseParallelBlocks E sourceCode lineOffset)
         (fun nodes st => Inv (before ++ nodes) st).
Proof. apply recognizer_spec. intros. apply joinStep_spec. Qed.

End Recognizers.

(** All the recognisers, from a state whose task and group maps are
    empty. *)
Lemma recognizeSteps_spec (E : Python.Engine) (sourceCode : string)
    (lineOffset : nat) :
  triple (Inv []) (Python.recognizeSteps E sourceCode lineOffset)
         (fun steps st => Inv steps st).
Proof.
  unfold Python.recognizeSteps.
  eapply triple_bind; [apply (parseActivities_spec E _ _ [])|].
  intros a. cbn [app].
  eapply triple_bind; [apply (parseChildWorkflows_spec E _ _ a)|].
  intros b. cbn beta.
  eapply triple_bind; [apply (parseTimers_spec E _ _ (a ++ b))|].
  intros c. cbn beta.
  eapply triple_bind; [apply (parseExternalEvents_spec E _ _ ((a ++ b) ++ c))|].
  intros d. cbn beta.
  eapply triple_bind;
    [apply (parseDecisions_spec E _ _ (((a ++ b) ++ c) ++ d))|].
  intros e. cbn beta.
  eapply triple_bind;
    [apply (parseRetryPolicies_spec E _ _ ((((a ++ b) ++ c) ++ d) ++ e))|].
  intros f. cbn beta.
  eapply triple_bind;
    [apply (parseParallelBlocks_spec E _ _
              (((((a ++ b) ++ c) ++ d) ++ e) ++ f))|].
  intros g. apply triple_ret. intros st H.
  now rewrite <- !app_assoc in H.
Qed.

End RecognizerFacts.

(** ** The run of [parse] of the Python extractor *)

Module ParseFacts.

Import Js Model Effects Assembler Spec EffectFacts RecognizerFacts.

Open Scope js_scope.

Lemma keeps_ret {A : Type} (a : A) : keeps (ret a).
Proof. intros st a' st' H. now injection H as _ <-. Qed.

Lemma keeps_call {A : Type} (r : Thrown + A) : keeps (call r).
Proof.
  intros st a st' H. unfold call in H. destruct r; [discriminate|].
  now injection H as _ <-.
Qed.

Lemma keeps_bind {A B : Type} (c : M A) (k : A -> M B) :
  keeps c -> (forall a, keeps (k a)) -> keeps (bind c k).
Proof.
  intros Hc Hk st b st' H. apply bind_normal in H as (a & st1 & H1 & H2).
  rewrite (Hk a _ _ _ H2). exact (Hc _ _ _ H1).
Qed.

Lemma keeps_forEach {A B : Type} (items : list A) (body : B -> A -> M B) :
  (forall acc x, keeps (body acc x)) ->
  forall acc, keeps (forEach items acc body).
Proof.
  intros Hb. induction items as [|x rest IH]; intros acc; simpl.
  - apply keeps_ret.
  - apply keeps_bind; [apply Hb|]. intros acc'. apply IH.
Qed.

Lemma keeps_setWorkflowInputParam (p : string) :
  keeps (setWorkflowInputParam p).
Proof. intros st a st' H. now injection H as _ <-. Qed.

Lemma keeps_pushInputProperty (p : string) : keeps (pushInputProperty p).
Proof. intros st a st' H. now injection H as _ <-. Qed.

Section Run.

Variable E : Python.Engine.

Lemma keeps_workflowRanges (sourceCode : string) (l : list (string * nat)) :
  keeps (Python.workflowRanges E sourceCode l).
Proof.
  induction l as [|[name startIndex] rest IH]; simpl.
  - apply keeps_ret.
  - destruct rest as [|[n2 nextStart] rest'].
    + apply keeps_bind; [apply keeps_call|].
      intros [index|]; apply keeps_ret.
    + apply keeps_bind; [exact IH|]. intros r. apply keeps_ret.
Qed.

Lemma keeps_findAllWorkflows (sourceCode : string) :
  keeps (Python.findAllWorkflows E sourceCode).
Proof.
  apply keeps_bind; [apply keeps_call|]. intros l. apply keeps_workflowRanges.
Qed.

Lemma keeps_extractWorkflowName (sourceCode filePath : string) :
  keeps (Python.extractWorkflowName E sourceCode filePath).
Proof.
  apply keeps_bind; [apply keeps_call|]. intros [name|]; [apply keeps_ret|].
  apply keeps_bind; [apply keeps_call|]. intros [name|]; apply keeps_ret.
Qed.

Lemma keeps_selectScope (sourceCode filePath : string)
    (target : option string) (all : list Python.WorkflowRange) :
  keeps (Python.selectScope E sourceCode filePath target all).
Proof.
  unfold Python.selectScope.
  destruct (truthy target && (0 <? List.length all)).
  - destruct (find _ all); [apply keeps_ret|].
    apply keeps_bind; [apply keeps_extractWorkflowName|].
    intros n. apply keeps_ret.
  - destruct all; [|apply keeps_ret].
    apply keeps_bind; [apply keeps_extractWorkflowName|].
    intros n. apply keeps_ret.
Qed.

Lemma keeps_extractMetadata (sourceCode : string) :
  keeps (Python.extractMetadata E sourceCode).
Proof.
  unfold Python.extractMetadata.
  apply keeps_bind; [apply keeps_call|]. intros d.
  apply keeps_bind; [apply keeps_call|]. intros h.
  apply keeps_bind; [|intros p; apply keeps_ret].
  destruct (truthy (option_map fst h)); [|apply keeps_ret].
  destruct (option_map fst h); [|apply keeps_ret].
  apply keeps_bind; [apply keeps_call|]. intros [text|]; [|apply keeps_ret].
  apply keeps_bind; [apply keeps_call|]. intros f. apply keeps_ret.
Qed.

Lemma keeps_extractWorkflowInputInfo (sourceCode : string) :
  keeps (Python.extractWorkflowInputInfo E sourceCode).
Proof.
  unfold Python.extractWorkflowInputInfo.
  apply keeps_bind; [apply keeps_call|]. intros f.
  apply keeps_bind.
  { destruct f; [apply keeps_setWorkflowInputParam|apply keeps_ret]. }
  intros _. apply keeps_bind; [apply keeps_extractMetadata|]. intros md.
  destruct (truthy (mInputType md)); [|apply keeps_ret].
  destruct (mInputType md); [|apply keeps_ret].
  apply keeps_bind; [apply keeps_call|]. intros [text|]; [|apply keeps_ret].
  apply keeps_bind; [apply keeps_call|]. intros fields.
  apply keeps_forEach. intros acc x. apply keeps_pushInputProperty.
Qed.

Lemma keeps_extractReturnInfo (sourceCode : string)
    (md : option WorkflowMetadata) :
  keeps (Python.extractReturnInfo E sourceCode md).
Proof.
  unfold Python.extractReturnInfo.
  apply keeps_bind; [apply keeps_call|]. intros found.
  destruct (map trim found); [apply keeps_ret|].
  apply keeps_bind; [|intros a; apply keeps_ret].
  apply keeps_forEach. intros acc x.
  apply keeps_bind; [|intros a; apply keeps_ret].
  unfold Python.parseReturnExpression.
  destruct (startsWith x "{"); [apply keeps_call|].
  destruct (Python.constructorCall x); [apply keeps_call|apply keeps_ret].
Qed.

Lemma paramKept_ret {A : Type} (a : A) : paramKept (ret a).
Proof. intros st a' st' H. now injection H as _ <-. Qed.

Lemma paramKept_call {A : Type} (r : Thrown + A) : paramKept (call r).
Proof.
  intros st a st' H. unfold call in H. destruct r; [discriminate|].
  now injection H as _ <-.
Qed.

Lemma paramKept_this : paramKept this.
Proof. intros st a st' H. now injection H as _ <-. Qed.

Lemma paramKept_bind {A B : Type} (c : M A) (k : A -> M B) :
  paramKept c -> (forall a, paramKept (k a)) -> paramKept (bind c k).
Proof.
  intros Hc Hk st b st' H. apply bind_normal in H as (a & st1 & H1 & H2).
  rewrite (Hk a _ _ _ H2). exact (Hc _ _ _ H1).
Qed.

Lemma paramKept_forEach {A B : Type} (items : list A) (body : B -> A -> M B) :
  (forall acc x, paramKept (body acc x)) ->
  forall acc, paramKept (forEach items acc body).
Proof.
  intros Hb. induction items as [|x rest IH]; intros acc; simpl.
  - apply paramKept_ret.
  - apply paramKept_bind; [apply Hb|]. intros acc'. apply IH.
Qed.

Lemma paramKept_registerOutput (o : option string) (id : string) :
  paramKept (Python.registerOutput o id).
Proof.
  intros st a st' H.
  destruct (registerOutput_run o id st) as (s1 & E1 & Ew & _).
  rewrite E1 in H. now injection H as _ <-.
Qed.

Lemma paramKept_analyze (i : option string) : paramKept (Python.analyze i).
Proof.
  apply paramKept_bind; [apply paramKept_this|]. intros a. apply paramKept_ret.
Qed.

Ltac kept :=
  repeat first
    [ apply paramKept_ret | apply paramKept_call | apply paramKept_this
    | apply paramKept_registerOutput | apply paramKept_analyze
    | apply paramKept_forEach; intros
    | apply paramKept_bind; [|intros] ].

Lemma paramKept_recognizer {A : Type} (found : Thrown + list A)
    (body : list WorkflowNode * nat -> A -> M (list WorkflowNode * nat)) :
  (forall acc x, paramKept (body acc x)) ->
  paramKept (items <- call found ;;
             acc <- forEach items ([], 0) body ;;
             ret (fst acc)).
Proof. intros H. kept. apply H. Qed.

Lemma paramKept_recognizeSteps (sourceCode : string) (lineOffset : nat) :
  paramKept (Python.recognizeSteps E sourceCode lineOffset).
Proof.
  unfold Python.recognizeSteps.
  apply paramKept_bind.
  { unfold Python.parseActivities. kept.
    - destruct acc as [nodes index]. unfold Python.taskStep. kept.
      intros s0 r0 s1 H. now injection H as _ <-.
    - destruct acc as [nodes index]. unfold Python.awaitedStep.
      destruct (existsb _ nodes); kept.
    - destruct acc as [nodes index]. unfold Python.stringActivityStep. kept. }
  intros a. apply paramKept_bind.
  { apply paramKept_recognizer. intros [nodes index] x.
    unfold Python.childStep. kept. }
  intros b. apply paramKept_bind.
  { apply paramKept_recognizer. intros [nodes index] x.
    unfold Python.timerStep. kept. }
  intros c. apply paramKept_bind.
  { apply paramKept_recognizer. intros [nodes index] x.
    unfold Python.eventStep. kept. }
  intros d. apply paramKept_bind.
  { apply paramKept_recognizer. intros [nodes index] x.
    unfold Python.decisionStep, Python.analyzeConditionSources. kept. }
  intros e. apply paramKept_bind.
  { apply paramKept_recognizer. intros [nodes index] x. kept. }
  intros f. apply paramKept_bind; [|intros; apply paramKept_ret].
  apply paramKept_recognizer. intros [nodes index] x.
  unfold Python.joinStep. kept.
  unfold Python.mapTask. kept.
  destruct (truthy _); [destruct (mapGet _ _)|]; kept.
  intros s0 r0 s1 H. now injection H as _ <-.
Qed.

(** What a successful [parse] has done: the recognisers ran from a state
    with empty task and group maps, and the graph was assembled from
    their nodes and the group map they left. *)
Lemma parse_success (sourceCode filePath : string) (target : option string)
    (st st' : Inst) (w : WorkflowDefinition) :
  Python.parse E sourceCode filePath target st =
    (mkResult true (Some w) None, st') ->
  exists scoped lineOffset steps st0,
    Python.recognizeSteps E scoped lineOffset st0 = Normal steps st' /\
    maps st0 = ([], [], []) /\
    wNodes w = addStartEndNodes steps /\
    wEdges w = buildEdgesWithDataFlow (parallelGroupMap st') (wNodes w) /\
    option_map dfParameterName (wDataFlow w) = Some (workflowInputParam st') /\
    workflowInputParam st' = workflowInputParam st0.
Proof.
  unfold Python.parse, tryCatch.
  destruct (Python.parseBody E sourceCode filePath target st)
    as [w0 st1|e st1] eqn:B; [|discriminate].
  intros H. injection H as <- <-.
  unfold Python.parseBody in B.
  apply bind_normal in B as (u & s1 & B1 & B).
  assert (M1 : maps s1 = ([], [], [])) by (now injection B1 as _ <-).
  clear B1.
  apply bind_normal in B as (all & s2 & B1 & B).
  apply keeps_findAllWorkflows in B1. rewrite M1 in B1. clear M1.
  apply bind_normal in B as (scope & s3 & B2 & B).
  apply keeps_selectScope in B2. rewrite B1 in B2. clear B1.
  destruct scope as [[scoped lineOffset] workflowName].
  apply bind_normal in B as (md0 & s4 & B3 & B).
  apply keeps_extractMetadata in B3. rewrite B2 in B3. clear B2.
  apply bind_normal in B as (u2 & s5 & B4 & B).
  apply keeps_extractWorkflowInputInfo in B4. rewrite B3 in B4. clear B3.
  apply bind_normal in B as (md1 & s6 & B5 & B).
  apply keeps_extractReturnInfo in B5. rewrite B4 in B5. clear B4.
  apply bind_normal in B as (steps & s7 & B6 & B).
  cbv [Python.buildDataFlowMetadata bind this ret] in B.
  injection B as <- <-.
  exists scoped, lineOffset, steps, s6.
  split; [exact B6|]. split; [exact B5|].
  split; [reflexivity|]. split; [reflexivity|].
  split; [reflexivity|]. exact (paramKept_recognizeSteps _ _ _ _ _ B6).
Qed.

End Run.

End ParseFacts.

(** ** The step recognisers and [parse] of the C# extractor *)

Module CSharpFacts.

Import Js Model Effects Assembler Spec EffectFacts RecognizerFacts ParseFacts.

Open Scope js_scope.

Lemma suborch_shape (n : WorkflowNode) (k : nat) :
  nodeType n = TSubOrchestration ->
  nodeId n = ("suborch-" ++ ofNat k)%string ->
  flagged n = false ->
  StepShape n.
Proof.
  intros H1 H2 H3. split.
  - exists "suborch-", k. split; [now right|exact H2].
  - rewrite H3. discriminate.
Qed.

Section Recognizers.

Variable E : CSharpParser.Engine.
Variables (sourceCode : string) (lineOffset : nat).
Variable before : list WorkflowNode.

(** The invariant of a loop whose nodes come after [before]. *)
Let LoopInv (acc : list WorkflowNode * nat) (st : Inst) : Prop :=
  Inv (before ++ fst acc) st.

Let ActivityInv (acc : CSharpParser.Activities) (st : Inst) : Prop :=
  Inv (before ++ fst (fst acc)) st.

Lemma cs_taskStep_spec (acc : CSharpParser.Activities)
    (m : CSharpParser.TaskMatch) :
  triple (ActivityInv acc) (CSharpParser.taskStep sourceCode lineOffset acc m)
         ActivityInv.
Proof.
  destruct acc as [[nodes index] seen]. intros st r st' HI H.
  unfold CSharpParser.taskStep in H.
  destruct (existsb _ seen) in H.
  { injection H as <- <-. exact HI. }
  destruct (CSharpParser.awaitedBefore sourceCode (CSharpParser.tmIndex m)).
  - cbv [negb bind ret CSharpParser.analyze this setOutputVariable assign] in H.
    injection H as <- <-.
    unfold ActivityInv. cbn [fst]. rewrite app_assoc.
    apply (Inv_push _ st); [exact HI| |reflexivity|reflexivity].
    apply (shape_intro _ "activity-" index);
      reflexivity || (intros F; discriminate F).
  - cbv [negb bind ret CSharpParser.analyze this setParallelTask assign] in H.
    injection H as <- <-. destruct HI as [S T G].
    unfold ActivityInv. cbn [fst]. rewrite app_assoc. split.
    + apply Forall_app. split; [exact S|]. constructor; [|constructor].
      apply (shape_intro _ "activity-" index);
        reflexivity || (intros _; reflexivity).
    + cbn [parallelTaskMap]. intros k v H. rewrite mapGet_mapSet in H.
      destruct (String.eqb (CSharpParser.tmTaskVar m) k).
      * injection H as <-. eexists. split; [apply in_or_app; right; now left|].
        split; reflexivity.
      * destruct (T k v H) as (n & Hn & Hid & Hf).
        exists n. split; [apply in_or_app; now left|]. now split.
    + cbn [parallelGroupMap]. intros k j H.
      destruct (G k j H) as [(n & Hn & Hid & Hf) (n' & Hn' & Hid' & Hty)].
      split.
      * exists n. split; [apply in_or_app; now left|]. now split.
      * exists n'. split; [apply in_or_app; now left|]. now split.
Qed.

Ltac run_register H :=
  match type of H with
  | context [Python.registerOutput ?o ?id ?st] =>
      let st1 := fresh "st1" in
      let E1 := fresh "E1" in
      let Ew := fresh "Ew" in
      let Et := fresh "Et" in
      let Eg := fresh "Eg" in
      let Eo := fresh "Eo" in
      destruct (registerOutput_run o id st) as (st1 & E1 & Ew & Et & Eg & Eo);
      rewrite E1 in H
  end.

Lemma cs_awaitedStep_spec (acc : CSharpParser.Activities)
    (m : CSharpParser.AwaitedMatch) :
  triple (ActivityInv acc)
         (CSharpParser.awaitedStep sourceCode lineOffset acc m) ActivityInv.
Proof.
  destruct acc as [[nodes index] seen]. intros st r st' HI H.
  unfold CSharpParser.awaitedStep in H.
  destruct (existsb _ seen) in H.
  - injection H as <- <-. exact HI.
  - unfold bind in H. run_register H.
    cbv [CSharpParser.analyze bind this ret] in H. injection H as <- <-.
    unfold ActivityInv. cbn [fst]. rewrite app_assoc.
    apply (Inv_push _ st); [exact HI| |exact Et|exact Eg].
    apply (shape_intro _ "activity-" index);
      reflexivity || (intros F; discriminate F).
Qed.

Lemma cs_subOrchStep_spec (acc : list WorkflowNode * nat)
    (m : CSharpParser.SubOrchMatch) :
  triple (LoopInv acc) (CSharpParser.subOrchStep sourceCode lineOffset acc m)
         LoopInv.
Proof.
  destruct acc as [nodes index]. intros st r st' HI H.
  unfold CSharpParser.subOrchStep, bind in H. run_register H.
  cbv [CSharpParser.analyze bind this ret] in H. injection H as <- <-.
  unfold LoopInv. cbn [fst]. rewrite app_assoc.
  apply (Inv_push _ st); [exact HI| |exact Et|exact Eg].
  apply (suborch_shape _ index); reflexivity.
Qed.

Lemma cs_timerStep_spec (acc : list WorkflowNode * nat)
    (m : CSharpParser.TimerMatch) :
  triple (LoopInv acc) (CSharpParser.timerStep sourceCode lineOffset acc m)
         LoopInv.
Proof.
  destruct acc as [nodes index]. intros st r st' HI H.
  unfold CSharpParser.timerStep, bind in H. run_register H.
  cbv [ret] in H. injection H as <- <-.
  unfold LoopInv. cbn [fst]. rewrite app_assoc.
  apply (Inv_push _ st); [exact HI| |exact Et|exact Eg].
  apply (shape_intro _ "timer-" index);
    reflexivity || (intros F; discriminate F).
Qed.

Lemma cs_eventStep_spec (acc : list WorkflowNode * nat)
    (m : CSharpParser.EventMatch) :
  triple (LoopInv acc) (CSharpParser.eventStep sourceCode lineOffset acc m)
         LoopInv.
Proof.
  destruct acc as [nodes index]. intros st r st' HI H.
  unfold CSharpParser.eventStep, bind in H. run_register H.
  cbv [ret] in H. injection H as <- <-.
  unfold LoopInv. cbn [fst]. rewrite app_assoc.
  apply (Inv_push _ st); [exact HI| |exact Et|exact Eg].
  apply (shape_intro _ "event-" index);
    reflexivity || (intros F; discriminate F).
Qed.

(** [analyzeConditionSources] reads the state and does not write it. *)
Lemma cs_analyzeConditionSources_frame (condition : string) (st0 : Inst) :
  triple (fun st => st = st0) (CSharpParser.analyzeConditionSources E condition)
         (fun _ st => st = st0).
Proof.
  unfold CSharpParser.analyzeConditionSources.
  eapply triple_bind with (R := fun a st => st = st0).
  { apply triple_this. auto. }
  intros a. eapply triple_bind with (R := fun _ st => st = st0).
  { apply triple_call. auto. }
  intros refs.
  apply (triple_forEach (fun (_ : list DataSource) st => st = st0)).
  intros acc x _. eapply triple_bind with (R := fun _ st => st = st0).
  { apply triple_call. auto. }
  intros r. apply triple_ret. auto.
Qed.

Lemma cs_decisionStep_spec (acc : list WorkflowNode * nat)
    (m : CSharpParser.IfMatch) :
  triple (LoopInv acc) (CSharpParser.decisionStep E sourceCode lineOffset acc m)
         LoopInv.
Proof.
  destruct acc as [nodes index]. intros st r st' HI H.
  unfold CSharpParser.decisionStep in H.
  apply bind_normal in H as (ds & st1 & H1 & H2).
  assert (st1 = st)
    by exact (cs_analyzeConditionSources_frame _ st st ds st1 eq_refl H1).
  subst st1. cbv [ret] in H2. injection H2 as <- <-.
  unfold LoopInv. cbn [fst]. rewrite app_assoc.
  apply (Inv_push _ st); [exact HI| |reflexivity|reflexivity].
  apply (shape_intro _ "decision-" index);
    reflexivity || (intros F; discriminate F).
Qed.

Lemma cs_joinStep_spec (acc : list WorkflowNode * nat)
    (m : CSharpParser.ParallelMatch) :
  triple (LoopInv acc) (CSharpParser.joinStep E sourceCode lineOffset acc m)
         LoopInv.
Proof.
  destruct acc as [nodes index]. intros st r st' HI H.
  unfold CSharpParser.joinStep in H.
  apply bind_normal in H as (taskVars & st1 & H1 & H).
  assert (st1 = st).
  { unfold call in H1. destruct (CSharpParser.taskTokens E _); [discriminate|].
    now injection H1. }
  subst st1. clear H1.
  apply bind_normal in H as (u1 & st2 & H1 & H).
  assert (I2 : Inv (before ++ nodes) st2).
  { destruct (registerOutput_run (CSharpParser.pmOutput m)
                ("parallel-join-" ++ ofNat index)%string st)
      as (s1 & E1 & _ & Et & Eg & _).
    rewrite E1 in H1. injection H1 as _ <-.
    apply (Inv_frame _ st); assumption. }
  clear H1.
  apply bind_normal in H as (u2 & st3 & H1 & H).
  assert (P3 : Pending (before ++ nodes)
                 ("parallel-join-" ++ ofNat index)%string st3).
  { revert H1.
    apply (triple_forEach
             (fun (_ : unit) s =>
                Pending (before ++ nodes)
                        ("parallel-join-" ++ ofNat index)%string s)).
    - intros [] t _. apply mapTask_spec.
    - destruct I2 as [S T G]. split; [exact S|]. split; [exact T|].
      intros k j Hk. destruct (G k j Hk) as [A B]. split; [exact A|now left]. }
  clear H1. cbv [bind this ret] in H. injection H as <- <-.
  destruct P3 as (S & T & G).
  unfold LoopInv. cbn [fst]. rewrite app_assoc. split.
  - apply Forall_app. split; [exact S|]. constructor; [|constructor].
    apply (shape_intro _ "parallel-join-" index);
      reflexivity || (intros F; discriminate F).
  - intros k v Hk. destruct (T k v Hk) as (n & Hn & Hid & Hf).
    exists n. split; [apply in_or_app; now left|]. now split.
  - intros k j Hk. destruct (G k j Hk) as [(n & Hn & Hid & Hf) B]. split.
    + exists n. split; [apply in_or_app; now left|]. now split.
    + destruct B as [(n' & Hn' & Hid' & Hty)| ->].
      * exists n'. split; [apply in_or_app; now left|]. now split.
      * eexists. split; [apply in_or_app; right; now left|].
        split; reflexivity.
Qed.

Lemma cs_parseActivities_spec :
  triple (Inv before) (CSharpParser.parseActivities E sourceCode lineOffset)
         (fun nodes st => Inv (before ++ nodes) st).
Proof.
  unfold CSharpParser.parseActivities.
  eapply triple_bind with (R := fun _ st => Inv before st).
  { apply triple_call. auto. }
  intros taskMatches.
  eapply triple_bind with (R := ActivityInv).
  { eapply triple_weaken.
    - apply (triple_forEach ActivityInv). intros acc x _.
      apply cs_taskStep_spec.
    - intros st H. unfold ActivityInv. cbn [fst]. now rewrite app_nil_r.
    - auto. }
  intros acc1.
  eapply triple_bind with (R := fun _ st => ActivityInv acc1 st).
  { apply triple_call. auto. }
  intros awaitedMatches.
  eapply triple_bind with (R := ActivityInv).
  { apply (triple_forEach ActivityInv). intros acc x _.
    apply cs_awaitedStep_spec. }
  intros acc2. apply triple_ret. auto.
Qed.

Lemma cs_parseSubOrchestrations_spec :
  triple (Inv before)
         (CSharpParser.parseSubOrchestrations E sourceCode lineOffset)
         (fun nodes st => Inv (before ++ nodes) st).
Proof. apply recognizer_spec. intros. apply cs_subOrchStep_spec. Qed.

Lemma cs_parseTimers_spec :
  triple (Inv before) (CSharpParser.parseTimers E sourceCode lineOffset)
         (fun nodes st => Inv (before ++ nodes) st).
Proof. apply recognizer_spec. intros. apply cs_timerStep_spec. Qed.

Lemma cs_parseExternalEvents_spec :
  triple (Inv before) (CSharpParser.parseExternalEvents E sourceCode lineOffset)
         (fun nodes st => Inv (before ++ nodes) st).
Proof. apply recognizer_spec. intros. apply cs_eventStep_spec. Qed.

Lemma cs_parseDecisions_spec :
  triple (Inv before) (CSharpParser.parseDecisions E sourceCode lineOffset)
         (fun nodes st => Inv (before ++ nodes) st).
Proof. apply recognizer_spec. intros. apply cs_decisionStep_spec. Qed.

Lemma cs_parseParallelBlocks_spec :
  triple (Inv before) (CSharpParser.parseParallelBlocks E sourceCode lineOffset)
         (fun nodes st => Inv (before ++ nodes) st).
Proof. apply recognizer_spec. intros. apply cs_joinStep_spec. Qed.

End Recognizers.

(** All the recognisers, from a state whose task and group maps are
    empty. *)
Lemma cs_recognizeSteps_spec (E : CSharpParser.Engine) (sourceCode : string)
    (lineOffset : nat) :
  triple (Inv []) (CSharpParser.recognizeSteps E sourceCode lineOffset)
         (fun steps st => Inv steps st).
Proof.
  unfold CSharpParser.recognizeSteps.
  eapply triple_bind; [apply (cs_parseActivities_spec E _ _ [])|].
  intros a. cbn [app].
  eapply triple_bind; [apply (cs_parseSubOrchestrations_spec E _ _ a)|].
  intros b. cbn beta.
  eapply triple_bind; [apply (cs_parseTimers_spec E _ _ (a ++ b))|].
  intros c. cbn beta.
  eapply triple_bind;
    [apply (cs_parseExternalEvents_spec E _ _ ((a ++ b) ++ c))|].
  intros d. cbn beta.
  eapply triple_bind;
    [apply (cs_parseDecisions_spec E _ _ (((a ++ b) ++ c) ++ d))|].
  intros e. cbn beta.
  eapply triple_bind;
    [apply (cs_parseParallelBlocks_spec E _ _
              ((((a ++ b) ++ c) ++ d) ++ e))|].
  intros f. apply triple_ret. intros st H.
  now rewrite <- !app_assoc in H.
Qed.

Section Run.

Variable E : CSharpParser.Engine.

Lemma cs_keeps_extractWorkflowName (sourceCode filePath : string) :
  keeps (CSharpParser.extractWorkflowName E sourceCode filePath).
Proof.
  apply keeps_bind; [apply keeps_call|]. intros [name|]; apply keeps_ret.
Qed.

Lemma cs_keeps_selectScope (sourceCode filePath : string)
    (target : option string) (all : list Python.WorkflowRange) :
  keeps (CSharpParser.selectScope E sourceCode filePath target all).
Proof.
  unfold CSharpParser.selectScope.
  destruct (truthy target && (0 <? List.length all)).
  - destruct (find _ all); [apply keeps_ret|].
    apply keeps_bind; [apply cs_keeps_extractWorkflowName|].
    intros n. apply keeps_ret.
  - destruct all; [|apply keeps_ret].
    apply keeps_bind; [apply cs_keeps_extractWorkflowName|].
    intros n. apply keeps_ret.
Qed.

Lemma cs_keeps_extractMetadata (fullSource scopedSource : string) :
  keeps (CSharpParser.extractMetadata E fullSource scopedSource).
Proof.
  unfold CSharpParser.extractMetadata.
  apply keeps_bind; [apply keeps_call|]. intros d.
  apply keeps_bind; [apply keeps_call|]. intros h.
  apply keeps_bind; [|intros p; apply keeps_ret].
  destruct (truthy (option_map fst d)); [|apply keeps_ret].
  destruct (option_map fst d); [|apply keeps_ret].
  apply keeps_bind; [apply keeps_call|]. intros [text|]; [|apply keeps_ret].
  apply keeps_call.
Qed.

Lemma cs_keeps_extractWorkflowInputInfo (sourceCode : string) :
  keeps (CSharpParser.extractWorkflowInputInfo E sourceCode).
Proof.
  unfold CSharpParser.extractWorkflowInputInfo.
  apply keeps_bind; [apply keeps_call|]. intros f.
  destruct f; [apply keeps_setWorkflowInputParam|apply keeps_ret].
Qed.

Lemma cs_keeps_extractReturnInfo (R : CSharp.Engine) (sourceCode : string)
    (md : option WorkflowMetadata) :
  keeps (CSharp.extractReturnInfo R sourceCode md).
Proof.
  unfold CSharp.extractReturnInfo.
  apply keeps_bind; [apply keeps_call|]. intros found.
  destruct (map trim found); [apply keeps_ret|].
  apply keeps_bind; [|intros a; apply keeps_ret].
  apply keeps_forEach. intros acc x.
  apply keeps_bind; [|intros a; apply keeps_ret].
  apply keeps_call.
Qed.

(** What a successful [parse] has done: the recognisers ran from a state
    with empty task and group maps, and the graph was assembled from
    their nodes and the group map they left. *)
Lemma cs_parse_success (sourceCode filePath : string) (target : option string)
    (st st' : Inst) (w : WorkflowDefinition) :
  CSharpParser.parse E sourceCode filePath target st =
    (mkResult true (Some w) None, st') ->
  exists scoped lineOffset steps st0,
    CSharpParser.recognizeSteps E scoped lineOffset st0 = Normal steps st' /\
    maps st0 = ([], [], []) /\
    wNodes w = addStartEndNodes steps /\
    wEdges w = buildEdgesWithDataFlow (parallelGroupMap st') (wNodes w).
Proof.
  unfold CSharpParser.parse, tryCatch.
  destruct (CSharpParser.parseBody E sourceCode filePath target st)
    as [w0 st1|e st1] eqn:B; [|discriminate].
  intros H. injection H as <- <-.
  unfold CSharpParser.parseBody in B.
  apply bind_normal in B as (u & s1 & B1 & B).
  assert (M1 : maps s1 = ([], [], [])) by (now injection B1 as _ <-).
  clear B1.
  apply bind_normal in B as (all & s2 & B1 & B).
  assert (M2 : maps s2 = ([], [], [])).
  { rewrite <- M1. revert B1. apply keeps_bind; [apply keeps_call|].
    intros l. apply keeps_ret. }
  clear B1 M1.
  apply bind_normal in B as (scope & s3 & B2 & B).
  apply cs_keeps_selectScope in B2. rewrite M2 in B2. clear M2.
  destruct scope as [[scoped lineOffset] workflowName].
  apply bind_normal in B as (md0 & s4 & B3 & B).
  apply cs_keeps_extractMetadata in B3. rewrite B2 in B3. clear B2.
  apply bind_normal in B as (u2 & s5 & B4 & B).
  apply cs_keeps_extractWorkflowInputInfo in B4. rewrite B3 in B4. clear B3.
  apply bind_normal in B as (md1 & s6 & B5 & B).
  apply cs_keeps_extractReturnInfo in B5. rewrite B4 in B5. clear B4.
  apply bind_normal in B as (steps & s7 & B6 & B).
  cbv [CSharpParser.buildDataFlowMetadata bind this ret] in B.
  injection B as <- <-.
  exists scoped, lineOffset, steps, s6.
  split; [exact B6|]. split; [exact B5|].
  split; reflexivity.
Qed.

(** The graph of a successful [parse] is assembled from step nodes and a
    group map that are well formed. *)
Lemma cs_parse_graph (sourceCode filePath : string) (target : option string)
    (st : Inst) (w : WorkflowDefinition) :
  workflow (fst (CSharpParser.parse E sourceCode filePath target st))
    = Some w ->
  exists steps,
    WellFormed steps
      (parallelGroupMap
         (snd (CSharpParser.parse E sourceCode filePath target st))) /\
    wNodes w = addStartEndNodes steps /\
    wEdges w =
      buildEdgesWithDataFlow
        (parallelGroupMap
           (snd (CSharpParser.parse E sourceCode filePath target st)))
        (addStartEndNodes steps).
Proof.
  intros H.
  assert (R : CSharpParser.parse E sourceCode filePath target st =
              (mkResult true (Some w) None,
               snd (CSharpParser.parse E sourceCode filePath target st))).
  { revert H. unfold CSharpParser.parse, tryCatch.
    destruct (CSharpParser.parseBody E sourceCode filePath target st); cbn.
    - now intros [= ->].
    - discriminate. }
  apply cs_parse_success in R as (scoped & off & steps & st0 & R & M0 & EN & EE).
  exists steps. split; [|split; [exact EN|now rewrite EE, EN]].
  apply Inv_wellFormed.
  apply (cs_recognizeSteps_spec E scoped off st0 steps _); [|exact R].
  unfold maps in M0. injection M0 as _ Mt Mg.
  split; [constructor| |]; intros k v Hk.
  - rewrite Mt in Hk. discriminate.
  - rewrite Mg in Hk. discriminate.
Qed.

End Run.

End CSharpFacts.

(** ** The steps and the graph of the JavaScript extractor *)

Module JavaScriptFacts.

Import Js Model Effects Assembler Spec EffectFacts RecognizerFacts ParseFacts.
Import CSharpFacts.

Open Scope js_scope.

Section Recognizers.

Variable E : JavaScriptParser.Engine.
Variables (sourceCode : string) (lineOffset : nat).
Variable before : list WorkflowNode.

(** The invariant of a loop whose nodes come after [before]. *)
Let LoopInv (acc : list WorkflowNode * nat) (st : Inst) : Prop :=
  Inv (before ++ fst acc) st.

Let ActivityInv (acc : JavaScriptParser.Activities) (st : Inst) : Prop :=
  Inv (before ++ fst (fst acc)) st.

Lemma js_taskStep_spec (acc : JavaScriptParser.Activities)
    (m : JavaScriptParser.TaskMatch) :
  triple (ActivityInv acc)
         (JavaScriptParser.taskStep sourceCode lineOffset acc m) ActivityInv.
Proof.
  destruct acc as [[nodes index] seen]. intros st r st' HI H.
  unfold JavaScriptParser.taskStep in H.
  destruct (existsb _ seen) in H.
  { injection H as <- <-. exact HI. }
  destruct (JavaScriptParser.awaitedBefore sourceCode
              (JavaScriptParser.tmIndex m)).
  - cbv [negb bind ret JavaScriptParser.analyze this setOutputVariable assign]
      in H.
    injection H as <- <-.
    unfold ActivityInv. cbn [fst]. rewrite app_assoc.
    apply (Inv_push _ st); [exact HI| |reflexivity|reflexivity].
    apply (shape_intro _ "activity-" index);
      reflexivity || (intros F; discriminate F).
  - cbv [negb bind ret JavaScriptParser.analyze this setParallelTask assign]
      in H.
    injection H as <- <-. destruct HI as [S T G].
    unfold ActivityInv. cbn [fst]. rewrite app_assoc. split.
    + apply Forall_app. split; [exact S|]. constructor; [|constructor].
      apply (shape_intro _ "activity-" index);
        reflexivity || (intros _; reflexivity).
    + cbn [parallelTaskMap]. intros k v H. rewrite mapGet_mapSet in H.
      destruct (String.eqb (JavaScriptParser.tmTaskVar m) k).
      * injection H as <-. eexists. split; [apply in_or_app; right; now left|].
        split; reflexivity.
      * destruct (T k v H) as (n & Hn & Hid & Hf).
        exists n. split; [apply in_or_app; now left|]. now split.
    + cbn [parallelGroupMap]. intros k j H.
      destruct (G k j H) as [(n & Hn & Hid & Hf) (n' & Hn' & Hid' & Hty)].
      split.
      * exists n. split; [apply in_or_app; now left|]. now split.
      * exists n'. split; [apply in_or_app; now left|]. now split.
Qed.

Ltac run_register H :=
  match type of H with
  | context [Python.registerOutput ?o ?id ?st] =>
      let st1 := fresh "st1" in
      let E1 := fresh "E1" in
      let Ew := fresh "Ew" in
      let Et := fresh "Et" in
      let Eg := fresh "Eg" in
      let Eo := fresh "Eo" in
      destruct (registerOutput_run o id st) as (st1 & E1 & Ew & Et & Eg & Eo);
      rewrite E1 in H
  end.

Lemma js_awaitedStep_spec (acc : JavaScriptParser.Activities)
    (m : JavaScriptParser.AwaitedMatch) :
  triple (ActivityInv acc)
         (JavaScriptParser.awaitedStep sourceCode lineOffset acc m)
         ActivityInv.
Proof.
  destruct acc as [[nodes index] seen]. intros st r st' HI H.
  unfold JavaScriptParser.awaitedStep in H.
  destruct (existsb _ seen) in H.
  - injection H as <- <-. exact HI.
  - unfold bind in H. run_register H.
    cbv [JavaScriptParser.analyze bind this ret] in H. injection H as <- <-.
    unfold ActivityInv. cbn [fst]. rewrite app_assoc.
    apply (Inv_push _ st); [exact HI| |exact Et|exact Eg].
    apply (shape_intro _ "activity-" index);
      reflexivity || (intros F; discriminate F).
Qed.

Lemma js_varStep_spec (acc : JavaScriptParser.Activities)
    (m : JavaScriptParser.VarMatch) :
  triple (ActivityInv acc)
         (JavaScriptParser.varStep sourceCode lineOffset acc m) ActivityInv.
Proof.
  destruct acc as [[nodes index] seen]. intros st r st' HI H.
  unfold JavaScriptParser.varStep in H.
  destruct (existsb _ seen) in H.
  { injection H as <- <-. exact HI. }
  destruct (_ && _) in H; injection H as <- <-; [|exact HI].
  unfold ActivityInv. cbn [fst]. rewrite app_assoc.
  apply (Inv_push _ st); [exact HI| |reflexivity|reflexivity].
  apply (shape_intro _ "activity-" index);
    reflexivity || (intros F; discriminate F).
Qed.

Lemma js_subOrchStep_spec (acc : list WorkflowNode * nat)
    (m : JavaScriptParser.SubOrchMatch) :
  triple (LoopInv acc)
         (JavaScriptParser.subOrchStep sourceCode lineOffset acc m) LoopInv.
Proof.
  destruct acc as [nodes index]. intros st r st' HI H.
  unfold JavaScriptParser.subOrchStep, bind in H. run_register H.
  cbv [JavaScriptParser.analyze bind this ret] in H. injection H as <- <-.
  unfold LoopInv. cbn [fst]. rewrite app_assoc.
  apply (Inv_push _ st); [exact HI| |exact Et|exact Eg].
  apply (suborch_shape _ index); reflexivity.
Qed.

Lemma js_timerStep_spec (acc : list WorkflowNode * nat)
    (m : JavaScriptParser.TimerMatch) :
  triple (LoopInv acc)
         (JavaScriptParser.timerStep sourceCode lineOffset acc m) LoopInv.
Proof.
  destruct acc as [nodes index]. intros st r st' HI H.
  unfold JavaScriptParser.timerStep, bind in H. run_register H.
  cbv [ret] in H. injection H as <- <-.
  unfold LoopInv. cbn [fst]. rewrite app_assoc.
  apply (Inv_push _ st); [exact HI| |exact Et|exact Eg].
  apply (shape_intro _ "timer-" index);
    reflexivity || (intros F; discriminate F).
Qed.

Lemma js_eventStep_spec (acc : list WorkflowNode * nat)
    (m : JavaScriptParser.EventMatch) :
  triple (LoopInv acc)
         (JavaScriptParser.eventStep sourceCode lineOffset acc m) LoopInv.
Proof.
  destruct acc as [nodes index]. intros st r st' HI H.
  unfold JavaScriptParser.eventStep, bind in H. run_register H.
  cbv [ret] in H. injection H as <- <-.
  unfold LoopInv. cbn [fst]. rewrite app_assoc.
  apply (Inv_push _ st); [exact HI| |exact Et|exact Eg].
  apply (shape_intro _ "event-" index);
    reflexivity || (intros F; discriminate F).
Qed.

(** [analyzeConditionSources] reads the state and does not write it. *)
Lemma js_analyzeConditionSources_frame (condition : string) (st0 : Inst) :
  triple (fun st => st = st0)
         (JavaScriptParser.analyzeConditionSources E condition)
         (fun _ st => st = st0).
Proof.
  unfold JavaScriptParser.analyzeConditionSources.
  eapply triple_bind with (R := fun a st => st = st0).
  { apply triple_this. auto. }
  intros a. eapply triple_bind with (R := fun _ st => st = st0).
  { apply triple_call. auto. }
  intros refs.
  apply (triple_forEach (fun (_ : list DataSource) st => st = st0)).
  intros acc x _. eapply triple_bind with (R := fun _ st => st = st0).
  { apply triple_call. auto. }
  intros r. apply triple_ret. auto.
Qed.

Lemma js_decisionStep_spec (acc : list WorkflowNode * nat)
    (m : JavaScriptParser.IfMatch) :
  triple (LoopInv acc)
         (JavaScriptParser.decisionStep E sourceCode lineOffset acc m)
         LoopInv.
Proof.
  destruct acc as [nodes index]. intros st r st' HI H.
  unfold JavaScriptParser.decisionStep in H.
  apply bind_normal in H as (ds & st1 & H1 & H2).
  assert (st1 = st)
    by exact (js_analyzeConditionSources_frame _ st st ds st1 eq_refl H1).
  subst st1. cbv [ret] in H2. injection H2 as <- <-.
  unfold LoopInv. cbn [fst]. rewrite app_assoc.
  apply (Inv_push _ st); [exact HI| |reflexivity|reflexivity].
  apply (shape_intro _ "decision-" index);
    reflexivity || (intros F; discriminate F).
Qed.

Lemma js_joinStep_spec (acc : list WorkflowNode * nat)
    (m : JavaScriptParser.ParallelMatch) :
  triple (LoopInv acc)
         (JavaScriptParser.joinStep E sourceCode lineOffset acc m) LoopInv.
Proof.
  destruct acc as [nodes index]. intros st r st' HI H.
  unfold JavaScriptParser.joinStep in H.
  apply bind_normal in H as (taskVars & st1 & H1 & H).
  assert (st1 = st).
  { unfold call in H1.
    destruct (JavaScriptParser.taskTokens E _); [discriminate|].
    now injection H1. }
  subst st1. clear H1.
  apply bind_normal in H as (u1 & st2 & H1 & H).
  assert (I2 : Inv (before ++ nodes) st2).
  { revert H1.
    apply (triple_forEach (fun (_ : unit) s => Inv (before ++ nodes) s));
      [|exact HI].
    intros [] o _ s r1 s' Hs Hr.
    destruct (registerOutput_run (Some o)
                ("parallel-join-" ++ ofNat index)%string s)
      as (s1 & E1 & _ & Et & Eg & _).
    rewrite E1 in Hr. injection Hr as _ <-.
    apply (Inv_frame _ s); assumption. }
  clear H1.
  apply bind_normal in H as (u2 & st3 & H1 & H).
  assert (P3 : Pending (before ++ nodes)
                 ("parallel-join-" ++ ofNat index)%string st3).
  { revert H1.
    apply (triple_forEach
             (fun (_ : unit) s =>
                Pending (before ++ nodes)
                        ("parallel-join-" ++ ofNat index)%string s)).
    - intros [] t _. apply mapTask_spec.
    - destruct I2 as [S T G]. split; [exact S|]. split; [exact T|].
      intros k j Hk. destruct (G k j Hk) as [A B]. split; [exact A|now left]. }
  clear H1. cbv [bind this ret] in H. injection H as <- <-.
  destruct P3 as (S & T & G).
  unfold LoopInv. cbn [fst]. rewrite app_assoc. split.
  - apply Forall_app. split; [exact S|]. constructor; [|constructor].
    apply (shape_intro _ "parallel-join-" index);
      reflexivity || (intros F; discriminate F).
  - intros k v Hk. destruct (T k v Hk) as (n & Hn & Hid & Hf).
    exists n. split; [apply in_or_app; now left|]. now split.
  - intros k j Hk. destruct (G k j Hk) as [(n & Hn & Hid & Hf) B]. split.
    + exists n. split; [apply in_or_app; now left|]. now split.
    + destruct B as [(n' & Hn' & Hid' & Hty)| ->].
      * exists n'. split; [apply in_or_app; now left|]. now split.
      * eexists. split; [apply in_or_app; right; now left|].
        split; reflexivity.
Qed.

Lemma js_parseActivities_spec :
  triple (Inv before)
         (JavaScriptParser.parseActivities E sourceCode lineOffset)
         (fun nodes st => Inv (before ++ nodes) st).
Proof.
  unfold JavaScriptParser.parseActivities.
  eapply triple_bind with (R := fun _ st => Inv before st).
  { apply triple_call. auto. }
  intros taskMatches.
  eapply triple_bind with (R := ActivityInv).
  { eapply triple_weaken.
    - apply (triple_forEach ActivityInv). intros acc x _.
      apply js_taskStep_spec.
    - intros st H. unfold ActivityInv. cbn [fst]. now rewrite app_nil_r.
    - auto. }
  intros acc1.
  eapply triple_bind with (R := fun _ st => ActivityInv acc1 st).
  { apply triple_call. auto. }
  intros awaitedMatches.
  eapply triple_bind with (R := ActivityInv).
  { apply (triple_forEach ActivityInv). intros acc x _.
    apply js_awaitedStep_spec. }
  intros acc2.
  eapply triple_bind with (R := fun _ st => ActivityInv acc2 st).
  { apply triple_call. auto. }
  intros varMatches.
  eapply triple_bind with (R := ActivityInv).
  { apply (triple_forEach ActivityInv). intros acc x _.
    apply js_varStep_spec. }
  intros acc3. apply triple_ret. auto.
Qed.

Lemma js_parseSubOrchestrations_spec :
  triple (Inv before)
         (JavaScriptParser.parseSubOrchestrations E sourceCode lineOffset)
         (fun nodes st => Inv (before ++ nodes) st).
Proof. apply recognizer_spec. intros. apply js_subOrchStep_spec. Qed.

Lemma js_parseTimers_spec :
  triple (Inv before) (JavaScriptParser.parseTimers E sourceCode lineOffset)
         (fun nodes st => Inv (before ++ nodes) st).
Proof. apply recognizer_spec. intros. apply js_timerStep_spec. Qed.

Lemma js_parseExternalEvents_spec :
  triple (Inv before)
         (JavaScriptParser.parseExternalEvents E sourceCode lineOffset)
         (fun nodes st => Inv (before ++ nodes) st).
Proof. apply recognizer_spec. intros. apply js_eventStep_spec. Qed.

Lemma js_parseDecisions_spec :
  triple (Inv before) (JavaScriptParser.parseDecisions E sourceCode lineOffset)
         (fun nodes st => Inv (before ++ nodes) st).
Proof. apply recognizer_spec. intros. apply js_decisionStep_spec. Qed.

Lemma js_parseParallelBlocks_spec :
  triple (Inv before)
         (JavaScriptParser.parseParallelBlocks E sourceCode lineOffset)
         (fun nodes st => Inv (before ++ nodes) st).
Proof. apply recognizer_spec. intros. apply js_joinStep_spec. Qed.

End Recognizers.

(** All the recognisers, from a state whose task and group maps are
    empty. *)
Lemma js_recognizeSteps_spec (E : JavaScriptParser.Engine)
    (sourceCode : string) (lineOffset : nat) :
  triple (Inv []) (JavaScriptParser.recognizeSteps E sourceCode lineOffset)
         (fun steps st => Inv steps st).
Proof.
  unfold JavaScriptParser.recognizeSteps.
  eapply triple_bind; [apply (js_parseActivities_spec E _ _ [])|].
  intros a. cbn [app].
  eapply triple_bind; [apply (js_parseSubOrchestrations_spec E _ _ a)|].
  intros b. cbn beta.
  eapply triple_bind; [apply (js_parseTimers_spec E _ _ (a ++ b))|].
  intros c. cbn beta.
  eapply triple_bind;
    [apply (js_parseExternalEvents_spec E _ _ ((a ++ b) ++ c))|].
  intros d. cbn beta.
  eapply triple_bind;
    [apply (js_parseDecisions_spec E _ _ (((a ++ b) ++ c) ++ d))|].
  intros e. cbn beta.
  eapply triple_bind;
    [apply (js_parseParallelBlocks_spec E _ _
              ((((a ++ b) ++ c) ++ d) ++ e))|].
  intros f. apply triple_ret. intros st H.
  now rewrite <- !app_assoc in H.
Qed.

Section Run.

Variable E : JavaScriptParser.Engine.
Variable language : SupportedLanguage.

Lemma js_keeps_extractWorkflowName (sourceCode filePath : string) :
  keeps (JavaScriptParser.extractWorkflowName E sourceCode filePath).
Proof.
  unfold JavaScriptParser.extractWorkflowName.
  apply keeps_bind; [apply keeps_call|]. intros [name|]; [apply keeps_ret|].
  apply keeps_bind; [apply keeps_call|]. intros [name|]; [apply keeps_ret|].
  apply keeps_bind; [apply keeps_call|]. intros [name|]; [apply keeps_ret|].
  apply keeps_bind; [apply keeps_call|]. intros [name|]; apply keeps_ret.
Qed.

Lemma js_keeps_selectScope (sourceCode filePath : string)
    (target : option string) (all : list Python.WorkflowRange) :
  keeps (JavaScriptParser.selectScope E sourceCode filePath target all).
Proof.
  unfold JavaScriptParser.selectScope.
  destruct (truthy target && (0 <? List.length all)).
  - destruct (find _ all); [apply keeps_ret|].
    apply keeps_bind; [apply js_keeps_extractWorkflowName|].
    intros n. apply keeps_ret.
  - destruct all; [|apply keeps_ret].
    apply keeps_bind; [apply js_keeps_extractWorkflowName|].
    intros n. apply keeps_ret.
Qed.

Lemma js_keeps_extractMetadata (fullSource scopedSource : string) :
  keeps (JavaScriptParser.extractMetadata E fullSource scopedSource).
Proof.
  unfold JavaScriptParser.extractMetadata.
  apply keeps_bind; [apply keeps_call|]. intros d.
  apply keeps_bind; [apply keeps_call|]. intros h.
  apply keeps_bind; [|intros p; apply keeps_ret].
  destruct (truthy (option_map fst h)); [|apply keeps_ret].
  destruct (option_map fst h); [|apply keeps_ret].
  apply keeps_bind; [apply keeps_call|]. intros [text|]; [|apply keeps_ret].
  apply keeps_call.
Qed.

Lemma js_keeps_extractWorkflowInputInfo (sourceCode : string) :
  keeps (JavaScriptParser.extractWorkflowInputInfo E sourceCode).
Proof.
  unfold JavaScriptParser.extractWorkflowInputInfo.
  apply keeps_bind; [apply keeps_call|].
  intros [p|]; [apply keeps_setWorkflowInputParam|].
  apply keeps_bind; [apply keeps_call|].
  intros [p|]; [apply keeps_setWorkflowInputParam|].
  apply keeps_bind; [apply keeps_call|].
  intros [p|]; [apply keeps_setWorkflowInputParam|apply keeps_ret].
Qed.

Lemma js_keeps_extractReturnInfo (R : JavaScript.Engine) (sourceCode : string)
    (md : option WorkflowMetadata) :
  keeps (JavaScript.extractReturnInfo R sourceCode md).
Proof.
  unfold JavaScript.extractReturnInfo.
  apply keeps_bind; [apply keeps_call|]. intros found.
  destruct (map trim found); [apply keeps_ret|].
  apply keeps_bind; [|intros a; apply keeps_ret].
  apply keeps_forEach. intros acc x.
  apply keeps_bind; [|intros a; apply keeps_ret].
  unfold JavaScript.parseReturnExpression.
  destruct (startsWith x "{"); [apply keeps_call|apply keeps_ret].
Qed.

(** What a successful [parse] has done: the recognisers ran from a state
    with empty task and group maps, and the graph was assembled from
    their nodes and the group map they left. *)
Lemma js_parse_success (sourceCode filePath : string) (target : option string)
    (st st' : Inst) (w : WorkflowDefinition) :
  JavaScriptParser.parse E language sourceCode filePath target st =
    (mkResult true (Some w) None, st') ->
  exists scoped lineOffset steps st0,
    JavaScriptParser.recognizeSteps E scoped lineOffset st0
      = Normal steps st' /\
    maps st0 = ([], [], []) /\
    wNodes w = addStartEndNodes steps /\
    wEdges w = buildEdgesWithDataFlow (parallelGroupMap st') (wNodes w).
Proof.
  unfold JavaScriptParser.parse, tryCatch.
  destruct (JavaScriptParser.parseBody E language sourceCode filePath target st)
    as [w0 st1|e st1] eqn:B; [|discriminate].
  intros H. injection H as <- <-.
  unfold JavaScriptParser.parseBody in B.
  apply bind_normal in B as (u & s1 & B1 & B).
  assert (M1 : maps s1 = ([], [], [])) by (now injection B1 as _ <-).
  clear B1.
  apply bind_normal in B as (all & s2 & B1 & B).
  assert (M2 : maps s2 = ([], [], [])).
  { rewrite <- M1. revert B1. apply keeps_bind; [apply keeps_call|].
    intros l. apply keeps_bind; [apply keeps_call|].
    intros l2. apply keeps_ret. }
  clear B1 M1.
  apply bind_normal in B as (scope & s3 & B2 & B).
  apply js_keeps_selectScope in B2. rewrite M2 in B2. clear M2.
  destruct scope as [[scoped lineOffset] workflowName].
  apply bind_normal in B as (md0 & s4 & B3 & B).
  apply js_keeps_extractMetadata in B3. rewrite B2 in B3. clear B2.
  apply bind_normal in B as (u2 & s5 & B4 & B).
  apply js_keeps_extractWorkflowInputInfo in B4. rewrite B3 in B4. clear B3.
  apply bind_normal in B as (md1 & s6 & B5 & B).
  apply js_keeps_extractReturnInfo in B5. rewrite B4 in B5. clear B4.
  apply bind_normal in B as (steps & s7 & B6 & B).
  cbv [Python.buildDataFlowMetadata bind this ret] in B.
  injection B as <- <-.
  exists scoped, lineOffset, steps, s6.
  split; [exact B6|]. split; [exact B5|].
  split; reflexivity.
Qed.

(** The graph of a successful [parse] is assembled from step nodes and a
    group map that are well formed. *)
Lemma js_parse_graph (sourceCode filePath : string) (target : option string)
    (st : Inst) (w : WorkflowDefinition) :
  workflow (fst (JavaScriptParser.parse E language sourceCode filePath
                                        target st))
    = Some w ->
  exists steps,
    WellFormed steps
      (parallelGroupMap
         (snd (JavaScriptParser.parse E language sourceCode filePath
                                      target st))) /\
    wNodes w = addStartEndNodes steps /\
    wEdges w =
      buildEdgesWithDataFlow
        (parallelGroupMap
           (snd (JavaScriptParser.parse E language sourceCode filePath
                                        target st)))
        (addStartEndNodes steps).
Proof.
  intros H.
  assert (R : JavaScriptParser.parse E language sourceCode filePath target st =
              (mkResult true (Some w) None,
               snd (JavaScriptParser.parse E language sourceCode filePath
                                           target st))).
  { revert H. unfold JavaScriptParser.parse, tryCatch.
    destruct (JavaScriptParser.parseBody E language sourceCode filePath
                                         target st); cbn.
    - now intros [= ->].
    - discriminate. }
  apply js_parse_success in R as (scoped & off & steps & st0 & R & M0 & EN & EE).
  exists steps. split; [|split; [exact EN|now rewrite EE, EN]].
  apply Inv_wellFormed.
  apply (js_recognizeSteps_spec E scoped off st0 steps _); [|exact R].
  unfold maps in M0. injection M0 as _ Mt Mg.
  split; [constructor| |]; intros k v Hk.
  - rewrite Mt in Hk. discriminate.
  - rewrite Mg in Hk. discriminate.
Qed.

End Run.

End JavaScriptFacts.

(** ** The graph assembler *)

Module AssemblerFacts.

Import Js Model Effects Assembler Spec.

Lemma insertByLine_In (x y : WorkflowNode) (l : list WorkflowNode) :
  In y (insertByLine x l) <-> y = x \/ In y l.
Proof.
  induction l as [|z l IH]; simpl.
  - intuition.
  - destruct (lineOf x <=? lineOf z); simpl; [intuition|].
    rewrite IH. intuition.
Qed.

(** The sorted list has the nodes of the list it was made from. *)
Lemma sortByLine_In (y : WorkflowNode) (l : list WorkflowNode) :
  In y (sortByLine l) <-> In y l.
Proof.
  induction l as [|x l IH]; simpl; [reflexivity|].
  rewrite insertByLine_In, IH. intuition.
Qed.

(** A node without a line number, pushed first, stays first. *)
Lemma sortByLine_start (rest : list WorkflowNode) :
  sortByLine (startNode :: rest) = startNode :: sortByLine rest.
Proof.
  simpl. destruct (sortByLine rest); reflexivity.
Qed.

Lemma insertByLine_sorted (x : WorkflowNode) (l : list WorkflowNode) :
  StronglySorted (fun a b => lineOf a <= lineOf b) l ->
  StronglySorted (fun a b => lineOf a <= lineOf b) (insertByLine x l).
Proof.
  induction 1 as [|y l HS IH HF]; simpl.
  - constructor; constructor.
  - destruct (lineOf x <=? lineOf y) eqn:C.
    + apply Nat.leb_le in C. constructor; [constructor; assumption|].
      constructor; [exact C|].
      rewrite Forall_forall in HF |- *. intros z Hz.
      specialize (HF z Hz). simpl in HF. lia.
    + apply Nat.leb_gt in C. constructor; [exact IH|].
      rewrite Forall_forall in HF |- *. intros z Hz.
      apply insertByLine_In in Hz as [->|Hz]; [lia|exact (HF z Hz)].
Qed.

(** Insertion puts a node before the nodes of its own line number. *)
Lemma insertByLine_onLine (k : nat) (x : WorkflowNode)
    (l : list WorkflowNode) :
  onLine k (insertByLine x l) = onLine k (x :: l).
Proof.
  unfold onLine.
  induction l as [|y l IH]; [reflexivity|].
  simpl insertByLine. destruct (lineOf x <=? lineOf y) eqn:C; [reflexivity|].
  apply Nat.leb_gt in C.
  change (filter (fun n => lineOf n =? k) (y :: insertByLine x l))
    with (if lineOf y =? k
          then y :: filter (fun n => lineOf n =? k) (insertByLine x l)
          else filter (fun n => lineOf n =? k) (insertByLine x l)).
  rewrite IH. simpl.
  destruct (lineOf x =? k) eqn:X, (lineOf y =? k) eqn:Y; try reflexivity.
  apply Nat.eqb_eq in X, Y. lia.
Qed.

(** The sort puts the nodes in line order and keeps the order of the
    nodes of one line number. *)
Lemma sortByLine_stable (nodes : list WorkflowNode) :
  StableSorted nodes (sortByLine nodes).
Proof.
  induction nodes as [|x l [HS HK]]; [split; [constructor|reflexivity]|].
  split.
  - apply insertByLine_sorted. exact HS.
  - intros k. change (sortByLine (x :: l)) with (insertByLine x (sortByLine l)).
    rewrite insertByLine_onLine. unfold onLine in *. simpl. rewrite HK.
    reflexivity.
Qed.

Lemma onLine_In (k : nat) (x : WorkflowNode) (l : list WorkflowNode) :
  In x (onLine k l) <-> In x l /\ lineOf x = k.
Proof.
  unfold onLine. rewrite filter_In, Nat.eqb_eq. reflexivity.
Qed.

(** Two lists in line order with the same nodes on every line, in the
    same order, are one list. *)
Lemma sorted_unique (l1 l2 : list WorkflowNode) :
  StronglySorted (fun a b => lineOf a <= lineOf b) l1 ->
  StronglySorted (fun a b => lineOf a <= lineOf b) l2 ->
  (forall k, onLine k l1 = onLine k l2) ->
  l1 = l2.
Proof.
  intros H1. revert l2.
  induction H1 as [|a l1 HS1 IH HF1]; intros l2 H2 HK.
  - destruct l2 as [|b l2]; [reflexivity|].
    specialize (HK (lineOf b)). unfold onLine in HK. simpl in HK.
    rewrite Nat.eqb_refl in HK. discriminate.
  - destruct H2 as [|b l2 HS2 HF2].
    + specialize (HK (lineOf a)). unfold onLine in HK. simpl in HK.
      rewrite Nat.eqb_refl in HK. discriminate.
    + rewrite Forall_forall in HF1, HF2.
      assert (Hab : lineOf a = lineOf b).
      { assert (A : In a (onLine (lineOf a) (b :: l2))).
        { rewrite <- HK. apply onLine_In. split; [now left|reflexivity]. }
        assert (B : In b (onLine (lineOf b) (a :: l1))).
        { rewrite HK. apply onLine_In. split; [now left|reflexivity]. }
        apply onLine_In in A as [[->|A] _]; [reflexivity|].
        apply onLine_In in B as [[->|B] _]; [reflexivity|].
        specialize (HF1 b B). specialize (HF2 a A). simpl in *. lia. }
      assert (E : a = b).
      { specialize (HK (lineOf a)). unfold onLine in HK. simpl in HK.
        rewrite Nat.eqb_refl in HK. rewrite <- Hab, Nat.eqb_refl in HK.
        now injection HK. }
      subst b. f_equal. apply IH; [exact HS2|].
      intros k. specialize (HK k). unfold onLine in *. simpl in HK.
      destruct (lineOf a =? k); [now injection HK|exact HK].
Qed.

(** The line order of a node list is the list the sort computes. *)
Lemma stable_sorted_unique (nodes sorted : list WorkflowNode) :
  StableSorted nodes sorted -> sorted = sortByLine nodes.
Proof.
  intros [HS HK]. destruct (sortByLine_stable nodes) as [HS' HK'].
  apply sorted_unique; [exact HS|exact HS'|].
  intros k. now rewrite HK, HK'.
Qed.

Lemma nodeTypeEqb_eq (a b : NodeType) : nodeTypeEqb a b = true <-> a = b.
Proof. destruct a, b; simpl; split; congruence. Qed.

Lemma memb_In (x : string) (l : list string) : memb x l = true <-> In x l.
Proof.
  unfold memb. rewrite existsb_exists. split.
  - intros (y & Hy & E). apply String.eqb_eq in E. now subst.
  - intros H. exists x. split; [exact H|apply String.eqb_refl].
Qed.

Lemma findById_Some (S : list WorkflowNode) (id : string) (n : WorkflowNode) :
  findById S id = Some n -> In n S /\ nodeId n = id.
Proof.
  unfold findById. intros H. apply find_some in H as [H1 H2].
  split; [exact H1|now apply String.eqb_eq].
Qed.

Lemma findById_exists (S : list WorkflowNode) (n : WorkflowNode) :
  In n S -> exists m, findById S (nodeId n) = Some m.
Proof.
  unfold findById. intros H.
  destruct (find _ S) as [m|] eqn:F; [now exists m|].
  eapply find_none in F; [|exact H]. now rewrite String.eqb_refl in F.
Qed.

(** *** Step nodes *)

Lemma shape_not_synthetic (n : WorkflowNode) :
  StepShape n -> isSynthetic n = false.
Proof.
  intros [(p & k & [Hp|[Hp _]] & _) _]; unfold isSynthetic;
    destruct (nodeType n); try discriminate; reflexivity.
Qed.

Lemma shape_id (n : WorkflowNode) :
  StepShape n ->
  nodeId n <> "start" /\ nodeId n <> "end" /\ nodeId n <> "".
Proof.
  intros [(p & k & [Hp|[_ ->]] & Hid) _]; rewrite Hid;
    [|repeat split; discriminate].
  destruct (nodeType n); try discriminate; injection Hp as <-;
    repeat split; discriminate.
Qed.

(** A node marked as a parallel task and a join node never share an
    identifier. *)
Lemma task_join_ids (a b : WorkflowNode) :
  StepShape a -> StepShape b ->
  flagged a = true -> nodeType b = TParallel -> nodeId a <> nodeId b.
Proof.
  intros [(p & k & Hp & Hid) Hf] [(p' & k' & Hp' & Hid') _] Fa Tb.
  rewrite Hid, Hid'. rewrite (Hf Fa) in Hp. rewrite Tb in Hp'.
  destruct Hp as [Hp|[Hp _]]; [|discriminate Hp].
  destruct Hp' as [Hp'|[Hp' _]]; [|discriminate Hp'].
  injection Hp as <-. injection Hp' as <-. discriminate.
Qed.

(** *** The walk over the sorted nodes *)

Section Walk.

Variable g : JsMap.
Variable S : list WorkflowNode.

(** What the walk needs of the sorted nodes [S] and the group map [g]:
    a node with an entry in the map is a step marked as a parallel task;
    the join of an entry has no entry of its own and is one of the
    nodes. *)
Hypothesis members : forall n j,
  In n S -> mapGet g (nodeId n) = Some j ->
  j <> "" /\ nodeType n <> TStart /\ nodeType n <> TEnd /\
  memb (nodeId n) (parallelTaskNodeIds S) = true.
Hypothesis joins_apart : forall k j, mapGet g k = Some j -> mapGet g j = None.
Hypothesis joins_present : forall k j,
  mapGet g k = Some j -> exists jn, findById S j = Some jn.

Lemma type_neq (a b : NodeType) : a <> b -> nodeTypeEqb a b = false.
Proof.
  intros H. destruct (nodeTypeEqb a b) eqn:E; [|reflexivity].
  apply nodeTypeEqb_eq in E. contradiction.
Qed.

Lemma truthy_Some (j : string) : j <> "" -> truthy (Some j) = true.
Proof.
  intros H. simpl. apply negb_true_iff. now apply String.eqb_neq.
Qed.

(** The first node of a group the walk meets: fan-out from the cursor,
    fan-in to the join, and the join becomes the cursor. *)
Lemma visit_member_new (n : WorkflowNode) (j : string) (w : Walk)
    (jn : WorkflowNode) :
  In n S -> mapGet g (nodeId n) = Some j ->
  memb j (processedParallelGroups w) = false ->
  findById S j = Some jn ->
  visit g S w n =
  mkWalk (walkEdges w ++ fanOut (lastSequentialNode w) (groupOf g S j) ++
          fanIn (groupOf g S j) jn)
         (Some jn) (j :: processedParallelGroups w).
Proof.
  intros Hn Hj Hp Hf. destruct (members n j Hn Hj) as (J & T1 & T2 & Mb).
  unfold visit. rewrite (type_neq _ _ T1), (type_neq _ _ T2), Mb, Hj.
  rewrite (truthy_Some j J). cbn [negb]. now rewrite Hp, Hf.
Qed.

(** A later node of a group already processed: nothing happens. *)
Lemma visit_member_old (n : WorkflowNode) (j : string) (w : Walk) :
  In n S -> mapGet g (nodeId n) = Some j ->
  memb j (processedParallelGroups w) = true ->
  visit g S w n = w.
Proof.
  intros Hn Hj Hp. destruct (members n j Hn Hj) as (J & T1 & T2 & Mb).
  unfold visit. rewrite (type_neq _ _ T1), (type_neq _ _ T2), Mb, Hj.
  rewrite (truthy_Some j J). cbn [negb]. now rewrite Hp.
Qed.

Lemma walk_eta (w : Walk) :
  w = mkWalk (walkEdges w ++ []) (lastSequentialNode w)
             (processedParallelGroups w).
Proof. destruct w. simpl. now rewrite app_nil_r. Qed.

(** A node without an entry in the group map: at most the edge of a
    sequential node is pushed, and unless the node is the end node the
    cursor moves to it (or stays on a node of the same identifier). *)
Lemma visit_other (n : WorkflowNode) (w : Walk) :
  mapGet g (nodeId n) = None ->
  exists es l',
    visit g S w n = mkWalk (walkEdges w ++ es) l' (processedParallelGroups w) /\
    (es = [] \/ es = sequentialEdge (lastSequentialNode w) n) /\
    ((nodeType n = TEnd /\ l' = lastSequentialNode w) \/
     (nodeType n <> TEnd /\
      exists l, l' = Some l /\ nodeId l = nodeId n)).
Proof.
  intros Hg. unfold visit.
  destruct (nodeTypeEqb (nodeType n) TStart) eqn:T1.
  { apply nodeTypeEqb_eq in T1. exists [], (Some n). rewrite app_nil_r.
    split; [reflexivity|]. split; [now left|]. right.
    split; [congruence|]. now exists n. }
  destruct (nodeTypeEqb (nodeType n) TEnd) eqn:T2.
  { apply nodeTypeEqb_eq in T2. exists [], (lastSequentialNode w).
    split; [apply walk_eta|]. split; [now left|]. now left. }
  assert (NE : nodeType n <> TEnd).
  { intros E. apply nodeTypeEqb_eq in E. congruence. }
  rewrite Hg. cbn [truthy negb].
  destruct (memb (nodeId n) (parallelTaskNodeIds S)).
  { exists (sequentialEdge (lastSequentialNode w) n), (Some n).
    split; [reflexivity|]. split; [now right|]. right.
    split; [exact NE|]. now exists n. }
  destruct (memb (nodeId n) (joinNodeIds S)).
  { destruct (lastSequentialNode w) as [l|] eqn:L.
    - destruct (String.eqb (nodeId l) (nodeId n)) eqn:El.
      + exists [], (Some l). split; [rewrite <- L; apply walk_eta|].
        split; [now left|]. right. split; [exact NE|].
        exists l. split; [reflexivity|now apply String.eqb_eq].
      + exists [], (Some n). rewrite app_nil_r.
        split; [reflexivity|]. split; [now left|]. right.
        split; [exact NE|]. now exists n.
    - exists [], (Some n). rewrite app_nil_r.
      split; [reflexivity|]. split; [now left|]. right.
      split; [exact NE|]. now exists n. }
  exists (sequentialEdge (lastSequentialNode w) n), (Some n).
  split; [reflexivity|]. split; [now right|]. right.
  split; [exact NE|]. now exists n.
Qed.

Lemma sequentialEdge_spec (last : option WorkflowNode) (n : WorkflowNode)
    (e : WorkflowEdge) :
  In e (sequentialEdge last n) ->
  edgeType e = EDefault /\ edgeSource e <> edgeTarget e.
Proof.
  unfold sequentialEdge. destruct last as [l|]; [|intros []].
  destruct (String.eqb (nodeId l) (nodeId n)) eqn:E; [intros []|].
  intros [<-|[]]. split; [reflexivity|]. simpl. now apply String.eqb_neq.
Qed.

(** The three cases of a visit. *)
Lemma visit_cases (n : WorkflowNode) (w : Walk) :
  In n S ->
  (exists j jn, mapGet g (nodeId n) = Some j /\
                memb j (processedParallelGroups w) = false /\
                findById S j = Some jn) \/
  (exists j, mapGet g (nodeId n) = Some j /\
             memb j (processedParallelGroups w) = true) \/
  mapGet g (nodeId n) = None.
Proof.
  intros Hn. destruct (mapGet g (nodeId n)) as [j|] eqn:Hj; [|now right; right].
  destruct (memb j (processedParallelGroups w)) eqn:Hp.
  - right. left. now exists j.
  - left. destruct (joins_present _ _ Hj) as [jn Hf]. now exists j, jn.
Qed.

Lemma inGroup_get (j : string) (p : WorkflowNode) :
  inGroup g j p = true <-> mapGet g (nodeId p) = Some j.
Proof.
  unfold inGroup. destruct (mapGet g (nodeId p)) as [j'|]; split.
  - intros H. apply String.eqb_eq in H. now subst.
  - intros H. injection H as ->. apply String.eqb_refl.
  - discriminate.
  - discriminate.
Qed.

Lemma groupOf_In (j : string) (p : WorkflowNode) (l : list WorkflowNode) :
  In p (groupOf g l j) <-> In p l /\ mapGet g (nodeId p) = Some j.
Proof.
  unfold groupOf. rewrite filter_In, inGroup_get. reflexivity.
Qed.

(** *** No control edge from a node to itself *)

(** The cursor is never a node with an entry in the group map. *)
Let CursorFree (w : Walk) : Prop :=
  forall l, lastSequentialNode w = Some l -> mapGet g (nodeId l) = None.

Lemma NoLoop_app (a b : list WorkflowEdge) :
  NoLoop a -> NoLoop b -> NoLoop (a ++ b).
Proof.
  intros Ha Hb e He. apply in_app_or in He as [He|He]; auto.
Qed.

Lemma visit_noloop (n : WorkflowNode) (w : Walk) :
  In n S -> NoLoop (walkEdges w) -> CursorFree w ->
  NoLoop (walkEdges (visit g S w n)) /\ CursorFree (visit g S w n).
Proof.
  intros Hn HL HC.
  destruct (visit_cases n w Hn)
    as [(j & jn & Hj & Hp & Hf)|[(j & Hj & Hp)|Hg]].
  - rewrite (visit_member_new n j w jn Hn Hj Hp Hf). cbn.
    destruct (findById_Some _ _ _ Hf) as [_ Hid]. split.
    + apply NoLoop_app; [exact HL|]. apply NoLoop_app.
      * intros e He _. unfold fanOut in He.
        destruct (lastSequentialNode w) as [l|] eqn:L; [|destruct He].
        apply in_map_iff in He as (p & <- & Hpin). cbn.
        apply groupOf_In in Hpin as [_ Hpj].
        intros Eq. rewrite <- Eq, (HC l L) in Hpj. discriminate.
      * intros e He _. unfold fanIn in He.
        apply in_map_iff in He as (p & <- & Hpin). cbn.
        apply groupOf_In in Hpin as [_ Hpj].
        intros Eq. rewrite Eq, Hid, (joins_apart _ _ Hj) in Hpj. discriminate.
    + intros l El. injection El as <-. rewrite Hid.
      exact (joins_apart _ _ Hj).
  - rewrite (visit_member_old n j w Hn Hj Hp). now split.
  - destruct (visit_other n w Hg) as (es & l' & -> & Hes & Hl). cbn. split.
    + apply NoLoop_app; [exact HL|]. intros e He _.
      destruct Hes as [->| ->]; [destruct He|].
      exact (proj2 (sequentialEdge_spec _ _ _ He)).
    + intros l El. unfold CursorFree in HC.
      destruct Hl as [[_ ->]|[_ (l0 & -> & Hid)]].
      * now apply HC.
      * injection El as <-. now rewrite Hid.
Qed.

Lemma walk_noloop (seg : list WorkflowNode) :
  (forall n, In n seg -> In n S) ->
  forall w, NoLoop (walkEdges w) -> CursorFree w ->
            NoLoop (walkEdges (walk g S w seg)) /\ CursorFree (walk g S w seg).
Proof.
  induction seg as [|n seg IH]; intros Hin w HL HC; [now split|].
  simpl. destruct (visit_noloop n w (Hin n (or_introl eq_refl)) HL HC).
  apply IH; [|assumption|assumption].
  intros m Hm. apply Hin. now right.
Qed.

Lemma endEdge_noloop (last : option WorkflowNode) : NoLoop (endEdge S last).
Proof.
  unfold endEdge. destruct last as [l|]; [|intros e []].
  destruct (find _ S) as [en|]; [|intros e []].
  destruct (String.eqb (nodeId l) (nodeId en)) eqn:E; [intros e []|].
  intros e [<-|[]] _. cbn. now apply String.eqb_neq.
Qed.

(** No control edge of the walk over all the nodes, nor the edge into
    the end node, goes from a node to itself. *)
Lemma walk_all_noloop :
  NoLoop (walkEdges (walk g S (mkWalk [] None []) S) ++
          endEdge S (lastSequentialNode (walk g S (mkWalk [] None []) S))).
Proof.
  apply NoLoop_app; [|apply endEdge_noloop].
  apply walk_noloop; [auto|intros e []|intros l El; discriminate El].
Qed.

(** *** The parallel edges of one join *)

Lemma visit_end (n : WorkflowNode) (w : Walk) :
  nodeType n = TEnd -> visit g S w n = w.
Proof. intros H. unfold visit. now rewrite H. Qed.

Lemma walk_app (w : Walk) (a b : list WorkflowNode) :
  walk g S w (a ++ b) = walk g S (walk g S w a) b.
Proof. unfold walk. apply fold_left_app. Qed.

(** Once set, the cursor stays set. *)
Lemma visit_cursor (n : WorkflowNode) (w : Walk) :
  In n S -> lastSequentialNode w <> None ->
  lastSequentialNode (visit g S w n) <> None.
Proof.
  intros Hn HL.
  destruct (visit_cases n w Hn)
    as [(j & jn & Hj & Hp & Hf)|[(j & Hj & Hp)|Hg]].
  - rewrite (visit_member_new n j w jn Hn Hj Hp Hf). discriminate.
  - now rewrite (visit_member_old n j w Hn Hj Hp).
  - destruct (visit_other n w Hg) as (es & l' & -> & _ & Hl). cbn.
    destruct Hl as [[_ ->]|[_ (l0 & -> & _)]]; [exact HL|discriminate].
Qed.

Lemma walk_cursor (seg : list WorkflowNode) :
  (forall n, In n seg -> In n S) ->
  forall w, lastSequentialNode w <> None ->
            lastSequentialNode (walk g S w seg) <> None.
Proof.
  induction seg as [|n seg IH]; intros Hin w HL; [exact HL|].
  simpl. apply IH; [intros m Hm; apply Hin; now right|].
  apply visit_cursor; [apply Hin; now left|exact HL].
Qed.

Section OneJoin.

Variable j : string.
Variable P : WorkflowEdge -> bool.

(** [P] selects parallel edges only, and none of another join. *)
Hypothesis P_parallel : forall e, P e = true -> isParallelEdge e = true.
Hypothesis P_foreign : forall j' jn' last,
  j' <> j -> (exists k, mapGet g k = Some j') -> nodeId jn' = j' ->
  filter P (fanOut last (groupOf g S j') ++ fanIn (groupOf g S j') jn') = [].

Lemma filter_sequential (es : list WorkflowEdge) (last : option WorkflowNode)
    (n : WorkflowNode) :
  es = [] \/ es = sequentialEdge last n -> filter P es = [].
Proof.
  intros [->| ->]; [reflexivity|].
  unfold sequentialEdge. destruct last as [l|]; [|reflexivity].
  destruct (String.eqb (nodeId l) (nodeId n)); [reflexivity|].
  simpl. destruct (P (controlEdge l n EDefault)) eqn:E; [|reflexivity].
  apply P_parallel in E. discriminate.
Qed.

(** A visit that does not start the group of [j] leaves the selected
    edges as they are. *)
Lemma visit_skip (n : WorkflowNode) (w : Walk) :
  In n S ->
  (mapGet g (nodeId n) = Some j ->
   memb j (processedParallelGroups w) = true) ->
  filter P (walkEdges (visit g S w n)) = filter P (walkEdges w) /\
  memb j (processedParallelGroups (visit g S w n)) =
  memb j (processedParallelGroups w).
Proof.
  intros Hn Hdone.
  destruct (visit_cases n w Hn)
    as [(j' & jn & Hj & Hp & Hf)|[(j' & Hj & Hp)|Hg]].
  - rewrite (visit_member_new n j' w jn Hn Hj Hp Hf). cbn.
    assert (Hne : j' <> j).
    { intros ->. rewrite (Hdone Hj) in Hp. discriminate. }
    rewrite filter_app, P_foreign, app_nil_r;
      [|exact Hne|now exists (nodeId n)
       |exact (proj2 (findById_Some _ _ _ Hf))].
    split; [reflexivity|].
    replace (String.eqb j j') with false; [reflexivity|].
    symmetry. apply String.eqb_neq. congruence.
  - rewrite (visit_member_old n j' w Hn Hj Hp). now split.
  - destruct (visit_other n w Hg) as (es & l' & -> & Hes & _). cbn.
    rewrite filter_app, (filter_sequential _ _ _ Hes), app_nil_r. now split.
Qed.

Lemma walk_skip (seg : list WorkflowNode) :
  (forall n, In n seg -> In n S) ->
  forall w,
    (forall n, In n seg -> mapGet g (nodeId n) = Some j ->
               memb j (processedParallelGroups w) = true) ->
    filter P (walkEdges (walk g S w seg)) = filter P (walkEdges w) /\
    memb j (processedParallelGroups (walk g S w seg)) =
    memb j (processedParallelGroups w).
Proof.
  induction seg as [|n seg IH]; intros Hin w Hdone; [now split|].
  simpl.
  destruct (visit_skip n w (Hin n (or_introl eq_refl))
              (Hdone n (or_introl eq_refl))) as [E1 E2].
  destruct (IH (fun m Hm => Hin m (or_intror Hm)) (visit g S w n)) as [E3 E4].
  { intros m Hm Hj. rewrite E2. apply (Hdone m); [now right|exact Hj]. }
  split; congruence.
Qed.

(** The selected edges of the whole walk are those pushed at the first
    node of the group. *)
Lemma walk_group (pre post : list WorkflowNode) (m jn : WorkflowNode) :
  S = pre ++ m :: post ->
  groupOf g pre j = [] ->
  mapGet g (nodeId m) = Some j ->
  findById S j = Some jn ->
  filter P (walkEdges (walk g S (mkWalk [] None []) S)) =
  filter P (fanOut (lastSequentialNode (walk g S (mkWalk [] None []) pre))
                   (groupOf g S j) ++
            fanIn (groupOf g S j) jn).
Proof.
  intros ES Hpre Hm Hf.
  assert (InPre : forall n, In n pre -> In n S).
  { intros n Hn. rewrite ES. apply in_or_app. now left. }
  assert (InM : In m S).
  { rewrite ES. apply in_or_app. right. now left. }
  assert (InPost : forall n, In n post -> In n S).
  { intros n Hn. rewrite ES. apply in_or_app. right. now right. }
  rewrite ES at 2. rewrite walk_app. simpl.
  set (w1 := walk g S (mkWalk [] None []) pre).
  destruct (walk_skip pre InPre (mkWalk [] None [])) as [E1 E2].
  { intros n Hn Hj. exfalso.
    assert (In n (groupOf g pre j)) by (apply groupOf_In; now split).
    rewrite Hpre in H. destruct H. }
  fold w1 in E1, E2. cbn in E1, E2.
  rewrite (visit_member_new m j w1 jn InM Hm E2 Hf).
  destruct (walk_skip post InPost
              (mkWalk (walkEdges w1 ++ fanOut (lastSequentialNode w1)
                         (groupOf g S j) ++ fanIn (groupOf g S j) jn)
                      (Some jn) (j :: processedParallelGroups w1)))
    as [E3 _].
  { intros n _ _. cbn. now rewrite String.eqb_refl. }
  fold (walk g S) in E3. unfold walk in E3 |- *. rewrite E3. cbn.
  now rewrite filter_app, E1.
Qed.

End OneJoin.

Lemma filter_none {A : Type} (P : A -> bool) (l : list A) :
  (forall x, In x l -> P x = false) -> filter P l = [].
Proof.
  induction l as [|x l IH]; intros H; [reflexivity|].
  simpl. rewrite (H x (or_introl eq_refl)). apply IH.
  intros y Hy. apply H. now right.
Qed.

Lemma filter_every {A : Type} (P : A -> bool) (l : list A) :
  (forall x, In x l -> P x = true) -> filter P l = l.
Proof.
  induction l as [|x l IH]; intros H; [reflexivity|].
  simpl. rewrite (H x (or_introl eq_refl)). f_equal. apply IH.
  intros y Hy. apply H. now right.
Qed.

Lemma group_id (j t : string) :
  memb t (map nodeId (groupOf g S j)) = true -> mapGet g t = Some j.
Proof.
  intros H. apply memb_In in H. apply in_map_iff in H as (p & <- & Hp).
  now apply groupOf_In in Hp.
Qed.

Section Selected.

Variable j : string.
Hypothesis j_join : exists k, mapGet g k = Some j.

Let selectOut (e : WorkflowEdge) : bool :=
  isParallelEdge e && memb (edgeTarget e) (map nodeId (groupOf g S j)).
Let selectIn (e : WorkflowEdge) : bool :=
  isParallelEdge e && String.eqb (edgeTarget e) j.

Lemma j_no_entry : mapGet g j = None.
Proof. destruct j_join as [k Hk]. exact (joins_apart _ _ Hk). Qed.

Lemma out_fanOut_other (j' : string) (last : option WorkflowNode) :
  j' <> j -> filter selectOut (fanOut last (groupOf g S j')) = [].
Proof.
  intros Hne. apply filter_none. intros e He. unfold fanOut in He.
  destruct last as [l|]; [|destruct He].
  apply in_map_iff in He as (p & <- & Hp). apply groupOf_In in Hp as [_ Hp].
  unfold selectOut. cbn.
  destruct (memb _ _) eqn:M; [|reflexivity].
  apply group_id in M. congruence.
Qed.

Lemma out_fanIn (j' : string) (jn : WorkflowNode) :
  (exists k, mapGet g k = Some j') -> nodeId jn = j' ->
  filter selectOut (fanIn (groupOf g S j') jn) = [].
Proof.
  intros [k Hk] Hid. apply filter_none. intros e He. unfold fanIn in He.
  apply in_map_iff in He as (p & <- & Hp).
  unfold selectOut. cbn. rewrite Hid.
  destruct (memb _ _) eqn:M; [|reflexivity].
  apply group_id in M. rewrite (joins_apart _ _ Hk) in M. discriminate.
Qed.

Lemma out_fanOut_same (last : option WorkflowNode) :
  filter selectOut (fanOut last (groupOf g S j)) = fanOut last (groupOf g S j).
Proof.
  apply filter_every. intros e He. unfold fanOut in He.
  destruct last as [l|]; [|destruct He].
  apply in_map_iff in He as (p & <- & Hp).
  unfold selectOut. cbn. apply memb_In. now apply in_map.
Qed.

Lemma in_fanOut (j' : string) (last : option WorkflowNode) :
  filter selectIn (fanOut last (groupOf g S j')) = [].
Proof.
  apply filter_none. intros e He. unfold fanOut in He.
  destruct last as [l|]; [|destruct He].
  apply in_map_iff in He as (p & <- & Hp). apply groupOf_In in Hp as [_ Hp].
  unfold selectIn. cbn.
  destruct (String.eqb (nodeId p) j) eqn:Q; [|reflexivity].
  apply String.eqb_eq in Q. rewrite Q, j_no_entry in Hp. discriminate.
Qed.

Lemma in_fanIn_other (j' : string) (jn : WorkflowNode) :
  j' <> j -> nodeId jn = j' ->
  filter selectIn (fanIn (groupOf g S j') jn) = [].
Proof.
  intros Hne Hid. apply filter_none. intros e He. unfold fanIn in He.
  apply in_map_iff in He as (p & <- & Hp).
  unfold selectIn. cbn. rewrite Hid. now apply String.eqb_neq.
Qed.

Lemma in_fanIn_same (jn : WorkflowNode) :
  nodeId jn = j ->
  filter selectIn (fanIn (groupOf g S j) jn) = fanIn (groupOf g S j) jn.
Proof.
  intros Hid. apply filter_every. intros e He. unfold fanIn in He.
  apply in_map_iff in He as (p & <- & Hp).
  unfold selectIn. cbn. rewrite Hid. apply String.eqb_refl.
Qed.

(** The fan-out and fan-in edges of [j] that the walk pushes. *)
Lemma group_edges (pre post : list WorkflowNode) (m jn : WorkflowNode) :
  S = pre ++ m :: post ->
  groupOf g pre j = [] ->
  mapGet g (nodeId m) = Some j ->
  findById S j = Some jn ->
  fanOutEdges g S j (walkEdges (walk g S (mkWalk [] None []) S)) =
    fanOut (cursorAfter g S pre) (groupOf g S j) /\
  fanInEdges j (walkEdges (walk g S (mkWalk [] None []) S)) =
    fanIn (groupOf g S j) jn.
Proof.
  intros ES Hpre Hm Hf.
  destruct (findById_Some _ _ _ Hf) as [_ Hid].
  split.
  - unfold fanOutEdges. fold selectOut.
    rewrite (walk_group j selectOut) with (pre := pre) (post := post)
                                          (m := m) (jn := jn); auto.
    + rewrite filter_app, out_fanOut_same, out_fanIn, app_nil_r; auto.
    + intros e He. unfold selectOut in He. now apply andb_prop in He.
    + intros j' jn' last Hne Hv Hid'.
      rewrite filter_app, out_fanOut_other, out_fanIn; auto.
  - unfold fanInEdges. fold selectIn.
    rewrite (walk_group j selectIn) with (pre := pre) (post := post)
                                         (m := m) (jn := jn); auto.
    + rewrite filter_app, in_fanOut, in_fanIn_same; auto.
    + intros e He. unfold selectIn in He. now apply andb_prop in He.
    + intros j' jn' last Hne Hv Hid'.
      rewrite filter_app, in_fanOut, in_fanIn_other; auto.
Qed.

End Selected.

Lemma walk_ends (ends : list WorkflowNode) (w : Walk) :
  Forall (fun n => nodeType n = TEnd) ends -> walk g S w ends = w.
Proof.
  induction 1 as [|n ends Hn _ IH]; [reflexivity|].
  simpl. rewrite (visit_end n w Hn). exact IH.
Qed.

(** The cursor after a node without an entry in the group map, however
    many end nodes follow it. *)
Lemma cursor_after_plain (pre1 ends : list WorkflowNode) (p : WorkflowNode) :
  Forall (fun n => nodeType n = TEnd) ends ->
  nodeType p <> TEnd ->
  mapGet g (nodeId p) = None ->
  exists c, cursorAfter g S (pre1 ++ p :: ends) = Some c /\
            nodeId c = nodeId p.
Proof.
  intros Hends Hp Hg. unfold cursorAfter. rewrite walk_app.
  change (walk g S ?w (p :: ends)) with (walk g S (visit g S w p) ends).
  rewrite (walk_ends ends _ Hends).
  destruct (visit_other p (walk g S (mkWalk [] None []) pre1) Hg)
    as (es & l' & -> & _ & Hl).
  destruct Hl as [[Ht _]|[_ (c & -> & Hc)]]; [contradiction|].
  now exists c.
Qed.

(** The groups the walk has processed are those of which it has met a
    task. *)
Lemma walk_processed (j : string) (seg : list WorkflowNode) :
  (forall n, In n seg -> In n S) ->
  forall w,
    memb j (processedParallelGroups (walk g S w seg)) =
    memb j (processedParallelGroups w) || existsb (inGroup g j) seg.
Proof.
  induction seg as [|n seg IH]; intros Hin w.
  - simpl. now rewrite orb_false_r.
  - simpl. rewrite (IH (fun m Hm => Hin m (or_intror Hm))).
    rewrite orb_assoc. f_equal.
    destruct (visit_cases n w (Hin n (or_introl eq_refl)))
      as [(j' & jn & Hj & Hp & Hf)|[(j' & Hj & Hp)|Hg]].
    + rewrite (visit_member_new n j' w jn (Hin n (or_introl eq_refl))
                 Hj Hp Hf).
      cbn. unfold inGroup. rewrite Hj.
      rewrite (String.eqb_sym j j'). apply orb_comm.
    + rewrite (visit_member_old n j' w (Hin n (or_introl eq_refl)) Hj Hp).
      unfold inGroup. rewrite Hj.
      destruct (String.eqb j' j) eqn:Ej; [|now rewrite orb_false_r].
      apply String.eqb_eq in Ej. subst j'. now rewrite Hp.
    + destruct (visit_other n w Hg) as (es & l' & -> & _ & _). cbn.
      unfold inGroup. rewrite Hg. now rewrite orb_false_r.
Qed.

Lemma existsb_rev {A : Type} (f : A -> bool) (l : list A) :
  existsb f (rev l) = existsb f l.
Proof.
  induction l as [|x l IH]; [reflexivity|].
  simpl. rewrite existsb_app, IH. simpl. rewrite orb_false_r.
  apply orb_comm.
Qed.

(** The cursor of the walk after the nodes [pre] is the node that
    [sourceBefore] names. *)
Lemma cursor_source (pre : list WorkflowNode) :
  (forall n, In n pre -> In n S) ->
  option_map nodeId (cursorAfter g S pre) = sourceBefore g (rev pre).
Proof.
  induction pre as [|p pre IH] using rev_ind; intros Hin; [reflexivity|].
  assert (Hpre : forall n, In n pre -> In n S).
  { intros n Hn. apply Hin. apply in_or_app. now left. }
  assert (Hp : In p S).
  { apply Hin. apply in_or_app. right. now left. }
  specialize (IH Hpre). unfold cursorAfter in *.
  rewrite walk_app, rev_app_distr. cbn [rev app walk fold_left sourceBefore].
  set (w := walk g S (mkWalk [] None []) pre) in *.
  fold (inGroup g) in *.
  destruct (visit_cases p w Hp)
    as [(j' & jn & Hj & Hpr & Hf)|[(j' & Hj & Hpr)|Hg]].
  - destruct (members p j' Hp Hj) as (_ & _ & T2 & _).
    rewrite (visit_member_new p j' w jn Hp Hj Hpr Hf), (type_neq _ _ T2), Hj.
    change (fun n : WorkflowNode =>
              match mapGet g (nodeId n) with
              | Some j2 => String.eqb j2 j'
              | None => false
              end) with (inGroup g j').
    unfold w in Hpr. rewrite (walk_processed j' pre Hpre) in Hpr.
    cbn in Hpr. rewrite existsb_rev, Hpr. cbn.
    now rewrite (proj2 (findById_Some _ _ _ Hf)).
  - destruct (members p j' Hp Hj) as (_ & _ & T2 & _).
    rewrite (visit_member_old p j' w Hp Hj Hpr), (type_neq _ _ T2), Hj.
    change (fun n : WorkflowNode =>
              match mapGet g (nodeId n) with
              | Some j2 => String.eqb j2 j'
              | None => false
              end) with (inGroup g j').
    unfold w in Hpr. rewrite (walk_processed j' pre Hpre) in Hpr.
    cbn in Hpr. rewrite existsb_rev, Hpr. exact IH.
  - destruct (visit_other p w Hg) as (es & l' & -> & _ & Hl). cbn.
    destruct Hl as [[Ht ->]|[Ht (l & -> & Hid)]].
    + rewrite Ht. cbn. exact IH.
    + rewrite (type_neq _ _ Ht), Hg. cbn. now rewrite Hid.
Qed.

End Walk.

(** *** The whole graph *)

Lemma dataFlowEdge_type (node : WorkflowNode) (source : DataSource)
    (e : WorkflowEdge) :
  In e (dataFlowEdge node source) ->
  isControl e = false /\
  (edgeSource e = edgeTarget e ->
   edgeType e = EDataEvent \/ edgeType e = EDataActivityOutput \/
   nodeId node = "start").
Proof.
  unfold dataFlowEdge. destruct (sourceType source).
  - intros [<-|[]]. split; [reflexivity|]. cbn. intros <-. auto.
  - destruct (truthy (sourceActivityId source)); [|intros []].
    destruct (sourceActivityId source); [|intros []].
    intros [<-|[]]. split; [reflexivity|]. auto.
  - intros [<-|[]]. split; [reflexivity|]. auto.
  - intros [].
  - intros [].
Qed.

Lemma dataFlowEdges_In (nodes : list WorkflowNode) (e : WorkflowEdge) :
  In e (dataFlowEdges nodes) ->
  exists node sources source,
    In node nodes /\ nodeDataSources node = Some sources /\
    In source sources /\ In e (dataFlowEdge node source).
Proof.
  unfold dataFlowEdges. intros H. apply in_flat_map in H as (node & Hn & He).
  destruct (nodeDataSources node) as [sources|] eqn:D; [|destruct He].
  apply in_flat_map in He as (source & Hs & He).
  now exists node, sources, source.
Qed.

Lemma endEdge_type (S : list WorkflowNode) (last : option WorkflowNode)
    (e : WorkflowEdge) :
  In e (endEdge S last) -> edgeType e = EDefault.
Proof.
  unfold endEdge. destruct last as [l|]; [|intros []].
  destruct (find _ S); [|intros []].
  destruct (String.eqb _ _); [intros []|]. now intros [<-|[]].
Qed.

Lemma filter_first {A : Type} (P : A -> bool) (l : list A) :
  filter P l <> [] ->
  exists pre m post, l = pre ++ m :: post /\ filter P pre = [] /\ P m = true.
Proof.
  induction l as [|x l IH]; [intros H; now elim H|].
  simpl. destruct (P x) eqn:Px.
  - intros _. now exists [], x, l.
  - intros H. destruct (IH H) as (pre & m & post & -> & Hpre & Hm).
    exists (x :: pre), m, post. simpl. rewrite Px. now repeat split.
Qed.

Section Graph.

Variable steps : list WorkflowNode.
Variable g : JsMap.
Hypothesis WF : WellFormed steps g.

Let nodes := addStartEndNodes steps.
Let S := sortByLine nodes.

Lemma sorted_In (n : WorkflowNode) :
  In n S <-> n = startNode \/ In n steps \/ n = endNode.
Proof.
  unfold S, nodes, addStartEndNodes. rewrite sortByLine_In. simpl.
  rewrite in_app_iff. simpl. intuition.
Qed.

Lemma step_shape (n : WorkflowNode) : In n steps -> StepShape n.
Proof.
  intros H. exact (proj1 (Forall_forall _ _) (wf_shape _ _ WF) n H).
Qed.

Lemma wf_members (n : WorkflowNode) (j : string) :
  In n S -> mapGet g (nodeId n) = Some j ->
  j <> "" /\ nodeType n <> TStart /\ nodeType n <> TEnd /\
  memb (nodeId n) (parallelTaskNodeIds S) = true.
Proof.
  intros Hn Hj.
  destruct (wf_keys _ _ WF _ _ Hj) as (a & Ha & Hida & Hfa).
  destruct (wf_values _ _ WF _ _ Hj) as (b & Hb & Hidb & Htb).
  destruct (shape_id a (step_shape a Ha)) as (A1 & A2 & _).
  split.
  { rewrite <- Hidb. exact (proj2 (proj2 (shape_id b (step_shape b Hb)))). }
  assert (Hs : In n steps).
  { apply sorted_In in Hn as [->|[Hn| ->]]; [|exact Hn|].
    - elim A1. exact Hida.
    - elim A2. exact Hida. }
  assert (Sy := shape_not_synthetic n (step_shape n Hs)).
  unfold isSynthetic in Sy. apply orb_false_elim in Sy as [S1 S2].
  split; [intros E; apply nodeTypeEqb_eq in E; congruence|].
  split; [intros E; apply nodeTypeEqb_eq in E; congruence|].
  apply memb_In. unfold parallelTaskNodeIds. rewrite <- Hida.
  apply in_map. apply filter_In. split; [|exact Hfa].
  apply sorted_In. auto.
Qed.

Lemma wf_apart (k j : string) : mapGet g k = Some j -> mapGet g j = None.
Proof.
  intros Hj. destruct (mapGet g j) as [j2|] eqn:H2; [|reflexivity].
  destruct (wf_keys _ _ WF _ _ H2) as (a & Ha & Hida & Hfa).
  destruct (wf_values _ _ WF _ _ Hj) as (b & Hb & Hidb & Htb).
  elim (task_join_ids a b (step_shape a Ha) (step_shape b Hb) Hfa Htb).
  congruence.
Qed.

Lemma wf_present (k j : string) :
  mapGet g k = Some j -> exists jn, findById S j = Some jn.
Proof.
  intros Hj. destruct (wf_values _ _ WF _ _ Hj) as (b & Hb & Hidb & _).
  rewrite <- Hidb. apply findById_exists. apply sorted_In. auto.
Qed.

Lemma sorted_start : exists rest, S = startNode :: rest.
Proof.
  unfold S, nodes, addStartEndNodes. rewrite sortByLine_start.
  now eexists.
Qed.

(** No control edge of the graph goes from a node to itself, and an
    edge that does is a data edge of an event or of a step output. *)
Lemma graph_loops (e : WorkflowEdge) :
  In e (buildEdgesWithDataFlow g nodes) ->
  edgeSource e = edgeTarget e ->
  isControl e = false /\
  (edgeType e = EDataEvent \/ edgeType e = EDataActivityOutput).
Proof.
  unfold buildEdgesWithDataFlow, buildControlFlowEdges. fold S.
  intros He Eq. apply in_app_or in He as [He|He].
  - exfalso.
    assert (C : isControl e = true).
    { apply in_app_or in He as [He|He].
      - clear Eq. revert e He.
        assert (G : forall seg w,
                  (forall n, In n seg -> In n S) ->
                  (forall e, In e (walkEdges w) -> isControl e = true) ->
                  forall e, In e (walkEdges (walk g S w seg)) ->
                            isControl e = true).
        { induction seg as [|n seg IH]; intros w Hin Hw e He; [auto|].
          simpl in He. revert e He. apply IH; [intros; apply Hin; now right|].
          intros e He.
          destruct (visit_cases g S wf_present n w (Hin n (or_introl eq_refl)))
            as [(j & jn & Hj & Hp & Hf)|[(j & Hj & Hp)|Hg]].
          - rewrite (visit_member_new g S wf_members n j w jn
                       (Hin n (or_introl eq_refl)) Hj Hp Hf) in He.
            cbn in He. apply in_app_or in He as [He|He]; [auto|].
            apply in_app_or in He as [He|He].
            + unfold fanOut in He.
              destruct (lastSequentialNode w); [|destruct He].
              now apply in_map_iff in He as (p & <- & _).
            + now apply in_map_iff in He as (p & <- & _).
          - rewrite (visit_member_old g S wf_members n j w
                       (Hin n (or_introl eq_refl)) Hj Hp) in He. auto.
          - destruct (visit_other g S n w Hg) as (es & l' & Ev & Hes & _).
            rewrite Ev in He. cbn in He.
            apply in_app_or in He as [He|He]; [auto|].
            destruct Hes as [->| ->]; [destruct He|].
            apply sequentialEdge_spec in He as [Ht _].
            unfold isControl. now rewrite Ht. }
        apply G; [auto|intros e []].
      - apply endEdge_type in He. unfold isControl. now rewrite He. }
    exact (walk_all_noloop g S wf_members wf_apart wf_present e He C Eq).
  - apply dataFlowEdges_In in He as (node & sources & source & Hn & Hd & Hs & He).
    destruct (dataFlowEdge_type _ _ _ He) as [C L]. split; [exact C|].
    destruct (L Eq) as [H|[H|H]]; auto.
    exfalso.
    assert (Hn' : In node S) by (apply sortByLine_In; exact Hn).
    apply sorted_In in Hn' as [->|[Hn'| ->]]; try discriminate Hd.
    exact (proj1 (shape_id node (step_shape node Hn')) H).
Qed.

Lemma not_parallel_filter (P : WorkflowEdge -> bool) (es : list WorkflowEdge) :
  (forall e, P e = true -> isParallelEdge e = true) ->
  (forall e, In e es -> isParallelEdge e = false) ->
  filter P es = [].
Proof.
  intros HP Hes. apply filter_none. intros e He.
  destruct (P e) eqn:E; [|reflexivity].
  apply HP in E. rewrite (Hes e He) in E. discriminate.
Qed.

Lemma rest_not_parallel (last : option WorkflowNode) (e : WorkflowEdge) :
  In e (endEdge S last ++ dataFlowEdges nodes) -> isParallelEdge e = false.
Proof.
  intros He. apply in_app_or in He as [He|He].
  - apply endEdge_type in He. unfold isParallelEdge. now rewrite He.
  - apply dataFlowEdges_In in He as (node & sources & source & _ & _ & _ & He).
    apply dataFlowEdge_type in He as [C _]. unfold isControl in C.
    unfold isParallelEdge. destruct (edgeType e); try reflexivity; discriminate.
Qed.

(** The edges of one join in the whole graph. *)
Lemma graph_group_edges (j : string) :
  groupOf g S j <> [] ->
  exists pre m post c jn,
    S = pre ++ m :: post /\
    groupOf g pre j = [] /\ inGroup g j m = true /\
    cursorAfter g S pre = Some c /\
    findById S j = Some jn /\ nodeId jn = j /\
    fanOutEdges g S j (buildEdgesWithDataFlow g nodes) =
      fanOut (Some c) (groupOf g S j) /\
    fanInEdges j (buildEdgesWithDataFlow g nodes) =
      fanIn (groupOf g S j) jn.
Proof.
  intros Hne.
  destruct (filter_first _ _ Hne) as (pre & m & post & ES & Hpre & Hm).
  assert (Hmj : mapGet g (nodeId m) = Some j) by now apply inGroup_get.
  destruct (wf_present _ _ Hmj) as [jn Hf].
  assert (InPre : forall n, In n pre -> In n S).
  { intros n Hn. rewrite ES. apply in_or_app. now left. }
  assert (Hc : exists c, cursorAfter g S pre = Some c).
  { destruct sorted_start as [rest ER].
    destruct pre as [|p pre'].
    - exfalso. rewrite ER in ES. simpl in ES. injection ES as <- _.
      discriminate Hmj || (cbn in Hmj;
        destruct (wf_keys _ _ WF _ _ Hmj) as (a & Ha & Hida & _);
        exact (proj1 (shape_id a (step_shape a Ha)) Hida)).
    - rewrite ER in ES. simpl in ES. injection ES as <- _.
      unfold cursorAfter. simpl.
      destruct (lastSequentialNode
                  (walk g S (visit g S (mkWalk [] None []) startNode) pre'))
        eqn:L.
      + now eexists.
      + exfalso. revert L.
        apply (walk_cursor g S wf_members wf_present pre').
        * intros n Hn. apply InPre. now right.
        * discriminate. }
  destruct Hc as [c Hc].
  destruct (group_edges g S wf_members wf_apart wf_present j
              (ex_intro _ _ Hmj) pre post m jn ES Hpre Hmj Hf) as [Eo Ei].
  exists pre, m, post, c, jn.
  split; [exact ES|]. split; [exact Hpre|]. split; [exact Hm|].
  split; [exact Hc|]. split; [exact Hf|].
  split; [exact (proj2 (findById_Some _ _ _ Hf))|].
  unfold buildEdgesWithDataFlow, buildControlFlowEdges. fold S.
  rewrite <- app_assoc. unfold fanOutEdges, fanInEdges in *.
  rewrite !filter_app.
  rewrite Eo, Ei, Hc.
  rewrite <- !filter_app.
  rewrite !not_parallel_filter, !app_nil_r; try now split.
  - intros e He. now apply andb_prop in He.
  - apply rest_not_parallel.
  - intros e He. now apply andb_prop in He.
  - apply rest_not_parallel.
Qed.

(** The edges of one join in the whole graph, written out. *)
Lemma graph_fan_edges (j : string) (n : WorkflowNode) :
  In n nodes -> mapGet g (nodeId n) = Some j ->
  FanOutFanIn g S (buildEdgesWithDataFlow g nodes) j.
Proof.
  intros Hn Hj.
  assert (Hne : groupOf g S j <> []).
  { intros E0.
    assert (X : In n (groupOf g S j)).
    { apply (groupOf_In g). split; [apply sortByLine_In; exact Hn|exact Hj]. }
    rewrite E0 in X. destruct X. }
  destruct (graph_group_edges j Hne)
    as (pre & m & post & c & jn & ES & Hpre & Hm & Hc & Hf & Hid & Eo & Ei).
  assert (InPre : forall x, In x pre -> In x S).
  { intros x Hx. rewrite ES. apply in_or_app. now left. }
  assert (Hs := cursor_source g S wf_members wf_present pre InPre).
  rewrite Hc in Hs. cbn in Hs.
  exists pre, m, post, (nodeId c).
  split; [exact ES|]. split; [exact Hpre|].
  split; [now apply inGroup_get|]. split; [now symmetry|].
  split.
  - transitivity (fanOutEdges g S j (buildEdgesWithDataFlow g nodes));
      [|rewrite Eo; reflexivity].
    unfold parallelEdgesInto, fanOutEdges, isParallelEdge.
    apply filter_ext. intros e. now destruct (edgeType e).
  - transitivity (fanInEdges j (buildEdgesWithDataFlow g nodes)).
    + unfold parallelEdgesInto, fanInEdges, isParallelEdge.
      apply filter_ext. intros e. destruct (edgeType e); try reflexivity.
      cbn. now rewrite orb_false_r, String.eqb_sym.
    + rewrite Ei. unfold fanIn, controlEdge. now rewrite Hid.
Qed.

End Graph.

End AssemblerFacts.

(** ** The graph [parse] returns *)

Module GraphFacts.

Import Js Model Effects Assembler Spec Outcomes.
Import EffectFacts RecognizerFacts ParseFacts CSharpFacts JavaScriptFacts.
Import AssemblerFacts.

Section Parsed.

Variable E : Python.Engine.
Variables (sourceCode filePath : string) (target : option string).
Variable st : Inst.

Let outcome := Python.parse E sourceCode filePath target st.

Lemma parse_returns (w : WorkflowDefinition) :
  workflow (fst outcome) = Some w ->
  outcome = (mkResult true (Some w) None, snd outcome).
Proof.
  unfold outcome, Python.parse, tryCatch.
  destruct (Python.parseBody E sourceCode filePath target st); cbn.
  - now intros [= ->].
  - discriminate.
Qed.

(** The graph of a successful [parse] is assembled from step nodes and a
    group map that are well formed. *)
Lemma parse_graph (w : WorkflowDefinition) :
  workflow (fst outcome) = Some w ->
  exists steps,
    WellFormed steps (parallelGroupMap (snd outcome)) /\
    wNodes w = addStartEndNodes steps /\
    wEdges w = buildEdgesWithDataFlow (parallelGroupMap (snd outcome))
                                      (addStartEndNodes steps).
Proof.
  intros H. apply parse_returns in H.
  apply parse_success in H
    as (scoped & off & steps & st0 & R & M0 & EN & EE & _ & _).
  exists steps. split; [|split; [exact EN|now rewrite EE, EN]].
  apply Inv_wellFormed.
  apply (recognizeSteps_spec E scoped off st0 steps _); [|exact R].
  unfold maps in M0. injection M0 as _ Mt Mg.
  split; [constructor| |]; intros k v Hk.
  - rewrite Mt in Hk. discriminate.
  - rewrite Mg in Hk. discriminate.
Qed.

End Parsed.

(** C1 (amended). In every graph a [parse] call of the Python, of the
    C# or of the JavaScript extractor returns, with its nodes in line
    order (sorted by line number, a node without one counting as line 0,
    nodes of one line number in the order of the node list), for every
    join [j] to which the group map resolves a node of the graph: with
    the tasks of [j] (the nodes the map resolves to [j]) taken in line
    order, the edges of kind parallel into the tasks are exactly one
    edge per task, all from one source [c], and the edges of kind
    parallel into [j] are exactly one edge from each task.  The source
    is found by going back from the first task of [j] in line order: end
    nodes and tasks of a group that has an earlier task are passed over;
    the first other node is the source when it has no entry in the group
    map, and when it is the first task of another group the source is
    the join of that group. *)
Theorem fan_out_fan_in (w : WorkflowDefinition) (g : JsMap) (j : string)
    (n : WorkflowNode) (sorted : list WorkflowNode) :
  Returned w g ->
  In n (wNodes w) -> mapGet g (nodeId n) = Some j ->
  StableSorted (wNodes w) sorted ->
  FanOutFanIn g sorted (wEdges w) j.
Proof.
  intros [E sourceCode filePath target st H ->
         |E sourceCode filePath target st H ->
         |E language sourceCode filePath target st H ->] Hn Hj HS;
    apply stable_sorted_unique in HS; subst sorted.
  - destruct (parse_graph E sourceCode filePath target st w H)
      as (steps & WF & EN & EE).
    rewrite EN in Hn |- *. rewrite EE.
    exact (graph_fan_edges steps _ WF j n Hn Hj).
  - destruct (cs_parse_graph E sourceCode filePath target st w H)
      as (steps & WF & EN & EE).
    rewrite EN in Hn |- *. rewrite EE.
    exact (graph_fan_edges steps _ WF j n Hn Hj).
  - destruct (js_parse_graph E language sourceCode filePath target st w H)
      as (steps & WF & EN & EE).
    rewrite EN in Hn |- *. rewrite EE.
    exact (graph_fan_edges steps _ WF j n Hn Hj).
Qed.

Lemma fan_out_fan_in_witness :
  (exists w,
     workflow (fst (Python.parse Samples.plainBetweenEngine
                                 Samples.plainBetweenSource "a.py" None newInst))
       = Some w /\
     FanOutFanIn
       (parallelGroupMap
          (snd (Python.parse Samples.plainBetweenEngine
                             Samples.plainBetweenSource "a.py" None newInst)))
       (sortByLine (wNodes w)) (wEdges w) "parallel-join-1") /\
  (exists w,
     workflow (fst (CSharpParser.parse Samples.csharpGroupEngine
                                       Samples.csharpGroupSource "a.cs" None
                                       newInst))
       = Some w /\
     FanOutFanIn
       (parallelGroupMap
          (snd (CSharpParser.parse Samples.csharpGroupEngine
                                   Samples.csharpGroupSource "a.cs" None
                                   newInst)))
       (sortByLine (wNodes w)) (wEdges w) "parallel-join-0") /\
  (exists w,
     workflow (fst (JavaScriptParser.parse Samples.javascriptGroupEngine
                      typescript Samples.javascriptGroupSource "a.ts" None
                      newInst))
       = Some w /\
     FanOutFanIn
       (parallelGroupMap
          (snd (JavaScriptParser.parse Samples.javascriptGroupEngine
                  typescript Samples.javascriptGroupSource "a.ts" None
                  newInst)))
       (sortByLine (wNodes w)) (wEdges w) "parallel-join-0").
Proof.
  split; [|split].
  - eexists. split; [vm_compute; reflexivity|].
    match goal with
    | |- FanOutFanIn _ (sortByLine (wNodes ?w)) _ _ =>
        apply (fan_out_fan_in w _ _ (nth 3 (wNodes w) startNode))
    end; [| | |apply sortByLine_stable].
    + apply (returned_python _ _ Samples.plainBetweenEngine
               Samples.plainBetweenSource "a.py" None newInst);
        [vm_compute; reflexivity|reflexivity].
    + right. right. right. left. reflexivity.
    + vm_compute. reflexivity.
  - eexists. split; [vm_compute; reflexivity|].
    match goal with
    | |- FanOutFanIn _ (sortByLine (wNodes ?w)) _ _ =>
        apply (fan_out_fan_in w _ _ (nth 1 (wNodes w) startNode))
    end; [| | |apply sortByLine_stable].
    + apply (returned_csharp _ _ Samples.csharpGroupEngine
               Samples.csharpGroupSource "a.cs" None newInst);
        [vm_compute; reflexivity|reflexivity].
    + right. left. reflexivity.
    + vm_compute. reflexivity.
  - eexists. split; [vm_compute; reflexivity|].
    match goal with
    | |- FanOutFanIn _ (sortByLine (wNodes ?w)) _ _ =>
        apply (fan_out_fan_in w _ _ (nth 1 (wNodes w) startNode))
    end; [| | |apply sortByLine_stable].
    + apply (returned_javascript _ _ Samples.javascriptGroupEngine
               typescript Samples.javascriptGroupSource "a.ts" None newInst);
        [vm_compute; reflexivity|reflexivity].
    + right. left. reflexivity.
    + vm_compute. reflexivity.
Defined.

(** In the graph of the sample with a plain step between the tasks of
    two groups, the one fan-out edge of the second join comes from the
    plain step [activity-3], while the node right before its group in
    sorted order is [activity-1], a task of the first group, and the
    join the walk last passed is [parallel-join-0]. *)
Lemma fan_out_source_plain_step :
  exists w,
    workflow (fst (Python.parse Samples.plainBetweenEngine
                                Samples.plainBetweenSource "a.py" None newInst))
      = Some w /\
    let g := parallelGroupMap
               (snd (Python.parse Samples.plainBetweenEngine
                                  Samples.plainBetweenSource "a.py" None
                                  newInst)) in
    map nodeId (sortByLine (wNodes w)) =
      ["start"; "end"; "activity-0"; "activity-3"; "activity-1";
       "activity-2"; "parallel-join-0"; "parallel-join-1"] /\
    map nodeId (tasksOf g (sortByLine (wNodes w)) "parallel-join-1") =
      ["activity-2"] /\
    parallelEdgesInto ["activity-2"] (wEdges w) =
      [mkEdge "activity-3-activity-2" "activity-3" "activity-2" EParallel
              None None None] /\
    option_map nodeId
               (precedingNode g (sortByLine (wNodes w)) "parallel-join-1") =
      Some "activity-1".
Proof.
  eexists. split; [vm_compute; reflexivity|].
  vm_compute. repeat split.
Qed.

(** C1 (as stated): in the graph of the two-group sample the one fan-out
    edge of the second join comes from the first join, while the node
    right before its group in sorted order is the task of the first
    group. *)
Lemma fan_out_source_not_preceding :
  exists w,
    workflow (fst (Python.parse Samples.twoGroupsEngine Samples.twoGroupsSource
                                "a.py" None newInst)) = Some w /\
    let g := parallelGroupMap
               (snd (Python.parse Samples.twoGroupsEngine
                                  Samples.twoGroupsSource "a.py" None newInst)) in
    map nodeId (sortByLine (wNodes w)) =
      ["start"; "end"; "activity-0"; "activity-1";
       "parallel-join-0"; "parallel-join-1"] /\
    map nodeId (groupOf g (sortByLine (wNodes w)) "parallel-join-1") =
      ["activity-1"] /\
    map edgeSource
        (fanOutEdges g (sortByLine (wNodes w)) "parallel-join-1" (wEdges w)) =
      ["parallel-join-0"] /\
    option_map nodeId
               (precedingNode g (sortByLine (wNodes w)) "parallel-join-1") =
      Some "activity-0" /\
    parallelEdgesInto ["activity-1"] (wEdges w) =
      [mkEdge "parallel-join-0-activity-1" "parallel-join-0" "activity-1"
              EParallel None None None].
Proof.
  eexists. split; [vm_compute; reflexivity|].
  vm_compute. repeat split.
Qed.

(** C2. When a [parse] call of the Python, of the C# or of the
    JavaScript extractor succeeds and the graph it returns has no node
    besides start and end nodes (no step was recognised), the graph has
    exactly two nodes, the start node with identifier [start] and the
    end node with identifier [end], and exactly one edge, the control
    edge [start-end] of kind default whose source is [start] and whose
    target is [end]. *)
Theorem zero_steps_graph (w : WorkflowDefinition) (g : JsMap) :
  Returned w g ->
  (forall n, In n (wNodes w) -> nodeType n = TStart \/ nodeType n = TEnd) ->
  wNodes w = [mkNode "start" TStart "Start" "Start" None None None None;
              mkNode "end" TEnd "End" "End" None None None None] /\
  wEdges w = [mkEdge "start-end" "start" "end" EDefault None None None].
Proof.
  intros R Hz.
  assert (G : exists steps,
            WellFormed steps g /\ wNodes w = addStartEndNodes steps /\
            wEdges w = buildEdgesWithDataFlow g (addStartEndNodes steps)).
  { destruct R as [E sourceCode filePath target st H ->
                  |E sourceCode filePath target st H ->
                  |E language sourceCode filePath target st H ->].
    - exact (parse_graph E sourceCode filePath target st w H).
    - exact (cs_parse_graph E sourceCode filePath target st w H).
    - exact (js_parse_graph E language sourceCode filePath target st w H). }
  destruct G as (steps & WF & EN & EE).
  assert (steps = []).
  { destruct steps as [|s steps]; [reflexivity|]. exfalso.
    assert (Hs : isSynthetic s = false).
    { apply shape_not_synthetic.
      exact (proj1 (Forall_forall _ _) (wf_shape _ _ WF) s
                   (or_introl eq_refl)). }
    assert (Hn : In s (wNodes w)).
    { rewrite EN. right. now left. }
    unfold isSynthetic in Hs.
    destruct (Hz s Hn) as [T|T]; rewrite T in Hs; discriminate Hs. }
  subst steps. split; [exact EN|]. rewrite EE. reflexivity.
Qed.

Lemma zero_steps_graph_witness :
  (exists w,
     workflow (fst (Python.parse Samples.quiet "x = 1" "a.py" None newInst))
       = Some w /\
     wNodes w = [mkNode "start" TStart "Start" "Start" None None None None;
                 mkNode "end" TEnd "End" "End" None None None None] /\
     wEdges w = [mkEdge "start-end" "start" "end" EDefault None None None]) /\
  (exists w,
     workflow (fst (CSharpParser.parse Samples.csharpQuiet "int x = 1;" "a.cs"
                                       None newInst))
       = Some w /\
     wNodes w = [mkNode "start" TStart "Start" "Start" None None None None;
                 mkNode "end" TEnd "End" "End" None None None None] /\
     wEdges w = [mkEdge "start-end" "start" "end" EDefault None None None]) /\
  (exists w,
     workflow (fst (JavaScriptParser.parse Samples.javascriptQuiet javascript
                      "let x = 1;" "a.js" None newInst))
       = Some w /\
     wNodes w = [mkNode "start" TStart "Start" "Start" None None None None;
                 mkNode "end" TEnd "End" "End" None None None None] /\
     wEdges w = [mkEdge "start-end" "start" "end" EDefault None None None]).
Proof.
  split; [|split].
  - eexists. split; [vm_compute; reflexivity|].
    match goal with
    | |- wNodes ?w = _ /\ _ =>
        apply (zero_steps_graph w
                 (parallelGroupMap
                    (snd (Python.parse Samples.quiet "x = 1" "a.py" None
                                       newInst))))
    end.
    + apply (returned_python _ _ Samples.quiet "x = 1" "a.py" None newInst);
        [vm_compute; reflexivity|reflexivity].
    + intros n [<-|[<-|[]]]; [now left|now right].
  - eexists. split; [vm_compute; reflexivity|].
    match goal with
    | |- wNodes ?w = _ /\ _ =>
        apply (zero_steps_graph w
                 (parallelGroupMap
                    (snd (CSharpParser.parse Samples.csharpQuiet "int x = 1;"
                                             "a.cs" None newInst))))
    end.
    + apply (returned_csharp _ _ Samples.csharpQuiet "int x = 1;" "a.cs"
               None newInst);
        [vm_compute; reflexivity|reflexivity].
    + intros n [<-|[<-|[]]]; [now left|now right].
  - eexists. split; [vm_compute; reflexivity|].
    match goal with
    | |- wNodes ?w = _ /\ _ =>
        apply (zero_steps_graph w
                 (parallelGroupMap
                    (snd (JavaScriptParser.parse Samples.javascriptQuiet
                            javascript "let x = 1;" "a.js" None newInst))))
    end.
    + apply (returned_javascript _ _ Samples.javascriptQuiet javascript
               "let x = 1;" "a.js" None newInst);
        [vm_compute; reflexivity|reflexivity].
    + intros n [<-|[<-|[]]]; [now left|now right].
Defined.

(** In every graph [parse] returns, an edge from a node to itself is
    never a control edge (kind default or parallel): it is a data edge
    of kind event-data or of kind step-output. *)
Theorem self_loops_are_data_edges (E : Python.Engine)
    (sourceCode filePath : string) (target : option string) (st : Inst)
    (w : WorkflowDefinition) (e : WorkflowEdge) :
  workflow (fst (Python.parse E sourceCode filePath target st)) = Some w ->
  In e (wEdges w) ->
  edgeSource e = edgeTarget e ->
  isControl e = false /\
  (edgeType e = EDataEvent \/ edgeType e = EDataActivityOutput).
Proof.
  intros H He Eq.
  destruct (parse_graph E sourceCode filePath target st w H)
    as (steps & WF & EN & EE).
  rewrite EE in He. exact (graph_loops steps _ WF e He Eq).
Qed.

(** C10: the awaited loop puts the output variable of a step in the
    producer map before it classifies the input of that step, so the
    step of [x = yield ctx.call_activity(f, input=x)] is taken for the
    producer of its own input: the graph has a step-output data edge
    from [activity-0] to [activity-0], a self-loop that is not an
    event-data edge. *)
Lemma step_output_self_loop :
  exists w e,
    workflow (fst (Python.parse Samples.selfEngine Samples.selfSource
                                "a.py" None newInst)) = Some w /\
    In e (wEdges w) /\
    edgeSource e = "activity-0" /\ edgeTarget e = "activity-0" /\
    edgeType e = EDataActivityOutput /\ edgeType e <> EDataEvent.
Proof.
  eexists. eexists. split; [vm_compute; reflexivity|].
  split; [right; right; left; reflexivity|].
  repeat split. discriminate.
Qed.

Lemma self_loops_are_data_edges_witness :
  exists w e,
    workflow (fst (Python.parse Samples.selfEngine Samples.selfSource
                                "a.py" None newInst)) = Some w /\
    In e (wEdges w) /\ edgeSource e = edgeTarget e /\
    isControl e = false /\
    (edgeType e = EDataEvent \/ edgeType e = EDataActivityOutput).
Proof.
  eexists. exists (mkEdge "df-activity-0-activity-0-x" "activity-0"
                          "activity-0" EDataActivityOutput (Some "x")
                          (Some activity_output) (Some "x")).
  split; [vm_compute; reflexivity|].
  split; [right; right; left; reflexivity|].
  split; [reflexivity|].
  eapply (self_loops_are_data_edges Samples.selfEngine Samples.selfSource
                                    "a.py" None newInst).
  - vm_compute. reflexivity.
  - right. right. left. reflexivity.
  - reflexivity.
Defined.

End GraphFacts.

(** ** A bracket that is never closed *)

Module UnclosedFacts.

Import Js Scanner Model Effects.
Import ScannerFacts RecognizerFacts.

Lemma open_in_range (t : list ascii) (i : nat) :
  isOpenBracket (at_ t i) = true -> i < List.length t.
Proof.
  unfold at_. intros H. apply nth_error_Some.
  destruct (nth_error t i); [discriminate|]. discriminate H.
Qed.

Lemma substring_to_end (t : list ascii) (i : nat) :
  i <= List.length t -> substring t i (List.length t) = skipn i t.
Proof.
  intros H. unfold substring.
  rewrite Nat.min_id, (Nat.min_l i) by exact H.
  rewrite Nat.min_l, Nat.max_r by exact H.
  apply firstn_all2. rewrite length_skipn. lia.
Qed.

(** C5 (amended). When the text runs out before the depth is back to
    zero, [findMatchingBracket] returns the index of the last character
    of the text, which is an index of the text; [extractInputExpression]
    then returns the rest of the text from the bracket on, trimmed; and
    the step is not skipped: the task loop and, for a step that is not a
    duplicate, the awaited loop push a node whose input is that rest. *)
Theorem unclosed_bracket_takes_rest (sourceCode : string)
    (matchIndex inputStart : nat) :
  inputStartOf sourceCode matchIndex = Some inputStart ->
  isOpenBracket (at_ (chars sourceCode) inputStart) = true ->
  0 < depth (scanEnd sourceCode inputStart) ->
  let rest := trim (str (skipn inputStart (chars sourceCode))) in
  findMatchingBracket sourceCode inputStart =
    (Z.of_nat (List.length (chars sourceCode)) - 1)%Z /\
  (0 <= findMatchingBracket sourceCode inputStart
     < Z.of_nat (List.length (chars sourceCode)))%Z /\
  extractInputExpression sourceCode matchIndex = Some rest /\
  (forall lineOffset nodes index m st,
     Python.tmIndex m = matchIndex ->
     exists node st',
       Python.taskStep sourceCode lineOffset (nodes, index) m st =
         Normal (nodes ++ [node], S index) st' /\
       nodeInput node = Some rest) /\
  (forall lineOffset nodes index m st,
     Python.amIndex m = matchIndex ->
     existsb (fun n => String.eqb (nodeName n) (Python.amActivity m) &&
                       Python.lineIs n (getLineNumber sourceCode matchIndex
                                        + lineOffset)) nodes = false ->
     exists node st',
       Python.awaitedStep sourceCode lineOffset (nodes, index) m st =
         Normal (nodes ++ [node], S index) st' /\
       nodeInput node = Some rest).
Proof.
  intros Hstart Hopen Hdepth rest.
  assert (Hin := open_in_range _ _ Hopen).
  assert (Hpos := scanEnd_exhausted sourceCode inputStart Hin Hdepth).
  assert (Hfind : findMatchingBracket sourceCode inputStart =
                  (Z.of_nat (List.length (chars sourceCode)) - 1)%Z).
  { unfold findMatchingBracket. now rewrite Hpos. }
  assert (Hexpr : extractInputExpression sourceCode matchIndex = Some rest).
  { unfold extractInputExpression. rewrite Hstart, Hopen, Hfind.
    replace (Z.to_nat (Z.of_nat (List.length (chars sourceCode)) - 1 + 1))
      with (List.length (chars sourceCode)) by lia.
    rewrite substring_to_end by lia. reflexivity. }
  split; [exact Hfind|]. split; [rewrite Hfind; lia|].
  split; [exact Hexpr|]. split.
  - intros lineOffset nodes index m st Hm.
    unfold Python.taskStep. rewrite Hm, Hexpr.
    cbv [bind Python.analyze setParallelTask assign this ret].
    eexists. eexists. split; reflexivity.
  - intros lineOffset nodes index m st Hm Hnew.
    unfold Python.awaitedStep. rewrite Hm, Hexpr, Hnew.
    destruct (registerOutput_run (orUndefined (Python.amOutput m))
                ("activity-" ++ ofNat index) st) as (st1 & R & _).
    cbv [bind Python.analyze this ret]. rewrite R.
    eexists. eexists. split; reflexivity.
Qed.

Lemma unclosed_bracket_takes_rest_witness :
  let rest := trim (str (skipn 33 (chars Samples.unclosedSource))) in
  findMatchingBracket Samples.unclosedSource 33 =
    (Z.of_nat (List.length (chars Samples.unclosedSource)) - 1)%Z /\
  extractInputExpression Samples.unclosedSource 0 = Some rest.
Proof.
  destruct (unclosed_bracket_takes_rest Samples.unclosedSource 0 33) as (F & _ & X & _).
  - vm_compute. reflexivity.
  - vm_compute. reflexivity.
  - vm_compute. lia.
  - split; [exact F|exact X].
Defined.

(** C5 (as stated): on [yield ctx.call_activity(f, input={"a": [1, 2] the
    brace at 33 is never closed; the scanner returns 43, the index of the
    last character of the 44, the input expression is the rest of the
    text, and the awaited loop pushes the step with that input. *)
Lemma unclosed_bracket_not_skipped :
  List.length (chars Samples.unclosedSource) = 44 /\
  inputStartOf Samples.unclosedSource 0 = Some 33 /\
  depth (scanEnd Samples.unclosedSource 33) = 1 /\
  findMatchingBracket Samples.unclosedSource 33 = 43%Z /\
  extractInputExpression Samples.unclosedSource 0 =
    Some ("{" ++ Samples.dq ++ "a" ++ Samples.dq ++ ": [1, 2")%string /\
  exists node st',
    Python.awaitedStep Samples.unclosedSource 0 ([], 0)
      (Python.mkAwaitedMatch 0 None "f") newInst = Normal ([node], 1) st' /\
    nodeId node = "activity-0" /\
    nodeInput node =
      Some ("{" ++ Samples.dq ++ "a" ++ Samples.dq ++ ": [1, 2")%string.
Proof.
  repeat (split; [vm_compute; reflexivity|]).
  eexists. eexists. split; [vm_compute; reflexivity|].
  split; vm_compute; reflexivity.
Qed.

End UnclosedFacts.

(** ** The boundary of [parse] *)

Module BoundaryFacts.

Import Js Model Effects Outcomes.

Open Scope js_scope.

(** *** An exception passes through [bind] and through a loop *)

Lemma bind_returned {A B : Type} (c : M A) (k : A -> M B) (st st1 : Inst)
    (a : A) :
  c st = Normal a st1 -> bind c k st = k a st1.
Proof. intros H. unfold bind. now rewrite H. Qed.

Lemma bind_thrown {A B : Type} (c : M A) (k : A -> M B) (st : Inst)
    (e : Thrown) :
  throws c st e -> throws (bind c k) st e.
Proof. intros [st' H]. exists st'. unfold bind. now rewrite H. Qed.

Lemma bind_thrown_r {A B : Type} (c : M A) (k : A -> M B) (st st1 : Inst)
    (a : A) (e : Thrown) :
  c st = Normal a st1 -> throws (k a) st1 e -> throws (bind c k) st e.
Proof.
  intros H [st' T]. exists st'. now rewrite (bind_returned _ _ _ _ _ H).
Qed.

Lemma forEach_thrown {A B : Type} (body : B -> A -> M B)
    (done rest : list A) (x : A) (acc acc1 : B) (st st1 : Inst) (e : Thrown) :
  forEach done acc body st = Normal acc1 st1 ->
  throws (body acc1 x) st1 e ->
  throws (forEach (done ++ x :: rest) acc body) st e.
Proof.
  revert acc st. induction done as [|y done IH]; intros acc st H Hx.
  - injection H as <- <-. cbn. now apply bind_thrown.
  - cbn in H |- *. unfold throws. unfold bind in H |- *.
    destruct (body acc y st) as [acc' st'|e' st']; [|discriminate].
    exact (IH acc' st' H Hx).
Qed.

(** What [tryCatch] makes of an exception. *)
Lemma tryCatch_thrown (body : M WorkflowDefinition) (st : Inst) (e : Thrown) :
  throws body st e ->
  fst (tryCatch body st) =
    mkResult false None (Some [mkParseError (messageOf e)]).
Proof.
  intros [st' H]. unfold tryCatch. rewrite H. now destruct e.
Qed.

Ltac returned H := rewrite (bind_returned _ _ _ _ _ H); cbv beta iota.

(** *** The steps of the Python extractor *)

Lemma python_steps_thrown (E : Python.Engine) (scoped : string) (off : nat)
    (st : Inst) (e : Thrown) :
  OfPython.ThrownInSteps E scoped off st e ->
  throws (Python.recognizeSteps E scoped off) st e.
Proof.
  unfold Python.recognizeSteps.
  intros [H|a s1 H1 H|a b s1 s2 H1 H2 H|a b c s1 s2 s3 H1 H2 H3 H
         |a b c d s1 s2 s3 s4 H1 H2 H3 H4 H
         |a b c d f s1 s2 s3 s4 s5 H1 H2 H3 H4 H5 H
         |a b c d f g s1 s2 s3 s4 s5 s6 H1 H2 H3 H4 H5 H6 H].
  - now apply bind_thrown.
  - unfold throws. returned H1. now apply bind_thrown.
  - unfold throws. returned H1. returned H2. now apply bind_thrown.
  - unfold throws. returned H1. returned H2. returned H3.
    now apply bind_thrown.
  - unfold throws. returned H1. returned H2. returned H3. returned H4.
    now apply bind_thrown.
  - unfold throws. returned H1. returned H2. returned H3. returned H4.
    returned H5. now apply bind_thrown.
  - unfold throws. returned H1. returned H2. returned H3. returned H4.
    returned H5. returned H6. now apply bind_thrown.
Qed.

Lemma python_thrown_inside (E : Python.Engine) (sourceCode filePath : string)
    (target : option string) (st : Inst) (e : Thrown) :
  OfPython.ThrownInside E sourceCode filePath target st e ->
  throws (Python.parseBody E sourceCode filePath target) st e.
Proof.
  unfold Python.parseBody.
  intros [s0 H0 H|s0 s1 all H0 H1 H
         |s0 s1 s2 all scoped off name H0 H1 H2 H
         |s0 s1 s2 s3 all scoped off name md0 H0 H1 H2 H3 H
         |s0 s1 s2 s3 s4 all scoped off name md0 H0 H1 H2 H3 H4 H
         |s0 s1 s2 s3 s4 s5 all scoped off name md0 md1
            H0 H1 H2 H3 H4 H5 H
         |s0 s1 s2 s3 s4 s5 s6 all scoped off name md0 md1 steps
            H0 H1 H2 H3 H4 H5 H6 H];
    unfold throws; returned H0.
  - now apply bind_thrown.
  - returned H1. now apply bind_thrown.
  - returned H1. returned H2. now apply bind_thrown.
  - returned H1. returned H2. returned H3. now apply bind_thrown.
  - returned H1. returned H2. returned H3. returned H4.
    now apply bind_thrown.
  - returned H1. returned H2. returned H3. returned H4. returned H5.
    apply bind_thrown. now apply python_steps_thrown.
  - returned H1. returned H2. returned H3. returned H4. returned H5.
    returned H6. now apply bind_thrown.
Qed.

(** *** The steps of the C# extractor *)

Lemma csharp_steps_thrown (E : CSharpParser.Engine) (scoped : string)
    (off : nat) (st : Inst) (e : Thrown) :
  OfCSharp.ThrownInSteps E scoped off st e ->
  throws (CSharpParser.recognizeSteps E scoped off) st e.
Proof.
  unfold CSharpParser.recognizeSteps.
  intros [H|a s1 H1 H|a b s1 s2 H1 H2 H|a b c s1 s2 s3 H1 H2 H3 H
         |a b c d s1 s2 s3 s4 H1 H2 H3 H4 H
         |a b c d f s1 s2 s3 s4 s5 H1 H2 H3 H4 H5 H].
  - now apply bind_thrown.
  - unfold throws. returned H1. now apply bind_thrown.
  - unfold throws. returned H1. returned H2. now apply bind_thrown.
  - unfold throws. returned H1. returned H2. returned H3.
    now apply bind_thrown.
  - unfold throws. returned H1. returned H2. returned H3. returned H4.
    now apply bind_thrown.
  - unfold throws. returned H1. returned H2. returned H3. returned H4.
    returned H5. now apply bind_thrown.
Qed.

Lemma csharp_thrown_inside (E : CSharpParser.Engine)
    (sourceCode filePath : string) (target : option string) (st : Inst)
    (e : Thrown) :
  OfCSharp.ThrownInside E sourceCode filePath target st e ->
  throws (CSharpParser.parseBody E sourceCode filePath target) st e.
Proof.
  unfold CSharpParser.parseBody.
  intros [s0 H0 H|s0 s1 all H0 H1 H
         |s0 s1 s2 all scoped off name H0 H1 H2 H
         |s0 s1 s2 s3 all scoped off name md0 H0 H1 H2 H3 H
         |s0 s1 s2 s3 s4 all scoped off name md0 H0 H1 H2 H3 H4 H
         |s0 s1 s2 s3 s4 s5 all scoped off name md0 md1
            H0 H1 H2 H3 H4 H5 H
         |s0 s1 s2 s3 s4 s5 s6 all scoped off name md0 md1 steps
            H0 H1 H2 H3 H4 H5 H6 H];
    unfold throws; returned H0.
  - now apply bind_thrown.
  - returned H1. now apply bind_thrown.
  - returned H1. returned H2. now apply bind_thrown.
  - returned H1. returned H2. returned H3. now apply bind_thrown.
  - returned H1. returned H2. returned H3. returned H4.
    now apply bind_thrown.
  - returned H1. returned H2. returned H3. returned H4. returned H5.
    apply bind_thrown. now apply csharp_steps_thrown.
  - returned H1. returned H2. returned H3. returned H4. returned H5.
    returned H6. now apply bind_thrown.
Qed.

(** *** The steps of the JavaScript extractor *)

Lemma javascript_steps_thrown (E : JavaScriptParser.Engine) (scoped : string)
    (off : nat) (st : Inst) (e : Thrown) :
  OfJavaScript.ThrownInSteps E scoped off st e ->
  throws (JavaScriptParser.recognizeSteps E scoped off) st e.
Proof.
  unfold JavaScriptParser.recognizeSteps.
  intros [H|a s1 H1 H|a b s1 s2 H1 H2 H|a b c s1 s2 s3 H1 H2 H3 H
         |a b c d s1 s2 s3 s4 H1 H2 H3 H4 H
         |a b c d f s1 s2 s3 s4 s5 H1 H2 H3 H4 H5 H].
  - now apply bind_thrown.
  - unfold throws. returned H1. now apply bind_thrown.
  - unfold throws. returned H1. returned H2. now apply bind_thrown.
  - unfold throws. returned H1. returned H2. returned H3.
    now apply bind_thrown.
  - unfold throws. returned H1. returned H2. returned H3. returned H4.
    now apply bind_thrown.
  - unfold throws. returned H1. returned H2. returned H3. returned H4.
    returned H5. now apply bind_thrown.
Qed.

Lemma javascript_thrown_inside (E : JavaScriptParser.Engine)
    (sourceCode filePath : string) (target : option string) (st : Inst)
    (e : Thrown) (language : SupportedLanguage) :
  OfJavaScript.ThrownInside E sourceCode filePath target st e ->
  throws (JavaScriptParser.parseBody E language sourceCode filePath target)
         st e.
Proof.
  unfold JavaScriptParser.parseBody.
  intros [s0 H0 H|s0 s1 all H0 H1 H
         |s0 s1 s2 all scoped off name H0 H1 H2 H
         |s0 s1 s2 s3 all scoped off name md0 H0 H1 H2 H3 H
         |s0 s1 s2 s3 s4 all scoped off name md0 H0 H1 H2 H3 H4 H
         |s0 s1 s2 s3 s4 s5 all scoped off name md0 md1
            H0 H1 H2 H3 H4 H5 H
         |s0 s1 s2 s3 s4 s5 s6 all scoped off name md0 md1 steps
            H0 H1 H2 H3 H4 H5 H6 H];
    unfold throws; returned H0.
  - now apply bind_thrown.
  - returned H1. now apply bind_thrown.
  - returned H1. returned H2. now apply bind_thrown.
  - returned H1. returned H2. returned H3. now apply bind_thrown.
  - returned H1. returned H2. returned H3. returned H4.
    now apply bind_thrown.
  - returned H1. returned H2. returned H3. returned H4. returned H5.
    apply bind_thrown. now apply javascript_steps_thrown.
  - returned H1. returned H2. returned H3. returned H4. returned H5.
    returned H6. now apply bind_thrown.
Qed.

(** *** An exception thrown by a call of the runtime *)

Lemma sim_refl {A : Type} (e : Thrown) (c : M A) : sim e c c.
Proof. intros st. now left. Qed.

Lemma sim_bind {A B : Type} (e : Thrown) (c c' : M A) (k k' : A -> M B) :
  sim e c c' -> (forall a, sim e (k a) (k' a)) ->
  sim e (bind c k) (bind c' k').
Proof.
  intros Hc Hk st. destruct (Hc st) as [Eq|T].
  - destruct (c st) as [a st1|e1 st1] eqn:C.
    + destruct (Hk a st1) as [Eq2|[s2 T2]].
      * left. unfold bind. rewrite Eq, C. exact Eq2.
      * right. exists s2. unfold bind. rewrite Eq. exact T2.
    + left. unfold bind. now rewrite Eq, C.
  - right. now apply bind_thrown.
Qed.

Lemma sim_call {A : Type} (e : Thrown) (r r' : Thrown + A) :
  either e r r' -> sim e (call r) (call r').
Proof.
  intros [-> | ->] st; [now left|right]. now exists st.
Qed.

Lemma sim_forEach {A B : Type} (e : Thrown) (items : list A)
    (body body' : B -> A -> M B) :
  (forall acc x, sim e (body acc x) (body' acc x)) ->
  forall acc, sim e (forEach items acc body) (forEach items acc body').
Proof.
  intros Hb. induction items as [|x rest IH]; intros acc; cbn.
  - apply sim_refl.
  - apply sim_bind; [apply Hb|exact IH].
Qed.

(** What [tryCatch] makes of two bodies one of which does what the other
    does, or throws [e]. *)
Lemma sim_tryCatch (e : Thrown) (body body' : M WorkflowDefinition)
    (st : Inst) :
  sim e body body' ->
  tryCatch body' st = tryCatch body st \/
  fst (tryCatch body' st) =
    mkResult false None (Some [mkParseError (messageOf e)]).
Proof.
  intros H. destruct (H st) as [Eq|T].
  - left. unfold tryCatch. now rewrite Eq.
  - right. now apply tryCatch_thrown.
Qed.

Ltac simulate field :=
  repeat first
    [ apply sim_refl
    | apply sim_call; field
    | apply sim_forEach; intros
    | apply sim_bind; [|intros]
    | match goal with
      | |- sim _ (match ?x with _ => _ end) _ => destruct x
      | |- sim _ (if ?b then _ else _) _ => destruct b
      end ].

Section PythonCalls.

Variables (e : Thrown) (E E' : Python.Engine).
Hypothesis I : OfPython.Injected e E E'.

Ltac field :=
  first
    [ apply (OfPython.inj_workflowPattern _ _ _ I)
    | apply (OfPython.inj_activityDecorator _ _ _ I)
    | apply (OfPython.inj_decoratedName _ _ _ I)
    | apply (OfPython.inj_workflowFunction _ _ _ I)
    | apply (OfPython.inj_docstring _ _ _ I)
    | apply (OfPython.inj_typeHint _ _ _ I)
    | apply (OfPython.inj_dataclass _ _ _ I)
    | apply (OfPython.inj_dataclassFields _ _ _ I)
    | apply (OfPython.inj_signatureParam _ _ _ I)
    | apply (OfPython.inj_dataclassFirst _ _ _ I)
    | apply (OfPython.inj_indentedFields _ _ _ I)
    | apply (OfPython.inj_returnPattern _ _ _ I)
    | apply (OfPython.inj_keyPattern _ _ _ I)
    | apply (OfPython.inj_argPattern _ _ _ I)
    | apply (OfPython.inj_taskPattern _ _ _ I)
    | apply (OfPython.inj_awaitedPattern _ _ _ I)
    | apply (OfPython.inj_stringActivityPattern _ _ _ I)
    | apply (OfPython.inj_childPattern _ _ _ I)
    | apply (OfPython.inj_timerPattern _ _ _ I)
    | apply (OfPython.inj_eventPattern _ _ _ I)
    | apply (OfPython.inj_ifPattern _ _ _ I)
    | apply (OfPython.inj_inputPattern _ _ _ I)
    | apply (OfPython.inj_varPattern _ _ _ I)
    | apply (OfPython.inj_retryPattern _ _ _ I)
    | apply (OfPython.inj_whenAllPattern _ _ _ I)
    | apply (OfPython.inj_taskTokens _ _ _ I) ].

Lemma python_sim_workflowRanges (sourceCode : string)
    (l : list (string * nat)) :
  sim e (Python.workflowRanges E sourceCode l)
        (Python.workflowRanges E' sourceCode l).
Proof.
  induction l as [|[name startIndex] rest IH]; cbn.
  - apply sim_refl.
  - destruct rest as [|[n2 nextStart] rest'].
    + simulate field.
    + apply sim_bind; [exact IH|]. intros r. apply sim_refl.
Qed.

Lemma python_sim_extractWorkflowName (sourceCode filePath : string) :
  sim e (Python.extractWorkflowName E sourceCode filePath)
        (Python.extractWorkflowName E' sourceCode filePath).
Proof. unfold Python.extractWorkflowName. simulate field. Qed.

Lemma python_sim_selectScope (sourceCode filePath : string)
    (target : option string) (all : list Python.WorkflowRange) :
  sim e (Python.selectScope E sourceCode filePath target all)
        (Python.selectScope E' sourceCode filePath target all).
Proof.
  unfold Python.selectScope.
  destruct (truthy target && (0 <? List.length all)).
  - destruct (find _ all); [apply sim_refl|].
    apply sim_bind; [apply python_sim_extractWorkflowName|].
    intros n. apply sim_refl.
  - destruct all; [|apply sim_refl].
    apply sim_bind; [apply python_sim_extractWorkflowName|].
    intros n. apply sim_refl.
Qed.

Lemma python_sim_extractMetadata (sourceCode : string) :
  sim e (Python.extractMetadata E sourceCode)
        (Python.extractMetadata E' sourceCode).
Proof. unfold Python.extractMetadata. simulate field. Qed.

Lemma python_sim_extractWorkflowInputInfo (sourceCode : string) :
  sim e (Python.extractWorkflowInputInfo E sourceCode)
        (Python.extractWorkflowInputInfo E' sourceCode).
Proof.
  unfold Python.extractWorkflowInputInfo.
  apply sim_bind; [simulate field|]. intros f.
  apply sim_bind; [apply sim_refl|]. intros _.
  apply sim_bind; [apply python_sim_extractMetadata|]. intros md.
  simulate field.
Qed.

Lemma python_sim_extractReturnInfo (sourceCode : string)
    (md : option WorkflowMetadata) :
  sim e (Python.extractReturnInfo E sourceCode md)
        (Python.extractReturnInfo E' sourceCode md).
Proof.
  unfold Python.extractReturnInfo, Python.parseReturnExpression.
  simulate field.
Qed.

Lemma python_sim_recognizeSteps (sourceCode : string) (lineOffset : nat) :
  sim e (Python.recognizeSteps E sourceCode lineOffset)
        (Python.recognizeSteps E' sourceCode lineOffset).
Proof.
  unfold Python.recognizeSteps, Python.parseActivities,
    Python.parseChildWorkflows, Python.parseTimers,
    Python.parseExternalEvents, Python.parseDecisions,
    Python.parseRetryPolicies, Python.parseParallelBlocks.
  repeat (apply sim_bind; [|intros]); try apply sim_refl;
    try (apply sim_call; field); try (apply sim_forEach; intros acc m).
  - destruct acc as [nodes index].
    unfold Python.decisionStep, Python.analyzeConditionSources.
    simulate field.
  - destruct acc as [nodes index]. unfold Python.joinStep.
    simulate field.
Qed.

Lemma python_sim_parseBody (sourceCode filePath : string)
    (target : option string) :
  sim e (Python.parseBody E sourceCode filePath target)
        (Python.parseBody E' sourceCode filePath target).
Proof.
  unfold Python.parseBody, Python.findAllWorkflows.
  apply sim_bind; [apply sim_refl|]. intros _.
  apply sim_bind.
  { apply sim_bind; [apply sim_call; field|].
    intros l. apply python_sim_workflowRanges. }
  intros all.
  apply sim_bind; [apply python_sim_selectScope|].
  intros [[scoped off] name].
  apply sim_bind; [apply python_sim_extractMetadata|]. intros md0.
  apply sim_bind; [apply python_sim_extractWorkflowInputInfo|]. intros _.
  apply sim_bind; [apply python_sim_extractReturnInfo|]. intros md1.
  apply sim_bind; [apply python_sim_recognizeSteps|]. intros steps.
  apply sim_bind; [apply sim_refl|]. intros df.
  apply sim_bind; [apply sim_refl|]. intros s.
  unfold Python.generateId.
  rewrite (OfPython.inj_now _ _ _ I), (OfPython.inj_random _ _ _ I).
  apply sim_refl.
Qed.

End PythonCalls.

Section CSharpCalls.

Variables (e : Thrown) (E E' : CSharpParser.Engine).
Hypothesis I : OfCSharp.Injected e E E'.

Ltac field :=
  first
    [ apply (OfCSharp.inj_classPattern _ _ _ I)
    | apply (OfCSharp.inj_className _ _ _ I)
    | apply (OfCSharp.inj_genericPattern _ _ _ I)
    | apply (OfCSharp.inj_summaryPattern _ _ _ I)
    | apply (OfCSharp.inj_recordPattern _ _ _ I)
    | apply (OfCSharp.inj_recordProps _ _ _ I)
    | apply (OfCSharp.inj_methodPattern _ _ _ I)
    | apply (OfCSharp.inj_returnPattern _ _ _ I)
    | apply (OfCSharp.inj_propPattern _ _ _ I)
    | apply (OfCSharp.inj_taskPattern _ _ _ I)
    | apply (OfCSharp.inj_awaitedPattern _ _ _ I)
    | apply (OfCSharp.inj_subOrchPattern _ _ _ I)
    | apply (OfCSharp.inj_timerPattern _ _ _ I)
    | apply (OfCSharp.inj_eventPattern _ _ _ I)
    | apply (OfCSharp.inj_ifPattern _ _ _ I)
    | apply (OfCSharp.inj_inputPattern _ _ _ I)
    | apply (OfCSharp.inj_varPattern _ _ _ I)
    | apply (OfCSharp.inj_parallelPattern _ _ _ I)
    | apply (OfCSharp.inj_taskTokens _ _ _ I) ].

Lemma csharp_sim_extractWorkflowName (sourceCode filePath : string) :
  sim e (CSharpParser.extractWorkflowName E sourceCode filePath)
        (CSharpParser.extractWorkflowName E' sourceCode filePath).
Proof. unfold CSharpParser.extractWorkflowName. simulate field. Qed.

Lemma csharp_sim_selectScope (sourceCode filePath : string)
    (target : option string) (all : list Python.WorkflowRange) :
  sim e (CSharpParser.selectScope E sourceCode filePath target all)
        (CSharpParser.selectScope E' sourceCode filePath target all).
Proof.
  unfold CSharpParser.selectScope.
  destruct (truthy target && (0 <? List.length all)).
  - destruct (find _ all); [apply sim_refl|].
    apply sim_bind; [apply csharp_sim_extractWorkflowName|].
    intros n. apply sim_refl.
  - destruct all; [|apply sim_refl].
    apply sim_bind; [apply csharp_sim_extractWorkflowName|].
    intros n. apply sim_refl.
Qed.

Lemma csharp_sim_extractMetadata (fullSource scopedSource : string) :
  sim e (CSharpParser.extractMetadata E fullSource scopedSource)
        (CSharpParser.extractMetadata E' fullSource scopedSource).
Proof. unfold CSharpParser.extractMetadata. simulate field. Qed.

Lemma csharp_sim_extractReturnInfo (sourceCode : string)
    (md : option WorkflowMetadata) :
  sim e (CSharp.extractReturnInfo (CSharpParser.returns E) sourceCode md)
        (CSharp.extractReturnInfo (CSharpParser.returns E') sourceCode md).
Proof.
  unfold CSharp.extractReturnInfo, CSharp.parseReturnExpression.
  simulate field.
Qed.

Lemma csharp_sim_recognizeSteps (sourceCode : string) (lineOffset : nat) :
  sim e (CSharpParser.recognizeSteps E sourceCode lineOffset)
        (CSharpParser.recognizeSteps E' sourceCode lineOffset).
Proof.
  unfold CSharpParser.recognizeSteps, CSharpParser.parseActivities,
    CSharpParser.parseSubOrchestrations, CSharpParser.parseTimers,
    CSharpParser.parseExternalEvents, CSharpParser.parseDecisions,
    CSharpParser.parseParallelBlocks.
  repeat (apply sim_bind; [|intros]); try apply sim_refl;
    try (apply sim_call; field); try (apply sim_forEach; intros acc m).
  - destruct acc as [nodes index].
    unfold CSharpParser.decisionStep, CSharpParser.analyzeConditionSources.
    simulate field.
  - destruct acc as [nodes index]. unfold CSharpParser.joinStep.
    simulate field.
Qed.

Lemma csharp_sim_parseBody (sourceCode filePath : string)
    (target : option string) :
  sim e (CSharpParser.parseBody E sourceCode filePath target)
        (CSharpParser.parseBody E' sourceCode filePath target).
Proof.
  unfold CSharpParser.parseBody, CSharpParser.findAllWorkflows.
  apply sim_bind; [apply sim_refl|]. intros _.
  apply sim_bind.
  { apply sim_bind; [apply sim_call; field|]. intros l. apply sim_refl. }
  intros all.
  apply sim_bind; [apply csharp_sim_selectScope|].
  intros [[scoped off] name].
  apply sim_bind; [apply csharp_sim_extractMetadata|]. intros md0.
  apply sim_bind.
  { unfold CSharpParser.extractWorkflowInputInfo. simulate field. }
  intros _.
  apply sim_bind; [apply csharp_sim_extractReturnInfo|]. intros md1.
  apply sim_bind; [apply csharp_sim_recognizeSteps|]. intros steps.
  apply sim_bind; [apply sim_refl|]. intros df.
  apply sim_bind; [apply sim_refl|]. intros s.
  unfold CSharpParser.generateId.
  rewrite (OfCSharp.inj_now _ _ _ I), (OfCSharp.inj_random _ _ _ I).
  apply sim_refl.
Qed.

End CSharpCalls.

Section JavaScriptCalls.

Variables (e : Thrown) (E E' : JavaScriptParser.Engine).
Hypothesis I : OfJavaScript.Injected e E E'.

Ltac field :=
  first
    [ apply (OfJavaScript.inj_generatorPattern _ _ _ I)
    | apply (OfJavaScript.inj_arrowPattern _ _ _ I)
    | apply (OfJavaScript.inj_exportedName _ _ _ I)
    | apply (OfJavaScript.inj_registeredName _ _ _ I)
    | apply (OfJavaScript.inj_generatorName _ _ _ I)
    | apply (OfJavaScript.inj_arrowName _ _ _ I)
    | apply (OfJavaScript.inj_jsdocPattern _ _ _ I)
    | apply (OfJavaScript.inj_typePattern _ _ _ I)
    | apply (OfJavaScript.inj_interfacePattern _ _ _ I)
    | apply (OfJavaScript.inj_propPattern _ _ _ I)
    | apply (OfJavaScript.inj_generatorParam _ _ _ I)
    | apply (OfJavaScript.inj_arrowParam _ _ _ I)
    | apply (OfJavaScript.inj_functionParam _ _ _ I)
    | apply (OfJavaScript.inj_returnPattern _ _ _ I)
    | apply (OfJavaScript.inj_keyPattern _ _ _ I)
    | apply (OfJavaScript.inj_taskPattern _ _ _ I)
    | apply (OfJavaScript.inj_awaitedPattern _ _ _ I)
    | apply (OfJavaScript.inj_varActivityPattern _ _ _ I)
    | apply (OfJavaScript.inj_subOrchPattern _ _ _ I)
    | apply (OfJavaScript.inj_timerPattern _ _ _ I)
    | apply (OfJavaScript.inj_eventPattern _ _ _ I)
    | apply (OfJavaScript.inj_ifPattern _ _ _ I)
    | apply (OfJavaScript.inj_inputPattern _ _ _ I)
    | apply (OfJavaScript.inj_varPattern _ _ _ I)
    | apply (OfJavaScript.inj_parallelPattern _ _ _ I)
    | apply (OfJavaScript.inj_taskTokens _ _ _ I) ].

Lemma javascript_sim_extractWorkflowName (sourceCode filePath : string) :
  sim e (JavaScriptParser.extractWorkflowName E sourceCode filePath)
        (JavaScriptParser.extractWorkflowName E' sourceCode filePath).
Proof. unfold JavaScriptParser.extractWorkflowName. simulate field. Qed.

Lemma javascript_sim_selectScope (sourceCode filePath : string)
    (target : option string) (all : list Python.WorkflowRange) :
  sim e (JavaScriptParser.selectScope E sourceCode filePath target all)
        (JavaScriptParser.selectScope E' sourceCode filePath target all).
Proof.
  unfold JavaScriptParser.selectScope.
  destruct (truthy target && (0 <? List.length all)).
  - destruct (find _ all); [apply sim_refl|].
    apply sim_bind; [apply javascript_sim_extractWorkflowName|].
    intros n. apply sim_refl.
  - destruct all; [|apply sim_refl].
    apply sim_bind; [apply javascript_sim_extractWorkflowName|].
    intros n. apply sim_refl.
Qed.

Lemma javascript_sim_extractMetadata (fullSource scopedSource : string) :
  sim e (JavaScriptParser.extractMetadata E fullSource scopedSource)
        (JavaScriptParser.extractMetadata E' fullSource scopedSource).
Proof. unfold JavaScriptParser.extractMetadata. simulate field. Qed.

Lemma javascript_sim_extractReturnInfo (sourceCode : string)
    (md : option WorkflowMetadata) :
  sim e (JavaScript.extractReturnInfo (JavaScriptParser.returns E)
                                      sourceCode md)
        (JavaScript.extractReturnInfo (JavaScriptParser.returns E')
                                      sourceCode md).
Proof.
  unfold JavaScript.extractReturnInfo, JavaScript.parseReturnExpression.
  simulate field.
Qed.

Lemma javascript_sim_recognizeSteps (sourceCode : string) (lineOffset : nat) :
  sim e (JavaScriptParser.recognizeSteps E sourceCode lineOffset)
        (JavaScriptParser.recognizeSteps E' sourceCode lineOffset).
Proof.
  unfold JavaScriptParser.recognizeSteps, JavaScriptParser.parseActivities,
    JavaScriptParser.parseSubOrchestrations, JavaScriptParser.parseTimers,
    JavaScriptParser.parseExternalEvents, JavaScriptParser.parseDecisions,
    JavaScriptParser.parseParallelBlocks.
  repeat (apply sim_bind; [|intros]); try apply sim_refl;
    try (apply sim_call; field); try (apply sim_forEach; intros acc m).
  - destruct acc as [nodes index].
    unfold JavaScriptParser.decisionStep,
      JavaScriptParser.analyzeConditionSources.
    simulate field.
  - destruct acc as [nodes index]. unfold JavaScriptParser.joinStep.
    simulate field.
Qed.

Lemma javascript_sim_parseBody (language : SupportedLanguage)
    (sourceCode filePath : string) (target : option string) :
  sim e (JavaScriptParser.parseBody E language sourceCode filePath target)
        (JavaScriptParser.parseBody E' language sourceCode filePath target).
Proof.
  unfold JavaScriptParser.parseBody, JavaScriptParser.findAllWorkflows.
  apply sim_bind; [apply sim_refl|]. intros _.
  apply sim_bind.
  { apply sim_bind; [apply sim_call; field|]. intros l.
    apply sim_bind; [apply sim_call; field|]. intros l2. apply sim_refl. }
  intros all.
  apply sim_bind; [apply javascript_sim_selectScope|].
  intros [[scoped off] name].
  apply sim_bind; [apply javascript_sim_extractMetadata|]. intros md0.
  apply sim_bind.
  { unfold JavaScriptParser.extractWorkflowInputInfo. simulate field. }
  intros _.
  apply sim_bind; [apply javascript_sim_extractReturnInfo|]. intros md1.
  apply sim_bind; [apply javascript_sim_recognizeSteps|]. intros steps.
  apply sim_bind; [apply sim_refl|]. intros df.
  apply sim_bind; [apply sim_refl|]. intros s.
  unfold JavaScriptParser.generateId.
  rewrite (OfJavaScript.inj_now _ _ _ I), (OfJavaScript.inj_random _ _ _ I).
  apply sim_refl.
Qed.

End JavaScriptCalls.

(** C6. Whenever an exception [e] is thrown inside a [parse] call of the
    Python, of the C# or of the JavaScript extractor (by any step of its
    [try] block, run after the steps before it have returned, whatever
    they have built; or by calls of the runtime, anywhere in the
    extraction, whose throwing [e] changes the outcome of the call) the
    call returns a result with [success] false, no workflow, and one
    error whose message is the message of [e] (for a thrown value that
    is not an [Error] and has no message, the text
    [Unknown parsing error]). *)
Theorem parse_failure_is_structured (r : ParseResult) (e : Thrown) :
  ThrownIn r e ->
  r = mkResult false None (Some [mkParseError (messageOf e)]).
Proof.
  intros [E sourceCode filePath target st H ->
         |E E' sourceCode filePath target st I D ->
         |E sourceCode filePath target st H ->
         |E E' sourceCode filePath target st I D ->
         |E language sourceCode filePath target st H ->
         |E E' language sourceCode filePath target st I D ->].
  - apply tryCatch_thrown. now apply python_thrown_inside.
  - destruct (sim_tryCatch e _ _ st
                (python_sim_parseBody e E E' I sourceCode filePath target))
      as [Eq|F]; [contradiction|exact F].
  - apply tryCatch_thrown. now apply csharp_thrown_inside.
  - destruct (sim_tryCatch e _ _ st
                (csharp_sim_parseBody e E E' I sourceCode filePath target))
      as [Eq|F]; [contradiction|exact F].
  - apply tryCatch_thrown. now apply javascript_thrown_inside.
  - destruct (sim_tryCatch e _ _ st
                (javascript_sim_parseBody e E E' I language sourceCode
                                          filePath target))
      as [Eq|F]; [contradiction|exact F].
Qed.

Lemma parse_failure_is_structured_witness :
  fst (Python.parse Samples.failingEngine Samples.selfSource "a.py" None
                    newInst) =
    mkResult false None
      (Some [mkParseError "Maximum call stack size exceeded"]) /\
  fst (CSharpParser.parse Samples.csharpFailingEngine
                          Samples.csharpGroupSource "a.cs" None newInst) =
    mkResult false None (Some [mkParseError "Unknown parsing error"]) /\
  fst (JavaScriptParser.parse Samples.javascriptFailingEngine typescript
                              Samples.javascriptGroupSource "a.ts" None
                              newInst) =
    mkResult false None (Some [mkParseError "Invalid regular expression"]).
Proof.
  split; [|split].
  - apply (parse_failure_is_structured _
             (ThrownError "Maximum call stack size exceeded")).
    apply (thrown_python_step _ _ Samples.failingEngine Samples.selfSource
             "a.py" None newInst); [|reflexivity].
    eapply OfPython.in_recognizers;
      [reflexivity|vm_compute; reflexivity|vm_compute; reflexivity
      |vm_compute; reflexivity|vm_compute; reflexivity
      |vm_compute; reflexivity|].
    eapply OfPython.in_parseParallelBlocks;
      [vm_compute; reflexivity|vm_compute; reflexivity
      |vm_compute; reflexivity|vm_compute; reflexivity
      |vm_compute; reflexivity|vm_compute; reflexivity|].
    eexists. vm_compute. reflexivity.
  - apply (parse_failure_is_structured _ ThrownOther).
    apply (thrown_csharp_call _ _ Samples.csharpGroupEngine
             Samples.csharpFailingEngine Samples.csharpGroupSource
             "a.cs" None newInst); [| |reflexivity].
    + split; try reflexivity; intros; try (left; reflexivity).
      right. reflexivity.
    + vm_compute. discriminate.
  - apply (parse_failure_is_structured _
             (ThrownError "Invalid regular expression")).
    apply (thrown_javascript_step _ _ Samples.javascriptFailingEngine
             typescript Samples.javascriptGroupSource "a.ts" None newInst);
      [|reflexivity].
    eapply OfJavaScript.in_recognizers;
      [reflexivity|vm_compute; reflexivity|vm_compute; reflexivity
      |vm_compute; reflexivity|vm_compute; reflexivity
      |vm_compute; reflexivity|].
    eapply OfJavaScript.in_parseParallelBlocks;
      [vm_compute; reflexivity|vm_compute; reflexivity
      |vm_compute; reflexivity|vm_compute; reflexivity
      |vm_compute; reflexivity|].
    eexists. vm_compute. reflexivity.
Defined.

(** The same two calls, the other way round: in the Python call the
    exception takes the place of the result of the join pattern, and in
    the C# call it is thrown inside the loop over the joins, after the
    two tasks were recognised. *)
Lemma thrown_in_samples :
  ThrownIn (fst (Python.parse Samples.failingEngine Samples.selfSource
                              "a.py" None newInst))
           (ThrownError "Maximum call stack size exceeded") /\
  ThrownIn (fst (CSharpParser.parse Samples.csharpFailingEngine
                                    Samples.csharpGroupSource "a.cs" None
                                    newInst))
           ThrownOther.
Proof.
  split.
  - apply (thrown_python_call _ _ Samples.selfEngine Samples.failingEngine
             Samples.selfSource "a.py" None newInst); [| |reflexivity].
    + split; try reflexivity; intros; try (left; reflexivity).
      right. reflexivity.
    + vm_compute. discriminate.
  - apply (thrown_csharp_step _ _ Samples.csharpFailingEngine
             Samples.csharpGroupSource "a.cs" None newInst); [|reflexivity].
    eapply OfCSharp.in_recognizers;
      [reflexivity|vm_compute; reflexivity|vm_compute; reflexivity
      |vm_compute; reflexivity|vm_compute; reflexivity
      |vm_compute; reflexivity|].
    eapply OfCSharp.in_parseParallelBlocks;
      [vm_compute; reflexivity|vm_compute; reflexivity
      |vm_compute; reflexivity|vm_compute; reflexivity
      |vm_compute; reflexivity|].
    unfold CSharpParser.parseParallelBlocks.
    eapply bind_thrown_r; [vm_compute; reflexivity|].
    apply bind_thrown.
    apply (forEach_thrown _ [] [] _ _ _ _ _ _ eq_refl).
    eexists. vm_compute. reflexivity.
Qed.

(** C8: one instance parses [firstSource] and then [secondSource].  The
    first call leaves [order] in [workflowInputParam]; the second call,
    whose text has no signature, reports [order] as the name of the
    input parameter, where a new instance reports [input]. *)
Lemma second_parse_sees_first :
  let first := Python.parse Samples.signatureEngine Samples.firstSource
                            "a.py" None newInst in
  let second := Python.parse Samples.signatureEngine Samples.secondSource
                             "b.py" None (snd first) in
  let alone := Python.parse Samples.signatureEngine Samples.secondSource
                            "b.py" None newInst in
  workflowInputParam (snd first) = "order" /\
  option_map dfParameterName
    (match workflow (fst second) with
     | Some w => wDataFlow w
     | None => None
     end) = Some "order" /\
  option_map dfParameterName
    (match workflow (fst alone) with
     | Some w => wDataFlow w
     | None => None
     end) = Some "input" /\
  fst second <> fst alone.
Proof.
  repeat split; try (vm_compute; reflexivity).
  vm_compute. discriminate.
Qed.

End BoundaryFacts.

(** ** The registry *)

Module RegistryFacts.

Import Js Model Registry.

(** C7: a path ending in [.ts], [.js], [.mjs] or [.mts] is claimed by
    two registered extractors, the two instances of the JavaScript one;
    [getParser] takes the first, whose language is [javascript] also for
    a [.ts] file, for which [getLanguage] answers [typescript]. *)
Lemma two_extractors_claim_one_extension :
  claimants "a.cs" = [CSharpWorkflowParser] /\
  claimants "a.py" = [PythonWorkflowParser] /\
  claimants "a.js" =
    [JavaScriptWorkflowParser javascript; JavaScriptWorkflowParser typescript] /\
  claimants "a.ts" =
    [JavaScriptWorkflowParser javascript; JavaScriptWorkflowParser typescript] /\
  claimants "a.mjs" =
    [JavaScriptWorkflowParser javascript; JavaScriptWorkflowParser typescript] /\
  claimants "a.mts" =
    [JavaScriptWorkflowParser javascript; JavaScriptWorkflowParser typescript] /\
  option_map languageOf (getParser "a.ts") = Some javascript /\
  getLanguage "a.ts" = Some typescript.
Proof. repeat split; vm_compute; reflexivity. Qed.

End RegistryFacts.

(** ** The return statements *)

Module ReturnFacts.

Import Js Model Effects.

(** C9: on a text with one return statement the Python and the
    JavaScript extractor record the field names and the return
    expression; the C# extractor records the field names and leaves
    [returnExpression] undefined. *)
Lemma csharp_leaves_return_expression :
  (exists md st,
     Python.extractReturnInfo Samples.pythonEngine Samples.pythonReturn
       (Some emptyMetadata) newInst = Normal (Some md) st /\
     mOutputFields md = Some ["total"] /\
     mReturnExpression md =
       Some ("{" ++ Samples.dq ++ "total" ++ Samples.dq ++ ": total}")%string) /\
  (exists md st,
     JavaScript.extractReturnInfo Samples.javascriptEngine
       Samples.javascriptReturn (Some emptyMetadata) newInst =
       Normal (Some md) st /\
     mOutputFields md = Some ["total"] /\
     mReturnExpression md = Some "{ total: total }") /\
  (exists md st,
     CSharp.extractReturnInfo Samples.csharpEngine Samples.csharpReturn
       (Some emptyMetadata) newInst = Normal (Some md) st /\
     mOutputFields md = Some ["Total"] /\
     mReturnExpression md = None).
Proof.
  repeat split; eexists; eexists;
    (split; [vm_compute; reflexivity|split; vm_compute; reflexivity]).
Qed.

End ReturnFacts.

(** ** The producer of a variable *)

Module ProducerFacts.

Import Js Model Effects Assembler Classifier Spec.
Import EffectFacts RecognizerFacts.

Open Scope js_scope.

Lemma chars_app (a b : string) : chars (a ++ b) = chars a ++ chars b.
Proof.
  unfold chars. induction a as [|c a IH]; simpl; [reflexivity|].
  now rewrite IH.
Qed.

Lemma chars_inj (a b : string) : chars a = chars b -> a = b.
Proof.
  unfold chars. intros H.
  rewrite <- (string_of_list_ascii_of_string a),
          <- (string_of_list_ascii_of_string b).
  now rewrite H.
Qed.

Lemma starts_app (p t : list ascii) :
  starts p t = true -> exists rest, t = p ++ rest.
Proof.
  revert t. induction p as [|a p IH]; intros t H.
  - now exists t.
  - destruct t as [|b t]; [discriminate|]. simpl in H.
    apply andb_prop in H as [H1 H2]. apply Ascii.eqb_eq in H1. subst b.
    destruct (IH t H2) as [r ->]. now exists r.
Qed.

(** An expression rooted at [k] is [k] or [k] followed by a character
    that is not a word character. *)
Lemma rooted_head (e k : string) :
  rooted e k = true ->
  chars e = chars k \/
  exists c rest, chars e = chars k ++ c :: rest /\ isWord c = false.
Proof.
  unfold rooted, startsWith. intros H.
  apply orb_prop in H as [H|H]; [apply orb_prop in H as [H|H]|].
  - apply String.eqb_eq in H. subst. now left.
  - rewrite chars_app in H. apply starts_app in H as [r Hr]. right.
    exists "."%char, r. rewrite Hr, <- app_assoc. now split.
  - rewrite chars_app in H. apply starts_app in H as [r Hr]. right.
    exists "["%char, r. rewrite Hr, <- app_assoc. now split.
Qed.

Lemma head_unique (K V T : list ascii) :
  forallb isWord K = true -> forallb isWord V = true ->
  (T = K \/ exists c r, T = K ++ c :: r /\ isWord c = false) ->
  (T = V \/ exists c r, T = V ++ c :: r /\ isWord c = false) ->
  K = V.
Proof.
  revert V T. induction K as [|k K IH]; intros [|v V] T HK HV H1 H2.
  - reflexivity.
  - exfalso. simpl in HV. apply andb_prop in HV as [Hv _].
    destruct H1 as [->|(c & r & -> & Hc)];
      destruct H2 as [H2|(c' & r' & H2 & _)]; try discriminate;
      simpl in H2; injection H2 as -> _; congruence.
  - exfalso. simpl in HK. apply andb_prop in HK as [Hk _].
    destruct H2 as [->|(c & r & -> & Hc)];
      destruct H1 as [H1|(c' & r' & H1 & _)]; try discriminate;
      simpl in H1; injection H1 as -> _; congruence.
  - simpl in HK, HV. apply andb_prop in HK as [_ HK].
    apply andb_prop in HV as [_ HV].
    destruct T as [|t T].
    { destruct H1 as [H1|(c & r & H1 & _)]; discriminate H1. }
    assert (t = k /\ (T = K \/ exists c r, T = K ++ c :: r /\ isWord c = false))
      as [-> H1'].
    { destruct H1 as [H1|(c & r & H1 & Hc)]; simpl in H1; injection H1 as -> ->.
      - split; [reflexivity|now left].
      - split; [reflexivity|right; now exists c, r]. }
    assert (k = v /\ (T = V \/ exists c r, T = V ++ c :: r /\ isWord c = false))
      as [-> H2'].
    { destruct H2 as [H2|(c & r & H2 & Hc)]; simpl in H2; injection H2 as -> ->.
      - split; [reflexivity|now left].
      - split; [reflexivity|right; now exists c, r]. }
    f_equal. exact (IH V T HK HV H1' H2').
Qed.

Lemma rooted_unique (e k v : string) :
  forallb isWord (chars k) = true -> forallb isWord (chars v) = true ->
  rooted e k = true -> rooted e v = true -> k = v.
Proof.
  intros Hk Hv Rk Rv. apply chars_inj.
  exact (head_unique _ _ (chars e) Hk Hv (rooted_head _ _ Rk) (rooted_head _ _ Rv)).
Qed.

(** The loop over the entries finds the entry of the variable. *)
Lemma producerOf_word (m : JsMap) (e v id : string) :
  wordKeys m -> forallb isWord (chars v) = true ->
  rooted e v = true -> mapGet m v = Some id ->
  producerOf m e = Some (v, id).
Proof.
  intros Hm Hv Rv. induction Hm as [|[k i] m Hk Hm IH]; simpl; [discriminate|].
  cbn [fst] in Hk.
  destruct (rooted e k) eqn:Rk.
  - rewrite (rooted_unique e k v Hk Hv Rk Rv), String.eqb_refl.
    now intros [= ->].
  - destruct (String.eqb k v) eqn:Ekv; [|exact IH].
    apply String.eqb_eq in Ekv. subst k. congruence.
Qed.

Lemma identifier_word (v : string) :
  isIdentifier v = true -> forallb isWord (chars v) = true.
Proof. unfold isIdentifier. intros H. now apply andb_prop in H. Qed.

Lemma identifier_head (v : string) :
  isIdentifier v = true ->
  exists c r, chars v = c :: r /\ isWord c = true.
Proof.
  unfold isIdentifier. intros H. apply andb_prop in H as [H1 H2].
  destruct v as [|c r]; [discriminate H1|].
  exists c, (chars r). split; [reflexivity|].
  unfold chars in H2. simpl in H2. now apply andb_prop in H2.
Qed.

Lemma classify_producer (param : string) (m : JsMap) (e v id : string)
    (tp : option string) :
  wordKeys m -> isIdentifier v = true ->
  rooted e v = true -> rooted e param = false -> mapGet m v = Some id ->
  classifyExpression param m e tp = mkSource activity_output e (Some id) tp.
Proof.
  intros Hm Hv Rv Rp G. unfold classifyExpression. rewrite Rp.
  now rewrite (producerOf_word m e v id Hm (identifier_word v Hv) Rv G).
Qed.

Lemma analyze_producer (param : string) (m : JsMap) (e v id : string) :
  wordKeys m -> isIdentifier v = true ->
  rooted e v = true -> rooted e param = false -> mapGet m v = Some id ->
  analyzeDataSource param m (Some e) =
    [mkSource activity_output e (Some id) None].
Proof.
  intros Hm Hv Rv Rp G.
  destruct (identifier_head v Hv) as (c & r & Ev & Hc).
  assert (He : exists t, chars e = c :: t).
  { destruct (rooted_head e v Rv) as [H|(c' & r' & H & _)]; rewrite H, Ev.
    - now exists r.
    - now exists (r ++ c' :: r'). }
  destruct He as [t He].
  unfold analyzeDataSource.
  assert (T : truthy (Some e) = true).
  { simpl. destruct e; [discriminate He|reflexivity]. }
  rewrite T. cbn [negb].
  assert (B : startsWith e "{" = false).
  { unfold startsWith. rewrite He. change (chars "{") with ["{"%char].
    cbn [starts]. destruct (Ascii.eqb "{" c) eqn:Ec; [|reflexivity].
    apply Ascii.eqb_eq in Ec. subst c. discriminate Hc. }
  rewrite B. cbn [andb].
  now rewrite (classify_producer param m e v id None Hm Hv Rv Rp G).
Qed.

Lemma lastBinder_snoc (nodes : list WorkflowNode) (c : WorkflowNode)
    (v : string) :
  lastBinder (nodes ++ [c]) v =
  if binds v c then Some (nodeId c) else lastBinder nodes v.
Proof.
  unfold lastBinder. rewrite rev_app_distr. simpl.
  destruct (binds v c); reflexivity.
Qed.

Lemma snoc_split {A : Type} (nodes pre post : list A) (c x : A) :
  nodes ++ [x] = pre ++ c :: post ->
  (post = [] /\ pre = nodes /\ c = x) \/
  exists post', post = post' ++ [x] /\ nodes = pre ++ c :: post'.
Proof.
  intros H. destruct post as [|y post'] using rev_ind.
  - left. apply (app_inj_tail nodes pre x c) in H as [-> ->]. now repeat split.
  - right. exists post'.
    change (nodes ++ [x] = pre ++ (c :: post') ++ [y]) in H.
    rewrite app_assoc in H. apply app_inj_tail in H as [-> ->]. now split.
Qed.

Lemma wordKeys_mapSet (m : JsMap) (k v : string) :
  wordKeys m -> forallb isWord (chars k) = true -> wordKeys (mapSet m k v).
Proof.
  intros Hm Hk. induction Hm as [|[k' v'] m H Hm IH]; simpl.
  - constructor; [exact Hk|constructor].
  - destruct (String.eqb k' k); constructor; auto.
Qed.

Lemma binds_output (v : string) (c : WorkflowNode) :
  binds v c = true -> nodeOutput c = Some v.
Proof.
  unfold binds. intros H. apply andb_prop in H as [_ H].
  destruct (nodeOutput c) as [o|]; [|discriminate].
  apply String.eqb_eq in H. now subst.
Qed.

(** Pushing a node whose sources were computed in the state reached
    after its own variable, if any, was put in the map. *)
Lemma Produced_push (param : string) (nodes : list WorkflowNode)
    (st st1 : Inst) (c : WorkflowNode) :
  Produced param nodes st ->
  workflowInputParam st1 = param ->
  wordKeys (outputVariableMap st1) ->
  (forall v, isIdentifier v = true ->
     mapGet (outputVariableMap st1) v =
     if binds v c then Some (nodeId c) else mapGet (outputVariableMap st) v) ->
  nodeDataSources c =
    Some (analyzeDataSource param (outputVariableMap st1) (nodeInput c)) ->
  Produced param (nodes ++ [c]) st1.
Proof.
  intros HP Hw Hk Hg Hd. split; [exact Hw|exact Hk| |].
  - intros v id Hv. rewrite lastBinder_snoc, (Hg v Hv).
    destruct (binds v c); [auto|]. apply (pr_last _ _ _ HP v id Hv).
  - intros pre c' post Hs.
    apply snoc_split in Hs as [(-> & -> & ->)|(post' & -> & ->)].
    + intros v e id He Hv Rv Rp Ho Hl.
      rewrite Hd, He. f_equal.
      apply (analyze_producer param _ e v id Hk Hv Rv Rp).
      rewrite (Hg v Hv).
      destruct (binds v c) eqn:B.
      * apply binds_output in B. contradiction.
      * exact (pr_last _ _ _ HP v id Hv Hl).
    + exact (pr_nodes _ _ _ HP pre c' post' eq_refl).
Qed.

Section Activities.

Variables (sourceCode : string) (lineOffset : nat) (param : string).

Let LoopInv (acc : list WorkflowNode * nat) (st : Inst) : Prop :=
  Produced param (fst acc) st.

Lemma taskStep_produced (acc : list WorkflowNode * nat) (m : Python.TaskMatch) :
  triple (LoopInv acc) (Python.taskStep sourceCode lineOffset acc m) LoopInv.
Proof.
  destruct acc as [nodes index]. intros st r st' HI H.
  unfold Python.taskStep in H.
  cbv [bind setParallelTask assign Python.analyze this ret] in H.
  injection H as <- <-. unfold LoopInv in *. cbn [fst] in *.
  apply (Produced_push param nodes st); cbn.
  - exact HI.
  - exact (pr_param _ _ _ HI).
  - exact (pr_keys _ _ _ HI).
  - intros v _. reflexivity.
  - now rewrite (pr_param _ _ _ HI).
Qed.

Lemma registered_get (o : option string) (id : string) (st st1 : Inst)
    (c : WorkflowNode) :
  outputVariableMap st1 =
    (if truthy (orUndefined o) then
       match orUndefined o with
       | Some v => mapSet (outputVariableMap st) v id
       | None => outputVariableMap st
       end
     else outputVariableMap st) ->
  flagged c = false -> nodeOutput c = orUndefined o -> nodeId c = id ->
  forall v,
    mapGet (outputVariableMap st1) v =
    if binds v c then Some (nodeId c) else mapGet (outputVariableMap st) v.
Proof.
  intros Eo Hf Ho Hi v. unfold binds. rewrite Eo, Hf, Ho, Hi. cbn [negb andb].
  unfold orUndefined. destruct (truthy o) eqn:T.
  - rewrite T. destruct o as [x|]; [|discriminate T].
    apply mapGet_mapSet.
  - reflexivity.
Qed.

Lemma registered_keys (o : option string) (id : string) (st st1 : Inst) :
  outputVariableMap st1 =
    (if truthy (orUndefined o) then
       match orUndefined o with
       | Some v => mapSet (outputVariableMap st) v id
       | None => outputVariableMap st
       end
     else outputVariableMap st) ->
  match o with
  | Some v => forallb isWord (chars v) = true
  | None => True
  end ->
  wordKeys (outputVariableMap st) -> wordKeys (outputVariableMap st1).
Proof.
  intros Eo Hw Hk. rewrite Eo. unfold orUndefined.
  destruct (truthy o) eqn:T; [|exact Hk].
  rewrite T. destruct o as [x|]; [|exact Hk].
  now apply wordKeys_mapSet.
Qed.

Lemma awaitedStep_produced (acc : list WorkflowNode * nat)
    (m : Python.AwaitedMatch) :
  wordOutput m ->
  triple (LoopInv acc) (Python.awaitedStep sourceCode lineOffset acc m) LoopInv.
Proof.
  intros Hm. destruct acc as [nodes index]. intros st r st' HI H.
  unfold Python.awaitedStep in H.
  destruct (existsb _ nodes) in H.
  - injection H as <- <-. exact HI.
  - unfold bind in H.
    destruct (registerOutput_run (orUndefined (Python.amOutput m))
                ("activity-" ++ ofNat index) st) as (st1 & E1 & Ew & _ & _ & Eo).
    rewrite E1 in H.
    cbv [Python.analyze bind this ret] in H. injection H as <- <-.
    unfold LoopInv in *. cbn [fst] in *.
    apply (Produced_push param nodes st).
    + exact HI.
    + now rewrite Ew, (pr_param _ _ _ HI).
    + exact (registered_keys _ _ _ _ Eo Hm (pr_keys _ _ _ HI)).
    + intros v _. now apply (registered_get _ _ _ _ _ Eo).
    + cbn. now rewrite Ew, (pr_param _ _ _ HI).
Qed.

Lemma stringActivityStep_produced (acc : list WorkflowNode * nat)
    (m : Python.AwaitedMatch) :
  wordOutput m ->
  triple (LoopInv acc) (Python.stringActivityStep sourceCode lineOffset acc m)
         LoopInv.
Proof.
  intros Hm. destruct acc as [nodes index]. intros st r st' HI H.
  unfold Python.stringActivityStep, bind in H.
  destruct (registerOutput_run (orUndefined (Python.amOutput m))
              ("activity-" ++ ofNat index) st) as (st1 & E1 & Ew & _ & _ & Eo).
  rewrite E1 in H.
  cbv [Python.analyze bind this ret] in H. injection H as <- <-.
  unfold LoopInv in *. cbn [fst] in *.
  apply (Produced_push param nodes st).
  - exact HI.
  - now rewrite Ew, (pr_param _ _ _ HI).
  - exact (registered_keys _ _ _ _ Eo Hm (pr_keys _ _ _ HI)).
  - intros v _. now apply (registered_get _ _ _ _ _ Eo).
  - cbn. now rewrite Ew, (pr_param _ _ _ HI).
Qed.

Variable E : Python.Engine.

Hypothesis awaited_words :
  forall ms, Python.awaitedPattern E sourceCode = inr ms -> Forall wordOutput ms.
Hypothesis string_words :
  forall ms, Python.stringActivityPattern E sourceCode = inr ms ->
             Forall wordOutput ms.

Lemma parseActivities_produced :
  triple (Produced param [])
         (Python.parseActivities E sourceCode lineOffset)
         (fun nodes st => Produced param nodes st).
Proof.
  unfold Python.parseActivities.
  apply (triple_bind _ _ (fun _ => LoopInv ([], 0))).
  { apply triple_call. intros a st _ H. exact H. }
  intros taskMatches.
  apply (triple_bind _ _ LoopInv).
  { apply (triple_forEach LoopInv). intros acc x _. apply taskStep_produced. }
  intros acc1. cbv beta.
  eapply triple_bind.
  { apply (triple_call (LoopInv acc1) _
             (fun ms st => LoopInv acc1 st /\ Forall wordOutput ms)).
    intros ms st Hms H. split; [exact H|now apply awaited_words]. }
  intros awaitedMatches. cbv beta.
  eapply triple_bind.
  { intros st r st' [HI HF] H.
    refine (triple_forEach LoopInv awaitedMatches _ _ acc1 st r st' HI H).
    intros acc x Hx. apply awaitedStep_produced.
    exact (proj1 (Forall_forall _ _) HF x Hx). }
  intros acc2. cbv beta.
  eapply triple_bind.
  { apply (triple_call (LoopInv acc2) _
             (fun ms st => LoopInv acc2 st /\ Forall wordOutput ms)).
    intros ms st Hms H. split; [exact H|now apply string_words]. }
  intros stringMatches. cbv beta.
  eapply triple_bind.
  { intros st r st' [HI HF] H.
    refine (triple_forEach LoopInv stringMatches _ _ acc2 st r st' HI H).
    intros acc x Hx. apply stringActivityStep_produced.
    exact (proj1 (Forall_forall _ _) HF x Hx). }
  intros acc3. apply triple_ret. intros st H. exact H.
Qed.

End Activities.

Lemma lastBinder_after (pre mid : list WorkflowNode) (n : WorkflowNode)
    (v : string) :
  binds v n = true ->
  (forall x, In x mid -> binds v x = false) ->
  lastBinder (pre ++ n :: mid) v = Some (nodeId n).
Proof.
  intros Hn Hmid. unfold lastBinder.
  rewrite rev_app_distr. cbn [rev]. rewrite <- app_assoc. cbn [app].
  assert (F : forall l r, (forall x, In x l -> binds v x = false) ->
                          find (binds v) (l ++ r) = find (binds v) r).
  { induction l as [|a l IH]; intros r Hl; [reflexivity|].
    cbn. rewrite (Hl a (or_introl eq_refl)). apply IH.
    intros x Hx. apply Hl. now right. }
  rewrite F.
  - cbn. now rewrite Hn.
  - intros x Hx. apply Hmid. now apply in_rev.
Qed.

(** *** The child workflows *)

Section Children.

Variables (sourceCode : string) (lineOffset : nat) (param : string).
Variable before : list WorkflowNode.

Let ChildInv (acc : list WorkflowNode * nat) (st : Inst) : Prop :=
  Produced param (before ++ fst acc) st.

Lemma childStep_produced (acc : list WorkflowNode * nat)
    (m : Python.ChildMatch) :
  wordGroup (Python.cmOutput m) ->
  triple (ChildInv acc) (Python.childStep sourceCode lineOffset acc m) ChildInv.
Proof.
  intros Hm. destruct acc as [nodes index]. intros st r st' HI H.
  unfold Python.childStep, bind in H.
  destruct (registerOutput_run (orUndefined (Python.cmOutput m))
              ("child-" ++ ofNat index) st) as (st1 & E1 & Ew & _ & _ & Eo).
  rewrite E1 in H.
  cbv [Python.analyze bind this ret] in H. injection H as <- <-.
  unfold ChildInv in *. cbn [fst] in *. rewrite app_assoc.
  apply (Produced_push param (before ++ nodes) st).
  - exact HI.
  - now rewrite Ew, (pr_param _ _ _ HI).
  - exact (registered_keys _ _ _ _ Eo Hm (pr_keys _ _ _ HI)).
  - intros v _. now apply (registered_get _ _ _ _ _ Eo).
  - cbn. now rewrite Ew, (pr_param _ _ _ HI).
Qed.

Variable E : Python.Engine.

Hypothesis child_words :
  forall ms, Python.childPattern E sourceCode = inr ms ->
             Forall (fun m => wordGroup (Python.cmOutput m)) ms.

Lemma parseChildWorkflows_produced :
  triple (Produced param before)
         (Python.parseChildWorkflows E sourceCode lineOffset)
         (fun nodes st => Produced param (before ++ nodes) st).
Proof.
  unfold Python.parseChildWorkflows.
  eapply triple_bind.
  { apply (triple_call (Produced param before) _
             (fun ms st => ChildInv ([], 0) st /\
                           Forall (fun m => wordGroup (Python.cmOutput m)) ms)).
    intros ms st Hms H. split; [|now apply child_words].
    unfold ChildInv. cbn [fst]. now rewrite app_nil_r. }
  intros found. cbv beta.
  eapply triple_bind.
  { intros st r st' [HI HF] H.
    refine (triple_forEach ChildInv found _ _ ([], 0) st r st' HI H).
    intros acc x Hx. apply childStep_produced.
    exact (proj1 (Forall_forall _ _) HF x Hx). }
  intros acc. apply triple_ret. intros st H. exact H.
Qed.

End Children.

(** *** The recognisers that run after the child workflows

    Their nodes have no input expression. *)

Lemma NoInput_push (nodes : list WorkflowNode) (n : WorkflowNode) :
  NoInput nodes -> nodeInput n = None -> NoInput (nodes ++ [n]).
Proof.
  intros H Hn. apply Forall_app. split; [exact H|]. now constructor.
Qed.

Lemma recognizer_noInput {A : Type} (found : Thrown + list A)
    (body : list WorkflowNode * nat -> A -> M (list WorkflowNode * nat)) :
  (forall acc x,
     triple (fun _ => NoInput (fst acc)) (body acc x)
            (fun acc' _ => NoInput (fst acc'))) ->
  triple (fun _ => True)
         (items <- call found ;;
          acc <- forEach items ([], 0) body ;;
          ret (fst acc))
         (fun nodes _ => NoInput nodes).
Proof.
  intros Hbody.
  eapply triple_bind with (R := fun _ _ => NoInput []).
  { apply triple_call. intros. constructor. }
  intros items.
  eapply triple_bind
    with (R := fun (acc : list WorkflowNode * nat) _ => NoInput (fst acc)).
  { apply (triple_forEach
             (fun (acc : list WorkflowNode * nat) (_ : Inst) =>
                NoInput (fst acc)) items body
             (fun acc x _ => Hbody acc x) ([], 0)). }
  intros acc. apply triple_ret. auto.
Qed.

Section Later.

Variable E : Python.Engine.
Variables (sourceCode : string) (lineOffset : nat).

Lemma parseTimers_noInput :
  triple (fun _ => True) (Python.parseTimers E sourceCode lineOffset)
         (fun nodes _ => NoInput nodes).
Proof.
  apply recognizer_noInput. intros [nodes index] m st r st' HI H.
  unfold Python.timerStep, bind in H.
  destruct (registerOutput_run (orUndefined (Python.rmOutput m))
              ("timer-" ++ ofNat index) st) as (st1 & E1 & _).
  rewrite E1 in H. cbv [ret] in H. injection H as <- <-.
  now apply NoInput_push.
Qed.

Lemma parseExternalEvents_noInput :
  triple (fun _ => True) (Python.parseExternalEvents E sourceCode lineOffset)
         (fun nodes _ => NoInput nodes).
Proof.
  apply recognizer_noInput. intros [nodes index] m st r st' HI H.
  unfold Python.eventStep, bind in H.
  destruct (registerOutput_run (orUndefined (Python.emOutput m))
              ("event-" ++ ofNat index) st) as (st1 & E1 & _).
  rewrite E1 in H. cbv [ret] in H. injection H as <- <-.
  now apply NoInput_push.
Qed.

Lemma parseDecisions_noInput :
  triple (fun _ => True) (Python.parseDecisions E sourceCode lineOffset)
         (fun nodes _ => NoInput nodes).
Proof.
  apply recognizer_noInput. intros [nodes index] m st r st' HI H.
  unfold Python.decisionStep in H.
  apply bind_normal in H as (ds & st1 & _ & H).
  cbv [ret] in H. injection H as <- <-.
  now apply NoInput_push.
Qed.

Lemma parseRetryPolicies_noInput :
  triple (fun _ => True) (Python.parseRetryPolicies E sourceCode lineOffset)
         (fun nodes _ => NoInput nodes).
Proof.
  apply recognizer_noInput. intros [nodes index] m st r st' HI H.
  cbv [ret] in H. injection H as <- <-.
  now apply NoInput_push.
Qed.

Lemma parseParallelBlocks_noInput :
  triple (fun _ => True) (Python.parseParallelBlocks E sourceCode lineOffset)
         (fun nodes _ => NoInput nodes).
Proof.
  apply recognizer_noInput. intros [nodes index] m st r st' HI H.
  unfold Python.joinStep in H.
  apply bind_normal in H as (taskVars & s1 & _ & H).
  apply bind_normal in H as (u1 & s2 & _ & H).
  apply bind_normal in H as (u2 & s3 & _ & H).
  cbv [bind this ret] in H. injection H as <- <-.
  now apply NoInput_push.
Qed.

End Later.

(** *** All the steps of one [parse] call *)

Lemma Settled_app (param : string) (nodes more : list WorkflowNode) :
  Settled param nodes -> NoInput more -> Settled param (nodes ++ more).
Proof.
  intros HS Hm pre c post Hs.
  apply app_eq_app in Hs as [l [[-> Hl]|[-> Hl]]].
  - destruct l as [|x l].
    + rewrite app_nil_r in *. cbn in Hl. subst more.
      intros v e id He. apply Forall_inv in Hm. congruence.
    + cbn in Hl. injection Hl as <- ->.
      exact (HS pre c l eq_refl).
  - intros v e id He.
    assert (In c more).
    { rewrite Hl. apply in_or_app. right. now left. }
    assert (X := proj1 (Forall_forall _ _) Hm c H). cbn in X. congruence.
Qed.

Lemma lastBinder_cons (x : WorkflowNode) (pre : list WorkflowNode)
    (v id : string) :
  nodeOutput x = None ->
  lastBinder (x :: pre) v = Some id -> lastBinder pre v = Some id.
Proof.
  intros Hx. unfold lastBinder. cbn [rev].
  assert (F : forall l, find (binds v) (l ++ [x]) = find (binds v) l).
  { induction l as [|a l IH]; cbn.
    - unfold binds. rewrite Hx. now rewrite andb_false_r.
    - destruct (binds v a); [reflexivity|exact IH]. }
  now rewrite F.
Qed.

Lemma Settled_cons (param : string) (x : WorkflowNode)
    (nodes : list WorkflowNode) :
  nodeInput x = None -> nodeOutput x = None ->
  Settled param nodes -> Settled param (x :: nodes).
Proof.
  intros Hi Ho HS pre c post Hs. destruct pre as [|y pre].
  - cbn in Hs. injection Hs as <- _. intros v e id He. congruence.
  - cbn in Hs. injection Hs as <- ->.
    intros v e id He Hv Rv Rp Hc Hl.
    apply (HS pre c post eq_refl v e id He Hv Rv Rp Hc).
    exact (lastBinder_cons x pre v id Ho Hl).
Qed.

Lemma recognizeSteps_settled (E : Python.Engine) (sourceCode : string)
    (lineOffset : nat) (st st' : Inst) (steps : list WorkflowNode) :
  WordOutputs E ->
  outputVariableMap st = [] ->
  Python.recognizeSteps E sourceCode lineOffset st = Normal steps st' ->
  Settled (workflowInputParam st) steps.
Proof.
  intros [Ha Hs Hc] Hmap H. unfold Python.recognizeSteps in H.
  apply bind_normal in H as (a & s1 & H1 & H).
  apply bind_normal in H as (b & s2 & H2 & H).
  apply bind_normal in H as (c & s3 & H3 & H).
  apply bind_normal in H as (d & s4 & H4 & H).
  apply bind_normal in H as (e & s5 & H5 & H).
  apply bind_normal in H as (f & s6 & H6 & H).
  apply bind_normal in H as (g & s7 & H7 & H).
  cbv [ret] in H. injection H as <- <-.
  assert (P0 : Produced (workflowInputParam st) [] st).
  { split.
    - reflexivity.
    - rewrite Hmap. constructor.
    - intros v0 id _ X. discriminate X.
    - intros pre0 c0 post0 X. destruct pre0; discriminate X. }
  assert (P1 := parseActivities_produced sourceCode lineOffset
                  (workflowInputParam st) E (Ha sourceCode) (Hs sourceCode)
                  st a s1 P0 H1).
  assert (P2 := parseChildWorkflows_produced sourceCode lineOffset
                  (workflowInputParam st) a E (Hc sourceCode)
                  s1 b s2 P1 H2).
  rewrite app_assoc. apply Settled_app.
  - exact (pr_nodes _ _ _ P2).
  - repeat (apply Forall_app; split).
    + exact (parseTimers_noInput E _ _ s2 c s3 I H3).
    + exact (parseExternalEvents_noInput E _ _ s3 d s4 I H4).
    + exact (parseDecisions_noInput E _ _ s4 e s5 I H5).
    + exact (parseRetryPolicies_noInput E _ _ s5 f s6 I H6).
    + exact (parseParallelBlocks_noInput E _ _ s6 g s7 I H7).
Qed.

Lemma starts_iff (p t : list ascii) :
  starts p t = true <-> exists rest, t = p ++ rest.
Proof.
  split; [apply starts_app|]. intros [r ->].
  induction p as [|a p IH]; [reflexivity|].
  cbn. now rewrite Ascii.eqb_refl.
Qed.

Lemma startsWith_iff (e p : string) :
  startsWith e p = true <-> exists rest, e = (p ++ rest)%string.
Proof.
  unfold startsWith. rewrite starts_iff. split.
  - intros [r Hr]. exists (str r). apply chars_inj.
    rewrite chars_app. unfold chars at 3, str.
    now rewrite list_ascii_of_string_of_list_ascii.
  - intros [r ->]. exists (chars r). apply chars_app.
Qed.

Lemma append_assoc (a b c : string) :
  ((a ++ b) ++ c = a ++ (b ++ c))%string.
Proof. induction a as [|x a IH]; cbn; [reflexivity|now rewrite IH]. Qed.

(** The test of the classifier, in words. *)
Lemma rooted_refers (e v : string) : rooted e v = true <-> RefersTo e v.
Proof.
  unfold rooted, RefersTo.
  rewrite !orb_true_iff, String.eqb_eq, !startsWith_iff.
  split.
  - intros [[H|[r H]]|[r H]]; [now left| |].
    + right. left. exists r. now rewrite H, append_assoc.
    + right. right. exists r. now rewrite H, append_assoc.
  - intros [H|[[r H]|[r H]]]; [now left; left| |].
    + left. right. exists r. now rewrite H, append_assoc.
    + right. exists r. now rewrite H, append_assoc.
Qed.

(** C3 (amended). In the nodes of the graph a successful [parse] of the
    Python extractor returns, which stand in the order in which the
    steps were recognised: let [n] be a node that is not a parallel task
    and whose output variable is the identifier [v], and [c] a later
    node (an activity or a child workflow) whose input expression [e] is
    [v] or a dotted or indexed access rooted at [v].  When no node
    between them binds [v] again, [c] does not bind [v] itself and [e]
    is not the name of the workflow input parameter nor an access rooted
    at it, [c] has exactly one data source, of type [activity_output],
    with [sourceActivityId] the identifier of [n].  (The groups for the
    output variable are taken to capture word characters only, as the
    patterns have it.) *)
Theorem producer_is_last_binder (E : Python.Engine)
    (sourceCode filePath : string) (target : option string) (st : Inst)
    (w : WorkflowDefinition) (df : DataFlowMetadata)
    (pre mid post : list WorkflowNode) (n c : WorkflowNode) (v e : string) :
  WordOutputs E ->
  workflow (fst (Python.parse E sourceCode filePath target st)) = Some w ->
  wDataFlow w = Some df ->
  wNodes w = pre ++ n :: mid ++ c :: post ->
  binds v n = true ->
  (forall x, In x mid -> binds v x = false) ->
  nodeOutput c <> Some v ->
  nodeInput c = Some e ->
  isIdentifier v = true ->
  RefersTo e v ->
  ~ RefersTo e (dfParameterName df) ->
  nodeDataSources c =
    Some [mkSource activity_output e (Some (nodeId n)) None].
Proof.
  intros HW Hw Hdf Hnodes Hn Hmid Hc He Hv Rv Rp.
  assert (R : Python.parse E sourceCode filePath target st =
              (mkResult true (Some w) None,
               snd (Python.parse E sourceCode filePath target st))).
  { revert Hw. unfold Python.parse, tryCatch.
    destruct (Python.parseBody E sourceCode filePath target st); cbn.
    - now intros [= ->].
    - discriminate. }
  apply ParseFacts.parse_success in R
    as (scoped & off & steps & st0 & R & M0 & EN & _ & EP & EP0).
  rewrite Hdf in EP. cbn in EP. injection EP as EP.
  unfold maps in M0. injection M0 as Mo _ _.
  assert (S1 := recognizeSteps_settled E scoped off st0 _ steps HW Mo R).
  rewrite <- EP0, <- EP in S1.
  assert (S2 : Settled (dfParameterName df) (wNodes w)).
  { rewrite EN. unfold addStartEndNodes.
    apply Settled_cons; [reflexivity|reflexivity|].
    apply Settled_app; [exact S1|]. now repeat constructor. }
  refine (S2 (pre ++ n :: mid) c post _ v e (nodeId n) He Hv
             (proj2 (rooted_refers e v) Rv) _ Hc _).
  - rewrite Hnodes, <- app_assoc. reflexivity.
  - destruct (rooted e (dfParameterName df)) eqn:Q; [|reflexivity].
    elim Rp. now apply rooted_refers.
  - now apply lastBinder_after.
Qed.

Lemma producer_is_last_binder_witness :
  exists w start a0 c0 c1 e,
    workflow (fst (Python.parse Samples.childEngine Samples.childSource
                                "a.py" None newInst)) = Some w /\
    wNodes w = [start; a0] ++ c0 :: [] ++ c1 :: [e] /\
    nodeId c0 = "child-0" /\ nodeOutput c0 = Some "y" /\
    nodeId c1 = "child-1" /\ nodeInput c1 = Some "y.total" /\
    nodeDataSources c1 =
      Some [mkSource activity_output "y.total" (Some (nodeId c0)) None].
Proof.
  do 6 eexists.
  split; [vm_compute; reflexivity|].
  split; [reflexivity|]. repeat (split; [reflexivity|]).
  eapply (producer_is_last_binder Samples.childEngine Samples.childSource
            "a.py" None newInst _ _ [_; _] [] [_] _ _ "y" "y.total").
  - split; intros s ms H; injection H as <-; repeat constructor.
  - vm_compute. reflexivity.
  - reflexivity.
  - reflexivity.
  - vm_compute. reflexivity.
  - intros x [].
  - discriminate.
  - reflexivity.
  - vm_compute. reflexivity.
  - right. left. exists "total". reflexivity.
  - cbn. intros [H|[[r H]|[r H]]]; discriminate H.
Defined.

(** C3 (as stated).  In the graph of [rebindSource] the node
    [activity-0] has the output variable [x] and the later node
    [activity-2] has the input [x]; its source names [activity-1], which
    bound [x] again.  In the graph of [shadowSource] the node
    [activity-0] has the output variable [input] and the later node
    [activity-1] has the input [input]; its source is of type
    [workflow_input], the name being that of the input parameter. *)
Lemma producer_not_every_binder :
  (exists w start a0 a1 a2 e,
     workflow (fst (Python.parse Samples.rebindEngine Samples.rebindSource
                                 "a.py" None newInst)) = Some w /\
     wNodes w = [start; a0; a1; a2; e] /\
     nodeId a0 = "activity-0" /\ nodeOutput a0 = Some "x" /\
     nodeId a2 = "activity-2" /\ nodeInput a2 = Some "x" /\
     nodeDataSources a2 =
       Some [mkSource activity_output "x" (Some "activity-1") None]) /\
  (exists w start a0 a1 e,
     workflow (fst (Python.parse Samples.shadowEngine Samples.shadowSource
                                 "a.py" None newInst)) = Some w /\
     wNodes w = [start; a0; a1; e] /\
     nodeId a0 = "activity-0" /\ nodeOutput a0 = Some "input" /\
     nodeId a1 = "activity-1" /\ nodeInput a1 = Some "input" /\
     nodeDataSources a1 =
       Some [mkSource workflow_input "input" None None]).
Proof.
  split.
  - do 6 eexists.
    split; [vm_compute; reflexivity|]. repeat split.
  - do 5 eexists.
    split; [vm_compute; reflexivity|]. repeat split.
Qed.

End ProducerFacts.

(** ** The scanner on any text *)

Module ScannerBounds.

Import Js Scanner Spec ScannerFacts.

Lemma loop_pos_ge (fuel : nat) (t : list ascii) (o : option ascii) (c : ascii)
    (st : scan) :
  pos st <= pos (loop fuel t o c st).
Proof.
  revert st; induction fuel as [|f IH]; intros st; simpl; [lia|].
  destruct (running t st) eqn:R; [|lia].
  apply (step_pos t o c) in R. specialize (IH (step t o c st)). lia.
Qed.

(** The index [findMatchingBracket] returns for an index of the text is
    an index of the text, not before the opening one. *)
Theorem findMatchingBracket_in_range (sourceCode : string) (openIndex : nat) :
  openIndex < List.length (chars sourceCode) ->
  (Z.of_nat openIndex <= findMatchingBracket sourceCode openIndex
     < Z.of_nat (List.length (chars sourceCode)))%Z.
Proof.
  intros H. unfold findMatchingBracket, scanEnd.
  set (t := chars sourceCode) in *.
  set (st0 := mkScan (openIndex + 1) 1 None).
  assert (L := loop_pos_ge (List.length t) t (at_ t openIndex)
                 (closeOf (at_ t openIndex)) st0).
  assert (U := loop_pos_le (List.length t) t (at_ t openIndex)
                 (closeOf (at_ t openIndex)) st0).
  cbn [pos st0] in L, U. lia.
Qed.

Lemma findMatchingBracket_in_range_witness :
  (0 <= findMatchingBracket Samples.unclosedSource 33 < 44)%Z.
Proof.
  assert (H := findMatchingBracket_in_range Samples.unclosedSource 33).
  assert (L : List.length (chars Samples.unclosedSource) = 44)
    by (vm_compute; reflexivity).
  rewrite L in H. specialize (H ltac:(lia)). lia.
Defined.

Lemma step_closed (t : list ascii) (o : option ascii) (c : ascii) (lo : nat)
    (st : scan) :
  lo <= pos st -> running t st = true -> Closed t c lo (step t o c st).
Proof.
  intros Hlo R. split; [apply (step_pos t o c) in R; lia|].
  unfold running in R. apply andb_prop in R as [Hi Hd].
  apply Nat.ltb_lt in Hi. apply Nat.ltb_lt in Hd.
  unfold step, at_. destruct (nth_error t (pos st)) as [char|] eqn:E.
  2:{ apply nth_error_None in E. lia. }
  assert (Hadv : forall ins,
            depth (advance o c char (pos st) (depth st) ins) = 0 ->
            inString (advance o c char (pos st) (depth st) ins) = None /\
            exists i, pos (advance o c char (pos st) (depth st) ins) = S i /\
                      lo <= i /\ nth_error t i = Some c).
  { intros ins. unfold advance. destruct ins as [q|]; [simpl; lia|].
    destruct (isChar o char); [simpl; lia|].
    destruct (Ascii.eqb char c) eqn:Ec; simpl; [|lia].
    intros _. split; [reflexivity|]. exists (pos st).
    apply Ascii.eqb_eq in Ec. subst c. now repeat split. }
  destruct (isQuote char && negb (isChar (before t (pos st)) backslash));
    [|apply Hadv].
  destruct (inString st) as [q|].
  - destruct (list_eqb q [char] ||
              (List.length q =? 3) && list_eqb (window t (pos st)) q);
      [simpl; lia|apply Hadv].
  - destruct (list_eqb (window t (pos st)) tripleD ||
              list_eqb (window t (pos st)) tripleS);
      [simpl; lia|apply Hadv].
Qed.

Lemma loop_closed (fuel : nat) (t : list ascii) (o : option ascii) (c : ascii)
    (lo : nat) (st : scan) :
  Closed t c lo st -> Closed t c lo (loop fuel t o c st).
Proof.
  revert st; induction fuel as [|f IH]; intros st H; simpl; [exact H|].
  destruct (running t st) eqn:R; [|exact H].
  apply IH. apply step_closed; [exact (proj1 H)|exact R].
Qed.

(** Whatever the text, when the loop of [findMatchingBracket] ends with
    the depth at zero, the index returned is after the opening bracket,
    the character there is the closing bracket of the kind of the
    opening one, and the scanner is outside every literal. *)
Theorem findMatchingBracket_on_closer (sourceCode : string) (openIndex : nat) :
  depth (scanEnd sourceCode openIndex) = 0 ->
  exists i,
    findMatchingBracket sourceCode openIndex = Z.of_nat i /\
    openIndex < i /\
    at_ (chars sourceCode) i =
      Some (closeOf (at_ (chars sourceCode) openIndex)) /\
    inString (scanEnd sourceCode openIndex) = None.
Proof.
  intros Hd. unfold findMatchingBracket.
  assert (C : Closed (chars sourceCode)
                (closeOf (at_ (chars sourceCode) openIndex)) (openIndex + 1)
                (scanEnd sourceCode openIndex)).
  { unfold scanEnd. apply loop_closed. split; [simpl; lia|].
    simpl. discriminate. }
  destruct C as [_ C]. destruct (C Hd) as (Hs & i & Hp & Hi & Ha).
  exists i. rewrite Hp. repeat split; [lia|lia|exact Ha|exact Hs].
Qed.

Lemma findMatchingBracket_on_closer_witness :
  exists i,
    findMatchingBracket Samples.nestedText 0 = Z.of_nat i /\
    0 < i /\
    at_ (chars Samples.nestedText) i = Some "}"%char.
Proof.
  destruct (findMatchingBracket_on_closer Samples.nestedText 0)
    as (i & F & L & A & _).
  - vm_compute. reflexivity.
  - exists i. repeat split; [exact F|exact L|exact A].
Defined.

End ScannerBounds.

(** ** Searching and trimming *)

Module TextFacts.

Import Js.

Lemma chars_str (l : list ascii) : chars (str l) = l.
Proof. apply list_ascii_of_string_of_list_ascii. Qed.

(** [indexOf] finds the first position at which the pattern starts. *)
Lemma indexOfAux_first (p t : list ascii) (i r : nat) :
  indexOfAux p t i = Some r ->
  i <= r /\ starts p (skipn (r - i) t) = true /\
  forall j, j < r - i -> starts p (skipn j t) = false.
Proof.
  revert i. induction t as [|c t IH]; intros i; simpl.
  - destruct (starts p []) eqn:S0; [|discriminate].
    intros [= <-]. rewrite Nat.sub_diag. repeat split; [lia|exact S0|lia].
  - destruct (starts p (c :: t)) eqn:S0.
    + intros [= <-]. rewrite Nat.sub_diag. repeat split; [lia|exact S0|lia].
    + intros H. apply IH in H as (Hle & Hs & Hn).
      replace (r - i) with (S (r - S i)) by lia. repeat split; [lia|exact Hs|].
      intros [|j] Hj; [exact S0|]. apply Hn. lia.
Qed.

Lemma indexOfAux_none (p t : list ascii) (i : nat) :
  indexOfAux p t i = None -> forall j, starts p (skipn j t) = false.
Proof.
  revert i. induction t as [|c t IH]; intros i; simpl.
  - destruct (starts p []) eqn:S0; [discriminate|].
    intros _ j. now destruct j.
  - destruct (starts p (c :: t)) eqn:S0; [discriminate|].
    intros H [|j]; [exact S0|]. exact (IH _ H j).
Qed.

Lemma starts_one (c : ascii) (l : list ascii) :
  starts [c] l = true <-> hd_error l = Some c.
Proof.
  destruct l as [|d l]; simpl; [split; discriminate|].
  rewrite andb_true_r. split.
  - intros H. apply Ascii.eqb_eq in H. now subst.
  - intros [= ->]. apply Ascii.eqb_refl.
Qed.

Lemma hd_skipn (t : list ascii) (j : nat) : hd_error (skipn j t) = nth_error t j.
Proof.
  revert t; induction j as [|j IH]; intros [|c t]; simpl; auto.
Qed.

(** Before the position [indexOf] returns for a one-character pattern
    the character does not occur. *)
Lemma indexOf_char_first (t : list ascii) (c : ascii) (from r : nat) :
  indexOf t [c] from = Some r ->
  from <= r < List.length t /\ nth_error t r = Some c /\
  ~ In c (firstn (r - from) (skipn from t)).
Proof.
  unfold indexOf. destruct (List.length t <? from) eqn:L; [discriminate|].
  apply Nat.ltb_ge in L. intros H.
  apply indexOfAux_first in H as (Hle & Hs & Hn).
  apply starts_one in Hs. rewrite hd_skipn, nth_error_skipn in Hs.
  replace (from + (r - from)) with r in Hs by lia.
  assert (Hr : r < List.length t) by (apply nth_error_Some; congruence).
  repeat split; [lia|lia|exact Hs|].
  intros Hin. apply In_nth_error in Hin as [j Hj].
  assert (Hjl : j < r - from).
  { assert (X : nth_error (firstn (r - from) (skipn from t)) j <> None)
      by congruence.
    apply nth_error_Some in X. rewrite length_firstn in X. lia. }
  rewrite nth_error_firstn in Hj.
  destruct (j <? r - from) eqn:Ej; [|discriminate].
  specialize (Hn j Hjl).
  assert (Hs' : starts [c] (skipn j (skipn from t)) = true).
  { apply starts_one. now rewrite hd_skipn. }
  congruence.
Qed.

Lemma indexOf_char_none (t : list ascii) (c : ascii) (from : nat) :
  indexOf t [c] from = None ->
  forall j, from <= j -> nth_error t j <> Some c.
Proof.
  unfold indexOf. destruct (List.length t <? from) eqn:L.
  - apply Nat.ltb_lt in L. intros _ j Hj Hc.
    assert (X : nth_error t j <> None) by congruence.
    apply nth_error_Some in X. lia.
  - intros H j Hj Hc.
    assert (Hs := indexOfAux_none _ _ _ H (j - from)).
    assert (Hs' : starts [c] (skipn (j - from) (skipn from t)) = true).
    { apply starts_one. rewrite hd_skipn, nth_error_skipn.
      now replace (from + (j - from)) with j by lia. }
    congruence.
Qed.

Lemma dropSpaces_incl (t : list ascii) (c : ascii) :
  In c (dropSpaces t) -> In c t.
Proof.
  induction t as [|d t IH]; simpl; [auto|].
  destruct (isSpace d); [intros H; right; now apply IH|auto].
Qed.

(** [trim] only removes characters. *)
Lemma trim_incl (s : string) (c : ascii) :
  In c (chars (trim s)) -> In c (chars s).
Proof.
  unfold trim, trimChars. rewrite chars_str. intros H.
  apply in_rev in H. apply dropSpaces_incl in H.
  apply in_rev in H. now apply dropSpaces_incl in H.
Qed.

End TextFacts.

(** ** The input expression of a call *)

Module InputFacts.

Import Js Scanner TextFacts.

(** The first closing parenthesis at or after a position: when the text
    from [from] on is [b] followed by a closing parenthesis and [b] holds
    none, [indexOf] returns the position right after [b]. *)
Lemma indexOf_paren (pre b post : list ascii) (from : nat) :
  List.length pre = from -> ~ In ")"%char b ->
  indexOf (pre ++ b ++ ")"%char :: post) [")"%char] from
    = Some (from + List.length b).
Proof.
  intros L Hb. set (t := pre ++ b ++ ")"%char :: post).
  assert (Hat : nth_error t (from + List.length b) = Some ")"%char).
  { unfold t. rewrite nth_error_app2 by lia.
    replace (from + List.length b - List.length pre) with (List.length b)
      by lia.
    rewrite nth_error_app2 by lia. now rewrite Nat.sub_diag. }
  destruct (indexOf t [")"%char] from) as [r|] eqn:I.
  - apply indexOf_char_first in I as (Hr & Ha & Hn). f_equal.
    assert (Hs : skipn from t = b ++ ")"%char :: post).
    { unfold t. rewrite skipn_app, skipn_all2 by lia.
      now replace (from - List.length pre) with 0 by lia. }
    rewrite Hs in Hn.
    destruct (Nat.lt_trichotomy (r - from) (List.length b)) as [H|[H|H]].
    + exfalso. apply Hb. apply (nth_error_In _ (r - from)).
      rewrite <- Ha. unfold t. rewrite nth_error_app2 by lia.
      rewrite L. now rewrite nth_error_app1 by lia.
    + lia.
    + exfalso. apply Hn. rewrite firstn_app. apply in_or_app. right.
      replace (r - from - List.length b)
        with (S (r - from - List.length b - 1)) by lia.
      now left.
  - exfalso. exact (indexOf_char_none _ _ _ I _ (Nat.le_add_r _ _) Hat).
Qed.

Lemma substring_between (pre b post : list ascii) :
  substring (pre ++ b ++ post) (List.length pre)
            (List.length pre + List.length b) = b.
Proof.
  unfold substring. rewrite !length_app.
  rewrite (Nat.min_l (List.length pre)) by lia.
  rewrite (Nat.min_l (List.length pre + List.length b)) by lia.
  rewrite Nat.min_l, Nat.max_r by lia.
  replace (List.length pre + List.length b - List.length pre)
    with (List.length b) by lia.
  rewrite skipn_app, skipn_all, Nat.sub_diag. cbn [skipn app].
  now rewrite firstn_app, firstn_all, Nat.sub_diag, app_nil_r.
Qed.

(** When the value after the [input=] marker does not open with a
    bracket, [extractInputExpression] cuts it at the first closing
    parenthesis: with [b] the text between the marker and the first
    closing parenthesis after it, the result is [b] trimmed; the
    expression it returns holds no closing parenthesis, and it returns
    [undefined] exactly when no closing parenthesis follows the
    marker. *)
Theorem simple_input_stops_at_paren (sourceCode : string)
    (matchIndex inputStart : nat) :
  inputStartOf sourceCode matchIndex = Some inputStart ->
  isOpenBracket (at_ (chars sourceCode) inputStart) = false ->
  (forall pre b post : list ascii,
     chars sourceCode = pre ++ b ++ ")"%char :: post ->
     List.length pre = inputStart -> ~ In ")"%char b ->
     extractInputExpression sourceCode matchIndex = Some (trim (str b))) /\
  ((forall j, inputStart <= j ->
              at_ (chars sourceCode) j <> Some ")"%char) <->
   extractInputExpression sourceCode matchIndex = None) /\
  match extractInputExpression sourceCode matchIndex with
  | Some e => ~ In ")"%char (chars e) /\
              exists j, inputStart <= j /\
                        at_ (chars sourceCode) j = Some ")"%char
  | None => forall j, inputStart <= j ->
                      at_ (chars sourceCode) j <> Some ")"%char
  end.
Proof.
  intros Hs Ho. unfold extractInputExpression. rewrite Hs, Ho.
  change (chars ")") with [")"%char]. split; [|split].
  - intros pre b post Ht L Hb. rewrite Ht.
    rewrite (indexOf_paren pre b post inputStart L Hb). do 3 f_equal.
    rewrite <- L. apply (substring_between pre b (")"%char :: post)).
  - destruct (indexOf (chars sourceCode) [")"%char] inputStart)
      as [r|] eqn:I.
    + apply indexOf_char_first in I as (Hr & Ha & Hn). split.
      * intros H. exfalso. apply (H r); [lia|exact Ha].
      * discriminate.
    + split; [reflexivity|]. intros _. exact (indexOf_char_none _ _ _ I).
  - destruct (indexOf (chars sourceCode) [")"%char] inputStart)
      as [r|] eqn:I.
    + apply indexOf_char_first in I as (Hr & Ha & Hn). split.
      * intros Hin. apply trim_incl in Hin. rewrite chars_str in Hin.
        apply Hn. unfold substring in Hin.
        rewrite (Nat.min_l inputStart), (Nat.min_l r) in Hin by lia.
        rewrite Nat.min_l, Nat.max_r in Hin by lia. exact Hin.
      * exists r. split; [lia|exact Ha].
    + exact (indexOf_char_none _ _ _ I).
Qed.

Lemma simple_input_stops_at_paren_witness :
  extractInputExpression Samples.selfSource 0 = Some "x" /\
  ~ In ")"%char (chars "x").
Proof.
  assert (H := simple_input_stops_at_paren Samples.selfSource 0 37
                 eq_refl eq_refl).
  destruct H as (Hcut & _ & H).
  assert (X : extractInputExpression Samples.selfSource 0 = Some "x").
  { exact (Hcut (firstn 37 (chars Samples.selfSource)) (chars "x")
                (skipn 39 (chars Samples.selfSource)) eq_refl eq_refl
                ltac:(cbn; intros [K|[]]; discriminate K)). }
  rewrite X in H. split; [exact X|exact (proj1 H)].
Defined.

End InputFacts.

(** ** The helpers of the base class *)

Module BaseFacts.

Import Js Model BaseEdges TextFacts.

Lemma substring_prefix (t : list ascii) (i : nat) :
  substring t 0 i = firstn i t.
Proof.
  unfold substring. cbn [Nat.min Nat.max].
  rewrite Nat.sub_0_r. cbn [skipn].
  destruct (Nat.le_gt_cases i (List.length t)) as [H|H].
  - now rewrite Nat.min_l.
  - rewrite Nat.min_r by lia. rewrite !firstn_all2; [reflexivity|lia|lia].
Qed.

Lemma countNewlines_app (a b : list ascii) :
  countNewlines (a ++ b) = countNewlines a + countNewlines b.
Proof. unfold countNewlines. now rewrite filter_app, length_app. Qed.

Lemma countNewlines_firstn (t : list ascii) (i j : nat) :
  i <= j -> countNewlines (firstn i t) <= countNewlines (firstn j t).
Proof.
  intros H. rewrite <- (firstn_skipn i (firstn j t)).
  rewrite countNewlines_app, firstn_firstn, Nat.min_l by exact H. lia.
Qed.

(** Line numbers start at 1, never decrease along the text and never
    exceed the number of lines; an index at or past the end is on the
    last line. *)
Theorem getLineNumber_monotone (sourceCode : string) (i j : nat) :
  i <= j ->
  1 <= getLineNumber sourceCode i /\
  getLineNumber sourceCode i <= getLineNumber sourceCode j /\
  getLineNumber sourceCode j <= S (countNewlines (chars sourceCode)) /\
  (List.length (chars sourceCode) <= j ->
   getLineNumber sourceCode j = S (countNewlines (chars sourceCode))).
Proof.
  intros H. unfold getLineNumber. rewrite !substring_prefix.
  repeat split.
  - lia.
  - apply le_n_S. now apply countNewlines_firstn.
  - apply le_n_S.
    rewrite <- (firstn_skipn j (chars sourceCode)) at 2.
    rewrite countNewlines_app. lia.
  - intros L. now rewrite firstn_all2.
Qed.

Lemma getLineNumber_monotone_witness :
  getLineNumber Samples.twoGroupsSource 31 <=
  getLineNumber Samples.twoGroupsSource 62.
Proof.
  exact (proj1 (proj2 (getLineNumber_monotone Samples.twoGroupsSource 31 62
                         ltac:(lia)))).
Defined.

Lemma sequentialEdges_ends (nodes : list WorkflowNode) :
  map edgeSource (sequentialEdges nodes) = removelast (map nodeId nodes) /\
  map edgeTarget (sequentialEdges nodes) = tl (map nodeId nodes).
Proof.
  induction nodes as [|a rest IH]; [now split|].
  destruct rest as [|b rest]; [now split|].
  destruct IH as [IH1 IH2].
  change (sequentialEdges (a :: b :: rest))
    with (createEdge (nodeId a) (nodeId b) None None ::
          sequentialEdges (b :: rest)).
  cbn [map edgeSource edgeTarget createEdge tl]. split.
  - rewrite IH1. reflexivity.
  - f_equal. rewrite IH2. reflexivity.
Qed.

(** [connectNodesSequentially] keeps the nodes and the edges that were
    there and adds one default edge per pair of neighbours: the sources
    are the nodes but the last, the targets the nodes but the first, in
    the order of the nodes; so the added edges are one fewer than the
    nodes and each ends where the next begins. *)
Theorem connectNodesSequentially_chain (w : WorkflowDefinition) :
  exists added,
    wEdges (connectNodesSequentially w) = wEdges w ++ added /\
    wNodes (connectNodesSequentially w) = wNodes w /\
    map edgeSource added = removelast (map nodeId (wNodes w)) /\
    map edgeTarget added = tl (map nodeId (wNodes w)) /\
    List.length added = List.length (wNodes w) - 1 /\
    Forall (fun e => edgeType e = EDefault /\ edgeLabel e = None /\
                     edgeId e = (edgeSource e ++ "-" ++ edgeTarget e)%string)
           added.
Proof.
  exists (sequentialEdges (wNodes w)).
  destruct (sequentialEdges_ends (wNodes w)) as [Hs Ht].
  repeat split; try assumption.
  - rewrite <- (length_map edgeTarget), Ht.
    destruct (wNodes w); simpl; [reflexivity|].
    rewrite length_map. lia.
  - clear Hs Ht. induction (wNodes w) as [|a rest IH]; [constructor|].
    destruct rest as [|b rest]; [constructor|].
    change (sequentialEdges (a :: b :: rest))
      with (createEdge (nodeId a) (nodeId b) None None ::
            sequentialEdges (b :: rest)).
    constructor; [now repeat split|exact IH].
Qed.

Lemma chars_append (a b : string) : chars (a ++ b) = chars a ++ chars b.
Proof.
  unfold chars. induction a as [|c a IH]; simpl; [reflexivity|].
  now rewrite IH.
Qed.

(** What [lastPart] returns: whether the separator occurs, and the text
    after its last occurrence. *)
Lemma lastPart_spec (sep : ascii) (t acc : list ascii) (seen : bool) :
  (In sep t ->
   snd (lastPart sep t acc seen) = true /\
   ~ In sep (fst (lastPart sep t acc seen)) /\
   exists pre, t = pre ++ sep :: fst (lastPart sep t acc seen)) /\
  (~ In sep t ->
   lastPart sep t acc seen = (rev acc ++ t, seen)).
Proof.
  revert acc seen. induction t as [|c t IH]; intros acc seen.
  - split; [intros []|]. intros _. simpl. now rewrite app_nil_r.
  - simpl. destruct (Ascii.eqb c sep) eqn:E.
    + apply Ascii.eqb_eq in E. subst c. split; [|intros H; exfalso; auto].
      intros _. destruct (in_dec ascii_dec sep t) as [Hin|Hout].
      * destruct (proj1 (IH [] true) Hin) as (Hs & Hn & pre & Hp).
        repeat split; [exact Hs|exact Hn|].
        exists (sep :: pre). simpl. now rewrite <- Hp.
      * rewrite (proj2 (IH [] true) Hout). simpl.
        repeat split; [exact Hout|]. now exists [].
    + apply Ascii.eqb_neq in E. split.
      * intros [H|H]; [congruence|].
        destruct (proj1 (IH (c :: acc) seen) H) as (Hs & Hn & pre & Hp).
        repeat split; [exact Hs|exact Hn|].
        exists (c :: pre). simpl. now rewrite <- Hp.
      * intros H. rewrite (proj2 (IH (c :: acc) seen)) by auto.
        simpl. now rewrite <- app_assoc.
Qed.

Lemma takeWord_length (t : list ascii) :
  List.length (takeWord t) <= List.length t.
Proof.
  induction t as [|c t IH]; simpl; [lia|].
  destruct (isWord c); simpl; lia.
Qed.

Lemma dropOptQuote_length (t : list ascii) :
  List.length (dropOptQuote t) <= List.length t.
Proof.
  destruct t as [|c t]; simpl; [lia|]. destruct (isQuoteChar c); simpl; lia.
Qed.

Lemma bracketTail_length (t w : list ascii) :
  bracketTail t = Some w -> List.length w <= List.length t.
Proof.
  induction t as [|c t IH]; [discriminate|].
  cbn [bracketTail]. destruct (bracketTailAt (c :: t)) as [w'|] eqn:B.
  - intros [= ->]. unfold bracketTailAt in B.
    destruct (Ascii.eqb c "["); [|discriminate].
    destruct (takeWord (dropOptQuote t)) as [|x w0] eqn:T; [discriminate|].
    destruct (dropOptQuote (dropWord (dropOptQuote t))) as [|e [|? ?]];
      try discriminate.
    destruct (Ascii.eqb e "]"); [|discriminate].
    injection B as <-. rewrite <- T.
    assert (A := takeWord_length (dropOptQuote t)).
    assert (B := dropOptQuote_length t). simpl. lia.
  - intros H. apply IH in H. simpl. lia.
Qed.

(** The short form of a path is never longer than the path, and for a
    path with a dot it is the part after the last dot. *)
Theorem getShortPath_last_part (path : string) :
  List.length (chars (getShortPath path)) <= List.length (chars path) /\
  (In "."%char (chars path) ->
   ~ In "."%char (chars (getShortPath path)) /\
   exists pre, chars path = pre ++ "."%char :: chars (getShortPath path)).
Proof.
  unfold getShortPath.
  destruct (in_dec ascii_dec "."%char (chars path)) as [Hin|Hout].
  - destruct (proj1 (lastPart_spec "."%char (chars path) [] false) Hin)
      as (Hs & Hn & pre & Hp).
    destruct (lastPart "."%char (chars path) [] false) as [part seen].
    cbn [fst snd] in *. subst seen. rewrite chars_str. split.
    + rewrite Hp, length_app. simpl. lia.
    + intros _. split; [exact Hn|]. now exists pre.
  - rewrite (proj2 (lastPart_spec "."%char (chars path) [] false) Hout).
    split; [|intros H; contradiction].
    destruct (bracketTail (chars path)) as [w|] eqn:B.
    + rewrite chars_str. now apply bracketTail_length.
    + destruct (15 <? List.length (chars path)) eqn:L; [|lia].
      apply Nat.ltb_lt in L.
      rewrite chars_append, chars_str, length_app, substring_prefix,
              length_firstn.
      change (List.length (chars "...")) with 3. lia.
Qed.

End BaseFacts.

(** ** The entries of a dictionary, object or initializer *)

Module EntryFacts.

Import Js Model Classifier Entries Shapes TextFacts.

Section Loop.

Variable parseEntry : string -> option (string * string).

(** A sealed segment is read to its end without a push. *)
Lemma run_segment (seg rest cur : list ascii) (d : Z)
    (entries : list (string * string)) :
  sealed d seg = true ->
  entryLoop parseEntry (seg ++ rest) d cur entries =
  entryLoop parseEntry rest 0%Z (rev seg ++ cur) entries.
Proof.
  revert d cur. induction seg as [|c r IH]; intros d cur H.
  - simpl in H. apply Z.eqb_eq in H. now subst d.
  - cbn [sealed] in H. apply andb_prop in H as [Hc Hr].
    cbn [app entryLoop]. fold (depthStep d c).
    apply negb_true_iff in Hc. rewrite Hc.
    rewrite (IH _ (c :: cur) Hr). cbn [rev]. now rewrite <- app_assoc.
Qed.

Lemma run_comma (rest cur : list ascii) (entries : list (string * string)) :
  entryLoop parseEntry (","%char :: rest) 0%Z cur entries =
  entryLoop parseEntry rest 0%Z [] (pushParsed parseEntry entries (rev cur)).
Proof. reflexivity. Qed.

Lemma entryLoop_segments (segs : list (list ascii))
    (entries : list (string * string)) :
  Forall (fun s => sealed 0%Z s = true) segs ->
  entryLoop parseEntry (joinSegments segs) 0%Z [] entries =
  readSegments parseEntry entries segs.
Proof.
  intros H. revert entries. induction H as [|s rest Hs Hrest IH]; intros entries.
  - reflexivity.
  - destruct rest as [|s' rest'].
    + cbn [joinSegments readSegments].
      rewrite <- (app_nil_r s) at 1. rewrite (run_segment s [] [] _ _ Hs).
      cbn [entryLoop]. now rewrite app_nil_r, rev_involutive.
    + change (joinSegments (s :: s' :: rest'))
        with (s ++ ","%char :: joinSegments (s' :: rest')).
      rewrite (run_segment s _ [] _ _ Hs), run_comma.
      rewrite app_nil_r, rev_involutive.
      change (readSegments parseEntry entries (s :: s' :: rest'))
        with (readSegments parseEntry (pushParsed parseEntry entries s)
                           (s' :: rest')).
      apply IH.
Qed.

End Loop.

Lemma dictLoop_entryLoop (t cur : list ascii) (d : Z)
    (entries : list (string * string)) :
  dictLoop t d cur entries = entryLoop parseKeyValue t d cur entries.
Proof.
  revert d cur entries. induction t as [|c t IH]; intros d cur entries.
  - reflexivity.
  - cbn [dictLoop entryLoop].
    destruct (Ascii.eqb c "," && _); apply IH.
Qed.

(** [parseDictEntries] splits the content at the commas met at depth
    zero and nowhere else: when the content is made of segments that
    hold no such comma and end at depth zero, the entries are the
    readings of the segments in order, a segment that [parseKeyValue]
    refuses being dropped and a blank last segment being skipped. *)
Theorem parseDictEntries_segments (segs : list (list ascii)) :
  Forall (fun s => sealed 0%Z s = true) segs ->
  parseDictEntries (str (joinSegments segs)) =
  readSegments parseKeyValue [] segs.
Proof.
  intros H. unfold parseDictEntries.
  rewrite chars_str, dictLoop_entryLoop. now apply entryLoop_segments.
Qed.

Lemma parseDictEntries_segments_witness :
  parseDictEntries (str (joinSegments Samples.nestedSegments)) =
  [("a", "[1, 2]"); ("b", "f(x, y)")].
Proof.
  rewrite (parseDictEntries_segments Samples.nestedSegments).
  - vm_compute. reflexivity.
  - repeat constructor.
Defined.

Lemma pushParsed_total (entries : list (string * string)) (s : list ascii) :
  List.length (pushParsed JavaScriptInput.parseKeyValue entries s) =
  S (List.length entries).
Proof.
  unfold pushParsed, JavaScriptInput.parseKeyValue.
  destruct (indexOf _ _ 0); rewrite length_app; simpl; lia.
Qed.

Lemma readSegments_count (segs : list (list ascii))
    (entries : list (string * string)) :
  List.length (readSegments JavaScriptInput.parseKeyValue entries segs) =
  List.length entries + List.length segs -
  (if String.eqb (trim (str (last segs []))) "" then Nat.min 1 (List.length segs)
   else 0).
Proof.
  revert entries. induction segs as [|s rest IH]; intros entries.
  - cbn [readSegments last List.length].
    destruct (String.eqb (trim (str [])) ""); simpl; lia.
  - destruct rest as [|s' rest'].
    + cbn [readSegments last]. destruct (String.eqb (trim (str s)) "").
      * simpl. lia.
      * rewrite pushParsed_total. simpl. lia.
    + change (readSegments JavaScriptInput.parseKeyValue entries
                           (s :: s' :: rest'))
        with (readSegments JavaScriptInput.parseKeyValue
                (pushParsed JavaScriptInput.parseKeyValue entries s)
                (s' :: rest')).
      rewrite IH, pushParsed_total.
      change (last (s :: s' :: rest') []) with (last (s' :: rest') []).
      destruct (String.eqb (trim (str (last (s' :: rest') []))) "");
        simpl; lia.
Qed.

(** [parseObjectEntries] splits the content at the commas met at depth
    zero and nowhere else, and it drops no segment but a blank last one:
    a segment without a colon is read as a shorthand property. *)
Theorem parseObjectEntries_segments (segs : list (list ascii)) :
  Forall (fun s => sealed 0%Z s = true) segs ->
  JavaScriptInput.parseObjectEntries (str (joinSegments segs)) =
    readSegments JavaScriptInput.parseKeyValue [] segs /\
  List.length (JavaScriptInput.parseObjectEntries (str (joinSegments segs))) =
    List.length segs -
    (if String.eqb (trim (str (last segs []))) ""
     then Nat.min 1 (List.length segs) else 0).
Proof.
  intros H. unfold JavaScriptInput.parseObjectEntries.
  rewrite chars_str, (entryLoop_segments _ segs [] H).
  split; [reflexivity|]. now rewrite readSegments_count.
Qed.

Lemma parseObjectEntries_segments_witness :
  JavaScriptInput.parseObjectEntries
    (str (joinSegments Samples.shorthandSegments)) =
  [("order", "order"); ("total", "total")].
Proof.
  rewrite (proj1 (parseObjectEntries_segments Samples.shorthandSegments
                    ltac:(repeat constructor))).
  vm_compute. reflexivity.
Defined.

Lemma indexOf_first_char (pre r : list ascii) (c : ascii) :
  ~ In c pre -> indexOf (pre ++ c :: r) [c] 0 = Some (List.length pre).
Proof.
  intros H. unfold indexOf. cbn [Nat.ltb Nat.leb skipn].
  assert (G : forall i, indexOfAux [c] (pre ++ c :: r) i =
                        Some (i + List.length pre)).
  { induction pre as [|d pre IH]; intros i.
    - simpl. rewrite Ascii.eqb_refl. simpl. f_equal. lia.
    - cbn [app indexOfAux starts].
      destruct (Ascii.eqb c d) eqn:E.
      + apply Ascii.eqb_eq in E. subst d. exfalso. apply H. now left.
      + cbn [andb]. rewrite IH by (intros X; apply H; now right).
        simpl. f_equal. lia. }
  apply G.
Qed.

Lemma lastIndexFrom_after (post : list ascii) (c : ascii) (i : nat)
    (found : option nat) :
  ~ In c post -> CSharpInput.lastIndexFrom post c i found = found.
Proof.
  revert i found. induction post as [|d post IH]; intros i found H.
  - reflexivity.
  - cbn [CSharpInput.lastIndexFrom].
    destruct (Ascii.eqb d c) eqn:E.
    + apply Ascii.eqb_eq in E. subst d. exfalso. apply H. now left.
    + apply IH. intros X. apply H. now right.
Qed.

Lemma lastIndexOf_last_char (pre post : list ascii) (c : ascii) :
  ~ In c post ->
  CSharpInput.lastIndexOf (pre ++ c :: post) c = Some (List.length pre).
Proof.
  intros H. unfold CSharpInput.lastIndexOf.
  assert (G : forall i found,
            CSharpInput.lastIndexFrom (pre ++ c :: post) c i found =
            Some (i + List.length pre)).
  { induction pre as [|d pre IH]; intros i found.
    - cbn [app CSharpInput.lastIndexFrom]. rewrite Ascii.eqb_refl.
      rewrite lastIndexFrom_after by exact H. simpl. f_equal. lia.
    - cbn [app CSharpInput.lastIndexFrom]. rewrite IH. simpl. f_equal. lia. }
  apply G.
Qed.

Lemma slice_middle (a m b t : list ascii) (i j : nat) :
  t = a ++ m ++ b -> i = List.length a ->
  j = List.length a + List.length m ->
  slice t i j = m.
Proof.
  intros -> -> ->. unfold slice. rewrite !length_app.
  rewrite Nat.min_l by lia.
  replace (List.length a + List.length m - List.length a)
    with (List.length m) by lia.
  rewrite skipn_app, skipn_all, Nat.sub_diag. cbn [skipn app].
  now rewrite firstn_app, firstn_all, Nat.sub_diag, app_nil_r.
Qed.

(** [parseObjectInitializer] reads what stands between the first opening
    brace and the last closing brace of the expression, and splits it at
    the commas met at depth zero and nowhere else. *)
Theorem parseObjectInitializer_segments (pre post : list ascii)
    (segs : list (list ascii)) :
  ~ In "{"%char pre -> ~ In "}"%char post ->
  Forall (fun s => sealed 0%Z s = true) segs ->
  CSharpInput.parseObjectInitializer
    (str (pre ++ "{"%char :: joinSegments segs ++ "}"%char :: post)) =
  readSegments CSharpInput.parseCSharpAssignment [] segs.
Proof.
  intros Hpre Hpost H. unfold CSharpInput.parseObjectInitializer.
  rewrite chars_str. change (chars "{") with ["{"%char].
  rewrite indexOf_first_char by exact Hpre.
  rewrite (app_comm_cons (joinSegments segs)), app_assoc.
  rewrite lastIndexOf_last_char by exact Hpost.
  rewrite <- app_assoc, <- app_comm_cons.
  rewrite (slice_middle (pre ++ ["{"%char]) (joinSegments segs)
             ("}"%char :: post)
             (pre ++ "{"%char :: joinSegments segs ++ "}"%char :: post));
    [now apply entryLoop_segments| | |].
  - rewrite <- app_assoc. reflexivity.
  - rewrite length_app. reflexivity.
  - rewrite !length_app. cbn [List.length]. lia.
Qed.

Lemma parseObjectInitializer_segments_witness :
  CSharpInput.parseObjectInitializer
    (str (chars "new Order " ++ "{"%char ::
          joinSegments Samples.assignedSegments ++ "}"%char :: [])) =
  [("A", "[1, 2]"); ("B", "f(x, y)")].
Proof.
  rewrite (parseObjectInitializer_segments (chars "new Order ") []
             Samples.assignedSegments).
  - vm_compute. reflexivity.
  - vm_compute. intuition discriminate.
  - intros [].
  - repeat constructor.
Defined.

End EntryFacts.

(** ** The second argument of a C# call *)

Module CSharpInputFacts.

Import Js Model Classifier Shapes TextFacts CSharpInput.

Ltac measure := repeat (rewrite length_app || cbn [List.length]); lia.

Lemma nth_middle (pre : list ascii) (c : ascii) (rest : list ascii) :
  nth_error (pre ++ c :: rest) (List.length pre) = Some c.
Proof.
  rewrite nth_error_app2 by lia. now rewrite Nat.sub_diag.
Qed.

Lemma before_end (x : list ascii) (c : ascii) (rest : list ascii) :
  before (x ++ c :: rest) (S (List.length x)) = Some c.
Proof. apply nth_middle. Qed.

Lemma plainChar_facts (c : ascii) :
  plainChar c = true ->
  opensBracket c = false /\ closesBracket c = false /\
  Ascii.eqb c dquote = false /\ Ascii.eqb c squote = false /\
  Ascii.eqb c JavaScriptInput.backtick = false /\
  Ascii.eqb c backslash = false.
Proof.
  unfold plainChar. intros H.
  repeat (apply andb_prop in H as [H ?]).
  repeat split; now apply negb_true_iff.
Qed.

Lemma substring_middle (x m y t : list ascii) (i j : nat) :
  t = x ++ m ++ y -> i = List.length x ->
  j = List.length x + List.length m ->
  substring t i j = m.
Proof.
  intros -> -> ->. unfold substring. rewrite !length_app.
  rewrite (Nat.min_l (List.length x)) by lia.
  rewrite (Nat.min_l (List.length x + List.length m)) by lia.
  rewrite Nat.min_l, Nat.max_r by lia.
  replace (List.length x + List.length m - List.length x)
    with (List.length m) by lia.
  rewrite skipn_app, skipn_all, Nat.sub_diag. cbn [skipn app].
  now rewrite firstn_app, firstn_all, Nat.sub_diag, app_nil_r.
Qed.

(** The character before a position that follows a plain text, or the
    opening parenthesis, is not a backslash. *)
Lemma after_plain_unescaped (pre s rest : list ascii) (p : ascii) :
  plain s = true -> Ascii.eqb p backslash = false ->
  isChar (before ((pre ++ [p]) ++ s ++ rest)
                 (List.length ((pre ++ [p]) ++ s))) backslash = false.
Proof.
  intros Hs Hp. destruct s as [|c s] using rev_ind.
  - rewrite app_nil_r. cbn [app]. rewrite length_app. cbn [List.length].
    rewrite Nat.add_1_r, <- app_assoc. cbn [app].
    rewrite before_end. exact Hp.
  - clear IHs. unfold plain in Hs. rewrite forallb_app in Hs.
    apply andb_prop in Hs as [_ Hc]. cbn [forallb] in Hc.
    rewrite andb_true_r in Hc.
    replace (((pre ++ [p]) ++ (s ++ [c]) ++ rest))
      with (((pre ++ [p]) ++ s) ++ c :: rest)
      by (rewrite <- !app_assoc; reflexivity).
    replace (List.length ((pre ++ [p]) ++ s ++ [c]))
      with (S (List.length ((pre ++ [p]) ++ s))) by measure.
    rewrite before_end. cbn [isChar].
    now destruct (plainChar_facts c Hc) as (_ & _ & _ & _ & _ & E).
Qed.

(** One iteration on a plain character outside a literal. *)
Lemma argStep_plain (t pre rest : list ascii) (c : ascii) (st : argScan) :
  t = pre ++ c :: rest -> pos st = List.length pre ->
  inString st = false -> plainChar c = true ->
  argStep t st =
  if Ascii.eqb c ","%char && (depth st =? 1) then
    mkArgScan (S (pos st)) (depth st)
              (if S (argCount st) =? 1 then Some (S (pos st)) else argStart st)
              (S (argCount st)) false (stringChar st)
  else mkArgScan (S (pos st)) (depth st) (argStart st) (argCount st) false
                 (stringChar st).
Proof.
  intros -> Hp Hs Hc.
  destruct (plainChar_facts c Hc) as (Ho & Hcl & Hq & _).
  unfold argStep, at_. rewrite Hp, nth_middle, Hs, Hq, Ho, Hcl.
  cbn [andb negb]. rewrite andb_false_r. reflexivity.
Qed.

(** One iteration on a character that is no quote, outside a literal. *)
Lemma argStep_quoteless (t pre rest : list ascii) (c : ascii) (st : argScan) :
  t = pre ++ c :: rest -> pos st = List.length pre ->
  inString st = false -> quoteless c = true ->
  argStep t st =
  if Ascii.eqb c ","%char && (argDepth (depth st) c =? 1) then
    mkArgScan (S (pos st)) (argDepth (depth st) c)
              (if S (argCount st) =? 1 then Some (S (pos st)) else argStart st)
              (S (argCount st)) false (stringChar st)
  else mkArgScan (S (pos st)) (argDepth (depth st) c) (argStart st)
                 (argCount st) false (stringChar st).
Proof.
  intros -> Hp Hs Hc.
  assert (Hq : Ascii.eqb c dquote = false).
  { unfold quoteless in Hc. repeat (apply andb_prop in Hc as [Hc ?]).
    now apply negb_true_iff. }
  unfold argStep, at_. rewrite Hp, nth_middle, Hs, Hq.
  cbn [andb negb]. rewrite andb_false_r. reflexivity.
Qed.

Lemma argStep_close (t pre rest : list ascii) (st : argScan) :
  t = pre ++ ")"%char :: rest -> pos st = List.length pre ->
  inString st = false -> depth st = 1 ->
  argStep t st =
  mkArgScan (S (pos st)) 0 (argStart st) (argCount st) false (stringChar st).
Proof.
  intros -> Hp Hs Hd.
  unfold argStep, at_. rewrite Hp, nth_middle, Hs, Hd.
  change (Ascii.eqb ")" dquote) with false.
  cbn [andb negb]. rewrite andb_false_r. reflexivity.
Qed.

Lemma argStep_open_quote (t pre rest : list ascii) (st : argScan) :
  t = pre ++ dquote :: rest -> pos st = List.length pre ->
  inString st = false ->
  isChar (before t (List.length pre)) backslash = false ->
  argStep t st =
  mkArgScan (S (pos st)) (depth st) (argStart st) (argCount st) true
            (Some dquote).
Proof.
  intros Ht Hp Hs Hb.
  unfold argStep, at_. rewrite Hp, Hb. subst t.
  rewrite nth_middle, Hs, Ascii.eqb_refl. reflexivity.
Qed.

Lemma argStep_inside (t pre rest : list ascii) (c : ascii) (st : argScan) :
  t = pre ++ c :: rest -> pos st = List.length pre ->
  inString st = true -> stringChar st = Some dquote ->
  c <> dquote ->
  argStep t st =
  mkArgScan (S (pos st)) (depth st) (argStart st) (argCount st) true
            (Some dquote).
Proof.
  intros -> Hp Hs Hq Hc.
  unfold argStep, at_. rewrite Hp, nth_middle, Hs, Hq.
  assert (E1 : Ascii.eqb c dquote = false) by now apply Ascii.eqb_neq.
  assert (E2 : Ascii.eqb dquote c = false)
    by (apply Ascii.eqb_neq; congruence).
  cbn [isChar]. rewrite E1, E2. reflexivity.
Qed.

Lemma argStep_close_quote (t pre rest : list ascii) (st : argScan) :
  t = pre ++ dquote :: rest -> pos st = List.length pre ->
  inString st = true -> stringChar st = Some dquote ->
  isChar (before t (List.length pre)) backslash = false ->
  argStep t st =
  mkArgScan (S (pos st)) (depth st) (argStart st) (argCount st) false
            (Some dquote).
Proof.
  intros Ht Hp Hs Hq Hb.
  unfold argStep, at_. rewrite Hp, Hb. subst t.
  rewrite nth_middle, Hs, Hq. cbn [isChar]. rewrite Ascii.eqb_refl.
  reflexivity.
Qed.

Lemma running_inside (t pre rest : list ascii) (c : ascii) (st : argScan) :
  t = pre ++ c :: rest -> pos st = List.length pre -> 0 < depth st ->
  argRunning t st = true.
Proof.
  intros -> Hp Hd. unfold argRunning. rewrite Hp.
  apply andb_true_intro. split; [apply Nat.ltb_lt; measure|].
  now apply Nat.ltb_lt.
Qed.

(** The loop over a plain text without commas: nothing but the index
    changes. *)
Lemma argLoop_plain (seg : list ascii) :
  forall (t pre rest : list ascii) (fuel : nat) (st : argScan),
    t = pre ++ seg ++ rest -> rest <> [] ->
    pos st = List.length pre -> 0 < depth st -> inString st = false ->
    plain seg = true -> noComma seg = true ->
    argLoop (List.length seg + fuel) t st =
    argLoop fuel t
            (mkArgScan (List.length pre + List.length seg) (depth st)
                       (argStart st) (argCount st) false (stringChar st)).
Proof.
  induction seg as [|c seg IH]; intros t pre rest fuel st Ht Hr Hp Hd Hs Hpl Hn.
  - cbn [List.length Nat.add]. rewrite Nat.add_0_r.
    destruct st; cbn in *; now subst.
  - cbn [plain forallb] in Hpl. apply andb_prop in Hpl as [Hc Hpl].
    cbn [noComma forallb] in Hn. apply andb_prop in Hn as [Hcm Hn].
    apply negb_true_iff in Hcm.
    cbn [List.length Nat.add argLoop].
    rewrite (running_inside t pre (seg ++ rest) c st Ht Hp Hd).
    rewrite (argStep_plain t pre (seg ++ rest) c st Ht Hp Hs Hc), Hcm.
    cbn [andb].
    rewrite (IH t (pre ++ [c]) rest fuel _);
      cbn [pos depth inString argStart argCount stringChar];
      try assumption; try reflexivity.
    + now replace (List.length (pre ++ [c]) + List.length seg)
        with (List.length pre + S (List.length seg)) by measure.
    + rewrite Ht, <- app_assoc. reflexivity.
    + rewrite Hp. measure.
Qed.

(** The loop over the text after the first comma: the depth comes back
    to 1 and the start of the argument stays. *)
Lemma argLoop_nested (seg : list ascii) :
  forall (t pre rest : list ascii) (fuel : nat) (st : argScan),
    t = pre ++ seg ++ rest -> rest <> [] ->
    pos st = List.length pre -> 1 <= depth st -> inString st = false ->
    nested (depth st) seg = true -> 1 <= argCount st ->
    exists n,
      1 <= n /\
      argLoop (List.length seg + fuel) t st =
      argLoop fuel t
              (mkArgScan (List.length pre + List.length seg) 1 (argStart st)
                         n false (stringChar st)).
Proof.
  induction seg as [|c seg IH]; intros t pre rest fuel st Ht Hr Hp Hd Hs Hne Hn.
  - exists (argCount st). split; [exact Hn|].
    cbn [List.length Nat.add]. rewrite Nat.add_0_r.
    cbn [nested] in Hne. apply Nat.eqb_eq in Hne.
    destruct st; cbn in *; now subst.
  - cbn [nested] in Hne. apply andb_prop in Hne as [Hne Hrest].
    apply andb_prop in Hne as [Hq Hge]. apply Nat.leb_le in Hge.
    cbn [List.length Nat.add argLoop].
    rewrite (running_inside t pre (seg ++ rest) c st Ht Hp) by lia.
    rewrite (argStep_quoteless t pre (seg ++ rest) c st Ht Hp Hs Hq).
    assert (Hc1 : (S (argCount st) =? 1) = false) by (apply Nat.eqb_neq; lia).
    rewrite Hc1.
    assert (G : forall k, 1 <= k ->
              exists n, 1 <= n /\
                argLoop (List.length seg + fuel) t
                  (mkArgScan (S (pos st)) (argDepth (depth st) c)
                             (argStart st) k false (stringChar st)) =
                argLoop fuel t
                  (mkArgScan (List.length pre + S (List.length seg)) 1
                             (argStart st) n false (stringChar st))).
    { intros k Hk.
      destruct (IH t (pre ++ [c]) rest fuel
                   (mkArgScan (S (pos st)) (argDepth (depth st) c)
                              (argStart st) k false (stringChar st)))
        as (n & Hn1 & E);
        cbn [pos depth inString argStart argCount stringChar];
        try assumption; try reflexivity.
      - rewrite Ht, <- app_assoc. reflexivity.
      - rewrite Hp. measure.
      - exists n. split; [exact Hn1|]. rewrite E.
        cbn [pos depth inString argStart argCount stringChar].
        now replace (List.length (pre ++ [c]) + List.length seg)
          with (List.length pre + S (List.length seg)) by measure. }
    destruct (Ascii.eqb c "," && (argDepth (depth st) c =? 1)); apply G; lia.
Qed.

(** The loop inside a literal, over characters that are not the quote. *)
Lemma argLoop_inside (body : list ascii) :
  forall (t pre rest : list ascii) (fuel : nat) (st : argScan),
    t = pre ++ body ++ rest -> rest <> [] ->
    pos st = List.length pre -> 0 < depth st ->
    inString st = true -> stringChar st = Some dquote ->
    ~ In dquote body ->
    argLoop (List.length body + fuel) t st =
    argLoop fuel t
            (mkArgScan (List.length pre + List.length body) (depth st)
                       (argStart st) (argCount st) true (Some dquote)).
Proof.
  induction body as [|c body IH];
    intros t pre rest fuel st Ht Hr Hp Hd Hs Hq Hn.
  - cbn [List.length Nat.add]. rewrite Nat.add_0_r.
    destruct st; cbn in *; now subst.
  - cbn [List.length Nat.add argLoop].
    rewrite (running_inside t pre (body ++ rest) c st Ht Hp Hd).
    rewrite (argStep_inside t pre (body ++ rest) c st Ht Hp Hs Hq)
      by (intros ->; apply Hn; now left).
    rewrite (IH t (pre ++ [c]) rest fuel _);
      cbn [pos depth inString argStart argCount stringChar];
      try assumption; try reflexivity.
    + now replace (List.length (pre ++ [c]) + List.length body)
        with (List.length pre + S (List.length body)) by measure.
    + rewrite Ht, <- app_assoc. reflexivity.
    + rewrite Hp. measure.
    + intros X. apply Hn. now right.
Qed.

(** The loop over a literal, or over nothing. *)
Lemma argLoop_literal (lit : list ascii) :
  forall (t pre rest : list ascii) (fuel : nat) (st : argScan),
    plainLiteral lit ->
    t = pre ++ lit ++ rest -> rest <> [] ->
    pos st = List.length pre -> 0 < depth st -> inString st = false ->
    isChar (before t (List.length pre)) backslash = false ->
    exists sc,
      argLoop (List.length lit + fuel) t st =
      argLoop fuel t
              (mkArgScan (List.length pre + List.length lit) (depth st)
                         (argStart st) (argCount st) false sc).
Proof.
  intros t pre rest fuel st [->|(body & -> & Hn & Hl)] Ht Hr Hp Hd Hs Hb.
  - exists (stringChar st). cbn [List.length Nat.add]. rewrite Nat.add_0_r.
    destruct st; cbn in *; now subst.
  - exists (Some dquote).
    assert (Ht' : t = pre ++ dquote :: body ++ dquote :: rest).
    { rewrite Ht. cbn [app]. now rewrite <- app_assoc. }
    replace (List.length (dquote :: body ++ [dquote]) + fuel)
      with (S (List.length body + S fuel)) by measure.
    cbn [argLoop].
    rewrite (running_inside t pre (body ++ dquote :: rest) dquote st Ht' Hp Hd).
    rewrite (argStep_open_quote t pre _ st Ht' Hp Hs Hb).
    rewrite (argLoop_inside body t (pre ++ [dquote]) (dquote :: rest));
      cbn [pos depth inString argStart argCount stringChar];
      try assumption; try reflexivity; try discriminate.
    2:{ rewrite Ht', <- app_assoc. reflexivity. }
    2:{ rewrite Hp. measure. }
    cbn [argLoop].
    set (st2 := mkArgScan _ _ _ _ true (Some dquote)).
    assert (Ht2 : t = (pre ++ dquote :: body) ++ dquote :: rest).
    { rewrite Ht', <- app_assoc. reflexivity. }
    assert (Hp2 : pos st2 = List.length (pre ++ dquote :: body)).
    { unfold st2. cbn [pos]. measure. }
    rewrite (running_inside t _ rest dquote st2 Ht2 Hp2) by exact Hd.
    rewrite (argStep_close_quote t _ rest st2 Ht2 Hp2); try reflexivity.
    + unfold st2. cbn [pos depth argStart argCount].
      now replace (S (List.length (pre ++ [dquote]) + List.length body))
        with (List.length pre + List.length (dquote :: body ++ [dquote]))
        by measure.
    + rewrite Ht2.
      destruct (exists_last (l := dquote :: body)) as (x & c & E);
        [discriminate|].
      assert (Hc : c = last body dquote).
      { assert (L : last (dquote :: body) dquote = c)
          by (rewrite E; apply last_last).
        rewrite <- L. destruct body; reflexivity. }
      replace (pre ++ dquote :: body) with ((pre ++ x) ++ [c])
        by (rewrite <- app_assoc, <- E; reflexivity).
      rewrite <- app_assoc. cbn [app].
      replace (List.length ((pre ++ x) ++ [c]))
        with (S (List.length (pre ++ x))) by measure.
      rewrite before_end. cbn [isChar]. apply Ascii.eqb_neq. congruence.
Qed.

Lemma argLoop_stopped (fuel : nat) (t : list ascii) (st : argScan) :
  depth st = 0 -> argLoop fuel t st = st.
Proof.
  intros H. destruct fuel; [reflexivity|]. cbn [argLoop].
  unfold argRunning. rewrite H. now rewrite andb_false_r.
Qed.

(** The loop over the first argument of a call: plain text around one
    literal at most. *)
Lemma argLoop_first (s1 lit s2 : list ascii) :
  forall (t pre rest : list ascii) (p : ascii) (fuel : nat),
    t = (pre ++ [p]) ++ (s1 ++ lit ++ s2) ++ rest -> rest <> [] ->
    Ascii.eqb p backslash = false ->
    plain s1 = true -> noComma s1 = true -> plainLiteral lit ->
    plain s2 = true -> noComma s2 = true ->
    exists sc,
      argLoop (List.length (s1 ++ lit ++ s2) + fuel) t
              (mkArgScan (List.length (pre ++ [p])) 1 None 0 false None) =
      argLoop fuel t
              (mkArgScan (List.length (pre ++ [p]) +
                          List.length (s1 ++ lit ++ s2)) 1 None 0 false sc).
Proof.
  intros t pre rest p fuel Ht Hr Hp H1 N1 HL H2 N2.
  replace (List.length (s1 ++ lit ++ s2) + fuel)
    with (List.length s1 + (List.length lit + (List.length s2 + fuel)))
    by measure.
  rewrite (argLoop_plain s1 t (pre ++ [p]) ((lit ++ s2) ++ rest));
    cbn [pos depth inString argStart argCount stringChar];
    try assumption; try reflexivity; try lia.
  2:{ rewrite Ht, <- !app_assoc. reflexivity. }
  2:{ intros X. apply app_eq_nil in X as [_ X]. contradiction. }
  destruct (argLoop_literal lit t ((pre ++ [p]) ++ s1) (s2 ++ rest)
              (List.length s2 + fuel)
              (mkArgScan (List.length (pre ++ [p]) + List.length s1) 1 None 0
                         false None) HL)
    as (sc & E);
    cbn [pos depth inString argStart argCount stringChar];
    try reflexivity; try lia.
  { rewrite Ht, <- !app_assoc. reflexivity. }
  { intros X. apply app_eq_nil in X as [_ X]. contradiction. }
  { measure. }
  { rewrite Ht.
    replace ((pre ++ [p]) ++ (s1 ++ lit ++ s2) ++ rest)
      with ((pre ++ [p]) ++ s1 ++ (lit ++ s2 ++ rest))
      by (rewrite <- !app_assoc; reflexivity).
    now apply after_plain_unescaped. }
  exists sc. rewrite E. cbn [depth argStart argCount].
  rewrite (argLoop_plain s2 t (((pre ++ [p]) ++ s1) ++ lit) rest);
    cbn [pos depth inString argStart argCount stringChar];
    try assumption; try reflexivity; try lia.
  - do 2 f_equal. measure.
  - rewrite Ht, <- !app_assoc. reflexivity.
  - measure.
Qed.

(** For a call whose first argument is plain text around at most one
    string literal and whose remaining arguments hold no quote and only
    brackets that are closed again before the parenthesis of the call,
    [extractInputExpression] returns what stands between the first
    comma and the closing parenthesis of the call, trimmed: commas
    inside brackets and later top-level commas do not cut it. *)
Theorem csharp_input_after_first_comma (sourceCode : string)
    (matchIndex callStart parenStart : nat) (s1 lit s2 b post : list ascii) :
  indexOf (chars sourceCode) (chars "CallActivityAsync") matchIndex
    = Some callStart ->
  indexOf (chars sourceCode) (chars "(") callStart = Some parenStart ->
  skipn (parenStart + 1) (chars sourceCode)
    = (s1 ++ lit ++ s2) ++ ","%char :: b ++ ")"%char :: post ->
  plain s1 = true -> noComma s1 = true -> plainLiteral lit ->
  plain s2 = true -> noComma s2 = true -> nested 1 b = true ->
  extractInputExpression sourceCode matchIndex = Some (trim (str b)).
Proof.
  intros Hc Hp Hk H1 N1 HL H2 N2 Hb. unfold extractInputExpression.
  rewrite Hc, Hp. set (t := chars sourceCode) in *.
  set (a := s1 ++ lit ++ s2) in *.
  change (chars "(") with ["("%char] in Hp.
  apply indexOf_char_first in Hp as (Hr & Hparen & _).
  set (pre := firstn parenStart t).
  assert (Lp : List.length pre = parenStart)
    by (unfold pre; rewrite length_firstn; lia).
  assert (Ht : t = (pre ++ ["("%char]) ++ a ++ ","%char :: b ++
                   ")"%char :: post).
  { rewrite <- Hk, <- (firstn_skipn (parenStart + 1) t) at 1. f_equal.
    rewrite <- (firstn_skipn parenStart (firstn (parenStart + 1) t)).
    rewrite firstn_firstn, Nat.min_l by lia. fold pre. f_equal.
    rewrite <- firstn_skipn_comm.
    destruct (skipn parenStart t) as [|c r] eqn:E.
    - exfalso. assert (X := length_skipn parenStart t).
      rewrite E in X. simpl in X. lia.
    - rewrite <- hd_skipn, E in Hparen. injection Hparen as ->. reflexivity. }
  assert (Lt : List.length t =
               List.length a + (1 + (List.length b + (1 + (parenStart + 1 +
                 List.length post))))).
  { rewrite Ht. measure. }
  unfold argEnd. rewrite Lt.
  destruct (argLoop_first s1 lit s2 t pre (","%char :: b ++ ")"%char :: post)
              "("%char
              (1 + (List.length b + (1 + (parenStart + 1 + List.length post)))))
    as (sc & E); try assumption; try reflexivity; try discriminate.
  fold a in E.
  replace (List.length (pre ++ ["("%char])) with (parenStart + 1) in E
    by measure.
  rewrite E. clear E.
  (* the first comma *)
  cbn [Nat.add argLoop].
  set (st1 := mkArgScan _ 1 None 0 false sc).
  assert (Ht1 : t = ((pre ++ ["("%char]) ++ a) ++ ","%char :: b ++
                    ")"%char :: post)
    by (rewrite Ht, <- !app_assoc; reflexivity).
  assert (P1 : pos st1 = List.length ((pre ++ ["("%char]) ++ a))
    by (unfold st1; cbn [pos]; measure).
  rewrite (running_inside t _ _ _ st1 Ht1 P1) by (cbn; lia).
  rewrite (argStep_plain t _ _ ","%char st1 Ht1 P1);
    [|reflexivity|reflexivity].
  unfold st1. cbn [pos depth argCount argStart stringChar].
  rewrite Ascii.eqb_refl. cbn [Nat.eqb andb].
  (* the rest of the arguments *)
  destruct (argLoop_nested b t (((pre ++ ["("%char]) ++ a) ++ [","%char])
              (")"%char :: post)
              (S (parenStart + 1 + List.length post))
              (mkArgScan (S (parenStart + 1 + List.length a)) 1
                         (Some (S (parenStart + 1 + List.length a))) 1
                         false sc))
    as (n & Hn & E);
    cbn [pos depth inString argStart argCount stringChar];
    try assumption; try reflexivity; try discriminate; try lia.
  { rewrite Ht1, <- !app_assoc. reflexivity. }
  { measure. }
  rewrite E. clear E. cbn [argStart stringChar].
  (* the closing parenthesis *)
  cbn [Nat.add argLoop].
  set (st2 := mkArgScan _ 1 _ n false sc).
  assert (Ht2 : t = ((((pre ++ ["("%char]) ++ a) ++ [","%char]) ++ b) ++
                    ")"%char :: post)
    by (rewrite Ht1, <- !app_assoc; reflexivity).
  assert (P2 : pos st2 =
               List.length ((((pre ++ ["("%char]) ++ a) ++ [","%char]) ++ b))
    by (unfold st2; cbn [pos]; measure).
  rewrite (running_inside t _ _ _ st2 Ht2 P2) by (cbn; lia).
  rewrite (argStep_close t _ _ st2 Ht2 P2) by reflexivity.
  rewrite argLoop_stopped by reflexivity.
  unfold st2. cbn [argStart pos].
  do 3 f_equal.
  apply (substring_middle (((pre ++ ["("%char]) ++ a) ++ [","%char]) b
                          (")"%char :: post)).
  - rewrite Ht2, <- !app_assoc. reflexivity.
  - measure.
  - measure.
Qed.

Lemma csharp_input_after_first_comma_witness :
  extractInputExpression Samples.csharpCall 0 =
  Some "new Order { Id = id, Qty = 2 }".
Proof.
  refine (csharp_input_after_first_comma Samples.csharpCall 0 22 47
            [] (dquote :: chars "Reserve" ++ [dquote]) []
            (chars " new Order { Id = id, Qty = 2 }")
            [";"%char] eq_refl eq_refl eq_refl eq_refl eq_refl _
            eq_refl eq_refl eq_refl).
  right. exists (chars "Reserve"). split; [reflexivity|]. split.
  - cbn. intros H.
    repeat (destruct H as [H|H]; [discriminate H|]). exact H.
  - cbn. discriminate.
Defined.

(** A call with one argument has no input expression. *)
Theorem csharp_input_single_argument (sourceCode : string)
    (matchIndex callStart parenStart : nat) (s1 lit s2 post : list ascii) :
  indexOf (chars sourceCode) (chars "CallActivityAsync") matchIndex
    = Some callStart ->
  indexOf (chars sourceCode) (chars "(") callStart = Some parenStart ->
  skipn (parenStart + 1) (chars sourceCode)
    = (s1 ++ lit ++ s2) ++ ")"%char :: post ->
  plain s1 = true -> noComma s1 = true -> plainLiteral lit ->
  plain s2 = true -> noComma s2 = true ->
  extractInputExpression sourceCode matchIndex = None.
Proof.
  intros Hc Hp Hk H1 N1 HL H2 N2. unfold extractInputExpression.
  rewrite Hc, Hp. set (t := chars sourceCode) in *.
  set (a := s1 ++ lit ++ s2) in *.
  change (chars "(") with ["("%char] in Hp.
  apply indexOf_char_first in Hp as (Hr & Hparen & _).
  set (pre := firstn parenStart t).
  assert (Lp : List.length pre = parenStart)
    by (unfold pre; rewrite length_firstn; lia).
  assert (Ht : t = (pre ++ ["("%char]) ++ a ++ ")"%char :: post).
  { rewrite <- Hk, <- (firstn_skipn (parenStart + 1) t) at 1. f_equal.
    rewrite <- (firstn_skipn parenStart (firstn (parenStart + 1) t)).
    rewrite firstn_firstn, Nat.min_l by lia. fold pre. f_equal.
    rewrite <- firstn_skipn_comm.
    destruct (skipn parenStart t) as [|c r] eqn:E.
    - exfalso. assert (X := length_skipn parenStart t).
      rewrite E in X. simpl in X. lia.
    - rewrite <- hd_skipn, E in Hparen. injection Hparen as ->. reflexivity. }
  assert (Lt : List.length t =
               List.length a + (1 + (parenStart + 1 + List.length post))).
  { rewrite Ht. measure. }
  unfold argEnd. rewrite Lt.
  destruct (argLoop_first s1 lit s2 t pre (")"%char :: post) "("%char
              (1 + (parenStart + 1 + List.length post)))
    as (sc & E); try assumption; try reflexivity; try discriminate.
  fold a in E.
  replace (List.length (pre ++ ["("%char])) with (parenStart + 1) in E
    by measure.
  rewrite E. clear E.
  cbn [Nat.add argLoop].
  set (st1 := mkArgScan _ 1 None 0 false sc).
  assert (Ht1 : t = ((pre ++ ["("%char]) ++ a) ++ ")"%char :: post)
    by (rewrite Ht, <- !app_assoc; reflexivity).
  assert (P1 : pos st1 = List.length ((pre ++ ["("%char]) ++ a))
    by (unfold st1; cbn [pos]; measure).
  rewrite (running_inside t _ _ _ st1 Ht1 P1) by (cbn; lia).
  rewrite (argStep_close t _ _ st1 Ht1 P1) by reflexivity.
  rewrite argLoop_stopped by reflexivity. reflexivity.
Qed.

Lemma csharp_input_single_argument_witness :
  extractInputExpression Samples.csharpNotify 0 = None.
Proof.
  refine (csharp_input_single_argument Samples.csharpNotify 0 14 31
            [] (dquote :: chars "Notify" ++ [dquote]) [] [";"%char]
            eq_refl eq_refl eq_refl eq_refl eq_refl _ eq_refl eq_refl).
  right. exists (chars "Notify"). split; [reflexivity|]. split.
  - cbn. intros H.
    repeat (destruct H as [H|H]; [discriminate H|]). exact H.
  - cbn. discriminate.
Defined.

End CSharpInputFacts.

(** ** The second argument of a JavaScript call *)

Module JavaScriptInputFacts.

Import Js Model Classifier Shapes TextFacts JavaScriptInput.

Lemma quoteless_facts (c : ascii) :
  quoteless c = true -> isQuote c = false.
Proof.
  unfold quoteless, isQuote. intros H.
  repeat (apply andb_prop in H as [H ?]).
  repeat match goal with
         | X : negb _ = true |- _ => apply negb_true_iff in X; rewrite X
         end.
  reflexivity.
Qed.

Lemma plain_quoteless (c : ascii) :
  plainChar c = true -> quoteless c = true /\ forall d, argDepth d c = d.
Proof.
  intros H. destruct (CSharpInputFacts.plainChar_facts c H)
    as (Ho & Hc & H1 & H2 & H3 & H4).
  split.
  - unfold quoteless. now rewrite H1, H2, H3, H4.
  - intros d. unfold argDepth. now rewrite Ho, Hc.
Qed.

(** One iteration on a character that is no quote, outside a literal. *)
Lemma js_argStep_quoteless (t pre rest : list ascii) (c : ascii) (st : argScan) :
  t = pre ++ c :: rest -> pos st = List.length pre ->
  inString st = None -> quoteless c = true ->
  argStep t st =
  if Ascii.eqb c ","%char && (argDepth (depth st) c =? 1) then
    mkArgScan (S (pos st)) (argDepth (depth st) c)
              (if S (argCount st) =? 1 then Some (S (pos st)) else argStart st)
              (S (argCount st)) None
  else mkArgScan (S (pos st)) (argDepth (depth st) c) (argStart st)
                 (argCount st) None.
Proof.
  intros -> Hp Hs Hc.
  unfold argStep, at_. rewrite Hp, CSharpInputFacts.nth_middle, Hs.
  rewrite (quoteless_facts c Hc). cbn [andb]. reflexivity.
Qed.

Lemma js_running_inside (t pre rest : list ascii) (c : ascii) (st : argScan) :
  t = pre ++ c :: rest -> pos st = List.length pre -> 0 < depth st ->
  argRunning t st = true.
Proof.
  intros -> Hp Hd. unfold argRunning. rewrite Hp.
  apply andb_true_intro. split; [apply Nat.ltb_lt; CSharpInputFacts.measure|].
  now apply Nat.ltb_lt.
Qed.

(** The loop over the first argument: nothing but the index changes. *)
Lemma js_argLoop_plain (seg : list ascii) :
  forall (t pre rest : list ascii) (fuel : nat) (st : argScan),
    t = pre ++ seg ++ rest -> rest <> [] ->
    pos st = List.length pre -> 0 < depth st -> inString st = None ->
    plain seg = true -> noComma seg = true ->
    argLoop (List.length seg + fuel) t st =
    argLoop fuel t
            (mkArgScan (List.length pre + List.length seg) (depth st)
                       (argStart st) (argCount st) None).
Proof.
  induction seg as [|c seg IH]; intros t pre rest fuel st Ht Hr Hp Hd Hs Hpl Hn.
  - cbn [List.length Nat.add]. rewrite Nat.add_0_r.
    destruct st; cbn in *; now subst.
  - cbn [plain forallb] in Hpl. apply andb_prop in Hpl as [Hc Hpl].
    cbn [noComma forallb] in Hn. apply andb_prop in Hn as [Hcm Hn].
    apply negb_true_iff in Hcm.
    destruct (plain_quoteless c Hc) as [Hq Hdep].
    cbn [List.length Nat.add argLoop].
    rewrite (js_running_inside t pre (seg ++ rest) c st Ht Hp Hd).
    rewrite (js_argStep_quoteless t pre (seg ++ rest) c st Ht Hp Hs Hq), Hcm.
    cbn [andb]. rewrite Hdep.
    rewrite (IH t (pre ++ [c]) rest fuel _);
      cbn [pos depth inString argStart argCount];
      try assumption; try reflexivity.
    + now replace (List.length (pre ++ [c]) + List.length seg)
        with (List.length pre + S (List.length seg)) by CSharpInputFacts.measure.
    + rewrite Ht, <- app_assoc. reflexivity.
    + rewrite Hp. CSharpInputFacts.measure.
Qed.

(** The loop over the text after the first comma: the depth comes back
    to 1 and the start of the argument stays. *)
Lemma js_argLoop_nested (seg : list ascii) :
  forall (t pre rest : list ascii) (fuel : nat) (st : argScan),
    t = pre ++ seg ++ rest -> rest <> [] ->
    pos st = List.length pre -> 1 <= depth st -> inString st = None ->
    nested (depth st) seg = true -> 1 <= argCount st ->
    exists n,
      1 <= n /\
      argLoop (List.length seg + fuel) t st =
      argLoop fuel t
              (mkArgScan (List.length pre + List.length seg) 1 (argStart st)
                         n None).
Proof.
  induction seg as [|c seg IH]; intros t pre rest fuel st Ht Hr Hp Hd Hs Hne Hn.
  - exists (argCount st). split; [exact Hn|].
    cbn [List.length Nat.add]. rewrite Nat.add_0_r.
    cbn [nested] in Hne. apply Nat.eqb_eq in Hne.
    destruct st; cbn in *; now subst.
  - cbn [nested] in Hne. apply andb_prop in Hne as [Hne Hrest].
    apply andb_prop in Hne as [Hq Hge]. apply Nat.leb_le in Hge.
    cbn [List.length Nat.add argLoop].
    rewrite (js_running_inside t pre (seg ++ rest) c st Ht Hp) by lia.
    rewrite (js_argStep_quoteless t pre (seg ++ rest) c st Ht Hp Hs Hq).
    assert (Hc1 : (S (argCount st) =? 1) = false) by (apply Nat.eqb_neq; lia).
    rewrite Hc1.
    assert (G : forall k, 1 <= k ->
              exists n, 1 <= n /\
                argLoop (List.length seg + fuel) t
                  (mkArgScan (S (pos st)) (argDepth (depth st) c)
                             (argStart st) k None) =
                argLoop fuel t
                  (mkArgScan (List.length pre + S (List.length seg)) 1
                             (argStart st) n None)).
    { intros k Hk.
      destruct (IH t (pre ++ [c]) rest fuel
                   (mkArgScan (S (pos st)) (argDepth (depth st) c)
                              (argStart st) k None))
        as (n & Hn1 & E);
        cbn [pos depth inString argStart argCount];
        try assumption; try reflexivity.
      - rewrite Ht, <- app_assoc. reflexivity.
      - rewrite Hp. CSharpInputFacts.measure.
      - exists n. split; [exact Hn1|]. rewrite E.
        cbn [pos depth inString argStart argCount].
        now replace (List.length (pre ++ [c]) + List.length seg)
          with (List.length pre + S (List.length seg)) by CSharpInputFacts.measure. }
    destruct (Ascii.eqb c "," && (argDepth (depth st) c =? 1)); apply G; lia.
Qed.

Lemma js_argLoop_stopped (fuel : nat) (t : list ascii) (st : argScan) :
  depth st = 0 -> argLoop fuel t st = st.
Proof.
  intros H. destruct fuel; [reflexivity|]. cbn [argLoop].
  unfold argRunning. rewrite H. now rewrite andb_false_r.
Qed.

(** For a call whose first argument holds no comma, bracket or quote
    and whose remaining arguments hold no quote and only brackets that
    are closed again before the parenthesis of the call,
    [extractInputExpression] returns what stands between the first
    comma and the closing parenthesis of the call, trimmed: commas
    inside brackets and later top-level commas do not cut it. *)
Theorem js_input_after_first_comma (sourceCode : string)
    (matchIndex callStart parenStart : nat) (a b post : list ascii) :
  indexOf (chars sourceCode) (chars "callActivity") matchIndex
    = Some callStart ->
  indexOf (chars sourceCode) (chars "(") callStart = Some parenStart ->
  skipn (parenStart + 1) (chars sourceCode)
    = a ++ ","%char :: b ++ ")"%char :: post ->
  plain a = true -> noComma a = true -> nested 1 b = true ->
  extractInputExpression sourceCode matchIndex = Some (trim (str b)).
Proof.
  intros Hc Hp Hk Ha Na Hb. unfold extractInputExpression.
  rewrite Hc, Hp. set (t := chars sourceCode) in *.
  change (chars "(") with ["("%char] in Hp.
  apply indexOf_char_first in Hp as (Hr & Hparen & _).
  set (pre := firstn (parenStart + 1) t).
  assert (Lp : List.length pre = parenStart + 1)
    by (unfold pre; rewrite length_firstn; lia).
  assert (Ht : t = pre ++ a ++ ","%char :: b ++ ")"%char :: post).
  { rewrite <- Hk. unfold pre. now rewrite firstn_skipn. }
  assert (Lt : List.length t =
               List.length a + (1 + (List.length b + (1 + (parenStart + 1 +
                 List.length post))))).
  { rewrite Ht. CSharpInputFacts.measure. }
  unfold argEnd. rewrite Lt.
  rewrite (js_argLoop_plain a t pre (","%char :: b ++ ")"%char :: post));
    cbn [pos depth inString argStart argCount];
    try assumption; try reflexivity; try discriminate; try lia.
  (* the first comma *)
  cbn [Nat.add argLoop].
  set (st1 := mkArgScan _ 1 None 0 None).
  assert (Ht1 : t = (pre ++ a) ++ ","%char :: b ++ ")"%char :: post)
    by (rewrite Ht, <- !app_assoc; reflexivity).
  assert (P1 : pos st1 = List.length (pre ++ a))
    by (unfold st1; cbn [pos]; CSharpInputFacts.measure).
  rewrite (js_running_inside t _ _ _ st1 Ht1 P1) by (cbn; lia).
  rewrite (js_argStep_quoteless t _ _ ","%char st1 Ht1 P1);
    [|reflexivity|reflexivity].
  unfold st1. cbn [pos depth argCount argStart].
  change (argDepth 1 ","%char) with 1.
  rewrite Ascii.eqb_refl. cbn [Nat.eqb andb].
  (* the rest of the arguments *)
  destruct (js_argLoop_nested b t ((pre ++ a) ++ [","%char])
              (")"%char :: post)
              (S (parenStart + 1 + List.length post))
              (mkArgScan (S (List.length pre + List.length a)) 1
                         (Some (S (List.length pre + List.length a))) 1
                         None))
    as (n & Hn & E);
    cbn [pos depth inString argStart argCount];
    try assumption; try reflexivity; try discriminate; try lia.
  { rewrite Ht1, <- !app_assoc. reflexivity. }
  { CSharpInputFacts.measure. }
  rewrite E. clear E. cbn [argStart].
  (* the closing parenthesis *)
  cbn [Nat.add argLoop].
  set (st2 := mkArgScan _ 1 _ n None).
  assert (Ht2 : t = (((pre ++ a) ++ [","%char]) ++ b) ++ ")"%char :: post)
    by (rewrite Ht1, <- !app_assoc; reflexivity).
  assert (P2 : pos st2 = List.length (((pre ++ a) ++ [","%char]) ++ b))
    by (unfold st2; cbn [pos]; CSharpInputFacts.measure).
  rewrite (js_running_inside t _ _ _ st2 Ht2 P2) by (cbn; lia).
  rewrite (js_argStep_quoteless t _ _ ")"%char st2 Ht2 P2);
    [|reflexivity|reflexivity].
  unfold st2. cbn [pos depth argCount argStart].
  change (argDepth 1 ")"%char) with 0.
  change (Ascii.eqb ")" ",") with false. cbn [andb].
  rewrite js_argLoop_stopped by reflexivity.
  cbn [argStart pos].
  do 3 f_equal.
  apply (CSharpInputFacts.substring_middle ((pre ++ a) ++ [","%char]) b
                                           (")"%char :: post)).
  - rewrite Ht2, <- !app_assoc. reflexivity.
  - CSharpInputFacts.measure.
  - CSharpInputFacts.measure.
Qed.

Lemma js_input_after_first_comma_witness :
  extractInputExpression Samples.jsCall 0 =
  Some "{ id: order.id, items: [a, b] }".
Proof.
  exact (js_input_after_first_comma Samples.jsCall 0 20 32
           (chars "reserve") (chars " { id: order.id, items: [a, b] }")
           [";"%char] eq_refl eq_refl eq_refl eq_refl eq_refl eq_refl).
Defined.

(** A call with one argument has no input expression. *)
Theorem js_input_single_argument (sourceCode : string)
    (matchIndex callStart parenStart : nat) (a post : list ascii) :
  indexOf (chars sourceCode) (chars "callActivity") matchIndex
    = Some callStart ->
  indexOf (chars sourceCode) (chars "(") callStart = Some parenStart ->
  skipn (parenStart + 1) (chars sourceCode) = a ++ ")"%char :: post ->
  plain a = true -> noComma a = true ->
  extractInputExpression sourceCode matchIndex = None.
Proof.
  intros Hc Hp Hk Ha Na. unfold extractInputExpression.
  rewrite Hc, Hp. set (t := chars sourceCode) in *.
  change (chars "(") with ["("%char] in Hp.
  apply indexOf_char_first in Hp as (Hr & Hparen & _).
  set (pre := firstn (parenStart + 1) t).
  assert (Lp : List.length pre = parenStart + 1)
    by (unfold pre; rewrite length_firstn; lia).
  assert (Ht : t = pre ++ a ++ ")"%char :: post).
  { rewrite <- Hk. unfold pre. now rewrite firstn_skipn. }
  assert (Lt : List.length t =
               List.length a + (1 + (parenStart + 1 + List.length post))).
  { rewrite Ht. CSharpInputFacts.measure. }
  unfold argEnd. rewrite Lt.
  rewrite (js_argLoop_plain a t pre (")"%char :: post));
    cbn [pos depth inString argStart argCount];
    try assumption; try reflexivity; try discriminate; try lia.
  cbn [Nat.add argLoop].
  set (st1 := mkArgScan _ 1 None 0 None).
  assert (Ht1 : t = (pre ++ a) ++ ")"%char :: post)
    by (rewrite Ht, <- !app_assoc; reflexivity).
  assert (P1 : pos st1 = List.length (pre ++ a))
    by (unfold st1; cbn [pos]; CSharpInputFacts.measure).
  rewrite (js_running_inside t _ _ _ st1 Ht1 P1) by (cbn; lia).
  rewrite (js_argStep_quoteless t _ _ ")"%char st1 Ht1 P1);
    [|reflexivity|reflexivity].
  unfold st1. cbn [pos depth argCount argStart].
  change (argDepth 1 ")"%char) with 0.
  change (Ascii.eqb ")" ",") with false. cbn [andb].
  rewrite js_argLoop_stopped by reflexivity. reflexivity.
Qed.

Lemma js_input_single_argument_witness :
  extractInputExpression Samples.jsNotify 0 = None.
Proof.
  exact (js_input_single_argument Samples.jsNotify 0 10 22
           (chars "notify") [";"%char] eq_refl eq_refl eq_refl eq_refl
           eq_refl).
Defined.

End JavaScriptInputFacts.

(** ** The endpoints of the control edges *)

Module EdgeFacts.

Import Js Model Effects Assembler Spec AssemblerFacts.

Section Endpoints.

Variable g : JsMap.
Variable S : list WorkflowNode.

(** [Src] holds of the nodes an edge may leave, [Tgt] of the nodes an
    edge may enter. *)
Variables Src Tgt : WorkflowNode -> Prop.

Hypothesis start_src : forall n,
  In n S -> nodeType n = TStart -> Src n.
Hypothesis step_both : forall n,
  In n S -> nodeType n <> TStart -> nodeType n <> TEnd -> Src n /\ Tgt n.
Hypothesis member_both : forall p j,
  In p S -> mapGet g (nodeId p) = Some j -> Src p /\ Tgt p.
Hypothesis join_both : forall k j jn,
  mapGet g k = Some j -> findById S j = Some jn -> Src jn /\ Tgt jn.
Hypothesis end_tgt : forall n,
  In n S -> nodeType n = TEnd -> Tgt n.

Let Between (e : WorkflowEdge) : Prop :=
  exists s t ty,
    Src s /\ Tgt t /\ e = controlEdge s t ty /\
    (ty = EDefault \/ ty = EParallel).

Let Good (w : Walk) : Prop :=
  (forall e, In e (walkEdges w) -> Between e) /\
  (forall l, lastSequentialNode w = Some l -> Src l).

Lemma sequentialEdge_between (w : Walk) (n : WorkflowNode) (e : WorkflowEdge) :
  Good w -> Tgt n -> In e (sequentialEdge (lastSequentialNode w) n) ->
  Between e.
Proof.
  intros [_ HL] Hn He. unfold sequentialEdge in He.
  destruct (lastSequentialNode w) as [l|]; [|destruct He].
  destruct (String.eqb (nodeId l) (nodeId n)); [destruct He|].
  destruct He as [<-|[]]. exists l, n, EDefault.
  split; [now apply HL|]. split; [exact Hn|]. split; [reflexivity|now left].
Qed.

Lemma good_push (w : Walk) (es : list WorkflowEdge) (l : WorkflowNode)
    (p : list string) :
  Good w -> (forall e, In e es -> Between e) -> Src l ->
  Good (mkWalk (walkEdges w ++ es) (Some l) p).
Proof.
  intros [HE HL] Hes Hl. split; cbn.
  - intros e He. apply in_app_or in He as [He|He]; auto.
  - intros l' El. now injection El as <-.
Qed.

Lemma good_cursor (w : Walk) (l : WorkflowNode) (p : list string) :
  Good w -> Src l -> Good (mkWalk (walkEdges w) (Some l) p).
Proof.
  intros [HE HL] Hl. split; cbn; [exact HE|].
  intros l' El. now injection El as <-.
Qed.

Lemma visit_good (n : WorkflowNode) (w : Walk) :
  In n S -> Good w -> Good (visit g S w n).
Proof.
  intros Hn HG. unfold visit.
  destruct (nodeTypeEqb (nodeType n) TStart) eqn:T1.
  { apply nodeTypeEqb_eq in T1. apply good_cursor; [exact HG|].
    now apply start_src. }
  destruct (nodeTypeEqb (nodeType n) TEnd) eqn:T2; [exact HG|].
  assert (N1 : nodeType n <> TStart).
  { intros X. apply nodeTypeEqb_eq in X. congruence. }
  assert (N2 : nodeType n <> TEnd).
  { intros X. apply nodeTypeEqb_eq in X. congruence. }
  destruct (step_both n Hn N1 N2) as [Sn Tn].
  assert (Seq : Good (mkWalk (walkEdges w ++
                               sequentialEdge (lastSequentialNode w) n)
                             (Some n) (processedParallelGroups w))).
  { apply good_push; [exact HG| |exact Sn].
    intros e He. exact (sequentialEdge_between w n e HG Tn He). }
  destruct (memb (nodeId n) (parallelTaskNodeIds S)).
  { destruct (mapGet g (nodeId n)) as [j|] eqn:Hj; [|exact Seq].
    destruct (negb (truthy (Some j))); [exact Seq|].
    destruct (memb j (processedParallelGroups w)); [exact HG|].
    assert (Out : forall e,
              In e (fanOut (lastSequentialNode w) (groupOf g S j)) ->
              Between e).
    { intros e He. unfold fanOut in He.
      destruct (lastSequentialNode w) as [l|] eqn:L; [|destruct He].
      apply in_map_iff in He as (p & <- & Hp).
      apply groupOf_In in Hp as [Hp Hpj].
      exists l, p, EParallel. split; [exact (proj2 HG l L)|].
      split; [exact (proj2 (member_both p j Hp Hpj))|].
      split; [reflexivity|now right]. }
    destruct (findById S j) as [jn|] eqn:Hf.
    - destruct (join_both _ _ _ Hj Hf) as [Sj Tj].
      apply good_push; [exact HG| |exact Sj].
      intros e He. apply in_app_or in He as [He|He]; [now apply Out|].
      unfold fanIn in He. apply in_map_iff in He as (p & <- & Hp).
      apply groupOf_In in Hp as [Hp Hpj].
      exists p, jn, EParallel.
      split; [exact (proj1 (member_both p j Hp Hpj))|].
      split; [exact Tj|]. split; [reflexivity|now right].
    - destruct HG as [HE HL]. split; cbn.
      + intros e He. apply in_app_or in He as [He|He]; auto.
      + exact HL. }
  destruct (memb (nodeId n) (joinNodeIds S)); [|exact Seq].
  destruct (lastSequentialNode w) as [l|] eqn:L.
  - destruct (String.eqb (nodeId l) (nodeId n)); [exact HG|].
    now apply good_cursor.
  - now apply good_cursor.
Qed.

Lemma walk_good (seg : list WorkflowNode) :
  (forall n, In n seg -> In n S) ->
  forall w, Good w -> Good (walk g S w seg).
Proof.
  induction seg as [|n seg IH]; intros Hin w HG; [exact HG|].
  simpl. apply IH; [intros m Hm; apply Hin; now right|].
  apply visit_good; [apply Hin; now left|exact HG].
Qed.

(** Every edge of the walk over the sorted nodes, and the edge into the
    end node, is a default or parallel edge from a node of [Src] to a
    node of [Tgt]. *)
Lemma control_edges_between (e : WorkflowEdge) :
  In e (walkEdges (walk g S (mkWalk [] None []) S) ++
        endEdge S (lastSequentialNode (walk g S (mkWalk [] None []) S))) ->
  exists s t ty,
    Src s /\ Tgt t /\ e = controlEdge s t ty /\
    (ty = EDefault \/ ty = EParallel).
Proof.
  assert (HG : Good (walk g S (mkWalk [] None []) S)).
  { apply walk_good; [auto|]. split; [intros x []|intros l El; discriminate El]. }
  intros He. apply in_app_or in He as [He|He]; [exact (proj1 HG e He)|].
  unfold endEdge in He.
  destruct (lastSequentialNode (walk g S (mkWalk [] None []) S)) as [l|] eqn:L;
    [|destruct He].
  destruct (find _ S) as [en|] eqn:F; [|destruct He].
  destruct (String.eqb (nodeId l) (nodeId en)); [destruct He|].
  destruct He as [<-|[]]. apply find_some in F as [F1 F2].
  apply nodeTypeEqb_eq in F2.
  exists l, en, EDefault. split; [exact (proj2 HG l L)|].
  split; [now apply end_tgt|]. split; [reflexivity|now left].
Qed.

End Endpoints.

(** Whatever the nodes and the group map are, every edge
    [buildControlFlowEdges] makes joins two nodes of the list it was
    given: its source and its target are identifiers of such nodes, its
    identifier is the two joined by a dash, and its kind is default or
    parallel. *)
Theorem control_edges_join_listed_nodes (g : JsMap)
    (nodes : list WorkflowNode) (e : WorkflowEdge) :
  In e (buildControlFlowEdges g nodes) ->
  exists s t,
    In s nodes /\ In t nodes /\
    edgeSource e = nodeId s /\ edgeTarget e = nodeId t /\
    edgeId e = (nodeId s ++ "-" ++ nodeId t)%string /\
    isControl e = true.
Proof.
  intros He. unfold buildControlFlowEdges in He.
  destruct (control_edges_between g (sortByLine nodes)
              (fun n => In n (sortByLine nodes))
              (fun n => In n (sortByLine nodes))) with (e := e)
    as (s & t & ty & Hs & Ht & -> & Hty); auto.
  - intros k j jn _ Hf. apply findById_Some in Hf as [Hf _]. now split.
  - exists s, t.
    apply (proj1 (sortByLine_In _ _)) in Hs.
    apply (proj1 (sortByLine_In _ _)) in Ht.
    split; [exact Hs|]. split; [exact Ht|].
    split; [reflexivity|]. split; [reflexivity|]. split; [reflexivity|].
    destruct Hty as [-> | ->]; reflexivity.
Qed.

Lemma control_edges_join_listed_nodes_witness :
  exists s t,
    In s (addStartEndNodes []) /\ In t (addStartEndNodes []) /\
    edgeSource (controlEdge startNode endNode EDefault) = nodeId s /\
    edgeTarget (controlEdge startNode endNode EDefault) = nodeId t /\
    edgeId (controlEdge startNode endNode EDefault) =
      (nodeId s ++ "-" ++ nodeId t)%string /\
    isControl (controlEdge startNode endNode EDefault) = true.
Proof.
  apply (control_edges_join_listed_nodes [] (addStartEndNodes [])
           (controlEdge startNode endNode EDefault)).
  vm_compute. left. reflexivity.
Defined.

End EdgeFacts.

(** ** Identifiers of the nodes and producers of the data sources *)

Module LinkFacts.

Import Js Model Effects Assembler Spec Classifier Links.
Import EffectFacts RecognizerFacts ParseFacts AssemblerFacts.

Open Scope js_scope.

Lemma mapSet_values (m : JsMap) (k v x : string) :
  In x (values (mapSet m k v)) -> x = v \/ In x (values m).
Proof.
  induction m as [|[k0 v0] m IH]; simpl.
  - intros [<-|[]]. now left.
  - destruct (String.eqb k0 k); simpl.
    + intros [<-|H]; [now left|right; now right].
    + intros [<-|H]; [right; now left|].
      destruct (IH H); [now left|right; now right].
Qed.

Lemma mapGet_values (m : JsMap) (k v : string) :
  mapGet m k = Some v -> In v (values m).
Proof.
  induction m as [|[k0 v0] m IH]; simpl; [discriminate|].
  destruct (String.eqb k0 k); [intros [= <-]; now left|].
  intros H. right. now apply IH.
Qed.

Lemma producerOf_values (m : JsMap) (e k v : string) :
  producerOf m e = Some (k, v) -> In v (values m).
Proof.
  induction m as [|[k0 v0] m IH]; simpl; [discriminate|].
  destruct (rooted e k0); [intros [= _ <-]; now left|].
  intros H. right. now apply IH.
Qed.

(** The producer [classifyExpression] names is a value of the producer
    map. *)
Lemma classify_values (param : string) (m : JsMap) (e : string)
    (tp : option string) (id : string) :
  sourceActivityId (classifyExpression param m e tp) = Some id ->
  In id (values m).
Proof.
  unfold classifyExpression. destruct (rooted e param); [discriminate|].
  destruct (producerOf m e) as [[k v]|] eqn:P.
  - simpl. intros [= <-]. exact (producerOf_values m e k v P).
  - destruct (quoted e); [discriminate|].
    destruct (looksLikeReference e); discriminate.
Qed.

Lemma analyzeDataSource_values (param : string) (m : JsMap)
    (expr : option string) (s : DataSource) (id : string) :
  In s (analyzeDataSource param m expr) ->
  sourceActivityId s = Some id -> In id (values m).
Proof.
  unfold analyzeDataSource.
  destruct (negb (truthy expr)); [intros []|].
  destruct expr as [e|]; [|intros []].
  destruct (startsWith e "{" && endsWith e "}").
  - match goal with
    | |- context [if ?c then _ else _] => destruct c
    end.
    + intros Hs Hid. apply in_map_iff in Hs as (s0 & <- & Hs0).
      cbn [sourceActivityId] in Hid.
      apply in_map_iff in Hs0 as (entry & <- & _).
      exact (classify_values _ _ _ _ _ Hid).
    + intros Hs Hid. apply in_map_iff in Hs as (entry & <- & _).
      exact (classify_values _ _ _ _ _ Hid).
  - intros [<-|[]] Hid. exact (classify_values _ _ _ _ _ Hid).
Qed.

Lemma producersOf_incl (n : WorkflowNode) (l : list DataSource)
    (X : list string) :
  nodeDataSources n = Some l ->
  (forall s id, In s l -> sourceActivityId s = Some id -> In id X) ->
  incl (producersOf n) X.
Proof.
  intros El H id Hid. unfold producersOf in Hid. rewrite El in Hid.
  apply in_flat_map in Hid as (s & Hs & Hi).
  destruct (sourceActivityId s) as [id'|] eqn:Es; [|destruct Hi].
  destruct Hi as [<-|[]]. exact (H s id' Hs Es).
Qed.

Lemma register_values (o : option string) (id : string) (st st1 : Inst) :
  outputVariableMap st1 =
    (if truthy o then
       match o with
       | Some v => mapSet (outputVariableMap st) v id
       | None => outputVariableMap st
       end
     else outputVariableMap st) ->
  incl (values (outputVariableMap st1)) (id :: values (outputVariableMap st)).
Proof.
  intros ->. destruct (truthy o); [destruct o|]; intros x Hx;
    try (right; exact Hx).
  apply mapSet_values in Hx as [->|Hx]; [now left|now right].
Qed.

Lemma ids_app (a b : list WorkflowNode) : ids (a ++ b) = ids a ++ ids b.
Proof. apply map_app. Qed.

Lemma numbered_S (p : string) (n : nat) :
  numbered p (S n) = numbered p n ++ [(p ++ ofNat n)%string].
Proof. unfold numbered. now rewrite seq_S, map_app. Qed.

(** An iteration keeps the nodes linked and the counter in step. *)
Lemma Pushed_linked (p : string) (before : list WorkflowNode)
    (acc acc' : list WorkflowNode * nat) (st st' : Inst) :
  Pushed p acc st acc' st' ->
  Linked (before ++ fst acc) st -> Linked (before ++ fst acc') st'.
Proof.
  intros [[-> Em]|(n & -> & Hid & Hm & Hs)] [LM LS].
  - split; [now rewrite Em|exact LS].
  - cbn [fst].
    assert (Sub : incl (nodeId n :: values (outputVariableMap st))
                       (ids (before ++ fst acc ++ [n]))).
    { intros x [<-|Hx].
      - rewrite app_assoc, ids_app. apply in_or_app. right. now left.
      - rewrite app_assoc, ids_app. apply in_or_app. left. now apply LM. }
    split.
    + intros x Hx. apply Sub. now apply Hm.
    + intros n0 Hn0 x Hx. rewrite app_assoc in Hn0.
      apply in_app_or in Hn0 as [Hn0|[<-|[]]].
      * rewrite app_assoc, ids_app. apply in_or_app. left.
        exact (LS n0 Hn0 x Hx).
      * apply Sub. now apply Hs.
Qed.

Lemma Pushed_counted (p : string) (acc acc' : list WorkflowNode * nat)
    (st st' : Inst) :
  Pushed p acc st acc' st' -> counted p acc -> counted p acc'.
Proof.
  intros [[-> _]|(n & -> & Hid & _)] C; [exact C|].
  unfold counted in *. cbn [fst snd].
  now rewrite ids_app, numbered_S, C, <- Hid.
Qed.

Section Loops.

Variable p : string.
Variable before : list WorkflowNode.

Let LoopInv (acc : list WorkflowNode * nat) (st : Inst) : Prop :=
  Linked (before ++ fst acc) st /\ counted p acc.

Lemma loop_linked {A : Type} (items : list A)
    (body : list WorkflowNode * nat -> A -> M (list WorkflowNode * nat)) :
  (forall acc x st acc' st',
     body acc x st = Normal acc' st' -> Pushed p acc st acc' st') ->
  forall acc, triple (LoopInv acc) (forEach items acc body) LoopInv.
Proof.
  intros Hbody. apply (triple_forEach LoopInv).
  intros acc x _ st acc' st' [HL HC] Hr. apply Hbody in Hr. split.
  - exact (Pushed_linked p before acc acc' st st' Hr HL).
  - exact (Pushed_counted p acc acc' st st' Hr HC).
Qed.

(** A recogniser made of a call of the engine and a loop from
    [([], 0)]. *)
Lemma recognizer_linked {A : Type} (found : Thrown + list A)
    (body : list WorkflowNode * nat -> A -> M (list WorkflowNode * nat)) :
  (forall acc x st acc' st',
     body acc x st = Normal acc' st' -> Pushed p acc st acc' st') ->
  triple (Linked before)
         (items <- call found ;;
          acc <- forEach items ([], 0) body ;;
          ret (fst acc))
         (fun nodes st =>
            Linked (before ++ nodes) st /\ exists n, ids nodes = numbered p n).
Proof.
  intros Hbody.
  eapply triple_bind with (R := fun _ st => Linked before st).
  { apply triple_call. auto. }
  intros items.
  eapply triple_bind with (R := LoopInv).
  { eapply triple_weaken.
    - apply (loop_linked items body Hbody ([], 0)).
    - intros st H. split; [cbn [fst]; now rewrite app_nil_r|reflexivity].
    - auto. }
  intros acc. apply triple_ret. intros st [HL HC].
  split; [exact HL|]. now exists (snd acc).
Qed.

End Loops.

Ltac run_register H :=
  match type of H with
  | context [Python.registerOutput ?o ?id ?st] =>
      let st1 := fresh "st1" in
      let E1 := fresh "E1" in
      let Ew := fresh "Ew" in
      let Et := fresh "Et" in
      let Eg := fresh "Eg" in
      let Eo := fresh "Eo" in
      destruct (registerOutput_run o id st) as (st1 & E1 & Ew & Et & Eg & Eo);
      rewrite E1 in H
  end.

Ltac pushed_node :=
  right; eexists; split; [reflexivity|]; split; [reflexivity|].

Section Steps.

Variable E : Python.Engine.
Variables (sourceCode : string) (lineOffset : nat).

Lemma taskStep_pushed (acc : list WorkflowNode * nat) (m : Python.TaskMatch)
    (st : Inst) (acc' : list WorkflowNode * nat) (st' : Inst) :
  Python.taskStep sourceCode lineOffset acc m st = Normal acc' st' ->
  Pushed "activity-" acc st acc' st'.
Proof.
  destruct acc as [nodes index]. intros H.
  cbv [Python.taskStep bind setParallelTask assign Python.analyze this ret] in H.
  injection H as <- <-. pushed_node. split.
  - cbn [outputVariableMap]. apply incl_tl, incl_refl.
  - eapply producersOf_incl; [reflexivity|]. intros s id Hs Hid. right.
    exact (analyzeDataSource_values _ _ _ s id Hs Hid).
Qed.

Lemma awaitedStep_pushed (acc : list WorkflowNode * nat)
    (m : Python.AwaitedMatch) (st : Inst) (acc' : list WorkflowNode * nat)
    (st' : Inst) :
  Python.awaitedStep sourceCode lineOffset acc m st = Normal acc' st' ->
  Pushed "activity-" acc st acc' st'.
Proof.
  destruct acc as [nodes index]. intros H.
  unfold Python.awaitedStep in H.
  destruct (existsb _ nodes) in H.
  - injection H as <- <-. left. now split.
  - unfold bind in H. run_register H.
    cbv [Python.analyze bind this ret] in H. injection H as <- <-.
    pushed_node.
    assert (V := register_values _ _ st st1 Eo).
    split; [exact V|].
    eapply producersOf_incl; [reflexivity|]. intros s id Hs Hid.
    apply V. exact (analyzeDataSource_values _ _ _ s id Hs Hid).
Qed.

Lemma stringActivityStep_pushed (acc : list WorkflowNode * nat)
    (m : Python.AwaitedMatch) (st : Inst) (acc' : list WorkflowNode * nat)
    (st' : Inst) :
  Python.stringActivityStep sourceCode lineOffset acc m st = Normal acc' st' ->
  Pushed "activity-" acc st acc' st'.
Proof.
  destruct acc as [nodes index]. intros H.
  unfold Python.stringActivityStep, bind in H. run_register H.
  cbv [Python.analyze bind this ret] in H. injection H as <- <-.
  pushed_node.
  assert (V := register_values _ _ st st1 Eo).
  split; [exact V|].
  eapply producersOf_incl; [reflexivity|]. intros s id Hs Hid.
  apply V. exact (analyzeDataSource_values _ _ _ s id Hs Hid).
Qed.

Lemma childStep_pushed (acc : list WorkflowNode * nat) (m : Python.ChildMatch)
    (st : Inst) (acc' : list WorkflowNode * nat) (st' : Inst) :
  Python.childStep sourceCode lineOffset acc m st = Normal acc' st' ->
  Pushed "child-" acc st acc' st'.
Proof.
  destruct acc as [nodes index]. intros H.
  unfold Python.childStep, bind in H. run_register H.
  cbv [Python.analyze bind this ret] in H. injection H as <- <-.
  pushed_node.
  assert (V := register_values _ _ st st1 Eo).
  split; [exact V|].
  eapply producersOf_incl; [reflexivity|]. intros s id Hs Hid.
  apply V. exact (analyzeDataSource_values _ _ _ s id Hs Hid).
Qed.

Lemma timerStep_pushed (acc : list WorkflowNode * nat) (m : Python.TimerMatch)
    (st : Inst) (acc' : list WorkflowNode * nat) (st' : Inst) :
  Python.timerStep sourceCode lineOffset acc m st = Normal acc' st' ->
  Pushed "timer-" acc st acc' st'.
Proof.
  destruct acc as [nodes index]. intros H.
  unfold Python.timerStep, bind in H. run_register H.
  cbv [ret] in H. injection H as <- <-.
  pushed_node.
  split; [exact (register_values _ _ st st1 Eo)|].
  intros x [].
Qed.

Lemma eventStep_pushed (acc : list WorkflowNode * nat) (m : Python.EventMatch)
    (st : Inst) (acc' : list WorkflowNode * nat) (st' : Inst) :
  Python.eventStep sourceCode lineOffset acc m st = Normal acc' st' ->
  Pushed "event-" acc st acc' st'.
Proof.
  destruct acc as [nodes index]. intros H.
  unfold Python.eventStep, bind in H. run_register H.
  cbv [ret] in H. injection H as <- <-.
  pushed_node.
  split; [exact (register_values _ _ st st1 Eo)|].
  intros x [].
Qed.

(** The producers of the sources of a condition are values of the
    producer map. *)
Lemma analyzeConditionSources_values (condition : string) (st : Inst)
    (ds : list DataSource) (st' : Inst) :
  Python.analyzeConditionSources E condition st = Normal ds st' ->
  st' = st /\
  forall s id, In s ds -> sourceActivityId s = Some id ->
               In id (values (outputVariableMap st)).
Proof.
  intros H. unfold Python.analyzeConditionSources in H.
  apply bind_normal in H as (a & s1 & H1 & H).
  injection H1 as <- <-.
  apply bind_normal in H as (refs & s2 & H2 & H).
  assert (s2 = st).
  { unfold call in H2. destruct (Python.inputPattern E _ _); [discriminate|].
    now injection H2. }
  subst s2. clear H2. revert H.
  apply (triple_forEach
           (fun (acc : list DataSource) s =>
              s = st /\
              forall x id, In x acc -> sourceActivityId x = Some id ->
                           In id (values (outputVariableMap st)))).
  - intros acc entry _ s r s' [-> Hacc] Hr.
    apply bind_normal in Hr as (found & s3 & H3 & Hr).
    assert (s3 = st).
    { unfold call in H3. destruct (Python.varPattern E _ _); [discriminate|].
      now injection H3. }
    subst s3. injection Hr as <- <-. split; [reflexivity|].
    intros x id Hx Hid. apply in_app_or in Hx as [Hx|Hx]; [eauto|].
    apply in_map_iff in Hx as (path & <- & _). cbn in Hid.
    exact (mapGet_values _ _ _ Hid).
  - split; [reflexivity|]. intros x id Hx Hid.
    apply in_map_iff in Hx as (path & <- & _). discriminate Hid.
Qed.

Lemma decisionStep_pushed (acc : list WorkflowNode * nat) (m : Python.IfMatch)
    (st : Inst) (acc' : list WorkflowNode * nat) (st' : Inst) :
  Python.decisionStep E sourceCode lineOffset acc m st = Normal acc' st' ->
  Pushed "decision-" acc st acc' st'.
Proof.
  destruct acc as [nodes index]. intros H.
  unfold Python.decisionStep in H.
  apply bind_normal in H as (ds & st1 & H1 & H2).
  apply analyzeConditionSources_values in H1 as [-> Hds].
  cbv [ret] in H2. injection H2 as <- <-.
  pushed_node. split; [apply incl_tl, incl_refl|].
  eapply producersOf_incl; [reflexivity|]. intros s id Hs Hid. right.
  exact (Hds s id Hs Hid).
Qed.

Lemma mapTask_map (joinId taskVar : string) (st : Inst) (u : unit)
    (st' : Inst) :
  Python.mapTask joinId tt taskVar st = Normal u st' ->
  outputVariableMap st' = outputVariableMap st.
Proof.
  cbv [Python.mapTask bind this ret]. intros H.
  destruct (truthy (mapGet (parallelTaskMap st) taskVar));
    [|now injection H as _ <-].
  destruct (mapGet (parallelTaskMap st) taskVar);
    [|now injection H as _ <-].
  cbv [setParallelGroup assign] in H. now injection H as _ <-.
Qed.

Lemma joinStep_pushed (acc : list WorkflowNode * nat)
    (m : Python.WhenAllMatch) (st : Inst) (acc' : list WorkflowNode * nat)
    (st' : Inst) :
  Python.joinStep E sourceCode lineOffset acc m st = Normal acc' st' ->
  Pushed "parallel-join-" acc st acc' st'.
Proof.
  destruct acc as [nodes index]. intros H.
  unfold Python.joinStep in H.
  apply bind_normal in H as (taskVars & st1 & H1 & H).
  assert (st1 = st).
  { unfold call in H1. destruct (Python.taskTokens E _); [discriminate|].
    now injection H1. }
  subst st1. clear H1.
  apply bind_normal in H as (u1 & st2 & H1 & H).
  assert (V2 : incl (values (outputVariableMap st2))
                    (("parallel-join-" ++ ofNat index)%string ::
                     values (outputVariableMap st))).
  { revert H1.
    apply (triple_forEach
             (fun (_ : unit) s =>
                incl (values (outputVariableMap s))
                     (("parallel-join-" ++ ofNat index)%string ::
                      values (outputVariableMap st))));
      [|apply incl_tl, incl_refl].
    intros [] o _ s r1 s' Hs Hr.
    destruct (registerOutput_run (Some o)
                ("parallel-join-" ++ ofNat index)%string s)
      as (s1 & E1 & _ & _ & _ & Eo).
    rewrite E1 in Hr. injection Hr as _ <-.
    intros x Hx. apply (register_values _ _ s s1 Eo) in Hx.
    destruct Hx as [<-|Hx]; [now left|now apply Hs]. }
  clear H1.
  apply bind_normal in H as (u2 & st3 & H1 & H).
  assert (E3 : outputVariableMap st3 = outputVariableMap st2).
  { revert H1.
    apply (triple_forEach
             (fun (_ : unit) s => outputVariableMap s = outputVariableMap st2));
      [|reflexivity].
    intros [] t _ s r1 s' Hs Hr. apply mapTask_map in Hr. congruence. }
  clear H1. cbv [bind this ret] in H. injection H as <- <-.
  pushed_node. split; [now rewrite E3|]. intros x [].
Qed.

Lemma retryStep_pushed (acc : list WorkflowNode * nat) (matchIndex : nat)
    (st : Inst) (acc' : list WorkflowNode * nat) (st' : Inst) :
  ret (fst acc ++ [Python.retryNode sourceCode lineOffset (snd acc) matchIndex],
       S (snd acc)) st = Normal acc' st' ->
  Pushed "retry-" acc st acc' st'.
Proof.
  intros H. cbv [ret] in H. injection H as <- <-.
  pushed_node. split; [apply incl_tl, incl_refl|]. intros x [].
Qed.

Lemma parseActivities_linked (before : list WorkflowNode) :
  triple (Linked before) (Python.parseActivities E sourceCode lineOffset)
         (fun nodes st =>
            Linked (before ++ nodes) st /\
            exists n, ids nodes = numbered "activity-" n).
Proof.
  unfold Python.parseActivities.
  set (I := fun (acc : list WorkflowNode * nat) st =>
              Linked (before ++ fst acc) st /\ counted "activity-" acc).
  eapply triple_bind with (R := fun _ st => Linked before st).
  { apply triple_call. auto. }
  intros taskMatches.
  eapply triple_bind with (R := I).
  { eapply triple_weaken.
    - apply (loop_linked "activity-" before taskMatches _
               (fun acc x => taskStep_pushed acc x) ([], 0)).
    - intros st H. split; [cbn [fst]; now rewrite app_nil_r|reflexivity].
    - auto. }
  intros acc1.
  eapply triple_bind with (R := fun _ st => I acc1 st).
  { apply triple_call. auto. }
  intros awaitedMatches.
  eapply triple_bind with (R := I).
  { apply (loop_linked "activity-" before awaitedMatches _
             (fun acc x => awaitedStep_pushed acc x) acc1). }
  intros acc2.
  eapply triple_bind with (R := fun _ st => I acc2 st).
  { apply triple_call. auto. }
  intros stringMatches.
  eapply triple_bind with (R := I).
  { apply (loop_linked "activity-" before stringMatches _
             (fun acc x => stringActivityStep_pushed acc x) acc2). }
  intros acc3. apply triple_ret. intros st [HL HC].
  split; [exact HL|]. now exists (snd acc3).
Qed.

(** All the recognisers, from a state whose producer map is empty: the
    step nodes are linked and their identifiers are those the counters
    of the recognisers give. *)
Lemma recognizeSteps_linked (st0 : Inst) (steps : list WorkflowNode)
    (st' : Inst) :
  outputVariableMap st0 = [] ->
  Python.recognizeSteps E sourceCode lineOffset st0 = Normal steps st' ->
  Linked steps st' /\
  exists a c t e d r j, ids steps = stepIds a c t e d r j.
Proof.
  intros M0 H. unfold Python.recognizeSteps in H.
  assert (L0 : Linked [] st0).
  { split; [rewrite M0; intros x []|intros n []]. }
  apply bind_normal in H as (xa & s1 & Ha & H).
  destruct (parseActivities_linked [] st0 xa s1 L0 Ha) as [La [a Ia]].
  cbn [app] in La.
  apply bind_normal in H as (xc & s2 & Hc & H).
  destruct (recognizer_linked "child-" xa _ _
              (fun acc x => childStep_pushed acc x) s1 xc s2 La Hc)
    as [Lc [c Ic]].
  apply bind_normal in H as (xt & s3 & Ht & H).
  destruct (recognizer_linked "timer-" (xa ++ xc) _ _
              (fun acc x => timerStep_pushed acc x) s2 xt s3 Lc Ht)
    as [Lt [t It]].
  apply bind_normal in H as (xe & s4 & He & H).
  destruct (recognizer_linked "event-" ((xa ++ xc) ++ xt) _ _
              (fun acc x => eventStep_pushed acc x) s3 xe s4 Lt He)
    as [Le [e Ie]].
  apply bind_normal in H as (xd & s5 & Hd & H).
  destruct (recognizer_linked "decision-" (((xa ++ xc) ++ xt) ++ xe) _ _
              (fun acc x => decisionStep_pushed acc x) s4 xd s5 Le Hd)
    as [Ld [d Id]].
  apply bind_normal in H as (xr & s6 & Hr & H).
  destruct (recognizer_linked "retry-" ((((xa ++ xc) ++ xt) ++ xe) ++ xd) _ _
              (fun acc x => retryStep_pushed acc x) s5 xr s6 Ld Hr)
    as [Lr [r Ir]].
  apply bind_normal in H as (xj & s7 & Hj & H).
  destruct (recognizer_linked "parallel-join-"
              (((((xa ++ xc) ++ xt) ++ xe) ++ xd) ++ xr) _ _
              (fun acc x => joinStep_pushed acc x) s6 xj s7 Lr Hj)
    as [Lj [j Ij]].
  cbv [ret] in H. injection H as <- <-.
  split.
  - now rewrite <- !app_assoc in Lj.
  - exists a, c, t, e, d, r, j. unfold stepIds.
    now rewrite !ids_app, Ia, Ic, It, Ie, Id, Ir, Ij.
Qed.

End Steps.

End LinkFacts.

(** ** The graph of a successful parse *)

Module ClosureFacts.

Import Js Model Effects Assembler Spec Classifier Links.
Import EffectFacts RecognizerFacts ParseFacts AssemblerFacts GraphFacts.
Import EdgeFacts LinkFacts.

Lemma ofNat_inj (a b : nat) : ofNat a = ofNat b -> a = b.
Proof.
  unfold ofNat. intros H.
  apply (f_equal NilEmpty.uint_of_string) in H.
  rewrite !NilEmpty.usu in H. injection H as H.
  apply (f_equal Nat.of_uint) in H.
  now rewrite !DecimalNat.Unsigned.of_to in H.
Qed.

Lemma append_inj (p a b : string) : (p ++ a = p ++ b)%string -> a = b.
Proof.
  induction p as [|c p IH]; simpl; [auto|].
  intros H. injection H as H. auto.
Qed.

Lemma NoDup_map_inj {A B : Type} (f : A -> B) (l : list A) :
  (forall a b, f a = f b -> a = b) -> NoDup l -> NoDup (map f l).
Proof.
  intros Hf. induction 1 as [|x l Hx Hl IH]; simpl; constructor; [|exact IH].
  intros X. apply in_map_iff in X as (y & E & Hy).
  apply Hf in E. now subst y.
Qed.

Lemma numbered_NoDup (p : string) (n : nat) : NoDup (numbered p n).
Proof.
  unfold numbered. apply NoDup_map_inj; [|apply seq_NoDup].
  intros a b H. apply append_inj in H. now apply ofNat_inj.
Qed.

Lemma numbered_apart (p q : string) (n m : nat) (x : string) :
  (forall s s', (p ++ s)%string <> (q ++ s')%string) ->
  In x (numbered p n) -> In x (numbered q m) -> False.
Proof.
  intros H H1 H2. unfold numbered in *.
  apply in_map_iff in H1 as (k & <- & _).
  apply in_map_iff in H2 as (k' & E & _). exact (H _ _ (eq_sym E)).
Qed.

Lemma numbered_not (p : string) (n : nat) (x : string) :
  (forall s, (p ++ s)%string <> x) -> ~ In x (numbered p n).
Proof.
  intros H H1. unfold numbered in H1.
  apply in_map_iff in H1 as (k & E & _). exact (H _ E).
Qed.

Ltac apart :=
  let x := fresh "x" in
  let H1 := fresh "H" in
  let H2 := fresh "H" in
  intros x H1 H2;
  repeat (apply in_app_or in H2 as [H2|H2]);
  (eapply numbered_apart; [|exact H1|exact H2]);
  let s := fresh "s" in
  let s' := fresh "s" in
  let D := fresh "D" in
  intros s s' D; discriminate D.

Lemma stepIds_NoDup (a c t e d r j : nat) : NoDup (stepIds a c t e d r j).
Proof.
  unfold stepIds.
  repeat (apply NoDup_app; [apply numbered_NoDup| |apart]).
  apply numbered_NoDup.
Qed.

Lemma stepIds_not (a c t e d r j : nat) (x : string) :
  x = "start" \/ x = "end" -> ~ In x (stepIds a c t e d r j).
Proof.
  intros Hx H. unfold stepIds in H.
  repeat (apply in_app_or in H as [H|H]);
    (eapply numbered_not; [|exact H]);
    intros s D; destruct Hx as [-> | ->]; discriminate D.
Qed.

Section Parsed.

Variable E : Python.Engine.
Variables (sourceCode filePath : string) (target : option string).
Variable st : Inst.

Let outcome := Python.parse E sourceCode filePath target st.

(** What a successful [parse] returns: the step nodes between a start
    and an end node, well formed and linked, and the edges the
    assembler makes of them. *)
Lemma parse_linked (w : WorkflowDefinition) :
  workflow (fst outcome) = Some w ->
  exists steps,
    wNodes w = addStartEndNodes steps /\
    wEdges w = buildEdgesWithDataFlow (parallelGroupMap (snd outcome))
                                      (addStartEndNodes steps) /\
    WellFormed steps (parallelGroupMap (snd outcome)) /\
    Linked steps (snd outcome) /\
    exists a c t e d r j, ids steps = stepIds a c t e d r j.
Proof.
  intros H.
  destruct (parse_graph E sourceCode filePath target st w H)
    as (steps & WF & EN & EE).
  apply parse_returns in H.
  apply parse_success in H
    as (scoped & off & steps' & st0 & R & M0 & EN' & _).
  assert (steps' = steps).
  { rewrite EN in EN'. unfold addStartEndNodes in EN'.
    injection EN' as EN'. now apply app_inv_tail in EN'. }
  subst steps'.
  exists steps. split; [exact EN|]. split; [exact EE|]. split; [exact WF|].
  apply (recognizeSteps_linked E scoped off st0); [|exact R].
  unfold maps in M0. now injection M0.
Qed.

End Parsed.

Lemma ids_addStartEndNodes (steps : list WorkflowNode) :
  ids (addStartEndNodes steps) = "start" :: ids steps ++ ["end"].
Proof.
  unfold addStartEndNodes, ids. cbn [map]. now rewrite map_app.
Qed.

(** In every graph [parse] returns, the identifiers of the nodes are
    [start], then those of the activities, child workflows, timers,
    events, decisions, retry policies and joins, each kind numbered
    from 0 without a gap, then [end]. *)
Theorem parsed_node_ids_numbered (E : Python.Engine)
    (sourceCode filePath : string) (target : option string) (st : Inst)
    (w : WorkflowDefinition) :
  workflow (fst (Python.parse E sourceCode filePath target st)) = Some w ->
  exists a c t e d r j,
    ids (wNodes w) = "start" :: stepIds a c t e d r j ++ ["end"].
Proof.
  intros H.
  destruct (parse_linked E sourceCode filePath target st w H)
    as (steps & EN & _ & _ & _ & a & c & t & e & d & r & j & I).
  exists a, c, t, e, d, r, j. now rewrite EN, ids_addStartEndNodes, I.
Qed.

Lemma parsed_node_ids_numbered_witness :
  exists w a c t e d r j,
    workflow (fst (Python.parse Samples.twoGroupsEngine
                                Samples.twoGroupsSource "a.py" None newInst))
      = Some w /\
    ids (wNodes w) = "start" :: stepIds a c t e d r j ++ ["end"].
Proof.
  eexists.
  destruct (parsed_node_ids_numbered Samples.twoGroupsEngine
              Samples.twoGroupsSource "a.py" None newInst _
              ltac:(vm_compute; reflexivity))
    as (a & c & t & e & d & r & j & I).
  exists a, c, t, e, d, r, j. split; [vm_compute; reflexivity|exact I].
Defined.

(** In every graph [parse] returns, no two nodes have the same
    identifier. *)
Theorem parsed_node_ids_distinct (E : Python.Engine)
    (sourceCode filePath : string) (target : option string) (st : Inst)
    (w : WorkflowDefinition) :
  workflow (fst (Python.parse E sourceCode filePath target st)) = Some w ->
  NoDup (ids (wNodes w)).
Proof.
  intros H.
  destruct (parse_linked E sourceCode filePath target st w H)
    as (steps & EN & _ & _ & _ & a & c & t & e & d & r & j & I).
  rewrite EN, ids_addStartEndNodes, I. constructor.
  - intros X. apply in_app_or in X as [X|[X|[]]]; [|discriminate X].
    exact (stepIds_not a c t e d r j "start" (or_introl eq_refl) X).
  - apply NoDup_app; [apply stepIds_NoDup|repeat constructor; intros []|].
    intros x Hx [<-|[]].
    exact (stepIds_not a c t e d r j "end" (or_intror eq_refl) Hx).
Qed.

Lemma parsed_node_ids_distinct_witness :
  exists w,
    workflow (fst (Python.parse Samples.twoGroupsEngine
                                Samples.twoGroupsSource "a.py" None newInst))
      = Some w /\
    NoDup (ids (wNodes w)).
Proof.
  eexists. split; [vm_compute; reflexivity|].
  apply (parsed_node_ids_distinct Samples.twoGroupsEngine
           Samples.twoGroupsSource "a.py" None newInst).
  vm_compute. reflexivity.
Defined.

Section Graph.

Variable steps : list WorkflowNode.
Variable g : JsMap.
Variable st : Inst.
Hypothesis WF : WellFormed steps g.
Hypothesis LK : Linked steps st.

Let nodes := addStartEndNodes steps.
Let S := sortByLine nodes.

Lemma step_id_in (n : WorkflowNode) : In n steps -> In (nodeId n) (ids nodes).
Proof.
  intros H. unfold nodes. rewrite ids_addStartEndNodes. right.
  apply in_or_app. left. now apply in_map.
Qed.

Lemma sorted_id_in (n : WorkflowNode) : In n S -> In (nodeId n) (ids nodes).
Proof.
  intros H. apply (proj1 (sortByLine_In _ _)) in H. now apply in_map.
Qed.

(** The node of a data source is a step. *)
Lemma sourced_is_step (node : WorkflowNode) (sources : list DataSource) :
  In node nodes -> nodeDataSources node = Some sources -> In node steps.
Proof.
  intros Hn Hd. unfold nodes, addStartEndNodes in Hn.
  destruct Hn as [<-|Hn]; [discriminate Hd|].
  apply in_app_or in Hn as [Hn|[<-|[]]]; [exact Hn|discriminate Hd].
Qed.

Lemma step_id_apart (n : WorkflowNode) :
  In n steps -> nodeId n <> "start" /\ nodeId n <> "end".
Proof.
  intros H. destruct (shape_id n (step_shape steps g WF n H)) as (A & B & _).
  now split.
Qed.

(** The source and the target of a data edge. *)
Lemma data_edge_ends (e : WorkflowEdge) :
  In e (dataFlowEdges nodes) ->
  (edgeSource e = "start" \/
   exists p, In p steps /\ edgeSource e = nodeId p) /\
  exists n, In n steps /\ edgeTarget e = nodeId n.
Proof.
  intros He.
  apply dataFlowEdges_In in He as (node & sources & source & Hn & Hd & Hs & He).
  assert (Hstep := sourced_is_step node sources Hn Hd).
  unfold dataFlowEdge in He.
  destruct (sourceType source) eqn:Ty;
    [| | |destruct He|destruct He].
  - destruct He as [<-|[]]. split; [now left|]. now exists node.
  - destruct (truthy (sourceActivityId source)); [|destruct He].
    destruct (sourceActivityId source) as [producer|] eqn:Ep; [|destruct He].
    destruct He as [<-|[]]. cbn [edgeSource edgeTarget]. split.
    + right.
      assert (Hp : In producer (ids steps)).
      { apply (ln_sources _ _ LK node Hstep). unfold producersOf.
        rewrite Hd. apply in_flat_map. exists source.
        split; [exact Hs|]. rewrite Ep. now left. }
      apply in_map_iff in Hp as (p & Hid & Hp). now exists p.
    + now exists node.
  - destruct He as [<-|[]]. cbn [edgeSource edgeTarget]. split.
    + right. now exists node.
    + now exists node.
Qed.

(** The source of a control edge is a node that is not the end node and
    its target a node that is not the start node. *)
Lemma control_edge_ends (e : WorkflowEdge) :
  In e (buildControlFlowEdges g nodes) ->
  exists s t,
    (In s S /\ nodeType s <> TEnd) /\ (In t S /\ nodeType t <> TStart) /\
    edgeSource e = nodeId s /\ edgeTarget e = nodeId t.
Proof.
  intros He. unfold buildControlFlowEdges in He. fold S in He.
  destruct (control_edges_between g S
              (fun n => In n S /\ nodeType n <> TEnd)
              (fun n => In n S /\ nodeType n <> TStart)) with (e := e)
    as (s & t & ty & Hs & Ht & -> & _); try exact He.
  - intros n Hn Ty. split; [exact Hn|congruence].
  - intros n Hn T1 T2. now repeat split.
  - intros p j Hp Hj.
    destruct (wf_members steps g WF p j Hp Hj) as (_ & T1 & T2 & _).
    now repeat split.
  - intros k j jn Hj Hf. apply findById_Some in Hf as [Hin Hid].
    destruct (wf_values _ _ WF _ _ Hj) as (b & Hb & Hidb & _).
    destruct (step_id_apart b Hb) as [B1 B2].
    assert (Hstep : In jn steps).
    { apply sorted_In in Hin as [->|[Hin| ->]]; [|exact Hin|].
      - elim B1. rewrite Hidb, <- Hid. reflexivity.
      - elim B2. rewrite Hidb, <- Hid. reflexivity. }
    assert (Sy := shape_not_synthetic jn (step_shape steps g WF jn Hstep)).
    unfold isSynthetic in Sy. apply orb_false_elim in Sy as [S1 S2].
    repeat split; try exact Hin;
      intros X; apply nodeTypeEqb_eq in X; congruence.
  - intros n Hn Ty. split; [exact Hn|congruence].
  - exists s, t. now repeat split.
Qed.

Lemma not_end_id (s : WorkflowNode) :
  In s S -> nodeType s <> TEnd -> nodeId s <> "end".
Proof.
  intros Hs Ty. apply sorted_In in Hs as [->|[Hs| ->]].
  - discriminate.
  - exact (proj2 (step_id_apart s Hs)).
  - now elim Ty.
Qed.

Lemma not_start_id (t : WorkflowNode) :
  In t S -> nodeType t <> TStart -> nodeId t <> "start".
Proof.
  intros Ht Ty. apply sorted_In in Ht as [->|[Ht| ->]].
  - now elim Ty.
  - exact (proj1 (step_id_apart t Ht)).
  - discriminate.
Qed.

Lemma graph_edges_join (e : WorkflowEdge) :
  In e (buildEdgesWithDataFlow g nodes) ->
  In (edgeSource e) (ids nodes) /\ In (edgeTarget e) (ids nodes).
Proof.
  intros He. unfold buildEdgesWithDataFlow in He.
  apply in_app_or in He as [He|He].
  - destruct (control_edge_ends e He)
      as (s & t & [Hs _] & [Ht _] & -> & ->).
    split; now apply sorted_id_in.
  - destruct (data_edge_ends e He) as [Hsrc (n & Hn & ->)].
    split; [|now apply step_id_in].
    destruct Hsrc as [-> |(p & Hp & ->)]; [|now apply step_id_in].
    unfold nodes. rewrite ids_addStartEndNodes. now left.
Qed.

Lemma graph_edges_ends (e : WorkflowEdge) :
  In e (buildEdgesWithDataFlow g nodes) ->
  edgeTarget e <> "start" /\ edgeSource e <> "end".
Proof.
  intros He. unfold buildEdgesWithDataFlow in He.
  apply in_app_or in He as [He|He].
  - destruct (control_edge_ends e He)
      as (s & t & [Hs Ts] & [Ht Tt] & -> & ->).
    split; [now apply not_start_id|now apply not_end_id].
  - destruct (data_edge_ends e He) as [Hsrc (n & Hn & ->)].
    split; [exact (proj1 (step_id_apart n Hn))|].
    destruct Hsrc as [-> |(p & Hp & ->)]; [discriminate|].
    exact (proj2 (step_id_apart p Hp)).
Qed.

End Graph.

(** In every graph [parse] returns, every edge, control or data, joins
    two nodes of the graph: its source and its target are identifiers
    of nodes of the graph. *)
Theorem parsed_edges_join_nodes (E : Python.Engine)
    (sourceCode filePath : string) (target : option string) (st : Inst)
    (w : WorkflowDefinition) (e : WorkflowEdge) :
  workflow (fst (Python.parse E sourceCode filePath target st)) = Some w ->
  In e (wEdges w) ->
  In (edgeSource e) (ids (wNodes w)) /\ In (edgeTarget e) (ids (wNodes w)).
Proof.
  intros H He.
  destruct (parse_linked E sourceCode filePath target st w H)
    as (steps & EN & EE & WF & LK & _).
  rewrite EE in He. rewrite EN.
  exact (graph_edges_join steps _ _ WF LK e He).
Qed.

Lemma parsed_edges_join_nodes_witness :
  exists w e,
    workflow (fst (Python.parse Samples.selfEngine Samples.selfSource
                                "a.py" None newInst)) = Some w /\
    In e (wEdges w) /\ edgeId e = "df-activity-0-activity-0-x" /\
    In (edgeSource e) (ids (wNodes w)) /\ In (edgeTarget e) (ids (wNodes w)).
Proof.
  eexists. exists (mkEdge "df-activity-0-activity-0-x" "activity-0"
                          "activity-0" EDataActivityOutput (Some "x")
                          (Some activity_output) (Some "x")).
  split; [vm_compute; reflexivity|].
  split; [right; right; left; reflexivity|].
  split; [reflexivity|].
  eapply (parsed_edges_join_nodes Samples.selfEngine Samples.selfSource
                                  "a.py" None newInst).
  - vm_compute. reflexivity.
  - right. right. left. reflexivity.
Defined.

(** In every graph [parse] returns, no edge enters the start node and no
    edge leaves the end node. *)
Theorem parsed_start_end_edges (E : Python.Engine)
    (sourceCode filePath : string) (target : option string) (st : Inst)
    (w : WorkflowDefinition) (e : WorkflowEdge) :
  workflow (fst (Python.parse E sourceCode filePath target st)) = Some w ->
  In e (wEdges w) ->
  edgeTarget e <> "start" /\ edgeSource e <> "end".
Proof.
  intros H He.
  destruct (parse_linked E sourceCode filePath target st w H)
    as (steps & EN & EE & WF & LK & _).
  rewrite EE in He.
  exact (graph_edges_ends steps _ _ WF LK e He).
Qed.

Lemma parsed_start_end_edges_witness :
  exists w e,
    workflow (fst (Python.parse Samples.selfEngine Samples.selfSource
                                "a.py" None newInst)) = Some w /\
    In e (wEdges w) /\ edgeId e = "activity-0-end" /\
    edgeTarget e <> "start" /\ edgeSource e <> "end".
Proof.
  eexists. exists (controlEdge
                     (Python.activityNode "activity-0" "f" 1 [] false None
                                          None None)
                     endNode EDefault).
  split; [vm_compute; reflexivity|].
  split; [right; left; reflexivity|].
  split; [reflexivity|].
  eapply (parsed_start_end_edges Samples.selfEngine Samples.selfSource
                                 "a.py" None newInst).
  - vm_compute. reflexivity.
  - right. left. reflexivity.
Defined.

End ClosureFacts.

(** ** A bracketed input expression *)

Module BracketedInputFacts.

Import Js Scanner TextFacts ScannerFacts.

Lemma trim_tight (o c : ascii) (body : list ascii) :
  isSpace o = false -> isSpace c = false ->
  trim (str (o :: body ++ [c])) = str (o :: body ++ [c]).
Proof.
  intros Ho Hc. unfold trim, trimChars. rewrite chars_str.
  cbn [dropSpaces]. rewrite Ho.
  replace (rev (o :: body ++ [c])) with (c :: rev (o :: body))
    by (change (o :: body ++ [c]) with ((o :: body) ++ [c]);
        now rewrite rev_app_distr).
  cbn [dropSpaces]. rewrite Hc.
  change (c :: rev (o :: body)) with (rev [c] ++ rev (o :: body)).
  now rewrite <- rev_app_distr, rev_involutive.
Qed.

Lemma bracket_not_space (o : ascii) :
  isOpenBracket (Some o) = true ->
  isSpace o = false /\ isSpace (closeOf (Some o)) = false.
Proof.
  unfold isOpenBracket. simpl. intros H.
  apply orb_prop in H as [H|H]; [apply orb_prop in H as [H|H]|];
    apply Ascii.eqb_eq in H; subst o; split; reflexivity.
Qed.

(** When the value after the [input=] marker opens with a bracket that
    has a correctly nested matching closer, [extractInputExpression]
    returns the text from the bracket to that closer, both included,
    whatever follows the closer in the call. *)
Theorem bracketed_input_to_closer (sourceCode : string) (matchIndex : nat)
    (pre : list ascii) (o : ascii) (body post : list ascii) :
  chars sourceCode = pre ++ o :: body ++ closeOf (Some o) :: post ->
  isOpenBracket (Some o) = true ->
  Balanced escapedByPrevious o (closeOf (Some o)) body ->
  inputStartOf sourceCode matchIndex = Some (List.length pre) ->
  extractInputExpression sourceCode matchIndex =
  Some (str (o :: body ++ [closeOf (Some o)])).
Proof.
  intros Et Ho HB Hs. unfold extractInputExpression.
  rewrite Hs, Et, at_split, Ho.
  assert (F : findMatchingBracket sourceCode (List.length pre) =
              Z.of_nat (List.length pre + 1 + List.length body)).
  { unfold findMatchingBracket, scanEnd. rewrite Et, at_split.
    rewrite (loop_Steps _ _ _ _ _ (closer_run o pre body post Ho HB)).
    - cbn [pos]. lia.
    - unfold running. cbn [depth]. apply andb_false_r.
    - cbn [pos]. lengths. }
  rewrite F.
  replace (Z.to_nat (Z.of_nat (List.length pre + 1 + List.length body) + 1))
    with (List.length pre + List.length (o :: body ++ [closeOf (Some o)]))
    by lengths.
  destruct (bracket_not_space o Ho) as [So Sc].
  rewrite (CSharpInputFacts.substring_middle pre
             (o :: body ++ [closeOf (Some o)]) post);
    [now rewrite trim_tight| |reflexivity|reflexivity].
  cbn [app]. now rewrite <- app_assoc.
Qed.

Lemma bracketed_input_to_closer_witness :
  extractInputExpression Samples.dictSource 0 =
  Some ("{" ++ Samples.dq ++ "a" ++ Samples.dq ++ ": [1, 2]}")%string.
Proof.
  apply (bracketed_input_to_closer Samples.dictSource 0
           (chars "yield ctx.call_activity(f, input=") "{"%char
           (chars (Samples.dq ++ "a" ++ Samples.dq ++ ": [1, 2]"))
           (chars ", retry_policy=p)")).
  - vm_compute. reflexivity.
  - reflexivity.
  - apply (Bal_lit _ _ _ [dquote; "a"%char; dquote] (chars ": [1, 2]")).
    + apply (Lit_single _ dquote ["a"%char]); [reflexivity| |reflexivity].
      intros [|[|j]] H; discriminate H.
    + intros q H. discriminate H.
    + repeat (apply Bal_char;
              [reflexivity|discriminate|discriminate|discriminate|]).
      apply Bal_nil.
  - vm_compute. reflexivity.
Defined.

End BracketedInputFacts.

(** ** The data sources of an input expression *)

Module ClassifierFacts.

Import Js Model Classifier Links.

Lemma classify_kind (param : string) (m : JsMap) (e : string)
    (tp : option string) :
  let s := classifyExpression param m e tp in
  (sourceType s = workflow_input \/ sourceType s = activity_output \/
   sourceType s = literal) /\
  (sourceType s = activity_output <-> sourceActivityId s <> None) /\
  sourcePath s = e /\ targetProperty s = tp.
Proof.
  unfold classifyExpression. destruct (rooted e param).
  { cbn. repeat split; auto; try discriminate. intros H. now elim H. }
  destruct (producerOf m e) as [[k v]|].
  { cbn. repeat split; auto; discriminate. }
  destruct (quoted e).
  { cbn. repeat split; auto; try discriminate. intros H. now elim H. }
  destruct (looksLikeReference e);
    cbn; repeat split; auto; try discriminate; intros H; now elim H.
Qed.

Lemma two_kinds {A : Type} (P Q : A -> bool) (l : list A) :
  (forall x, P x = true -> Q x = false) ->
  existsb P l = true -> existsb Q l = true -> (1 <? List.length l) = true.
Proof.
  intros H HP HQ. destruct l as [|x [|y l]]; [discriminate HP| |reflexivity].
  simpl in HP, HQ. rewrite orb_false_r in HP, HQ.
  rewrite (H x HP) in HQ. discriminate.
Qed.

(** The sources of a dict literal are the classified entries, whether
    their kinds are mixed or not. *)
Lemma analyzeDataSource_dict (param : string) (m : JsMap) (e : string) :
  truthy (Some e) = true ->
  startsWith e "{" && endsWith e "}" = true ->
  analyzeDataSource param m (Some e) =
  map (fun entry => classifyExpression param m (snd entry) (Some (fst entry)))
      (parseDictEntries
         (str (slice (chars e) 1 (List.length (chars e) - 1)))).
Proof.
  intros Ht Hd. unfold analyzeDataSource. rewrite Ht, Hd. cbn [negb].
  match goal with
  | |- context [if existsb ?P ?l && existsb ?Q ?l then _ else _] =>
      destruct (existsb P l) eqn:HP; [|reflexivity];
      destruct (existsb Q l) eqn:HQ; [|reflexivity];
      cbn [andb];
      rewrite (two_kinds P Q l) by
        (try exact HP; try exact HQ;
         intros x Hx; destruct (sourceType x); try discriminate Hx;
         reflexivity)
  end.
  match goal with
  | |- map ?f ?l = ?l => transitivity (map (fun x => x) l);
                         [|apply map_id]
  end.
  apply map_ext. intros [ty path id tp]. reflexivity.
Qed.

(** Every source [analyzeDataSource] returns is a workflow input, a
    step output or a literal, never a constructed one; it names a
    producer exactly when it is a step output, and the producer is
    then a value of the producer map. *)
Theorem analyzeDataSource_kinds (param : string) (m : JsMap)
    (expr : option string) (s : DataSource) :
  In s (analyzeDataSource param m expr) ->
  (sourceType s = workflow_input \/ sourceType s = activity_output \/
   sourceType s = literal) /\
  (sourceType s = activity_output <-> sourceActivityId s <> None) /\
  (forall id, sourceActivityId s = Some id -> In id (values m)).
Proof.
  intros Hs.
  assert (K : exists e tp, s = classifyExpression param m e tp).
  { destruct (truthy expr) eqn:Ht.
    2:{ unfold analyzeDataSource in Hs. rewrite Ht in Hs. destruct Hs. }
    destruct expr as [e|]; [|discriminate Ht].
    destruct (startsWith e "{" && endsWith e "}") eqn:Hd.
    - rewrite (analyzeDataSource_dict param m e Ht Hd) in Hs.
      apply in_map_iff in Hs as (entry & <- & _). now eexists _, _.
    - unfold analyzeDataSource in Hs. rewrite Ht, Hd in Hs.
      destruct Hs as [<-|[]]. now eexists _, _. }
  destruct K as (e & tp & ->).
  destruct (classify_kind param m e tp) as (K1 & K2 & _).
  split; [exact K1|]. split; [exact K2|].
  intros id Hid. exact (LinkFacts.classify_values _ _ _ _ _ Hid).
Qed.

Lemma analyzeDataSource_kinds_witness :
  analyzeDataSource "order" [("stock", "activity-0")]
                    (Some "{id: order.id, left: stock.count}") =
  [mkSource workflow_input "order.id" None (Some "id");
   mkSource activity_output "stock.count" (Some "activity-0") (Some "left")] /\
  In "activity-0" (values [("stock", "activity-0")]).
Proof.
  split; [vm_compute; reflexivity|].
  apply (proj2 (proj2
           (analyzeDataSource_kinds "order" [("stock", "activity-0")]
              (Some "{id: order.id, left: stock.count}")
              (mkSource activity_output "stock.count" (Some "activity-0")
                        (Some "left"))
              ltac:(vm_compute; right; left; reflexivity)))).
  reflexivity.
Defined.

End ClassifierFacts.

(** ** The output fields of a workflow *)

Module ReturnFieldFacts.

Import Js Model Effects Spec EffectFacts AssemblerFacts.

Open Scope js_scope.

Lemma addFields_NoDup (fields allFields : list string) :
  NoDup allFields -> NoDup (Python.addFields allFields fields).
Proof.
  unfold Python.addFields. revert allFields.
  induction fields as [|f fields IH]; intros acc H; simpl; [exact H|].
  apply IH. destruct (memb f acc) eqn:M; [exact H|].
  apply NoDup_app; [exact H|repeat constructor; intros []|].
  intros x Hx [<-|[]].
  apply memb_In in Hx. congruence.
Qed.

Lemma addFields_In (fields allFields : list string) (f : string) :
  In f (Python.addFields allFields fields) <-> In f allFields \/ In f fields.
Proof.
  unfold Python.addFields. revert allFields.
  induction fields as [|g fields IH]; intros acc; simpl; [tauto|].
  rewrite IH. destruct (memb g acc) eqn:M.
  - apply memb_In in M. split; [tauto|].
    intros [H|[<-|H]]; tauto.
  - rewrite in_app_iff. simpl. tauto.
Qed.

(** [parseReturnExpression] leaves the instance alone. *)
Lemma parseReturnExpression_frame (E : Python.Engine) (expr : string)
    (st : Inst) (fs : list string) (st' : Inst) :
  Python.parseReturnExpression E expr st = Normal fs st' -> st' = st.
Proof.
  unfold Python.parseReturnExpression. intros H.
  destruct (startsWith expr "{").
  - unfold call in H. destruct (Python.keyPattern E expr);
      [discriminate|now injection H].
  - destruct (Python.constructorCall expr).
    + unfold call in H. destruct (Python.argPattern E expr);
        [discriminate|now injection H].
    + now injection H.
Qed.

(** The loop over the return expressions: the fields are those already
    there and those of the expressions, each once. *)
Lemma returnLoop_fields (E : Python.Engine) (st : Inst) (items : list string) :
  forall (acc fields : list string) (st' : Inst),
    forEach items acc
            (fun acc expr =>
               fields <- Python.parseReturnExpression E expr ;;
               ret (Python.addFields acc fields)) st = Normal fields st' ->
    NoDup acc ->
    st' = st /\ NoDup fields /\
    forall f, In f fields <->
              In f acc \/
              exists expr fs,
                In expr items /\
                Python.parseReturnExpression E expr st = Normal fs st /\
                In f fs.
Proof.
  induction items as [|x rest IH]; intros acc fields st' H Hn.
  - cbv [forEach ret] in H. injection H as <- <-.
    split; [reflexivity|]. split; [exact Hn|].
    intros f. split; [now left|]. intros [H|(e & fs & [] & _)]. exact H.
  - cbn [forEach] in H.
    apply bind_normal in H as (acc1 & s1 & H1 & H).
    apply bind_normal in H1 as (fs & s2 & H2 & H3).
    assert (s2 = st) by exact (parseReturnExpression_frame _ _ _ _ _ H2).
    subst s2. injection H3 as <- <-.
    destruct (IH _ _ _ H (addFields_NoDup fs acc Hn)) as (-> & Hf & Hi).
    split; [reflexivity|]. split; [exact Hf|].
    intros f. rewrite Hi, addFields_In. split.
    + intros [[Ha|Hx]|(e & fs' & He & Hp & Hin)].
      * now left.
      * right. exists x, fs. split; [now left|]. now split.
      * right. exists e, fs'. split; [now right|]. now split.
    + intros [Ha|(e & fs' & [<-|He] & Hp & Hin)].
      * left. now left.
      * left. right. rewrite H2 in Hp. now injection Hp as <-.
      * right. exists e, fs'. now split.
Qed.

(** When the text has a return statement, [extractReturnInfo] records
    as output fields exactly the field names of the return expressions,
    each name once, and as return expression the last one; it leaves
    the instance alone. *)
Theorem extractReturnInfo_fields (E : Python.Engine) (sourceCode : string)
    (metadata : option WorkflowMetadata) (found : list string)
    (st : Inst) (md : option WorkflowMetadata) (st' : Inst) :
  Python.returnPattern E sourceCode = inr found -> found <> [] ->
  Python.extractReturnInfo E sourceCode metadata st = Normal md st' ->
  st' = st /\
  exists m fields,
    md = Some m /\ mOutputFields m = Some fields /\ NoDup fields /\
    (forall f, In f fields <->
       exists expr fs,
         In expr (map trim found) /\
         Python.parseReturnExpression E expr st = Normal fs st /\
         In f fs) /\
    mReturnExpression m = Some (last (map trim found) "").
Proof.
  intros Hf Hne H. unfold Python.extractReturnInfo in H.
  rewrite Hf in H. cbv [call] in H. unfold bind at 1 in H.
  destruct (map trim found) as [|r rs] eqn:Er.
  { destruct found; [now elim Hne|discriminate Er]. }
  rewrite <- Er in *. clear Er r rs.
  apply bind_normal in H as (allFields & s1 & L & H).
  destruct (returnLoop_fields E st _ _ _ _ L (NoDup_nil _)) as (-> & Hn & Hi).
  cbv [ret] in H. injection H as <- <-.
  split; [reflexivity|]. eexists. exists allFields.
  split; [reflexivity|]. split; [reflexivity|]. split; [exact Hn|].
  split; [|reflexivity].
  intros f. rewrite Hi. split; [intros [[]|H]; exact H|now right].
Qed.

Lemma extractReturnInfo_fields_witness :
  exists m,
    Python.extractReturnInfo Samples.twoReturnsEngine Samples.twoReturnsSource
      (Some emptyMetadata) newInst = Normal (Some m) newInst /\
    mOutputFields m = Some ["total"; "ok"] /\
    NoDup ["total"; "ok"] /\
    mReturnExpression m = Some "Result(ok=False)".
Proof.
  eexists. split; [vm_compute; reflexivity|]. split; [reflexivity|].
  destruct (extractReturnInfo_fields Samples.twoReturnsEngine
              Samples.twoReturnsSource (Some emptyMetadata)
              ["Result(total=t, ok=True)"; "Result(ok=False)"]
              newInst _ newInst eq_refl ltac:(discriminate)
              ltac:(vm_compute; reflexivity))
    as (_ & m & fields & Em & Ef & Hn & _ & Hr).
  injection Em as <-. cbn in Ef. injection Ef as <-.
  split; [exact Hn|reflexivity].
Defined.

End ReturnFieldFacts.

(** ** The views of the registry *)

Module RegistryViews.

Import Js Model Registry.

(** For every path, the four views of the registry agree: [canParse]
    answers true exactly when the path ends with one of the extensions
    [getSupportedExtensions] lists, exactly when [getParser] finds an
    extractor, and exactly when [getLanguage] names a language. *)
Theorem registry_views_agree (filePath : string) :
  canParse filePath = existsb (endsWith filePath) getSupportedExtensions /\
  (getParser filePath = None <-> canParse filePath = false) /\
  (getLanguage filePath = None <-> canParse filePath = false).
Proof.
  unfold canParse, getParser, getLanguage, getSupportedExtensions, parsers.
  cbn [existsb find canParseOf].
  unfold CSharp.canParse, Python.canParse, JavaScript.canParse.
  destruct (endsWith filePath ".cs"), (endsWith filePath ".py"),
    (endsWith filePath ".js"), (endsWith filePath ".ts"),
    (endsWith filePath ".mjs"), (endsWith filePath ".mts");
    cbn; repeat split; intros H; solve [reflexivity | discriminate H].
Qed.

End RegistryViews.

(** ** The ranges of the workflows of a file *)

Module RangeFacts.

Import Js Model Effects Spec EffectFacts.

Open Scope js_scope.

Lemma workflowRanges_spec (E : Python.Engine) (sourceCode : string)
    (allMatches : list (string * nat)) :
  forall (st : Inst) (ranges : list Python.WorkflowRange) (st' : Inst),
    Python.workflowRanges E sourceCode allMatches st = Normal ranges st' ->
    st' = st /\
    map (fun r => (Python.rName r, Python.rStartIndex r)) ranges = allMatches /\
    (forall r, In r ranges ->
       Python.rStartLine r = getLineNumber sourceCode (Python.rStartIndex r)) /\
    (forall i r r',
       nth_error ranges i = Some r -> nth_error ranges (S i) = Some r' ->
       Python.rEndIndex r = Python.rStartIndex r' - 1 /\
       Python.rEndLine r = Python.rStartLine r' - 1).
Proof.
  induction allMatches as [|[name startIndex] rest IH]; intros st ranges st' H.
  - cbv [Python.workflowRanges ret] in H. injection H as <- <-.
    split; [reflexivity|]. split; [reflexivity|].
    split; [intros r []|]. intros [|i] r r' H; discriminate H.
  - cbn [Python.workflowRanges] in H.
    destruct rest as [|[name' nextStart] rest'].
    + apply bind_normal in H as (am & s1 & H1 & H).
      assert (s1 = st).
      { unfold call in H1. destruct (Python.activityDecorator E _);
          [discriminate|now injection H1]. }
      subst s1.
      assert (G : exists r0, ranges = [r0] /\ st' = st /\
                  Python.rName r0 = name /\
                  Python.rStartIndex r0 = startIndex /\
                  Python.rStartLine r0 = getLineNumber sourceCode startIndex).
      { destruct am as [index|]; cbv [ret] in H; injection H as <- <-;
          eexists; repeat split. }
      destruct G as (r0 & -> & -> & Hn & Hs & Hl).
      split; [reflexivity|]. split; [cbn; now rewrite Hn, Hs|].
      split; [intros r [<-|[]]; now rewrite Hs|].
      intros [|i] r r' H0 H1'; [discriminate H1'|].
      destruct i; discriminate H1'.
    + apply bind_normal in H as (rs & s1 & H1 & H).
      destruct (IH st rs s1 H1) as (-> & Im & Il & Ic).
      cbv [ret] in H. injection H as <- <-.
      split; [reflexivity|]. split; [cbn [map Python.rName Python.rStartIndex]; now rewrite Im|].
      split.
      * intros r [<-|Hr]; [reflexivity|now apply Il].
      * intros [|i] r r' H0 H1'.
        -- injection H0 as <-. cbn [nth_error] in H1'.
           destruct rs as [|r1 rs']; [discriminate Im|].
           injection H1' as <-. cbn in Im. injection Im as _ Es _.
           cbn [Python.rEndIndex Python.rEndLine].
           rewrite (Il r1 (or_introl eq_refl)), Es. now split.
        -- cbn [nth_error] in H0, H1'. exact (Ic i r r' H0 H1').
Qed.

(** [findAllWorkflows] returns one range per match of the workflow
    pattern, in the order of the matches, with the name and the start of
    the match; the start line is the line of the start; every range but
    the last ends one character, and one line, before the next one
    starts; and the instance is left alone. *)
Theorem findAllWorkflows_ranges (E : Python.Engine) (sourceCode : string)
    (allMatches : list (string * nat)) (st : Inst)
    (ranges : list Python.WorkflowRange) (st' : Inst) :
  Python.workflowPattern E sourceCode = inr allMatches ->
  Python.findAllWorkflows E sourceCode st = Normal ranges st' ->
  st' = st /\
  map (fun r => (Python.rName r, Python.rStartIndex r)) ranges = allMatches /\
  (forall r, In r ranges ->
     Python.rStartLine r = getLineNumber sourceCode (Python.rStartIndex r)) /\
  (forall i r r',
     nth_error ranges i = Some r -> nth_error ranges (S i) = Some r' ->
     Python.rEndIndex r = Python.rStartIndex r' - 1 /\
     Python.rEndLine r = Python.rStartLine r' - 1).
Proof.
  intros Hm H. unfold Python.findAllWorkflows in H. rewrite Hm in H.
  cbv [call bind] in H. exact (workflowRanges_spec E sourceCode _ _ _ _ H).
Qed.

Lemma findAllWorkflows_ranges_witness :
  Python.findAllWorkflows Samples.twoWorkflowsEngine
                          Samples.twoWorkflowsSource newInst =
  Normal [Python.mkRange "first" 1 3 0 37; Python.mkRange "second" 4 6 38 76]
         newInst /\
  Python.rEndIndex (Python.mkRange "first" 1 3 0 37) =
  Python.rStartIndex (Python.mkRange "second" 4 6 38 76) - 1.
Proof.
  split; [vm_compute; reflexivity|].
  apply (proj2 (proj2 (proj2
           (findAllWorkflows_ranges Samples.twoWorkflowsEngine
              Samples.twoWorkflowsSource [("first", 0); ("second", 38)]
              newInst
              [Python.mkRange "first" 1 3 0 37;
               Python.mkRange "second" 4 6 38 76]
              newInst eq_refl ltac:(vm_compute; reflexivity))))
           0 _ _ eq_refl eq_refl).
Defined.

End RangeFacts.

(** ** Every step is entered by a control edge *)

Module IncomingFacts.

Import Js Model Effects Assembler Spec Links.
Import AssemblerFacts GraphFacts LinkFacts ClosureFacts.

Lemma ids_insertByLine (x : WorkflowNode) (l : list WorkflowNode) (i : string) :
  In i (ids (insertByLine x l)) <-> i = nodeId x \/ In i (ids l).
Proof.
  unfold ids. rewrite !in_map_iff. split.
  - intros (y & <- & Hy). apply insertByLine_In in Hy as [->|Hy];
      [now left|right; now exists y].
  - intros [->|(y & <- & Hy)].
    + exists x. split; [reflexivity|]. apply insertByLine_In. now left.
    + exists y. split; [reflexivity|]. apply insertByLine_In. now right.
Qed.

Lemma insertByLine_NoDup (x : WorkflowNode) (l : list WorkflowNode) :
  NoDup (ids (x :: l)) -> NoDup (ids (insertByLine x l)).
Proof.
  induction l as [|y l IH]; intros H; [exact H|]. simpl.
  destruct (lineOf x <=? lineOf y); [exact H|].
  cbn [ids map] in *. inversion H as [|? ? Hx Hr]; subst.
  inversion Hr as [|? ? Hy Hl]; subst. constructor.
  - fold (ids (insertByLine x l)). rewrite ids_insertByLine.
    intros [E|Hi]; [|exact (Hy Hi)]. apply Hx. left. now symmetry.
  - apply IH. constructor; [|exact Hl]. intros Hi. apply Hx. now right.
Qed.

Lemma sortByLine_NoDup (l : list WorkflowNode) :
  NoDup (ids l) -> NoDup (ids (sortByLine l)).
Proof.
  induction l as [|x l IH]; intros H; [constructor|].
  change (sortByLine (x :: l)) with (insertByLine x (sortByLine l)).
  apply insertByLine_NoDup.
  change (ids (x :: l)) with (nodeId x :: ids l) in H.
  change (ids (x :: sortByLine l)) with (nodeId x :: ids (sortByLine l)).
  inversion H as [|? ? Hx Hl]; subst. constructor; [|now apply IH].
  intros Hi. apply Hx. unfold ids in Hi.
  apply in_map_iff in Hi as (y & E & Hy).
  apply (proj1 (sortByLine_In _ _)) in Hy. rewrite <- E.
  unfold ids. now apply in_map.
Qed.

Lemma same_id_same_node (l : list WorkflowNode) (a b : WorkflowNode) :
  NoDup (ids l) -> In a l -> In b l -> nodeId a = nodeId b -> a = b.
Proof.
  induction l as [|x l IH]; intros H Ha Hb E; [destruct Ha|].
  cbn [ids map] in H. inversion H as [|? ? Hx Hl]; subst.
  destruct Ha as [->|Ha], Hb as [->|Hb]; auto.
  - elim Hx. rewrite E. now apply in_map.
  - elim Hx. rewrite <- E. now apply in_map.
Qed.

Section Graph.

Variable steps : list WorkflowNode.
Variable g : JsMap.
Hypothesis WF : WellFormed steps g.
Hypothesis ND : NoDup (ids (addStartEndNodes steps)).

Let nodes := addStartEndNodes steps.
Let S := sortByLine nodes.

Let S_NoDup : NoDup (ids S).
Proof. apply sortByLine_NoDup. exact ND. Qed.

Let Visited := Links.Visited g S.

Lemma Entered_more (es more : list WorkflowEdge) (n : WorkflowNode) :
  Entered es n -> Entered (es ++ more) n.
Proof.
  intros (e & He & H). exists e. split; [apply in_or_app; now left|exact H].
Qed.

Lemma step_types (n : WorkflowNode) :
  In n steps -> nodeType n <> TStart /\ nodeType n <> TEnd.
Proof.
  intros H. assert (Sy := shape_not_synthetic n (step_shape steps g WF n H)).
  unfold isSynthetic in Sy. apply orb_false_elim in Sy as [S1 S2].
  split; intros X; apply nodeTypeEqb_eq in X; congruence.
Qed.

(** The node a group map entry resolves to is a join of the list. *)
Lemma join_found (k j : string) (jn : WorkflowNode) :
  mapGet g k = Some j -> findById S j = Some jn ->
  In jn S /\ nodeType jn = TParallel.
Proof.
  intros Hj Hf. apply findById_Some in Hf as [Hin Hid].
  split; [exact Hin|].
  destruct (wf_values _ _ WF _ _ Hj) as (b & Hb & Hidb & Tb).
  assert (Hbs : In b S) by (apply sorted_In; auto).
  rewrite (same_id_same_node S jn b S_NoDup Hin Hbs); [exact Tb|congruence].
Qed.

(** A node that is not a join is not among the join identifiers. *)
Lemma plain_not_join (n : WorkflowNode) :
  In n S -> nodeType n <> TParallel -> memb (nodeId n) (joinNodeIds S) = false.
Proof.
  intros Hn Ty. destruct (memb (nodeId n) (joinNodeIds S)) eqn:M; [|reflexivity].
  apply memb_In in M. unfold joinNodeIds in M.
  apply in_map_iff in M as (m & E & Hm). apply filter_In in Hm as [Hm J].
  rewrite (same_id_same_node S n m S_NoDup Hn Hm (eq_sym E)) in Ty.
  unfold isJoin in J. apply andb_prop in J as [J _].
  apply nodeTypeEqb_eq in J. contradiction.
Qed.

Lemma sequentialEdge_enters (l n : WorkflowNode) :
  nodeId l <> nodeId n ->
  Entered (sequentialEdge (Some l) n) n.
Proof.
  intros H. unfold sequentialEdge.
  apply String.eqb_neq in H. rewrite H.
  eexists. split; [now left|]. split; reflexivity.
Qed.

Lemma visit_visited (pre post : list WorkflowNode) (n : WorkflowNode)
    (w : Walk) :
  S = pre ++ n :: post -> Visited pre w ->
  Visited (pre ++ [n]) (visit g S w n).
Proof.
  intros ES [VC VE VG VD].
  assert (Hn : In n S) by (rewrite ES; apply in_or_app; right; now left).
  assert (Hpre : forall m, In m pre -> In m S).
  { intros m Hm. rewrite ES. apply in_or_app. now left. }
  assert (Fresh : forall l, In l pre -> nodeId l <> nodeId n).
  { intros l Hl E. assert (N := S_NoDup). rewrite ES in N.
    unfold ids in N. rewrite map_app in N. cbn [map] in N.
    apply NoDup_remove_2 in N. apply N. apply in_or_app. left.
    rewrite <- E. now apply in_map. }
  assert (First : nodeType n <> TStart -> pre <> []).
  { intros Ty ->. destruct (sorted_start steps) as [rest ER].
    fold nodes in ER. fold S in ER. rewrite ER in ES. cbn in ES.
    injection ES as <- _. now elim Ty. }
  assert (Cursor : nodeType n <> TStart ->
                   exists l, lastSequentialNode w = Some l /\ In l S /\
                             nodeType l <> TEnd /\
                             (In l pre \/ nodeType l = TParallel)).
  { intros Ty. exact (VC (First Ty)). }
  assert (Apart : nodeType n <> TParallel ->
                  forall l, In l S -> In l pre \/ nodeType l = TParallel ->
                            nodeId l <> nodeId n).
  { intros Ty l Hl [Hp|Tl]; [now apply Fresh|].
    intros E. rewrite (same_id_same_node S l n S_NoDup Hl Hn E) in Tl.
    contradiction. }
  assert (Keep : forall es l',
            (exists l, l' = Some l /\ In l S /\ nodeType l <> TEnd /\
                       (In l (pre ++ [n]) \/ nodeType l = TParallel)) ->
            (Plain n -> Entered (walkEdges w ++ es) n) ->
            mapGet g (nodeId n) = None ->
            Visited (pre ++ [n])
                    (mkWalk (walkEdges w ++ es) l' (processedParallelGroups w))).
  { intros es l' Hl He Hg. split; cbn.
    - intros _. exact Hl.
    - intros m Hm Pm. apply in_app_or in Hm as [Hm|[<-|[]]].
      + apply Entered_more. now apply VE.
      + now apply He.
    - intros j p Hj Hp. apply Entered_more. exact (VG j p Hj Hp).
    - intros m j Hm Hj. apply in_app_or in Hm as [Hm|[<-|[]]].
      + exact (VD m j Hm Hj).
      + rewrite Hg in Hj. discriminate. }
  assert (Old : forall l, In l pre \/ nodeType l = TParallel ->
                          In l (pre ++ [n]) \/ nodeType l = TParallel).
  { intros l [H|H]; [left; apply in_or_app; now left|now right]. }
  destruct (visit_cases g S (wf_present steps g WF) n w Hn)
    as [(j & jn & Hj & Hp & Hf)|[(j & Hj & Hp)|Hg]].
  - (* the first node of a group *)
    rewrite (visit_member_new g S (wf_members steps g WF) n j w jn Hn Hj Hp Hf).
    destruct (wf_members steps g WF n j Hn Hj) as (_ & T1 & T2 & _).
    destruct (Cursor T1) as (l & El & Hl & Tl & Hw).
    destruct (join_found _ _ _ Hj Hf) as [Hjn Tjn].
    assert (Out : forall p, In p (groupOf g S j) ->
                    Entered (walkEdges w ++
                             fanOut (lastSequentialNode w) (groupOf g S j) ++
                             fanIn (groupOf g S j) jn) p).
    { intros p Hpg. exists (controlEdge l p EParallel).
      split; [|split; reflexivity].
      apply in_or_app. right. apply in_or_app. left.
      rewrite El. unfold fanOut.
      exact (in_map (fun pNode => controlEdge l pNode EParallel) _ _ Hpg). }
    split; cbn.
    + intros _. exists jn. split; [reflexivity|]. split; [exact Hjn|].
      split; [congruence|now right].
    + intros m Hm Pm. apply in_app_or in Hm as [Hm|[<-|[]]].
      * apply Entered_more. now apply VE.
      * apply Out. apply groupOf_In. now split.
    + intros j' p [<-|Hj'] Hpg; [now apply Out|].
      apply Entered_more. exact (VG j' p Hj' Hpg).
    + intros m j' Hm Hj'. apply in_app_or in Hm as [Hm|[<-|[]]].
      * right. exact (VD m j' Hm Hj').
      * left. congruence.
  - (* a later node of a group *)
    rewrite (visit_member_old g S (wf_members steps g WF) n j w Hn Hj Hp).
    destruct (wf_members steps g WF n j Hn Hj) as (_ & T1 & T2 & _).
    apply memb_In in Hp. split.
    + intros _. destruct (Cursor T1) as (l & El & Hl & Tl & Hw).
      exists l. split; [exact El|]. split; [exact Hl|].
      split; [exact Tl|now apply Old].
    + intros m Hm Pm. apply in_app_or in Hm as [Hm|[<-|[]]]; [now apply VE|].
      apply (VG j n Hp). apply groupOf_In. now split.
    + exact VG.
    + intros m j' Hm Hj'. apply in_app_or in Hm as [Hm|[<-|[]]].
      * exact (VD m j' Hm Hj').
      * congruence.
  - (* a node without an entry in the group map *)
    unfold visit.
    destruct (nodeTypeEqb (nodeType n) TStart) eqn:T1.
    { apply nodeTypeEqb_eq in T1.
      rewrite (walk_eta {| walkEdges := walkEdges w;
                           lastSequentialNode := Some n;
                           processedParallelGroups := processedParallelGroups w |}).
      cbn [walkEdges lastSequentialNode processedParallelGroups].
      apply Keep; [|intros [X _]; contradiction|exact Hg].
      exists n. split; [reflexivity|]. split; [exact Hn|].
      split; [congruence|]. left. apply in_or_app. right. now left. }
    assert (N1 : nodeType n <> TStart).
    { intros X. apply nodeTypeEqb_eq in X. congruence. }
    destruct (Cursor N1) as (l & El & Hl & Tl & Hw).
    destruct (nodeTypeEqb (nodeType n) TEnd) eqn:T2.
    { apply nodeTypeEqb_eq in T2. rewrite (walk_eta w).
      apply Keep; [|intros (_ & _ & X); contradiction|exact Hg].
      exists l. split; [exact El|]. split; [exact Hl|].
      split; [exact Tl|now apply Old]. }
    assert (N2 : nodeType n <> TEnd).
    { intros X. apply nodeTypeEqb_eq in X. congruence. }
    rewrite Hg. cbn [truthy negb].
    assert (Seq : Visited (pre ++ [n])
                    (mkWalk (walkEdges w ++
                             sequentialEdge (lastSequentialNode w) n)
                            (Some n) (processedParallelGroups w))).
    { apply Keep; [| |exact Hg].
      - exists n. split; [reflexivity|]. split; [exact Hn|].
        split; [exact N2|]. left. apply in_or_app. right. now left.
      - intros (_ & Tp & _). rewrite El.
        destruct (sequentialEdge_enters l n (Apart Tp l Hl Hw))
          as (e & He & H).
        exists e. split; [apply in_or_app; now right|exact H]. }
    destruct (memb (nodeId n) (parallelTaskNodeIds S)); [exact Seq|].
    destruct (memb (nodeId n) (joinNodeIds S)) eqn:MJ; [|exact Seq].
    assert (Tp : nodeType n = TParallel).
    { destruct (nodeTypeEqb (nodeType n) TParallel) eqn:X;
        [now apply nodeTypeEqb_eq|].
      rewrite plain_not_join in MJ; [discriminate|exact Hn|].
      intros Y. apply nodeTypeEqb_eq in Y. congruence. }
    rewrite El.
    destruct (String.eqb (nodeId l) (nodeId n)).
    + rewrite (walk_eta w).
      apply Keep; [|intros (_ & X & _); contradiction|exact Hg].
      exists l. split; [exact El|]. split; [exact Hl|].
      split; [exact Tl|now apply Old].
    + rewrite (walk_eta {| walkEdges := walkEdges w;
                           lastSequentialNode := Some n;
                           processedParallelGroups := processedParallelGroups w |}).
      cbn [walkEdges lastSequentialNode processedParallelGroups].
      apply Keep; [|intros (_ & X & _); contradiction|exact Hg].
      exists n. split; [reflexivity|]. split; [exact Hn|].
      split; [exact N2|now right].
Qed.

Lemma walk_visited (rest : list WorkflowNode) :
  forall pre w, S = pre ++ rest -> Visited pre w ->
                Visited (pre ++ rest) (walk g S w rest).
Proof.
  induction rest as [|n rest IH]; intros pre w ES V.
  - now rewrite app_nil_r.
  - cbn [walk fold_left].
    replace (pre ++ n :: rest) with ((pre ++ [n]) ++ rest)
      by (rewrite <- app_assoc; reflexivity).
    apply IH; [rewrite <- app_assoc; exact ES|].
    exact (visit_visited pre rest n w ES V).
Qed.

(** Every node of the graph but the start node and the joins is the
    target of a control edge. *)
Lemma graph_entered (n : WorkflowNode) :
  In n nodes -> nodeType n <> TStart -> nodeType n <> TParallel ->
  exists e, In e (buildEdgesWithDataFlow g nodes) /\
            isControl e = true /\ edgeTarget e = nodeId n.
Proof.
  intros Hn T1 T2.
  assert (V : Visited S (walk g S (mkWalk [] None []) S)).
  { apply (walk_visited S [] (mkWalk [] None []) eq_refl).
    split; cbn; try (intros; contradiction). }
  assert (HS : In n S) by (apply sortByLine_In; exact Hn).
  unfold buildEdgesWithDataFlow, buildControlFlowEdges. fold S.
  destruct (nodeTypeEqb (nodeType n) TEnd) eqn:T3.
  - apply nodeTypeEqb_eq in T3.
    assert (n = endNode).
    { apply sorted_In in HS as [->|[HS| ->]]; [discriminate T3| |reflexivity].
      elim (proj2 (step_types n HS)). exact T3. }
    subst n.
    destruct (vs_cursor _ _ _ _ V) as (l & El & Hl & Tl & _).
    { intros X. rewrite X in HS. destruct HS. }
    rewrite El. unfold endEdge.
    destruct (find (fun m => nodeTypeEqb (nodeType m) TEnd) S) as [en|] eqn:F.
    2:{ eapply find_none in F; [|exact HS]. discriminate F. }
    apply find_some in F as [F1 F2]. apply nodeTypeEqb_eq in F2.
    assert (en = endNode).
    { apply sorted_In in F1 as [->|[F1| ->]]; [discriminate F2| |reflexivity].
      elim (proj2 (step_types en F1)). exact F2. }
    subst en.
    assert (Ne : nodeId l <> nodeId endNode).
    { intros E. rewrite (same_id_same_node S l endNode S_NoDup Hl HS E) in Tl.
      now elim Tl. }
    apply String.eqb_neq in Ne. rewrite Ne.
    exists (controlEdge l endNode EDefault). split; [|split; reflexivity].
    apply in_or_app. left. apply in_or_app. right. now left.
  - assert (N3 : nodeType n <> TEnd).
    { intros X. apply nodeTypeEqb_eq in X. congruence. }
    destruct (vs_entered _ _ _ _ V n HS (conj T1 (conj T2 N3))) as (e & He & H).
    exists e. split; [|exact H].
    apply in_or_app. left. apply in_or_app. now left.
Qed.

End Graph.

(** In every graph [parse] returns, every node but the start node and
    the join nodes is the target of a control edge: no step, and not
    the end node, is left without a way in. *)
Theorem parsed_steps_are_entered (E : Python.Engine)
    (sourceCode filePath : string) (target : option string) (st : Inst)
    (w : WorkflowDefinition) (n : WorkflowNode) :
  workflow (fst (Python.parse E sourceCode filePath target st)) = Some w ->
  In n (wNodes w) -> nodeType n <> TStart -> nodeType n <> TParallel ->
  exists e, In e (wEdges w) /\ isControl e = true /\
            edgeTarget e = nodeId n.
Proof.
  intros H Hn T1 T2.
  destruct (parse_linked E sourceCode filePath target st w H)
    as (steps & EN & EE & WF & _ & a & c & t & e & d & r & j & I).
  rewrite EE. rewrite EN in Hn.
  apply (graph_entered steps _ WF); try assumption.
  rewrite ids_addStartEndNodes, I. constructor.
  - intros X. apply in_app_or in X as [X|[X|[]]]; [|discriminate X].
    exact (stepIds_not a c t e d r j "start" (or_introl eq_refl) X).
  - apply NoDup_app; [apply stepIds_NoDup|repeat constructor; intros []|].
    intros x Hx [<-|[]].
    exact (stepIds_not a c t e d r j "end" (or_intror eq_refl) Hx).
Qed.

Lemma parsed_steps_are_entered_witness :
  exists w n,
    workflow (fst (Python.parse Samples.selfEngine Samples.selfSource
                                "a.py" None newInst)) = Some w /\
    In n (wNodes w) /\ nodeId n = "activity-0" /\
    exists e, In e (wEdges w) /\ isControl e = true /\
              edgeTarget e = nodeId n.
Proof.
  eexists. eexists. split; [vm_compute; reflexivity|].
  split; [right; left; reflexivity|]. split; [reflexivity|].
  eapply (parsed_steps_are_entered Samples.selfEngine Samples.selfSource
                                   "a.py" None newInst).
  - vm_compute. reflexivity.
  - right. left. reflexivity.
  - discriminate.
  - discriminate.
Defined.

End IncomingFacts.

(** ** The data-flow summary of a successful parse *)

Module DataFlowFacts.

Import Js Model Effects Assembler Spec Links.
Import EffectFacts ParseFacts AssemblerFacts GraphFacts LinkFacts ClosureFacts.

Open Scope js_scope.

(** The summary [parse] attaches to the workflow it returns. *)
Lemma parse_dataflow (E : Python.Engine) (sourceCode filePath : string)
    (target : option string) (st st' : Inst) (w : WorkflowDefinition) :
  Python.parse E sourceCode filePath target st =
    (mkResult true (Some w) None, st') ->
  exists df,
    wDataFlow w = Some df /\
    dfActivities df = flat_map Python.activityDataFlow (wNodes w) /\
    dfOutputVariableMap df = outputVariableMap st'.
Proof.
  unfold Python.parse, tryCatch.
  destruct (Python.parseBody E sourceCode filePath target st)
    as [w0 st1|e st1] eqn:B; [|discriminate].
  intros H. injection H as <- <-.
  unfold Python.parseBody in B.
  apply bind_normal in B as (u & s1 & _ & B).
  apply bind_normal in B as (all & s2 & _ & B).
  apply bind_normal in B as (scope & s3 & _ & B).
  destruct scope as [[scoped lineOffset] workflowName].
  apply bind_normal in B as (md0 & s4 & _ & B).
  apply bind_normal in B as (u2 & s5 & _ & B).
  apply bind_normal in B as (md1 & s6 & _ & B).
  apply bind_normal in B as (steps & s7 & _ & B).
  cbv [Python.buildDataFlowMetadata bind this ret] in B.
  injection B as <- <-.
  eexists. split; [reflexivity|]. split; reflexivity.
Qed.

Lemma activityDataFlow_In (nodes : list WorkflowNode) (ad : ActivityDataFlow) :
  In ad (flat_map Python.activityDataFlow nodes) ->
  exists n, In n nodes /\ adNodeId ad = nodeId n /\
            (adType ad = TActivity \/ adType ad = TSubOrchestration \/
             adType ad = TEvent) /\
            adInputs ad =
              match nodeDataSources n with Some l => l | None => [] end.
Proof.
  intros H. apply in_flat_map in H as (n & Hn & Ha).
  exists n. split; [exact Hn|]. unfold Python.activityDataFlow in Ha.
  destruct (nodeType n) eqn:Ty; simpl in Ha; try contradiction;
    destruct Ha as [<-|[]]; cbn; rewrite ?Ty; auto 6.
Qed.

(** In every workflow [parse] returns, the data-flow summary names only
    nodes of the graph: every producer in its map of output variables,
    every activity it lists, which is a node of kind activity, child
    workflow or event, and every producer named by an input of such an
    activity. *)
Theorem parsed_dataflow_names_nodes (E : Python.Engine)
    (sourceCode filePath : string) (target : option string) (st : Inst)
    (w : WorkflowDefinition) :
  workflow (fst (Python.parse E sourceCode filePath target st)) = Some w ->
  exists df,
    wDataFlow w = Some df /\
    incl (values (dfOutputVariableMap df)) (ids (wNodes w)) /\
    forall ad, In ad (dfActivities df) ->
      In (adNodeId ad) (ids (wNodes w)) /\
      (adType ad = TActivity \/ adType ad = TSubOrchestration \/
       adType ad = TEvent) /\
      forall s id, In s (adInputs ad) -> sourceActivityId s = Some id ->
                   In id (ids (wNodes w)).
Proof.
  intros H.
  destruct (parse_linked E sourceCode filePath target st w H)
    as (steps & EN & _ & WF & [LM LS] & _).
  apply parse_returns in H.
  destruct (parse_dataflow E sourceCode filePath target st _ w H)
    as (df & Ed & Ea & Em).
  exists df. split; [exact Ed|].
  assert (Sub : incl (ids steps) (ids (wNodes w))).
  { intros x Hx. rewrite EN, ids_addStartEndNodes. right.
    apply in_or_app. now left. }
  split.
  - rewrite Em. intros x Hx. apply Sub. now apply LM.
  - intros ad Had. rewrite Ea in Had.
    apply activityDataFlow_In in Had as (n & Hn & Hid & Hty & Hin).
    split; [rewrite Hid; unfold ids; now apply in_map|].
    split; [exact Hty|].
    intros s id Hs Hi. rewrite Hin in Hs.
    destruct (nodeDataSources n) as [l|] eqn:El; [|destruct Hs].
    assert (Hstep : In n steps).
    { rewrite EN in Hn. unfold addStartEndNodes in Hn.
      destruct Hn as [<-|Hn]; [discriminate El|].
      apply in_app_or in Hn as [Hn|[<-|[]]]; [exact Hn|discriminate El]. }
    apply Sub. apply (LS n Hstep). unfold producersOf. rewrite El.
    apply in_flat_map. exists s. split; [exact Hs|]. rewrite Hi. now left.
Qed.

Lemma parsed_dataflow_names_nodes_witness :
  exists w df,
    workflow (fst (Python.parse Samples.selfEngine Samples.selfSource
                                "a.py" None newInst)) = Some w /\
    wDataFlow w = Some df /\
    dfOutputVariableMap df = [("x", "activity-0")] /\
    incl (values (dfOutputVariableMap df)) (ids (wNodes w)).
Proof.
  eexists.
  destruct (parsed_dataflow_names_nodes Samples.selfEngine Samples.selfSource
              "a.py" None newInst _ ltac:(vm_compute; reflexivity))
    as (df & Ed & Hv & _).
  exists df. split; [vm_compute; reflexivity|]. split; [exact Ed|].
  split; [|exact Hv].
  cbn in Ed. injection Ed as <-. reflexivity.
Defined.

End DataFlowFacts.
